(* ===== verification/_CoqProject ===== *)
-Q . S2P
Prelude.v
GoStd.v
Errors.v
Heap.v
Regex.v
Kube.v
Api.v
DeepCopy.v
World.v
ReconcilerUtils.v
Examples.v
Webhook.v
Metadata.v
Expectation.v
Cache.v
Conf.v
Dependence.v
NodeManager.v
PodOrder.v
Phase.v
Pod.v
PodGroup.v
Job.v
Controller.v
PodSlices.v
PodCreate.v
PhaseCount.v
PodGroupSync.v
JobSync.v
Reconcile.v
Publish.v
Finish.v
Events.v
Service.v
RolePhase.v
PodReconcile.v
Converge.v
FailedReason.v
JobPhase.v
FrameworkBase.v
SimpleFrameworks.v
Bagua.v
Dask.v
Tensorflow.v
Factory.v
Defaulting.v
Ranks.v
DefaultPolicy.v
Startup.v
JobProgress.v
RolePods.v
Request.v
Succeed.v
Complete.v
Launch.v
Collapse.v
JobConverge.v
Shares.v
Endpoints.v
Observer.v
PodControl.v
Boot.v
Setup.v
SetupProofs.v
Commands.v
Serve.v
