(* ===== verification/Prelude.v ===== *)
(** * A verification library for the Ares operator

    The Ares operator ([src/]) is a Kubernetes controller.  A user creates an
    AresJob, a training job of several roles (a master and workers, say), each
    with a number of replicas; the operator completes and validates it, creates
    the pods and services of its roles, restarts or replaces pods, derives the
    phase of each role and of the job, tells waiting pods when the roles they
    depend on are there, and cleans up.

    ** The program and its model

    A reconcile request ([controllers/aresjob_controller.go], [Reconcile])
    reads a job and: finalises it when it is being deleted; has it defaulted by
    its framework and by the webhook, and writes it back when that changed it;
    has it validated by both, and marks it invalid when it is rejected; waits
    for its expectations; asks its pod group whether it is scheduled or
    evicted; lets the framework reconcile it, which through kubeflow's job
    controller calls back [ReconcilePods] and [ReconcileServices] for each role
    and [UpdateJobStatus]; synchronises metadata; publishes role phases in the
    role cache; and schedules the clean-up of a finished job.  The events of
    pods, services, pod groups and nodes feed expectations, node manager and
    work queue.  Waiting pods ask the observer, a second process, for the role
    cache of their job.

    The code calls Kubernetes, kubeflow and volcano; these are not part of the
    repository.  Their data are the records of Kube, their functions the
    parameters gathered in classes ([Kubeflow], [Selectors], [ApiServer],
    [ControllerUtil], [Templates], [JobController], [ControlLibrary], ...),
    with the documented behaviour that a theorem relies on as a hypothesis or a
    class of laws; Examples has concrete instances, at which the witnesses
    evaluate the theorems.

    Conventions:
    - a call returns [res E A]: [Done] a value, [Fail] with a Go error, or
      [Crash] with a run-time panic (nil dereference, index out of range, write
      to a nil map, ...).  [go A] has the errors of Errors;
    - a pointer is an [option] of what it points to, except in Heap, DeepCopy,
      Setup and Commands, where it is an [option] of a location and the structs
      in memory have names that end in [S]; a map that may be nil an [option] of a [gmap]
      ([gomap], whose lookup [m !? k] reads a nil map as empty); machine
      integers are [Z] with [wrap32] and [wrap64] written where the code adds;
    - ranging over a map visits it in an unknown order: [range n m] is some
      enumeration of [m] given by the class [MapOrder], which the theorems
      quantify over, and [n] tells several loops over the same map apart;
    - [op A] is a computation on a [world]: the job being reconciled, which the
      code shares and mutates, and the log of the requests, expectations and
      events so far; [ApiServer] answers each request from the log before it.
      [cop C A] adds a role cache of any type [C] with the class [Interface],
      and the clean-up queue.  Reads of the cluster are arguments ([Reads]).

    ** Files

    Foundations: this file (outcomes, effects, record update, map order,
    integers and their lemmas), GoStd ([strings], [strconv]), Errors
    ([reconciler/errors.go]), Regex ([utils/validation.go]), Kube (Kubernetes
    data), World (effects), Heap (memory, for the parts where sharing matters),
    Boot (the calls of a start-up), Examples (witness data).

    Data and their operations: Api ([api/v1/*.go], [metadata/*.go]), DeepCopy
    ([api/v1/zz_generated.deepcopy.go]), Webhook
    ([api/v1/aresjob_webhook.go]), Conf ([conf/type.go]), Cache ([cache/]),
    ReconcilerUtils ([reconciler/utils.go]), Metadata ([reconciler/metadata.go]),
    Expectation ([reconciler/expectation.go]), NodeManager
    ([reconciler/node/manager.go]).

    The reconciler: Phase ([reconciler/phase.go]), Pod ([reconciler/pod.go],
    [reconciler/reconciler.go]), PodControl ([reconciler/control/pod.go]),
    Service ([reconciler/service.go]), Dependence ([reconciler/dependence.go],
    [reconciler/cache.go]), PodGroup ([reconciler/podgroup.go]), Job
    ([reconciler/job.go]).

    The controller: Controller ([controllers/aresjob_controller.go],
    [controllers/job.go]), Events ([controllers/event_handler.go],
    [controllers/index.go]), Setup (the set-up of
    [controllers/aresjob_controller.go] and the copies of
    [reconciler/reconciler.go]).

    The frameworks: FrameworkBase (what they share, [frameworks/common]), then
    SimpleFrameworks (standalone, custom, demo, mpi, pytorch), Bagua, Dask and
    Tensorflow, one Module per framework of [frameworks/], and Factory
    ([frameworks/factory.go] and the controller's [setupFrameworks]).

    The observer: Observer ([observer/], with [handler] and [server]).

    The processes: Commands ([cmd/], and the set-up of [observer/observer.go]),
    Serve (the goroutines of [cmd/observer/cmd.go]).

    The remaining files hold the theorems about these definitions.  A
    definition has the name of the Go function or type it models; one whose
    name the file explains otherwise is a loop body or a branch of it.

    ** Interfaces

    [Interface] and [InterfaceLaws] (Cache): an open role cache is a finite map
    from jobs and roles to entries; the controller's theorems are proved
    against the laws, the memory backend implements them.  [Controller] and
    [ControllerLaws] (Pod, PodCreate): what the reconciler asks of a framework;
    every registered framework satisfies the laws (Factory, [Factory_laws]).
    [Framework] (Controller): the methods the controller calls; Factory builds
    it from each framework's own [Methods].  [PodLister] (Events): listing by
    an index.  [Admission] (Converge): the pods the API server makes of
    templates.

    ** Theorems

    - Phases of roles (PhaseCount, RolePhase, FailedReason): every pod is
      counted once, in the class of its state; the phase of a role follows its
      policies from the counts; a role that has started does not go back; a
      failed role has a reason.
    - Phases of the job (JobPhase, DefaultPolicy): the phase follows the policy
      whatever the order of the roles; times, conditions and events are kept;
      the policies the frameworks fill in can be evaluated, but for jobs
      without the role that the policy of MPI or standalone assumes; one round
      (JobProgress, RolePods) takes the roles and the job through the rules of
      their phases together, and marks a job of which every pod has succeeded
      as succeeded (Succeed).
    - The life of a job, request by request (Request, Launch, Complete,
      Collapse): for a job that is admitted, the first request creates exactly
      its pods and makes it Starting; the one that finds them running reports
      it Running and publishes its roles to the pods that wait; the one that
      finds them succeeded takes it to its end, status sent and clean-up
      scheduled, as does the one that finds as many failed as its policies ask
      for.  These assume that what the framework calls of kubeflow is the loop
      that [reconcile_loop] of Request writes out, that requests are accepted,
      and that the job is not scheduled as a gang.
    - Start-up order (Startup): the dependences the frameworks fill in name
      roles of the job and are well-founded.
    - Pods of a role (PodSlices, PodOrder, PodCreate, PodReconcile, Converge,
      PodControl): what one round creates and deletes; the expectations it
      leaves, whatever the API server answers; the identity of the created
      pods; repeated rounds reach one pod per replica and stop, for one role
      (Converge) and for all roles of a job together (JobConverge).
    - Requests (Reconcile, PodGroupSync, JobSync, Finish): when the framework
      is entered, that invalid jobs are left alone, what deletion, eviction,
      gang scheduling and clean-up do.
    - Composition (Events, Publish, Observer, Service): an expectation is met
      by the pod it was raised for; indices find the pods; a node that goes
      down requeues its jobs; the observer agrees with the published cache;
      the addresses handed out are those of the pods.
    - Frameworks (Defaulting, Ranks, Shares, Endpoints): defaulting settles
      after one update; ranks, world sizes, ports and endpoints handed to the
      pods are consistent across the pods of a job.
    - Processes (SetupProofs, Commands, Serve): every framework gets a
      reconciler of its own that calls it back and shares the rest with the
      controller; a start-up is a plan of calls carried out up to the first
      that is refused, with the manager started last; the observer's server
      ends in every interleaving.
    - Memory (DeepCopy): a copy of a job shares nothing with the original.
    - Data (Webhook, Regex, Cache, NodeManager, Metadata): defaulting
      completes, validation accepts exactly the valid jobs, the role-name
      pattern is the DNS-1123 label, the node manager refines the set of
      unhealthy nodes, metadata patches synchronise.

    ** Fuel and bounds

    Only decimal printing runs on fuel: [digits] gives it the binary logarithm
    of the number, which is enough for all its decimal digits
    ([digits_spec]).  Everything else is structural.  [rounds] of Converge is
    indexed by the number of rounds, as is [job_pods_rounds] of JobConverge;
    [role_pods_converge] and [job_pods_converge] show how many are enough.  Counters are int32: theorems about them ask for fewer than
    2^31 pods; indices are int64.

    ** Not modelled

    The manager of controller-runtime, the clients of client-go, flags (pflag)
    and commands (cobra) are libraries: Setup and Commands model the calls made
    to them, and the constructors of library objects only by their arguments.
    The tag-and-print methods ([Json], [String] of the options), logging
    ([utils/log.go]), the fakes of [utils/fake], the registration of types with
    the scheme and the router of gin have no logic of their own.  YAML and JSON
    encodings, the execution of command templates and the expectation store
    are parameters.  Kubeflow's own reconcile loop is one too; the theorems
    that follow a whole request name what they rely on of it ([adm_loop] of
    Request).  Concurrency is modelled where
    the code shares state or uses channels: NodeManager, whose operations under
    its lock are atomic steps in any interleaving, and Serve; the workers of
    the controller never share a job, and each request is a sequential run.  *)

From stdpp Require Export prelude strings gmap list sorting.
From Stdlib Require Export ZArith Lia.

Open Scope Z_scope.

(** ** Scope and record update *)

Declare Scope ares_scope.
Delimit Scope ares_scope with ares.
Open Scope ares_scope.

(** [set_field] updates one field of a record.  A record with updated
    fields declares once how to rebuild a value from its projections, and
    [solve_setter] abstracts one of them. *)
Class Rebuild (R : Type) := rebuild : R → R.
Class Setter {R F : Type} (proj : R → F) := set_field : (F → F) → R → R.

Ltac solve_setter :=
  match goal with
  | |- @Setter ?R _ ?proj =>
      let f := fresh "f" in
      let r := fresh "r" in
      intros f r;
      let whole := eval hnf in (rebuild (R := R) r) in
      let abs := eval pattern (proj r) in whole in
      lazymatch abs with
      | ?h _ => let new := eval cbv beta in (h (f (proj r))) in exact new
      end
  end.

Notation "r <| proj ::= f |>" := (set_field (proj := proj) f r)
  (at level 12, left associativity, proj at level 0) : ares_scope.
Notation "r <| proj := v |>" := (set_field (proj := proj) (λ _, v) r)
  (at level 12, left associativity, proj at level 0) : ares_scope.

(** ** Outcomes of a Go call

    [Done a] is a normal return, [Fail e] a return with a non-nil error
    value and [Crash p] a run-time panic. *)

Inductive panic :=
| NilDereference
| IndexOutOfRange
| NilMapWrite
| DivideByZero
| TypeAssertion
| MakeSliceLen
| Panicked. (* by a library *)

#[export] Instance panic_eq_dec : EqDecision panic.
Proof. solve_decision. Defined.

Inductive res (E A : Type) :=
| Done (a : A)
| Fail (e : E)
| Crash (p : panic).
Arguments Done {E A} a.
Arguments Fail {E A} e.
Arguments Crash {E A} p.

#[export] Instance res_ret {E} : MRet (res E) := λ A a, Done a.
#[export] Instance res_bind {E} : MBind (res E) := λ A B f m,
  match m with
  | Done a => f a
  | Fail e => Fail e
  | Crash p => Crash p
  end.
#[export] Instance res_fmap {E} : FMap (res E) := λ A B f m, m ≫= (λ a, Done (f a)).

(** A pointer is an option; dereferencing nil panics. *)
Definition deref {E A : Type} (p : option A) : res E A :=
  match p with
  | Some a => Done a
  | None => Crash NilDereference
  end.

(** [l[i]] of a slice. *)
Definition slice_get {E A : Type} (l : list A) (i : Z) : res E A :=
  if decide (i < 0) then Crash IndexOutOfRange
  else match l !! Z.to_nat i with
       | Some a => Done a
       | None => Crash IndexOutOfRange
       end.

(** [l[lo:hi]] of a slice whose capacity is its length. *)
Definition slice_range {E A : Type} (l : list A) (lo hi : Z) : res E (list A) :=
  if decide (0 ≤ lo ≤ hi ∧ hi ≤ Z.of_nat (length l))
  then Done (take (Z.to_nat (hi - lo)) (drop (Z.to_nat lo) l))
  else Crash IndexOutOfRange.

(** The [for _, x := range l] loop with a loop-carried value. *)
Fixpoint fold_res {E A B : Type} (f : B → A → res E B) (b : B) (l : list A) : res E B :=
  match l with
  | [] => Done b
  | a :: l => b' ← f b a; fold_res f b' l
  end.

(** ** Stateful Go calls: a state, kept on every exit *)

Definition eff (S E A : Type) : Type := S → res E A * S.

#[export] Instance eff_ret {S E} : MRet (eff S E) := λ A a s, (Done a, s).
#[export] Instance eff_bind {S E} : MBind (eff S E) := λ A B f m s,
  match m s with
  | (Done a, s') => f a s'
  | (Fail e, s') => (Fail e, s')
  | (Crash p, s') => (Crash p, s')
  end.

Definition lift {S E A : Type} (r : res E A) : eff S E A := λ s, (r, s).
Definition gets {S E A : Type} (f : S → A) : eff S E A := λ s, (Done (f s), s).
Definition modify {S E : Type} (f : S → S) : eff S E unit := λ s, (Done tt, f s).
Definition throw {S E A : Type} (e : E) : eff S E A := λ s, (Fail e, s).

(** [attempt m] runs [m] and hands its error, if any, to the caller as a
    value: the [err :=] half of the Go idiom. *)
Definition attempt {S E A : Type} (m : eff S E A) : eff S E (E + A) := λ s,
  match m s with
  | (Done a, s') => (Done (inr a), s')
  | (Fail e, s') => (Done (inl e), s')
  | (Crash p, s') => (Crash p, s')
  end.

Fixpoint fold_eff {S E A B : Type} (f : B → A → eff S E B) (b : B) (l : list A) : eff S E B :=
  match l with
  | [] => mret b
  | a :: l => b' ← f b a; fold_eff f b' l
  end.

Definition for_each {S E A : Type} (l : list A) (f : A → eff S E unit) : eff S E unit :=
  fold_eff (λ _ a, f a) tt l.

(** ** Go maps that may be nil *)

Abbreviation gomap V := (option (gmap string V)).

(** Reading a nil map finds nothing. *)
Definition mlookup {V : Type} (m : gomap V) (k : string) : option V := m ≫= lookup k.
(** Writing a nil map panics. *)
Definition minsert {E V : Type} (m : gomap V) (k : string) (v : V) : res E (gomap V) :=
  match m with
  | Some m => Done (Some (<[k := v]> m))
  | None => Crash NilMapWrite
  end.
Arguments mlookup : simpl never.
Notation "m !? k" := (mlookup m k) (at level 20) : ares_scope.

(** The contents of a map that may be nil. *)
Definition contents {V : Type} (m : gomap V) : gmap string V := default ∅ m.

(** The order in which a [range] loop visits a map is chosen by the Go run
    time, and may differ from one loop to the next: [range n m] is the
    order of the [n]-th loop.  Theorems hold for every instance. *)
Class MapOrder := {
  range : ∀ {V : Type}, nat → gmap string V → list (string * V);
  range_perm : ∀ (V : Type) n (m : gmap string V), range n m ≡ₚ map_to_list m;
}.

Definition range_keys `{MapOrder} {V : Type} (n : nat) (m : gmap string V) : list string :=
  (range n m).*1.

(** One such order, for evaluating the definitions. *)
Definition canonical_order : MapOrder :=
  {| range V n m := map_to_list m; range_perm V n m := reflexivity _ |}.

(** ** Machine integers *)

Definition wrap32 (z : Z) : Z := (z + 2 ^ 31) mod 2 ^ 32 - 2 ^ 31.
Definition wrap64 (z : Z) : Z := (z + 2 ^ 63) mod 2 ^ 64 - 2 ^ 63.
Definition int32_range (z : Z) : Prop := - 2 ^ 31 ≤ z < 2 ^ 31.
Definition int64_range (z : Z) : Prop := - 2 ^ 63 ≤ z < 2 ^ 63.
Definition max_int64 : Z := 2 ^ 63 - 1.

(** ** Lemmas *)

Section res_lemmas.
Context {E A B : Type}.
Implicit Types (m : res E A) (f : A → res E B).

Lemma res_bind_Done m f b : m ≫= f = Done b ↔ ∃ a, m = Done a ∧ f a = Done b.
Proof. destruct m; naive_solver. Qed.

Lemma res_bind_Fail m f e :
  m ≫= f = Fail e ↔ m = Fail e ∨ ∃ a, m = Done a ∧ f a = Fail e.
Proof. destruct m; naive_solver. Qed.

Lemma res_bind_Crash m f p :
  m ≫= f = Crash p ↔ m = Crash p ∨ ∃ a, m = Done a ∧ f a = Crash p.
Proof. destruct m; naive_solver. Qed.

Lemma deref_Done (p : option A) a : deref (E := E) p = Done a ↔ p = Some a.
Proof. destruct p; naive_solver. Qed.
End res_lemmas.

(** An invariant of the loop body holds of the loop's result. *)
Lemma fold_res_inv {E A B} (P : A → Prop) (g : A → B → res E A) a (l : list B) a' :
  P a → (∀ x y x', P x → y ∈ l → g x y = Done x' → P x') →
  fold_res g a l = Done a' → P a'.
Proof.
  revert a; induction l as [|y l IH]; intros a Ha Hstep; simpl; [naive_solver|].
  intros (x & Hx & Hl)%res_bind_Done.
  apply (IH x); [eapply Hstep; [done|left|done]| |done].
  intros ??????. eapply Hstep; [done|by right|done].
Qed.

(** A loop whose body always returns is the pure fold of the values. *)
Lemma fold_res_pure {E A B} (g : A → B → res E A) (h : A → B → A) a (l : list B) :
  (∀ x y, y ∈ l → g x y = Done (h x y)) → fold_res g a l = Done (foldl h a l).
Proof.
  revert a; induction l as [|y l IH]; intros a Hg; simpl; [done|].
  rewrite (Hg a y) by (by left). simpl. apply IH. intros ???. apply Hg. by right.
Qed.


Lemma fold_res_app {E A B} (f : B → A → res E B) b l1 l2 :
  fold_res f b (l1 ++ l2) = b' ← fold_res f b l1; fold_res f b' l2.
Proof.
  revert b; induction l1 as [|a l1 IH]; intros b; simpl; [done|].
  destruct (f b a); simpl; [apply IH|done|done].
Qed.

(** *** Stateful calls *)

Lemma eff_bind_Done {S E A B} (m : eff S E A) (f : A → eff S E B) s a s' :
  m s = (Done a, s') → (m ≫= f) s = f a s'.
Proof. intros Hm. unfold mbind, eff_bind. by rewrite Hm. Qed.
Lemma eff_bind_Fail {S E A B} (m : eff S E A) (f : A → eff S E B) s e s' :
  m s = (Fail e, s') → (m ≫= f) s = (Fail e, s').
Proof. intros Hm. unfold mbind, eff_bind. by rewrite Hm. Qed.
Lemma eff_bind_Crash {S E A B} (m : eff S E A) (f : A → eff S E B) s p s' :
  m s = (Crash p, s') → (m ≫= f) s = (Crash p, s').
Proof. intros Hm. unfold mbind, eff_bind. by rewrite Hm. Qed.

(** *** Weakest preconditions of stateful calls *)

Definition wp {S E A : Type} (m : eff S E A) (Q : res E A → S → Prop) (s : S) : Prop :=
  Q (m s).1 (m s).2.

Section wp_lemmas.
Context {S E : Type}.

Lemma wp_ret {A} (a : A) (Q : res E A → S → Prop) s : Q (Done a) s → wp (mret a) Q s.
Proof. done. Qed.

Lemma wp_bind {A B} (m : eff S E A) (f : A → eff S E B) Q s :
  wp m (λ r s', match r with
                | Done a => wp (f a) Q s'
                | Fail e => Q (Fail e) s'
                | Crash p => Q (Crash p) s'
                end) s → wp (m ≫= f) Q s.
Proof. unfold wp, mbind, eff_bind. by destruct (m s) as [[] ?]. Qed.

Lemma wp_mono {A} (m : eff S E A) (Q Q' : res E A → S → Prop) s :
  (∀ r s', Q r s' → Q' r s') → wp m Q s → wp m Q' s.
Proof. unfold wp. auto. Qed.

(** The rule of the loop: [I] is indexed by the elements still to visit. *)
Lemma wp_fold_eff {A B} (f : B → A → eff S E B) (I : list A → B → S → Prop)
    (Q : res E B → S → Prop) b l s :
  I l b s →
  (∀ b s, I [] b s → Q (Done b) s) →
  (∀ a l b s, I (a :: l) b s →
     wp (f b a) (λ r s', match r with
                         | Done b' => I l b' s'
                         | Fail e => Q (Fail e) s'
                         | Crash p => Q (Crash p) s'
                         end) s) →
  wp (fold_eff f b l) Q s.
Proof.
  intros HI Hnil Hstep. revert b s HI.
  induction l as [|a l IH]; intros b s HI; simpl; [by apply wp_ret, Hnil|].
  apply wp_bind. eapply wp_mono; [|by apply Hstep].
  intros [b'|e|p] s'; simpl; auto.
Qed.
End wp_lemmas.

(** *** Maps *)

Lemma mlookup_Some {V} (m : gmap string V) k : Some m !? k = m !! k.
Proof. done. Qed.
Lemma mlookup_None {V} k : (None : gomap V) !? k = None.
Proof. done. Qed.
Lemma mlookup_contents {V} (m : gomap V) k : m !? k = contents m !! k.
Proof. destruct m; simpl; [done|]. by rewrite lookup_empty. Qed.

Section range_lemmas.
Context `{MapOrder} {V : Type}.
Implicit Types (m : gmap string V).

Lemma elem_of_range n m k v : (k, v) ∈ range n m ↔ m !! k = Some v.
Proof. rewrite range_perm. apply elem_of_map_to_list. Qed.

Lemma elem_of_range_keys n m k : k ∈ range_keys n m ↔ is_Some (m !! k).
Proof.
  unfold range_keys. rewrite list_elem_of_fmap. split.
  - intros ([k' v] & -> & Hin%elem_of_range). by eexists.
  - intros [v Hv]. exists (k, v). split; [done|]. by apply elem_of_range.
Qed.

Lemma NoDup_range_keys n m : NoDup (range_keys n m).
Proof. unfold range_keys. rewrite range_perm. apply NoDup_fst_map_to_list. Qed.

Lemma range_nil n m : range n m = [] ↔ m = ∅.
Proof.
  split.
  - intros Hm. apply map_to_list_empty_iff, Permutation_nil. rewrite <- Hm. apply range_perm.
  - intros ->. apply Permutation_nil. symmetry. by rewrite range_perm, map_to_list_empty.
Qed.

Lemma list_to_map_range n m : list_to_map (range n m) = m.
Proof.
  rewrite (list_to_map_proper _ _ (NoDup_range_keys n m) (range_perm V n m)). apply list_to_map_to_list.
Qed.

(** A loop that inserts at most one value at the key it visits. *)
Lemma foldl_range_lookup {W} (f : gmap string W → string * V → gmap string W) (g : string → V → option W)
    n m (acc : gmap string W) key :
  (∀ r k v, f r (k, v) = match g k v with Some w => <[k := w]> r | None => r end) →
  foldl f acc (range n m) !! key =
  match m !! key ≫= g key with Some w => Some w | None => acc !! key end.
Proof.
  intros Hf. rewrite <- (list_to_map_range n m) at 2.
  pose proof (NoDup_range_keys n m) as Hnd. unfold range_keys in Hnd. revert acc.
  induction (range n m) as [|[k v] l IH]; intros acc; simpl; [by rewrite lookup_empty|].
  simpl in Hnd. apply NoDup_cons in Hnd as [Hk Hnd]. rewrite IH, Hf, lookup_insert by done.
  case_decide as Hkey; simpl.
  - subst k. apply not_elem_of_list_to_map in Hk as ->. simpl.
    destruct (g key v); [by rewrite lookup_insert_eq|done].
  - destruct (g k v); [by rewrite lookup_insert_ne|done].
Qed.

Lemma foldl_range_keys_lookup {W} (f : gmap string W → string → gmap string W) (g : string → V → option W)
    n m (acc : gmap string W) key :
  (∀ r k v, f r k = match g k v with Some w => <[k := w]> r | None => r end) →
  foldl f acc (range_keys n m) !! key =
  match m !! key ≫= g key with Some w => Some w | None => acc !! key end.
Proof.
  intros Hf. rewrite <- (foldl_range_lookup (λ r p, f r p.1) g n m acc key) by auto.
  unfold range_keys. revert acc. induction (range n m) as [|[k v] l IH]; intros acc; simpl; auto.
Qed.
End range_lemmas.

(** *** Filters *)

Lemma filter_nil_iff {A} (P : A → Prop) `{∀ x, Decision (P x)} l : filter P l = [] ↔ ∀ x, x ∈ l → ¬ P x.
Proof.
  split; [intros Hnil x Hx HP|intros Hno].
  - apply (not_elem_of_nil x). rewrite <- Hnil. by apply list_elem_of_filter.
  - destruct (filter P l) as [|x l'] eqn:Hl; [done|]. exfalso.
    assert (x ∈ filter P l) as [??]%list_elem_of_filter by (rewrite Hl; left). by eapply Hno.
Qed.

Lemma filter_cons_elem {A} (P : A → Prop) `{∀ x, Decision (P x)} l x l' :
  filter P l = x :: l' → P x ∧ x ∈ l.
Proof. intros Hl. rewrite <- list_elem_of_filter, Hl. left. Qed.

(** *** Strings *)

Lemma string_app_nil (s : string) : s +:+ "" = s.
Proof. induction s as [|c s IH]; [done|]. exact (f_equal (String c) IH). Qed.

Lemma string_app_assoc (s1 s2 s3 : string) : (s1 +:+ s2) +:+ s3 = s1 +:+ s2 +:+ s3.
Proof. induction s1 as [|c s1 IH]; [done|]. exact (f_equal (String c) IH). Qed.

(** *** Machine integers *)

Lemma wrap32_id z : int32_range z → wrap32 z = z.
Proof. unfold int32_range, wrap32. intros. rewrite Z.mod_small; lia. Qed.
Lemma wrap64_id z : int64_range z → wrap64 z = z.
Proof. unfold int64_range, wrap64. intros. rewrite Z.mod_small; lia. Qed.
Lemma wrap32_range z : int32_range (wrap32 z).
Proof. unfold int32_range, wrap32. pose proof (Z.mod_pos_bound (z + 2 ^ 31) (2 ^ 32)). lia. Qed.
Lemma wrap32_wrap32_add a b : wrap32 (wrap32 a + b) = wrap32 (a + b).
Proof.
  unfold wrap32. f_equal.
  replace ((a + 2 ^ 31) mod 2 ^ 32 - 2 ^ 31 + b + 2 ^ 31) with ((a + 2 ^ 31) mod 2 ^ 32 + b) by lia.
  rewrite Zplus_mod_idemp_l. f_equal. lia.
Qed.

Lemma wrap64_wrap64_add a b : wrap64 (wrap64 a + b) = wrap64 (a + b).
Proof.
  unfold wrap64. f_equal.
  replace ((a + 2 ^ 63) mod 2 ^ 64 - 2 ^ 63 + b + 2 ^ 63) with ((a + 2 ^ 63) mod 2 ^ 64 + b) by lia.
  rewrite Zplus_mod_idemp_l. f_equal. lia.
Qed.

(** By evaluation, on a concrete map. *)
Lemma map_Forall_intro {V} (P : string → V → Prop) `{∀ k v, Decision (P k v)} (m : gmap string V) :
  forallb (λ p, bool_decide (P p.1 p.2)) (map_to_list m) = true → map_Forall P m.
Proof.
  rewrite forallb_forall. intros Hall k v Hv%elem_of_map_to_list%list_elem_of_In.
  by apply (bool_decide_eq_true (P k v)), (Hall (k, v)).
Qed.

(** ** Automation *)

Create HintDb ares discriminated.
#[export] Hint Resolve wrap32_id wrap32_range NoDup_range_keys : ares.
#[export] Hint Rewrite @mlookup_Some @mlookup_None @res_bind_Done @res_bind_Fail
  @res_bind_Crash @deref_Done : ares.

(** Splits every [m ≫= f = Done b] in the context into its steps. *)
Ltac res_inv :=
  repeat match goal with
  | H : _ ≫= _ = Done _ |- _ =>
      let a := fresh "v" in let H1 := fresh "Hstep" in
      apply res_bind_Done in H as (a & H1 & H)
  | H : deref _ = Done _ |- _ => apply deref_Done in H
  | H : Done _ = Done _ |- _ => injection H as H
  | H : Fail _ = Done _ |- _ => discriminate H
  | H : Crash _ = Done _ |- _ => discriminate H
  end; simplify_eq.

(** Case analysis on every test and match of the goal, and clean up. *)
Ltac split_cases := repeat (case_decide || case_match || case_bool_decide); simplify_eq/=.

Lemma list_filter_all {A} (P : A → Prop) `{∀ x, Decision (P x)} (l : list A) : (∀ x, x ∈ l → P x) → filter P l = l.
Proof.
  induction l as [|x l IH]; intros Hall; [done|]. rewrite filter_cons_True by (apply Hall; left). f_equal. apply IH.
  intros y Hy. apply Hall. by right.
Qed.
