(* ===== verification/GoStd.v ===== *)
(** * The parts of the Go standard library the operator uses

    [strings], [strconv] and [fmt] as functions on strings, with the laws the
    components rely on: [Atoi] inverts [Itoa], and the order of decimal
    strings by length and then bytewise is the order of the numbers. *)

From S2P Require Import Prelude.
From Stdlib Require Export Ascii.

(** ** Bytes *)

Definition byte (c : ascii) : Z := Z.of_N (N_of_ascii c).
Definition chr (z : Z) : ascii := ascii_of_N (Z.to_N z).

Definition is_digit (c : ascii) : bool := bool_decide (48 ≤ byte c ≤ 57).
Definition is_upper (c : ascii) : bool := bool_decide (65 ≤ byte c ≤ 90).
Definition is_lower (c : ascii) : bool := bool_decide (97 ≤ byte c ≤ 122).

(** ** [strings] *)

Fixpoint string_map (f : ascii → ascii) (s : string) : string :=
  match s with
  | EmptyString => EmptyString
  | String c s => String (f c) (string_map f s)
  end.

(** [strings.ToLower] on ASCII bytes; other bytes are left alone. *)
Definition to_lower_byte (c : ascii) : ascii :=
  if is_upper c then chr (byte c + 32) else c.
Definition ToLower (s : string) : string := string_map to_lower_byte s.

(** [strings.Replace(s, old, new, -1)] for one-byte [old] and [new]. *)
Definition ReplaceAll (s : string) (old new : ascii) : string :=
  string_map (λ c, if decide (c = old) then new else c) s.

(** [strings.Join]. *)
Fixpoint Join (elems : list string) (sep : string) : string :=
  match elems with
  | [] => ""
  | [x] => x
  | x :: l => x +:+ sep +:+ Join l sep
  end.

(** [strings.SplitN(s, sep, 2)] for a one-byte separator. *)
Fixpoint SplitN2 (s : string) (sep : ascii) : list string :=
  match s with
  | EmptyString => [""]
  | String c s' =>
      if decide (c = sep) then [""; s']
      else match SplitN2 s' sep with
           | p :: ps => String c p :: ps
           | [] => []
           end
  end.

(** The string holds the byte. *)
Fixpoint ContainsByte (c : ascii) (s : string) : bool :=
  match s with
  | EmptyString => false
  | String c' s => bool_decide (c' = c) || ContainsByte c s
  end.

(** Go's [<] on strings. *)
Definition string_lt (s1 s2 : string) : bool := String.ltb s1 s2.

(** ** [strconv] *)

(** The decimal digits of a non-negative number, most significant first. *)
Fixpoint digits_go (fuel : nat) (n : Z) : list Z :=
  match fuel with
  | O => [n]
  | S fuel => if decide (n < 10) then [n] else digits_go fuel (n / 10) ++ [n mod 10]
  end.
Definition digits (n : Z) : list Z := digits_go (Z.to_nat (Z.log2 n)) n.

Definition digit_char (d : Z) : ascii := chr (48 + d).
Definition utoa (n : Z) : string := String.string_of_list_ascii (digit_char <$> digits n).

(** [strconv.Itoa], [strconv.FormatInt(_, 10)] and the [%d] verb. *)
Definition Itoa (z : Z) : string := if decide (z < 0) then "-" +:+ utoa (- z) else utoa z.

Inductive num_error := ErrSyntax | ErrRange.

(** [NumError.Error], for an input that [strconv.Quote] only has to put in
    quotation marks. *)
Definition num_error_string (f s : string) (e : num_error) : string :=
  let quote := String (chr 34) EmptyString in
  "strconv." +:+ f +:+ ": parsing " +:+ quote +:+ s +:+ quote +:+ ": " +:+
  match e with ErrSyntax => "invalid syntax" | ErrRange => "value out of range" end.

(** The digit loop of [strconv.ParseUint] in base 10. *)
Fixpoint ParseUint_go (n : Z) (s : list ascii) : Z * option num_error :=
  match s with
  | [] => (n, None)
  | c :: s =>
      if is_digit c then
        let n' := n * 10 + (byte c - 48) in
        if decide (2 ^ 64 ≤ n') then (2 ^ 64 - 1, Some ErrRange) else ParseUint_go n' s
      else (0, Some ErrSyntax)
  end.
Definition ParseUint (s : string) : Z * option num_error :=
  match s with
  | EmptyString => (0, Some ErrSyntax)
  | _ => ParseUint_go 0 (String.list_ascii_of_string s)
  end.

(** [strconv.Atoi]: the value is meaningful also when the error is not nil,
    since callers drop the error. *)
Definition Atoi_signed (neg : bool) (s : string) : Z * option num_error :=
  match ParseUint s with
  | (_, Some ErrSyntax) => (0, Some ErrSyntax)
  | (un, _) =>
      if negb neg && bool_decide (2 ^ 63 ≤ un) then (2 ^ 63 - 1, Some ErrRange)
      else if neg && bool_decide (2 ^ 63 < un) then (- 2 ^ 63, Some ErrRange)
      else (if neg then - un else un, None)
  end.
Definition Atoi (s : string) : Z * option num_error :=
  match s with
  | EmptyString => (0, Some ErrSyntax)
  | String c s' =>
      if decide (c = "+"%char) then Atoi_signed false s'
      else if decide (c = "-"%char) then Atoi_signed true s'
      else Atoi_signed false s
  end.

(** *** [strconv.ParseInt(s, 0, bitSize)]

    The base is chosen by the prefix, and underscores may separate digits. *)

(** [lower]: letters, and only letters, are mapped to lower case ones. *)
Definition lower (c : ascii) : Z := Z.lor (byte c) 32.

Definition digit_value (c : ascii) : option Z :=
  if is_digit c then Some (byte c - 48)
  else if decide (97 ≤ lower c ≤ 122) then Some (lower c - 87) else None.

(** The digits after the prefix; the flag tells whether there are
    underscores. *)
Fixpoint ParseBase_go (base max n : Z) (s : list ascii) : num_error + Z :=
  match s with
  | [] => inr n
  | c :: s =>
      if decide (c = "_"%char) then ParseBase_go base max n s
      else match digit_value c with
           | None => inl ErrSyntax
           | Some d =>
               if decide (base ≤ d) then inl ErrSyntax
               else let n' := n * base + d in
                    if decide (max < n') then inl ErrRange else ParseBase_go base max n' s
           end
  end.

(** The base, and what follows the prefix. *)
Definition base_prefix (s : list ascii) : Z * list ascii :=
  match s with
  | "0"%char :: c :: _ :: _ =>
      let digits := tail (tail s) in
      if decide (lower c = 98) then (2, digits)
      else if decide (lower c = 111) then (8, digits)
      else if decide (lower c = 120) then (16, digits)
      else (8, tail s)
  | "0"%char :: rest => (8, rest)
  | _ => (10, s)
  end.

(** [underscoreOK]: underscores separate digits, the prefix counting as one. *)
Inductive seen := SeenStart | SeenDigit | SeenUnderscore | SeenOther.
Fixpoint underscoreOK_go (hex : bool) (i : seen) (s : list ascii) : bool :=
  match s with
  | [] => match i with SeenUnderscore => false | _ => true end
  | c :: s =>
      if is_digit c || (hex && bool_decide (97 ≤ lower c ≤ 102)) then underscoreOK_go hex SeenDigit s
      else if decide (c = "_"%char) then
        match i with SeenDigit => underscoreOK_go hex SeenUnderscore s | _ => false end
      else match i with SeenUnderscore => false | _ => underscoreOK_go hex SeenOther s end
  end.
Definition underscoreOK (s : list ascii) : bool :=
  match s with
  | "0"%char :: c :: rest =>
      if decide (lower c = 98 ∨ lower c = 111 ∨ lower c = 120)
      then underscoreOK_go (bool_decide (lower c = 120)) SeenDigit rest
      else underscoreOK_go false SeenStart s
  | _ => underscoreOK_go false SeenStart s
  end.

Definition ParseUint0 (s : list ascii) (bitSize : Z) : num_error + Z :=
  match s with
  | [] => inl ErrSyntax
  | _ =>
      let '(base, rest) := base_prefix s in
      match ParseBase_go base (2 ^ bitSize - 1) 0 rest with
      | inl err => inl err
      | inr n => if bool_decide ("_"%char ∈ rest) && negb (underscoreOK s) then inl ErrSyntax else inr n
      end
  end.

Definition ParseInt (s : string) (bitSize : Z) : num_error + Z :=
  let '(neg, digits) :=
    match String.list_ascii_of_string s with
    | "+"%char :: l => (false, l)
    | "-"%char :: l => (true, l)
    | l => (false, l)
    end in
  match ParseUint0 digits bitSize with
  | inl err => inl err
  | inr un =>
      let cutoff := 2 ^ (bitSize - 1) in
      if negb neg && bool_decide (cutoff ≤ un) then inl ErrRange
      else if neg && bool_decide (cutoff < un) then inl ErrRange
      else inr (if neg : bool then - un else un)
  end.

(** ** Lemmas on decimal numerals *)

Definition horner (l : list Z) : Z := foldl (λ n d, n * 10 + d) 0 l.

Lemma horner_snoc l d : horner (l ++ [d]) = horner l * 10 + d.
Proof. unfold horner. by rewrite foldl_app. Qed.

Lemma digits_go_spec fuel n :
  0 ≤ n < 10 ^ (Z.of_nat fuel + 1) →
  horner (digits_go fuel n) = n ∧ Forall (λ d, 0 ≤ d < 10) (digits_go fuel n) ∧
  ∃ d l, digits_go fuel n = d :: l ∧ (l ≠ [] → 0 < d).
Proof.
  revert n; induction fuel as [|fuel IH]; intros n Hn; simpl.
  { change (10 ^ (Z.of_nat 0 + 1)) with 10 in Hn.
    split_and!; [done|apply Forall_singleton; lia|by eexists _, _]. }
  case_decide.
  { split_and!; [done|apply Forall_singleton; lia|by eexists _, _]. }
  destruct (IH (n / 10)) as (Hh & HF & d & l & Hd & Hpos).
  { split; [apply Z.div_pos; lia|]. apply Z.div_lt_upper_bound; [lia|].
    rewrite <- Z.pow_succ_r by lia. replace (Z.succ (Z.of_nat fuel + 1)) with (Z.of_nat (S fuel) + 1); lia. }
  split_and!.
  - rewrite horner_snoc, Hh. pose proof (Z.div_mod n 10). lia.
  - apply Forall_app; split; [done|]. apply Forall_singleton, Z.mod_pos_bound; lia.
  - exists d, (l ++ [n mod 10]). rewrite Hd. split; [done|]. intros _.
    destruct l; [|by apply Hpos]. rewrite Hd in Hh. unfold horner in Hh. simpl in Hh.
    assert (1 ≤ n / 10); [apply Z.div_le_lower_bound; lia|lia].
Qed.

Lemma digits_spec n : 0 ≤ n →
  horner (digits n) = n ∧ Forall (λ d, 0 ≤ d < 10) (digits n) ∧
  ∃ d l, digits n = d :: l ∧ (l ≠ [] → 0 < d).
Proof.
  intros Hn. apply digits_go_spec. split; [done|].
  rewrite Z2Nat.id by apply Z.log2_nonneg.
  destruct (decide (n = 0)) as [->|]; [done|].
  destruct (Z.log2_spec n) as [_ Hlog]; [lia|].
  eapply Z.lt_le_trans; [exact Hlog|].
  apply Z.pow_le_mono_l; pose proof (Z.log2_nonneg n); lia.
Qed.

Lemma byte_chr z : 0 ≤ z < 256 → byte (chr z) = z.
Proof. intros. unfold byte, chr. rewrite N_ascii_embedding; lia. Qed.
Lemma chr_byte c : chr (byte c) = c.
Proof. unfold byte, chr. rewrite N2Z.id. apply ascii_N_embedding. Qed.

Lemma byte_digit_char d : 0 ≤ d < 10 → byte (digit_char d) = 48 + d.
Proof. intros. unfold digit_char. apply byte_chr. lia. Qed.
Lemma is_digit_digit_char d : 0 ≤ d < 10 → is_digit (digit_char d) = true.
Proof. intros. apply bool_decide_eq_true_2. rewrite byte_digit_char by done. lia. Qed.

Lemma horner_acc_le l n : 0 ≤ n → Forall (λ d, 0 ≤ d < 10) l →
  n ≤ foldl (λ n d, n * 10 + d) n l.
Proof.
  intros Hn HF. revert n Hn; induction HF as [|d l Hd HF IH]; intros n Hn; simpl; [lia|].
  etrans; [|apply IH]; lia.
Qed.

Lemma ParseUint_go_digits l n : 0 ≤ n → Forall (λ d, 0 ≤ d < 10) l →
  foldl (λ n d, n * 10 + d) n l < 2 ^ 64 →
  ParseUint_go n (digit_char <$> l) = (foldl (λ n d, n * 10 + d) n l, None).
Proof.
  intros Hn HF. revert n Hn; induction HF as [|d l Hd HF IH]; intros n Hn Hb; csimpl; [done|].
  rewrite is_digit_digit_char, byte_digit_char by done. simpl in Hb.
  replace (n * 10 + (48 + d - 48)) with (n * 10 + d) by lia.
  rewrite decide_False.
  - apply IH; [lia|done].
  - pose proof (horner_acc_le l (n * 10 + d) ltac:(lia) HF). lia.
Qed.

Lemma utoa_cons n : 0 ≤ n → ∃ d l, digits n = d :: l ∧ 0 ≤ d < 10 ∧
  utoa n = String (digit_char d) (String.string_of_list_ascii (digit_char <$> l)).
Proof.
  intros Hn. destruct (digits_spec n Hn) as (_ & HF & d & l & Hd & _).
  exists d, l. split; [done|]. rewrite Hd in HF. apply Forall_cons in HF as [? _].
  split; [done|]. unfold utoa. by rewrite Hd.
Qed.

Lemma ParseUint_utoa n : 0 ≤ n < 2 ^ 64 → ParseUint (utoa n) = (n, None).
Proof.
  intros Hn. destruct (utoa_cons n) as (d & l & Hd & _ & Hu); [lia|].
  unfold ParseUint. rewrite Hu. rewrite <- Hu. unfold utoa.
  rewrite String.list_ascii_of_string_of_list_ascii.
  destruct (digits_spec n) as (Hh & HF & _); [lia|].
  fold (horner (digits n)) in *. rewrite ParseUint_go_digits; [|lia|done|].
  - by rewrite <- Hh at 2.
  - change (horner (digits n) < 2 ^ 64). lia.
Qed.

Lemma Atoi_Itoa z : int64_range z → Atoi (Itoa z) = (z, None).
Proof.
  intros Hz. unfold int64_range in Hz. unfold Itoa. case_decide.
  - change ("-" +:+ utoa (- z)) with (String "-"%char (utoa (- z))).
    unfold Atoi. rewrite decide_False by done. rewrite decide_True by done.
    unfold Atoi_signed. rewrite ParseUint_utoa by lia. simpl.
    rewrite bool_decide_false by lia. f_equal. lia.
  - destruct (utoa_cons z) as (d & l & _ & Hd & Hu); [lia|].
    unfold Atoi. rewrite Hu. rewrite <- Hu.
    assert (digit_char d ≠ "+"%char ∧ digit_char d ≠ "-"%char) as [??].
    { split; intros Heq%(f_equal byte); rewrite byte_digit_char in Heq by done.
      - change (byte "+"%char) with 43 in Heq. lia.
      - change (byte "-"%char) with 45 in Heq. lia. }
    rewrite !decide_False by done. unfold Atoi_signed. rewrite ParseUint_utoa by lia.
    simpl. by rewrite bool_decide_false by lia.
Qed.

(** A numeral without a leading zero is parsed in base ten, whatever the
    prefixes of the other bases. *)
Lemma ParseBase_go_digits max l n : 0 ≤ n → Forall (λ d, 0 ≤ d < 10) l →
  foldl (λ n d, n * 10 + d) n l ≤ max →
  ParseBase_go 10 max n (digit_char <$> l) = inr (foldl (λ n d, n * 10 + d) n l).
Proof.
  intros Hn HF. revert n Hn; induction HF as [|d l Hd HF IH]; intros n Hn Hb; csimpl; [done|].
  assert (digit_char d ≠ "_"%char) as Hu.
  { intros Heq%(f_equal byte). rewrite byte_digit_char in Heq by done. change (byte "_"%char) with 95 in Heq. lia. }
  rewrite decide_False by done. unfold digit_value. rewrite is_digit_digit_char, byte_digit_char by done. simpl in Hb.
  replace (48 + d - 48) with d by lia. rewrite decide_False by lia.
  rewrite decide_False; [apply IH; [lia|done]|]. pose proof (horner_acc_le l (n * 10 + d) ltac:(lia) HF). lia.
Qed.

Lemma base_prefix_ten c s : c ≠ "0"%char → base_prefix (c :: s) = (10, c :: s).
Proof. destruct c as [[] [] [] [] [] [] [] []]; done. Qed.

Lemma underscore_not_digit l : Forall (λ d, 0 ≤ d < 10) l → "_"%char ∉ digit_char <$> l.
Proof.
  rewrite Forall_forall. intros HF (d & Heq%(f_equal byte) & Hd)%list_elem_of_fmap.
  rewrite byte_digit_char in Heq by by apply HF. specialize (HF _ Hd). change (byte "_"%char) with 95 in Heq. lia.
Qed.

Lemma ParseUint0_digits n bitSize : 0 ≤ n < 2 ^ bitSize →
  ParseUint0 (digit_char <$> digits n) bitSize = inr n.
Proof.
  intros Hn. destruct (digits_spec n) as (Hh & HF & d & l & Hd & Hlead); [lia|].
  destruct (decide (d = 0)) as [->|Hd0].
  - destruct l as [|d' l]; [|specialize (Hlead ltac:(done)); lia]. rewrite Hd in *. unfold horner in Hh. simpl in Hh. by subst n.
  - assert (∃ c s, digit_char <$> digits n = c :: s ∧ c ≠ "0"%char) as (c & s & Heq & Hc).
    { rewrite Hd in *. apply Forall_cons in HF as [Hd10 _]. csimpl. eexists _, _. split; [done|].
      intros Heq%(f_equal byte). rewrite byte_digit_char in Heq by done. change (byte "0"%char) with 48 in Heq. lia. }
    unfold ParseUint0. rewrite Heq. rewrite base_prefix_ten by done. rewrite <- Heq.
    unfold horner in Hh. rewrite ParseBase_go_digits by (done || lia). rewrite Hh.
    rewrite bool_decide_false by by apply underscore_not_digit. done.
Qed.

Lemma ParseInt_Itoa z bitSize : 0 ≤ z < 2 ^ (bitSize - 1) → 1 ≤ bitSize → ParseInt (Itoa z) bitSize = inr z.
Proof.
  intros Hz Hb. unfold Itoa. rewrite decide_False by lia. unfold ParseInt, utoa.
  rewrite String.list_ascii_of_string_of_list_ascii.
  assert (z < 2 ^ bitSize) as Hlt.
  { eapply Z.lt_le_trans; [apply Hz|]. apply Z.pow_le_mono_r; lia. }
  destruct (digits_spec z) as (_ & HF & d & l & Hd & _); [lia|].
  assert (∃ c s, digit_char <$> digits z = c :: s ∧ c ≠ "+"%char ∧ c ≠ "-"%char) as (c & s & Heq & Hp & Hm).
  { rewrite Hd in *. apply Forall_cons in HF as [Hd10 _]. csimpl. eexists _, _. split; [done|].
    split; intros Heq%(f_equal byte); rewrite byte_digit_char in Heq by done.
    - change (byte "+"%char) with 43 in Heq. lia.
    - change (byte "-"%char) with 45 in Heq. lia. }
  assert ((match digit_char <$> digits z with
    | "+"%char :: l => (false, l) | "-"%char :: l => (true, l) | l => (false, l) end) = (false, digit_char <$> digits z)) as ->.
  { rewrite Heq. by destruct c as [[] [] [] [] [] [] [] []]. }
  rewrite ParseUint0_digits by lia. simpl. rewrite bool_decide_false by lia. done.
Qed.

Lemma Itoa_inj a b : int64_range a → int64_range b → Itoa a = Itoa b → a = b.
Proof. intros Ha Hb Heq%(f_equal Atoi). rewrite !Atoi_Itoa in Heq by done. by simplify_eq. Qed.

Lemma Itoa_nonempty z : Itoa z ≠ "".
Proof.
  unfold Itoa. case_decide; [done|].
  destruct (utoa_cons z) as (d & l & _ & _ & ->); [lia|done].
Qed.

(** ** [sort.Slice]

    The sort is not stable and its comparisons are by position, so its result
    is only known through its contract: a permutation, which is sorted when
    the comparison is, on the elements at hand, an asymmetric relation that
    does not look at the positions. *)
Class SortSlice := {
  sort_slice : ∀ {A : Type}, (list A → nat → nat → bool) → list A → list A;
  sort_slice_perm : ∀ A less (l : list A), sort_slice less l ≡ₚ l;
  sort_slice_sorted : ∀ A less (lt : A → A → bool) (l : list A),
    (∀ l' i j a b, i ≠ j → (∀ x, x ∈ l' → x ∈ l) →
       l' !! i = Some a → l' !! j = Some b → less l' i j = lt a b) →
    (∀ a b, a ∈ l → b ∈ l → lt a b = true → lt b a = false) →
    Sorted (λ a b, lt b a = false) (sort_slice less l);
}.

(** Insertion sort meets the contract. *)
Section insertion_sort.
Context {A : Type} (less : list A → nat → nat → bool).

Fixpoint insert_sorted (x : A) (l : list A) : list A :=
  match l with
  | [] => [x]
  | y :: l => if less [y; x] 0 1 then y :: insert_sorted x l else x :: y :: l
  end.
Definition insertion_sort (l : list A) : list A := foldr insert_sorted [] l.

Lemma insert_sorted_perm x l : insert_sorted x l ≡ₚ x :: l.
Proof.
  induction l as [|y l IH]; simpl; [done|]. case_match; [|done].
  rewrite IH. apply Permutation_swap.
Qed.

Lemma insertion_sort_perm l : insertion_sort l ≡ₚ l.
Proof. induction l as [|x l IH]; simpl; [done|]. by rewrite insert_sorted_perm, IH. Qed.

Lemma insert_sorted_sorted (lt : A → A → bool) x l :
  (∀ a b, a ∈ x :: l → b ∈ x :: l → less [a; b] 0 1 = lt a b) →
  (∀ a b, a ∈ x :: l → b ∈ x :: l → lt a b = true → lt b a = false) →
  Sorted (λ a b, lt b a = false) l → Sorted (λ a b, lt b a = false) (insert_sorted x l).
Proof.
  intros Hless Hasym Hl. induction Hl as [|y l Hl IH Hhd]; simpl; [by repeat constructor|].
  assert (x ∈ x :: y :: l) as Hx by left.
  assert (y ∈ x :: y :: l) as Hy by (right; left).
  assert (∀ z, z ∈ x :: l → z ∈ x :: y :: l) as Hincl.
  { intros z [->|?]%elem_of_cons; [left|by do 2 right]. }
  rewrite Hless by done. destruct (lt y x) eqn:Hyx.
  - constructor; [apply IH; auto|].
    destruct Hhd as [|z l Hz]; simpl; [constructor; by apply Hasym|].
    case_match; constructor; [done|]. by apply Hasym.
  - by repeat constructor.
Qed.
End insertion_sort.

Definition canonical_sort : SortSlice.
Proof.
  refine {| sort_slice A := insertion_sort |}.
  - intros A less l. apply insertion_sort_perm.
  - intros A less lt l Hless Hasym.
    assert (∀ a b, a ∈ l → b ∈ l → less [a; b] 0%nat 1%nat = lt a b) as Hless'.
    { intros a b ??. apply (Hless [a; b] 0%nat 1%nat); [done| |done..].
      by intros y [->|[->|[]%elem_of_nil]%elem_of_cons]%elem_of_cons. }
    clear Hless. induction l as [|x l IH]; simpl; [constructor|].
    apply insert_sorted_sorted.
    + intros a b. rewrite insertion_sort_perm. apply Hless'.
    + intros a b. rewrite insertion_sort_perm. apply Hasym.
    + apply IH; intros; [apply Hasym|apply Hless']; auto; by right.
Defined.
