(* ===== verification/Errors.v ===== *)
(** * Errors ([reconciler/errors.go])

    Go's [error] interface as the sum of the dynamic types the operator
    distinguishes: a plain message, an API status error, of which only the
    reason is inspected, and the reconciler's own [ReconcileError]. *)

From S2P Require Import Prelude.

Record ReconcileError := mkReconcileError {
  Message : string;
  RetryAfter : Z;      (* time.Duration, in nanoseconds *)
  ReRaise : bool;
}.

(** The reasons [IsNotFound], [IsTimeout] and [IsInvalid] test for. *)
Inductive StatusReason :=
| StatusReasonNotFound
| StatusReasonTimeout
| StatusReasonInvalid
| StatusReasonOther.

Inductive error :=
| Errorf (msg : string)
| StatusError (reason : StatusReason) (msg : string)
| AReconcileError (e : ReconcileError).

#[export] Instance ReconcileError_eq_dec : EqDecision ReconcileError.
Proof. solve_decision. Defined.
#[export] Instance StatusReason_eq_dec : EqDecision StatusReason.
Proof. solve_decision. Defined.
#[export] Instance error_eq_dec : EqDecision error.
Proof. solve_decision. Defined.

#[export] Instance rebuild_ReconcileError : Rebuild ReconcileError := λ r,
  mkReconcileError (Message r) (RetryAfter r) (ReRaise r).

#[export] Instance set_RetryAfter : Setter RetryAfter.
Proof. solve_setter. Defined.
#[export] Instance set_ReRaise : Setter ReRaise.
Proof. solve_setter. Defined.

(** A Go call whose failures are Go errors. *)
Abbreviation go A := (res error A).

Definition IsNotFound (e : error) : bool :=
  match e with StatusError StatusReasonNotFound _ => true | _ => false end.
Definition IsTimeout (e : error) : bool :=
  match e with StatusError StatusReasonTimeout _ => true | _ => false end.
Definition IsInvalid (e : error) : bool :=
  match e with StatusError StatusReasonInvalid _ => true | _ => false end.

(** [func (e *ReconcileError) Error() string] *)
Definition Error (e : ReconcileError) : string := Message e.

Definition error_string (e : error) : string :=
  match e with
  | Errorf msg => msg
  | StatusError _ msg => msg
  | AReconcileError e => Error e
  end.

(** [func (e *ReconcileError) Err() error] *)
Definition Err (e : ReconcileError) : option error :=
  if ReRaise e then Some (AReconcileError e) else None.

Definition ErrorOptionFunc : Type := ReconcileError → ReconcileError.

Definition WithRetryAfter (d : Z) : ErrorOptionFunc := λ e, e <| RetryAfter := d |>.

Definition DisableReRaise : ErrorOptionFunc := λ e, e <| ReRaise := false |>.

Definition NewReconcileError (msg : string) (opts : list ErrorOptionFunc) : ReconcileError :=
  foldl (λ e opt, opt e) {| Message := msg; RetryAfter := 0; ReRaise := true |} opts.

Definition IsReconcileError (e : error) : option ReconcileError :=
  match e with AReconcileError e => Some e | _ => None end.

(** [time.Second] *)
Definition Second : Z := 1000000000.
