(* ===== verification/Heap.v ===== *)
(** * Memory

    Go values that point to each other: a heap of cells, computations on it,
    assertions that relate what is stored to a value, and rules for
    computations that only allocate.  Used by DeepCopy, where sharing matters;
    elsewhere a pointer is an [option] of the value it points to.

    An assertion holds of a heap and a set of locations, those it speaks of.
    [sep s] joins two assertions: their locations are disjoint when [s] is
    [false], and may be shared when it is [true]. *)

From S2P Require Import Prelude Errors.

(** The cells that are in use, at their locations. *)
Abbreviation heap cell := (gmap positive cell).

Section heap.
Context {cell : Type}.

Definition mem (A : Type) : Type := eff (heap cell) error A.

(** The types whose values are stored in cells. *)
Class Stored (T : Type) := {
  inj : T → cell;
  proj : cell → option T;
  proj_inj : ∀ t, proj (inj t) = Some t;
}.

(** A location above all those in use. *)
Definition next (h : heap cell) : positive := map_fold (λ l _ n, Pos.max (Pos.succ l) n) 1%positive h.

(** [new(T)], or [make], once it has been filled. *)
Definition alloc `{Stored T} (t : T) : mem positive := λ h, (Done (next h), <[next h := inj t]> h).

(** [*p]; a location that is not in use or holds another type does not exist
    in Go. *)
Definition load `{Stored T} (l : positive) : mem T := λ h,
  match h !! l ≫= proj with
  | Some t => (Done t, h)
  | None => (Crash NilDereference, h)
  end.

(** A slice that is not nil: a part of an array. *)
Record slice := mkSlice { slice_array : positive; slice_offset : nat; slice_len : nat }.

Definition slice_elements {T : Type} (s : slice) (array : list T) : list T :=
  take (slice_len s) (drop (slice_offset s) array).

(** ** Copying *)

(** [if in != nil { out = new(T); f(in, out) }] *)
Definition copy_ptr `{Stored T} (f : T → mem T) (p : option positive) : mem (option positive) :=
  match p with
  | None => mret None
  | Some l => t ← load l; t' ← f t; l' ← alloc t'; mret (Some l')
  end.

Fixpoint copy_list {T : Type} (f : T → mem T) (l : list T) : mem (list T) :=
  match l with
  | [] => mret []
  | t :: l => t' ← f t; l' ← copy_list f l; mret (t' :: l')
  end.

(** [if in != nil { out = make([]T, len(in)); for i := range in { f(&in[i], &out[i]) } }] *)
Definition copy_slice {T : Type} `{Stored (list T)} (f : T → mem T) (s : option slice) : mem (option slice) :=
  match s with
  | None => mret None
  | Some s =>
      array ← load (slice_array s);
      array' ← copy_list f (slice_elements s array);
      l ← alloc array';
      mret (Some (mkSlice l 0 (length array')))
  end.

(** The copy of an entry of a map. *)
Definition copy_entry {T : Type} (f : T → mem T) (kt : string * T) : mem (string * T) :=
  t' ← f kt.2; mret (kt.1, t').

(** [if in != nil { out = make(map[string]T, len(in)); for k, v := range in { out[k] = f(v) } }];
    the keys are distinct, so the order of the loop does not matter. *)
Definition copy_map `{MapOrder} {T : Type} `{Stored (gmap string T)} (f : T → mem T) (p : option positive)
    : mem (option positive) :=
  match p with
  | None => mret None
  | Some l =>
      m ← load l;
      entries ← copy_list (copy_entry f) (range 0 m);
      l' ← alloc (list_to_map (M := gmap string T) entries);
      mret (Some l')
  end.

(** ** Assertions *)

Definition hprop : Type := heap cell → gset positive → Prop.

Definition emp (φ : Prop) : hprop := λ _ L, φ ∧ L = ∅.
Definition ex {A : Type} (P : A → hprop) : hprop := λ h L, ∃ a, P a h L.
Definition sep (s : bool) (P Q : hprop) : hprop := λ h L,
  ∃ L1 L2, P h L1 ∧ Q h L2 ∧ L = L1 ∪ L2 ∧ (s = false → L1 ## L2).
Definition wand (P Q : hprop) : hprop := λ h L, ∀ L0, P h L0 → L0 ## L → Q h (L0 ∪ L).
Definition points_to `{Stored T} (l : positive) (t : T) : hprop := λ h L, h !! l = Some (inj t) ∧ L = {[l]}.

(** The representation of values of a type, with or without sharing. *)
Definition repr (T V : Type) : Type := bool → T → V → hprop.

(** A value stored as such. *)
Definition rep_flat {T : Type} : repr T T := λ _ t v, emp (t = v).

Definition rep_ptr `{Stored T} {V : Type} (rep : repr T V) : repr (option positive) (option V) := λ s p v,
  match p, v with
  | None, None => emp True
  | Some l, Some v => ex (λ t, sep s (points_to l t) (rep s t v))
  | _, _ => emp False
  end.

Fixpoint rep_list {T V : Type} (rep : repr T V) (s : bool) (l : list T) (vs : list V) : hprop :=
  match l, vs with
  | [], [] => emp True
  | t :: l, v :: vs => sep s (rep s t v) (rep_list rep s l vs)
  | _, _ => emp False
  end.

Definition rep_slice {T V : Type} `{Stored (list T)} (rep : repr T V) : repr (option slice) (option (list V)) := λ s p vs,
  match p, vs with
  | None, None => emp True
  | Some sl, Some vs => ex (λ array, sep s (points_to (slice_array sl) array) (rep_list rep s (slice_elements sl array) vs))
  | _, _ => emp False
  end.

Definition rep_entry {T V : Type} (rep : repr T V) : repr (string * T) (string * V) := λ s kt kv,
  sep s (emp (kt.1 = kv.1)) (rep s kt.2 kv.2).

Definition rep_entries {T V : Type} (rep : repr T V) : repr (gmap string T) (gmap string V) := λ s m v h L,
  ∃ l lv, l ≡ₚ map_to_list m ∧ lv ≡ₚ map_to_list v ∧ rep_list (rep_entry rep) s l lv h L.

Definition rep_map {T V : Type} `{Stored (gmap string T)} (rep : repr T V) : repr (option positive) (gomap V) := λ s p v,
  match p, v with
  | None, None => emp True
  | Some l, Some v => ex (λ m, sep s (points_to l m) (rep_entries rep s m v))
  | _, _ => emp False
  end.

Definition rep_as {T V V' : Type} (g : V → V') (rep : repr T V) : repr T V' := λ s t v',
  ex (λ v, sep s (rep s t v) (emp (g v = v'))).

(** ** Locality: an assertion depends on its locations, which are in use *)

Class Local (P : hprop) := {
  local_dom h L : P h L → L ⊆ dom h;
  local_agree h h' L : P h L → (∀ l, l ∈ L → h' !! l = h !! l) → P h' L;
}.

Class LocalRep {T V : Type} (rep : repr T V) := local_rep :: ∀ s t v, Local (rep s t v).

Lemma local_mono `{!Local P} h h' L : h ⊆ h' → P h L → P h' L.
Proof.
  intros Hsub HP. apply (local_agree h); [done|]. intros l Hl%(local_dom h L HP).
  apply elem_of_dom in Hl as [c Hc]. transitivity (Some c); [by eapply lookup_weaken|done].
Qed.

#[global] Instance local_emp φ : Local (emp φ).
Proof. split; [intros h L [_ ->]; set_solver|done]. Qed.

#[global] Instance local_points_to `{Stored T} l t : Local (points_to l t).
Proof.
  split; unfold points_to.
  - intros h L [Hl ->]. apply singleton_subseteq_l. by apply elem_of_dom_2 in Hl.
  - intros h h' L [Hl ->] Hagree. split; [|done]. rewrite <- Hl. apply Hagree. set_solver.
Qed.

#[global] Instance local_sep s P Q : Local P → Local Q → Local (sep s P Q).
Proof.
  intros HP HQ. split.
  - intros h L (L1 & L2 & H1%local_dom & H2%local_dom & -> & _); [set_solver|done..].
  - intros h h' L (L1 & L2 & H1 & H2 & -> & Hd) Hagree. exists L1, L2.
    split_and!; [eapply local_agree; [exact H1|]|eapply local_agree; [exact H2|]|done..]; intros; apply Hagree; set_solver.
Qed.

#[global] Instance local_ex {A} (P : A → hprop) : (∀ a, Local (P a)) → Local (ex P).
Proof.
  intros HP. split.
  - intros h L [a H]. by eapply local_dom.
  - intros h h' L [a H] Hagree. exists a. by eapply local_agree.
Qed.

#[global] Instance local_flat {T} : LocalRep (@rep_flat T).
Proof. intros s t v. apply _. Qed.

#[global] Instance local_ptr `{Stored T} {V} (rep : repr T V) : LocalRep rep → LocalRep (rep_ptr rep).
Proof. intros Hrep s [l|] [v|]; simpl; apply _. Qed.

#[global] Instance local_list {T V} (rep : repr T V) s l vs : LocalRep rep → Local (rep_list rep s l vs).
Proof. intros Hrep. revert vs. induction l as [|t l IH]; intros [|v vs]; simpl; apply _. Qed.

#[global] Instance local_slice {T V} `{Stored (list T)} (rep : repr T V) : LocalRep rep → LocalRep (rep_slice rep).
Proof. intros Hrep s [sl|] [vs|]; simpl; apply _. Qed.

#[global] Instance local_entry {T V} (rep : repr T V) : LocalRep rep → LocalRep (rep_entry rep).
Proof. intros Hrep s t v. apply _. Qed.

#[global] Instance local_entries {T V} (rep : repr T V) s m v : LocalRep rep → Local (rep_entries rep s m v).
Proof.
  intros Hrep. split.
  - intros h L (l & lv & _ & _ & H). exact (local_dom (P := rep_list (rep_entry rep) s l lv) h L H).
  - intros h h' L (l & lv & Hl & Hlv & H) Hagree. exists l, lv. split_and!; [done|done|]. by apply (local_agree (P := rep_list (rep_entry rep) s l lv) h).
Qed.

#[global] Instance local_map {T V} `{Stored (gmap string T)} (rep : repr T V) : LocalRep rep → LocalRep (rep_map rep).
Proof. intros Hrep s [l|] [v|]; simpl; apply _. Qed.

#[global] Instance local_as {T V V'} (g : V → V') (rep : repr T V) : LocalRep rep → LocalRep (rep_as g rep).
Proof. intros Hrep s t v. apply _. Qed.
End heap.
Arguments mem : clear implicits.
Arguments hprop : clear implicits.
Arguments repr : clear implicits.
Arguments Stored : clear implicits.

(** ** Computations that only allocate *)

Section rules.
Context {cell : Type}.
Implicit Types (h : heap cell) (L : gset positive).

(** From [h], [m] returns a value of which [Q] holds, of new locations only;
    all that was there stays as it was. *)
Definition makes {A} h (m : mem cell A) (Q : A → hprop cell) : Prop :=
  ∃ a h' L, m h = (Done a, h') ∧ h ⊆ h' ∧ Q a h' L ∧ L ⊆ dom h' ∖ dom h.

(** [f] returns a copy that shares nothing with the original, nor within. *)
Class Copies {T V} (f : T → mem cell T) (rep : repr cell T V) : Prop := copies :
  ∀ h t v L, rep true t v h L → makes h (f t) (λ t', rep false t' v).

Lemma makes_ret {A} h (a : A) Q : Q a h ∅ → makes h (mret a) Q.
Proof. intros HQ. exists a, h, ∅. split_and!; [done..|set_solver]. Qed.

Lemma makes_load `{Stored cell T} {A} h l t (k : T → mem cell A) S :
  h !! l = Some (inj t) → makes h (k t) S → makes h (load l ≫= k) S.
Proof.
  intros Hl (a & h' & L & Hk & Hrest). exists a, h', L. split; [|done].
  unfold mbind, eff_bind, load. rewrite Hl. simpl. by rewrite proj_inj.
Qed.

(** [h0] is where the original was read. *)
Lemma makes_bind {A B} h0 h (m : mem cell A) (k : A → mem cell B) Q S :
  h0 ⊆ h → makes h m Q → (∀ t, Local (Q t)) →
  (∀ t h1, h0 ⊆ h1 → makes h1 (k t) (λ b, wand (Q t) (S b))) → makes h (m ≫= k) S.
Proof.
  intros H0 (t & h1 & L1 & Hm & Hsub1 & HQt & HL1) HQ Hk.
  destruct (Hk t h1) as (b & h2 & L2 & Hkt & Hsub2 & HS & HL2); [by trans h|].
  pose proof (subseteq_dom (D := gset positive) _ _ Hsub1) as Hd1. pose proof (subseteq_dom (D := gset positive) _ _ Hsub2) as Hd2.
  exists b, h2, (L1 ∪ L2). split_and!.
  - unfold mbind, eff_bind. by rewrite Hm.
  - by trans h1.
  - apply HS; [|set_solver]. by apply (local_mono (P := Q t) h1).
  - set_solver.
Qed.

Lemma lookup_next h : h !! next h = None.
Proof.
  destruct (h !! next h) as [c|] eqn:Hc; [|done]. exfalso.
  enough (∀ l, is_Some (h !! l) → (l < next h)%positive) as Hlt by (specialize (Hlt (next h)); rewrite Hc in Hlt; pose proof (Hlt ltac:(done)); lia).
  clear. unfold next. induction h as [|l c h Hl Hfirst IH] using map_first_key_ind; [intros l []; simplify_map_eq|].
  intros l' Hl'. rewrite map_fold_insert_first_key by done. destruct (decide (l' = l)) as [->|Hne]; [lia|].
  rewrite lookup_insert_ne in Hl' by done. specialize (IH _ Hl'). lia.
Qed.

Lemma makes_alloc `{Stored cell T} h t : makes h (alloc t) (λ l, points_to l t).
Proof.
  exists (next h), (<[next h := inj t]> h), {[next h]}. pose proof (lookup_next h) as Hn. split_and!.
  - done.
  - by apply insert_subseteq.
  - split; [by rewrite lookup_insert_eq|done].
  - rewrite dom_insert. apply not_elem_of_dom in Hn. set_solver.
Qed.

#[global] Instance copies_flat {T} : Copies (T := T) mret rep_flat.
Proof. intros h t v L [-> _]. by apply makes_ret. Qed.

#[global] Instance copies_ptr `{Stored cell T} {V} f (rep : repr cell T V) :
  LocalRep rep → Copies f rep → Copies (copy_ptr f) (rep_ptr rep).
Proof.
  intros Hlocal Hf h [l|] [v|] L; simpl; try (by intros [[] _]); [|by intros _; apply makes_ret].
  intros (t & _ & L2 & [Hl _] & Ht & _). eapply makes_load; [exact Hl|].
  eapply (makes_bind h); [done|by eapply Hf|apply _|]. intros t' h1 Hsub1.
  eapply (makes_bind h); [done|apply makes_alloc|apply _|]. intros l' h2 _. apply makes_ret.
  intros L' Hl' _ L'' Ht' Hd. exists t', L', L''. split_and!; [done|done|set_solver|set_solver].
Qed.

#[global] Instance copies_list {T V} f (rep : repr cell T V) :
  LocalRep rep → Copies f rep → Copies (copy_list f) (rep_list rep).
Proof.
  intros Hlocal Hf h l. revert h. induction l as [|t l IH]; intros h [|v vs] L; simpl; try (by intros [[] _]).
  - intros _. by apply makes_ret.
  - intros (L1 & L2 & Ht & Hl & _).
    eapply (makes_bind h); [done|by eapply Hf|apply _|]. intros t' h1 Hsub1.
    eapply (makes_bind h); [done|eapply IH; by eapply (local_mono (P := rep_list rep true l vs) h)|apply _|]. intros l' h2 _. apply makes_ret.
    intros L' Hl' _ L'' Ht' Hd. exists L'', L'. split_and!; [done|done|set_solver|set_solver].
Qed.

Lemma rep_list_length {T V} (rep : repr cell T V) s l vs h L : rep_list rep s l vs h L → length l = length vs.
Proof.
  revert vs L. induction l as [|t l IH]; intros [|v vs] L; simpl; try (by intros [[] _]).
  intros (L1 & L2 & _ & H2 & _). by rewrite (IH _ _ H2).
Qed.

#[global] Instance copies_slice {T V} `{Stored cell (list T)} f (rep : repr cell T V) :
  LocalRep rep → Copies f rep → Copies (copy_slice f) (rep_slice rep).
Proof.
  intros Hlocal Hf h [sl|] [vs|] L; simpl; try (by intros [[] _]); [|by intros _; apply makes_ret].
  intros (array & _ & L2 & [Hl _] & Ht & _). eapply makes_load; [exact Hl|].
  eapply (makes_bind h); [done|by eapply copies_list|apply _|]. intros array' h1 Hsub1.
  eapply (makes_bind h); [done|apply makes_alloc|apply _|]. intros l' h2 _. apply makes_ret.
  intros L' Hl' _ L'' Ht' Hd. exists array', L', L''. unfold slice_elements. simpl. rewrite drop_0, firstn_all.
  split_and!; [done|done|set_solver|set_solver].
Qed.

(** Where values may be shared, their order does not matter. *)
Lemma rep_list_perm {T V} (rep : repr cell T V) l l' vs h L : l ≡ₚ l' → rep_list rep true l vs h L →
  ∃ vs', vs ≡ₚ vs' ∧ rep_list rep true l' vs' h L.
Proof.
  intros Hperm. revert vs L. induction Hperm as [|t l l' _ IH|t1 t2 l|l l' l'' _ IH1 _ IH2]; intros vs L.
  - intros HP. exists vs. by split.
  - destruct vs as [|v vs]; [by intros [[] _]|]. intros (L1 & L2 & Ht & (vs' & Hvs & Hl)%IH & -> & _).
    exists (v :: vs'). split; [by constructor|]. by exists L1, L2.
  - destruct vs as [|v1 [|v2 vs]]; simpl; [by intros [[] _]|by intros (? & ? & _ & [[] _] & _)|].
    intros (L1 & L2 & H1 & (L3 & L4 & H2 & Hl & -> & _) & -> & _). exists (v2 :: v1 :: vs). split; [constructor|].
    exists L3, (L1 ∪ L4). split_and!; [done|by exists L1, L4|set_solver|done].
  - intros (vs' & Hvs & (vs'' & Hvs' & Hl)%IH2)%IH1. exists vs''. split; [by trans vs'|done].
Qed.

Lemma rep_entry_keys {T V} (rep : repr cell T V) s l lv h L : rep_list (rep_entry rep) s l lv h L → l.*1 = lv.*1.
Proof.
  revert lv L. induction l as [|[k t] l IH]; intros [|[k' v] lv] L; simpl; try (by intros [[] _]).
  intros (L1 & L2 & (_ & _ & [[= ->] _] & _) & H2%IH & _). by f_equal.
Qed.

#[global] Instance copies_entry {T V} f (rep : repr cell T V) :
  LocalRep rep → Copies f rep → Copies (copy_entry f) (rep_entry rep).
Proof.
  intros Hlocal Hf h [k t] [k' v] L (L1 & L2 & [[= <-] ->] & Ht & _). unfold copy_entry. simpl in *.
  eapply (makes_bind h); [done|by eapply Hf|apply _|]. intros t' h1 _. apply makes_ret.
  intros L' Ht' _. exists ∅, L'. split_and!; [done|done|set_solver|set_solver].
Qed.

#[global] Instance copies_map `{MapOrder} {T V} `{Stored cell (gmap string T)} f (rep : repr cell T V) :
  LocalRep rep → Copies f rep → Copies (copy_map f) (rep_map rep).
Proof.
  intros Hlocal Hf h [p|] [v|] L; simpl; try (by intros [[] _]); [|by intros _; apply makes_ret].
  intros (m & _ & L2 & [Hp _] & (l & lv & Hl & Hlv & Hrep) & _). eapply makes_load; [exact Hp|].
  apply (rep_list_perm (rep_entry rep) l (range 0 m)) in Hrep as (lv' & Hlv' & Hrep); [|by rewrite Hl, range_perm].
  eapply (makes_bind h); [done|eapply (copies_list (copy_entry f) (rep_entry rep)); [apply _|by apply copies_entry|exact Hrep]|apply _|]. intros l' h1 Hsub1.
  eapply (makes_bind h); [done|apply makes_alloc|apply _|]. intros p' h2 _. apply makes_ret.
  intros L' Hp' _ L'' Hl' Hd. exists (list_to_map l'), L', L''.
  assert (lv' ≡ₚ map_to_list v) as Hv by (by rewrite <- Hlv').
  split_and!; [done| |set_solver|set_solver]. exists l', lv'. split_and!; [|done|done].
  symmetry. apply map_to_list_to_map. rewrite (rep_entry_keys _ _ _ _ _ _ Hl'), Hv. apply NoDup_fst_map_to_list.
Qed.

(** The value seen through a function. *)
#[global] Instance copies_as {T V V'} (g : V → V') f (rep : repr cell T V) :
  LocalRep rep → Copies f rep → Copies f (rep_as g rep).
Proof.
  intros Hlocal Hf h t v' L (v & L1 & L2 & Ht & [<- ->] & -> & _). destruct (Hf h t v L1 Ht) as (t' & h' & L' & ? & ? & ? & ?).
  exists t', h', L'. split_and!; try done. exists v, L', ∅. split_and!; [done|done|set_solver|set_solver].
Qed.

(** The copy of a field; [h0] is where the original was read. *)
Lemma makes_field {T V B} h0 h f (rep : repr cell T V) t v L (k : T → mem cell B) S :
  h0 ⊆ h → rep true t v h0 L → LocalRep rep → Copies f rep →
  (∀ t' h1, h0 ⊆ h1 → makes h1 (k t') (λ b, wand (rep false t' v) (S b))) → makes h (f t ≫= k) S.
Proof.
  intros Hsub Ht Hlocal Hf Hk. apply (makes_bind h0 h (f t) k (λ t', rep false t' v)); [done| |apply _|done].
  eapply Hf. by apply (local_mono (P := rep true t v) h0).
Qed.

(** What is written through a copy is not seen through the original. *)
Lemma copy_separates `{Stored cell T} {V} f (rep : repr cell T V) h p v L :
  LocalRep rep → Copies f rep → rep_ptr rep true (Some p) (Some v) h L →
  ∃ p' h' L', copy_ptr f (Some p) h = (Done (Some p'), h') ∧ h ⊆ h' ∧
    rep_ptr rep false (Some p') (Some v) h' L' ∧ L' ## dom h ∧
    ∀ h'', (∀ l, l ∈ dom h' → l ∉ L' → h'' !! l = h' !! l) → rep_ptr rep true (Some p) (Some v) h'' L.
Proof.
  intros Hlocal Hf Hrep. pose proof (local_dom (P := rep_ptr rep true (Some p) (Some v)) _ _ Hrep) as HL.
  destruct (copies_ptr f rep _ _ h (Some p) (Some v) L Hrep) as ([p'|] & h' & L' & Hrun & Hsub & Hrep' & HL').
  2: { by destruct Hrep' as [[] _]. }
  exists p', h', L'. split_and!; [done|done|done|set_solver|]. intros h'' Hagree.
  apply (local_agree (P := rep_ptr rep true (Some p) (Some v)) h); [done|]. intros l Hl%HL.
  pose proof (subseteq_dom (D := gset positive) _ _ Hsub). rewrite Hagree; [|set_solver|set_solver].
  apply elem_of_dom in Hl as [c Hc]. transitivity (Some c); [by eapply lookup_weaken|done].
Qed.
End rules.

(** The copy of a struct, field by field: what is known of the original is
    taken apart, each field copied, and what is known of the copies put
    together. *)
Ltac split_rep :=
  repeat match goal with
  | H : sep _ _ _ _ _ |- _ => destruct H as (? & ? & ? & ? & -> & _)
  | H : emp _ _ _ |- _ => destruct H as [? ->]
  end.
Ltac join_rep :=
  repeat match goal with
  | |- sep _ _ _ _ _ =>
      eexists _, _; split; [eassumption|split; [|split; [reflexivity|intros _; eassumption]]]
  | |- emp _ _ _ => split; [simpl in *; intuition congruence|reflexivity]
  end.
Tactic Notation "copy_struct" reference(rep) reference(into) :=
  let h := fresh "h" in let L := fresh "L" in let Hrep := fresh "Hrep" in
  intros h ? ? L Hrep; assert (h ⊆ h) by reflexivity; unfold rep in *; unfold into; split_rep;
  repeat (eapply makes_field; [eassumption|eassumption|apply _|apply _|intros ? ? ?]);
  apply makes_ret; repeat intros ? ? ?; unfold rep; join_rep.
