(* ===== verification/Regex.v ===== *)
(** * Regular expressions and [utils/validation.go]

    The matching of [regexp] for the expressions the operator compiles, by
    derivatives, and the DNS-1123 label pattern. *)

From S2P Require Import Prelude GoStd Errors.

(** ** Expressions *)

Inductive re :=
| Void
| Empty
| Class (p : ascii → bool)
| Seq (r s : re)
| Alt (r s : re)
| Star (r : re).

Definition Opt (r : re) : re := Alt Empty r.

Fixpoint nullable (r : re) : bool :=
  match r with
  | Void | Class _ => false
  | Empty | Star _ => true
  | Seq r s => nullable r && nullable s
  | Alt r s => nullable r || nullable s
  end.

Fixpoint deriv (c : ascii) (r : re) : re :=
  match r with
  | Void | Empty => Void
  | Class p => if p c then Empty else Void
  | Seq r s => if nullable r then Alt (Seq (deriv c r) s) (deriv c s) else Seq (deriv c r) s
  | Alt r s => Alt (deriv c r) (deriv c s)
  | Star r => Seq (deriv c r) (Star r)
  end.

(** The expression matches the whole string. *)
Fixpoint matches (r : re) (s : string) : bool :=
  match s with
  | EmptyString => nullable r
  | String c s => matches (deriv c r) s
  end.

(** ** The pattern ["^[a-z0-9]([-a-z0-9]*[a-z0-9])?$"] *)

Definition alnum (c : ascii) : bool := is_lower c || is_digit c.
Definition alnum_dash (c : ascii) : bool := bool_decide (c = "-"%char) || alnum c.

Definition dns1123Pattern : re :=
  Seq (Class alnum) (Opt (Seq (Star (Class alnum_dash)) (Class alnum))).

Definition dns1123Pattern_string : string := "^[a-z0-9]([-a-z0-9]*[a-z0-9])?$".

Definition MatchDNS1123 (s : string) : go unit :=
  if matches dns1123Pattern s then Done tt
  else Fail (Errorf ("dose not match '" +:+ dns1123Pattern_string +:+ "': " +:+ s)).

(** ** The language of an expression *)

Inductive lang : re → list ascii → Prop :=
| lang_empty : lang Empty []
| lang_class p c : p c = true → lang (Class p) [c]
| lang_seq r s l1 l2 : lang r l1 → lang s l2 → lang (Seq r s) (l1 ++ l2)
| lang_alt_l r s l : lang r l → lang (Alt r s) l
| lang_alt_r r s l : lang s l → lang (Alt r s) l
| lang_star_nil r : lang (Star r) []
| lang_star_cons r l1 l2 : lang r l1 → lang (Star r) l2 → lang (Star r) (l1 ++ l2).

Lemma nullable_lang r : nullable r = true ↔ lang r [].
Proof.
  induction r as [| |p|r IHr s IHs|r IHr s IHs|r IHr]; simpl.
  - split; [done|]. inversion 1.
  - split; [constructor|done].
  - split; [done|]. inversion 1.
  - rewrite andb_true_iff, IHr, IHs. split.
    + intros [??]. by apply (lang_seq _ _ [] []).
    + inversion 1 as [| |? ? l1 l2 H1 H2 Hr Heq| | | |]; subst.
      apply app_eq_nil in Heq as [-> ->]. done.
  - rewrite orb_true_iff, IHr, IHs. split; [intros [?|?]; [by apply lang_alt_l|by apply lang_alt_r]|].
    inversion 1; subst; auto.
  - split; [constructor|done].
Qed.

Lemma lang_star_inv r c l : lang (Star r) (c :: l) →
  ∃ l1 l2, l = l1 ++ l2 ∧ lang r (c :: l1) ∧ lang (Star r) l2.
Proof.
  remember (Star r) as rs eqn:Hr. remember (c :: l) as cl eqn:Hl. intros Hlang. revert r c l Hr Hl.
  induction Hlang as [| | | | | |r' l1 l2 H1 _ H2 IH]; intros r0 c0 l0 Hr Hl; try discriminate.
  injection Hr as ->. destruct l1 as [|c1 l1]; simpl in Hl.
  - by apply IH.
  - injection Hl as -> <-. by exists l1, l2.
Qed.

Lemma deriv_lang c r l : lang (deriv c r) l ↔ lang r (c :: l).
Proof.
  revert l. induction r as [| |p|r IHr s IHs|r IHr s IHs|r IHr]; intros l; simpl.
  - split; inversion 1.
  - split; inversion 1.
  - split.
    + destruct (p c) eqn:Hp; inversion 1; subst. by constructor.
    + inversion 1 as [|? ? Hp| | | | |]; subst. rewrite Hp. constructor.
  - assert (lang (Seq (deriv c r) s) l ↔ ∃ l1 l2, l = l1 ++ l2 ∧ lang r (c :: l1) ∧ lang s l2) as Hseq.
    { split.
      - inversion 1 as [| |? ? l1 l2 H1 H2| | | |]; subst. exists l1, l2. split_and!; [done|by apply IHr|done].
      - intros (l1 & l2 & -> & H1 & H2). constructor; [by apply IHr|done]. }
    assert (lang (Seq r s) (c :: l) ↔ (∃ l1 l2, l = l1 ++ l2 ∧ lang r (c :: l1) ∧ lang s l2) ∨
      (lang r [] ∧ lang s (c :: l))) as ->.
    { split.
      - inversion 1 as [| |? ? l1 l2 H1 H2 Hr Heq| | | |]; subst. destruct l1 as [|c1 l1]; simpl in Heq.
        + subst. by right.
        + injection Heq as -> <-. left. by exists l1, l2.
      - intros [(l1 & l2 & -> & H1 & H2)|[H1 H2]]; [by apply (lang_seq _ _ (c :: l1))|by apply (lang_seq _ _ [])]. }
    rewrite <- Hseq, <- nullable_lang, <- IHs. destruct (nullable r).
    + split; [inversion 1; subst; auto|]. intros [?|[_ ?]]; [by apply lang_alt_l|by apply lang_alt_r].
    + naive_solver.
  - split; inversion 1; subst; first [by apply lang_alt_l, IHr|by apply lang_alt_r, IHs].
  - split.
    + inversion 1 as [| |? ? l1 l2 H1 H2| | | |]; subst. apply (lang_star_cons _ (c :: l1)); [by apply IHr|done].
    + intros (l1 & l2 & -> & H1 & H2)%lang_star_inv. constructor; [by apply IHr|done].
Qed.

(** The matcher decides the language. *)
Lemma matches_lang r s : matches r s = true ↔ lang r (String.list_ascii_of_string s).
Proof.
  revert r. induction s as [|c s IH]; intros r; simpl; [apply nullable_lang|]. by rewrite IH, deriv_lang.
Qed.

Lemma lang_star_class p l : lang (Star (Class p)) l ↔ Forall (λ c, p c = true) l.
Proof.
  split.
  - remember (Star (Class p)) as r eqn:Hr. induction 1 as [| | | | | |r l1 l2 H1 _ _ IH]; try discriminate; [constructor|].
    injection Hr as ->. inversion H1; subst. simpl. constructor; [done|]. by apply IH.
  - induction 1 as [|c l Hc _ IH]; [constructor|]. apply (lang_star_cons _ [c]); [by constructor|done].
Qed.

(** ** Properties *)

(** C40: the pattern accepts exactly the DNS-1123 labels without a length
    limit: non-empty, made of lower-case letters, digits and dashes, and
    neither starting nor ending with a dash. *)
Theorem MatchDNS1123_spec s :
  MatchDNS1123 s = Done tt ↔
  ∃ c l d, String.list_ascii_of_string s = c :: l ∧ last (c :: l) = Some d ∧
    Forall (λ x, alnum_dash x = true) (c :: l) ∧ c ≠ "-"%char ∧ d ≠ "-"%char.
Proof.
  assert (∀ c, alnum c = true ↔ alnum_dash c = true ∧ c ≠ "-"%char) as Hdash.
  { intros c. unfold alnum_dash. case_bool_decide as Hc; simpl; [|naive_solver]. subst c. split; [done|naive_solver]. }
  transitivity (matches dns1123Pattern s = true).
  { unfold MatchDNS1123. by destruct (matches dns1123Pattern s). }
  rewrite matches_lang. generalize (String.list_ascii_of_string s) as cs. intros cs. split.
  - inversion 1 as [| |? ? l1 l2 HE HF| | | |]; subst. inversion HE as [|? c Hc| | | | |]; subst.
    apply Hdash in Hc as Hc'.
    inversion HF as [| | |? ? ? HB|? ? ? HB| |]; subst.
    + inversion HB; subst. exists c, [], c. naive_solver.
    + inversion HB as [| |? ? l3 l4 HC HD| | | |]; subst. inversion HD as [|? d Hd| | | | |]; subst.
      apply lang_star_class in HC. apply Hdash in Hd as Hd'.
      exists c, (l3 ++ [d]), d. simpl. rewrite app_comm_cons, last_snoc. split_and!; try tauto.
      constructor; [tauto|]. apply Forall_app. split; [done|]. constructor; [tauto|done].
  - intros (c & l & d & -> & Hlast & [Hc Hl]%Forall_cons & Hcne & Hdne).
    apply (lang_seq _ _ [c] l); [constructor; by apply Hdash|].
    destruct l as [|x l _] using rev_ind; [apply lang_alt_l; constructor|].
    rewrite app_comm_cons, last_snoc in Hlast. injection Hlast as ->.
    apply Forall_app in Hl as [Hl [Hd _]%Forall_cons].
    apply lang_alt_r. constructor; [by apply lang_star_class|]. constructor. by apply Hdash.
Qed.

(** A matching name is its own lower-case form. *)
Lemma MatchDNS1123_lower s : MatchDNS1123 s = Done tt → ToLower s = s.
Proof.
  unfold MatchDNS1123. destruct (matches dns1123Pattern s) eqn:Hm; [|done]. intros _.
  apply matches_lang in Hm.
  assert (Forall (λ c, alnum_dash c = true) (String.list_ascii_of_string s)) as Hall.
  { inversion Hm as [| |? ? l1 l2 HE HF| | | |]; subst. inversion HE as [|? c Hc| | | | |]; subst.
    assert (∀ c, alnum c = true → alnum_dash c = true) as Ha by (intros x Hx; unfold alnum_dash; rewrite Hx; apply orb_true_r).
    simpl. constructor; [by apply Ha|].
    inversion HF as [| | |? ? ? HB|? ? ? HB| |]; subst; [inversion HB; constructor|].
    inversion HB as [| |? ? l3 l4 HC HD| | | |]; subst. inversion HD; subst.
    apply lang_star_class in HC. apply Forall_app. split; [done|]. constructor; [by apply Ha|done]. }
  clear Hm. unfold ToLower. induction s as [|c s IH]; simpl; [done|]. simpl in Hall.
  apply Forall_cons in Hall as [Hc Hall]. rewrite IH by done. f_equal.
  unfold to_lower_byte, alnum_dash, alnum, is_lower, is_digit, is_upper in *.
  destruct (bool_decide_reflect (65 ≤ byte c ≤ 90)); [|done]. exfalso.
  destruct (bool_decide_reflect (c = "-"%char)) as [->|]; [by change (byte "-"%char) with 45 in *; lia|].
  simpl in Hc. apply orb_true_iff in Hc as [Hc%bool_decide_eq_true|Hc%bool_decide_eq_true]; lia.
Qed.
