(* ===== verification/Kube.v ===== *)
(** * The Kubernetes and kubeflow objects the operator handles

    Records holding the fields that the code under [src/] reads or writes of
    the objects of [k8s.io/api], [volcano.sh/apis] and
    [github.com/kubeflow/common]; these packages are not part of the
    repository, so their functions are the parameters gathered in the classes
    at the end of the file.  A pointer is an [option], a map that may be nil a
    [gomap], a time an integer. *)

From S2P Require Import Prelude Errors.

(** ** Metadata *)

Record OwnerReference := mkOwnerReference {
  owner_APIVersion : string;
  owner_Kind : string;
  owner_Name : string;
  owner_UID : string;
}.

Record ObjectMeta := mkObjectMeta {
  meta_Name : string;
  meta_GenerateName : string;
  meta_Namespace : string;
  meta_UID : string;
  meta_Labels : gomap string;
  meta_Annotations : gomap string;
  meta_DeletionTimestamp : option Z;
  meta_Finalizers : list string;
  meta_Controller : option OwnerReference;  (* what metav1.GetControllerOf finds *)
}.

(** ** Pods *)

Record ContainerPort := mkContainerPort {
  port_Name : string;
  port_ContainerPort : Z;
}.

Record EnvVar := mkEnvVar {
  env_Name : string;
  env_Value : string;
  env_FieldPath : option string;            (* ValueFrom.FieldRef.FieldPath *)
}.

Record VolumeMount := mkVolumeMount {
  mount_Name : string;
  mount_MountPath : string;
}.

Inductive VolumeSource :=
| EmptyDir
| HostPath (path : string).

Record Volume := mkVolume {
  volume_Name : string;
  volume_Source : VolumeSource;
}.

Record Container := mkContainer {
  container_Name : string;
  container_Image : string;
  container_ImagePullPolicy : string;
  container_Command : list string;
  container_Ports : option (list ContainerPort);  (* the slice may be nil *)
  container_Env : list EnvVar;
  container_VolumeMounts : list VolumeMount;
}.

Record PodSpec := mkPodSpec {
  pod_Containers : list Container;
  pod_InitContainers : list Container;
  pod_Volumes : list Volume;
  pod_HostNetwork : bool;
  pod_NodeName : string;
  pod_Hostname : string;
  pod_Subdomain : string;
  pod_RestartPolicy : string;
  pod_SchedulerName : string;
}.

Record PodTemplateSpec := mkPodTemplateSpec {
  template_meta : ObjectMeta;
  template_Spec : PodSpec;
}.

Record ContainerStateTerminated := mkTerminated {
  terminated_ExitCode : Z;
  terminated_Reason : string;
  terminated_Message : string;
}.

Record ContainerStatus := mkContainerStatus {
  cstatus_Terminated : option ContainerStateTerminated;  (* State.Terminated *)
}.

Record Condition := mkCondition {
  cond_Type : string;
  cond_Status : string;
  cond_Reason : string;
  cond_Message : string;
}.

Record PodStatus := mkPodStatus {
  pstatus_Phase : string;
  pstatus_Conditions : list Condition;
  pstatus_Reason : string;
  pstatus_Message : string;
  pstatus_HostIP : string;
  pstatus_PodIP : string;
  pstatus_ContainerStatuses : list ContainerStatus;
}.

Record Pod := mkPod {
  pod_meta : ObjectMeta;
  pod_Spec : PodSpec;
  pod_Status : PodStatus;
}.

Definition PodPending : string := "Pending".
Definition PodRunning : string := "Running".
Definition PodSucceeded : string := "Succeeded".
Definition PodFailed : string := "Failed".
Definition PodUnknown : string := "Unknown".

Definition ConditionTrue : string := "True".
Definition ConditionFalse : string := "False".
Definition ConditionUnknown : string := "Unknown".
Definition PodReady : string := "Ready".
Definition PodScheduled : string := "PodScheduled".
Definition NodeReady : string := "Ready".

(** The zero values [corev1.PodStatus{}], [metav1.ObjectMeta{}], ... *)
Definition zero_ObjectMeta : ObjectMeta := mkObjectMeta "" "" "" "" None None None [] None.
Definition zero_PodSpec : PodSpec := mkPodSpec [] [] [] false "" "" "" "" "".
Definition zero_PodStatus : PodStatus := mkPodStatus "" [] "" "" "" "" [].
Definition zero_Template : PodTemplateSpec := mkPodTemplateSpec zero_ObjectMeta zero_PodSpec.

(** ** Nodes, services, pod groups *)

Record Node := mkNode {
  node_Name : string;
  node_Conditions : list Condition;
}.

Record ServicePort := mkServicePort {
  sport_Name : string;
  sport_Port : Z;
  sport_TargetPort : option Z;
}.

Record Service := mkService {
  service_meta : ObjectMeta;
  service_ClusterIP : string;
  service_Selector : gmap string string;
  service_Ports : list ServicePort;
}.

Record PodGroup := mkPodGroup {
  pg_meta : ObjectMeta;
  pg_Phase : string;
  pg_Conditions : list Condition;
}.

Definition PodGroupPending : string := "Pending".
Definition PodGroupScheduled : string := "Scheduled".
Definition PodGroupUnschedulableType : string := "Unschedulable".

(** ** kubeflow/common *)

Record ReplicaSpec := mkReplicaSpec {
  Replicas : option Z;
  Template : PodTemplateSpec;
  RestartPolicy : string;
}.
Definition zero_ReplicaSpec : ReplicaSpec := mkReplicaSpec None zero_Template "".

Definition RestartPolicyAlways : string := "Always".
Definition RestartPolicyOnFailure : string := "OnFailure".
Definition RestartPolicyNever : string := "Never".
Definition RestartPolicyExitCode : string := "ExitCode".

(** [commonv1.ReplicaStatus]: int32 counters. *)
Record CommonReplicaStatus := mkCommonReplicaStatus {
  Active : Z;
  Succeeded : Z;
  Failed : Z;
}.
Definition zero_CommonReplicaStatus : CommonReplicaStatus := mkCommonReplicaStatus 0 0 0.

Record JobCondition := mkJobCondition {
  jcond_Type : string;
  jcond_Status : string;
  jcond_Reason : string;
  jcond_Message : string;
  jcond_LastTransitionTime : option Z;      (* None: the zero time *)
}.

Record JobStatus := mkJobStatus {
  Conditions : list JobCondition;
  ReplicaStatuses : gomap (option CommonReplicaStatus);
  CompletionTime : option Z;
}.
Definition zero_JobStatus : JobStatus := mkJobStatus [] None None.

Definition JobCreated : string := "Created".
Definition JobRunning : string := "Running".
Definition JobSucceeded : string := "Succeeded".
Definition JobFailed : string := "Failed".

Record RunPolicy := mkRunPolicy {
  CleanPodPolicy : option string;
  (* SchedulingPolicy: nil, or its MinAvailable, itself a pointer *)
  SchedulingPolicy : option (option Z);
}.
Definition CleanPodPolicyNone : string := "None".

(** ** Setters *)

#[export] Instance rebuild_ObjectMeta : Rebuild ObjectMeta := λ r,
  mkObjectMeta (meta_Name r) (meta_GenerateName r) (meta_Namespace r) (meta_UID r)
    (meta_Labels r) (meta_Annotations r) (meta_DeletionTimestamp r) (meta_Finalizers r)
    (meta_Controller r).
#[export] Instance rebuild_Container : Rebuild Container := λ r,
  mkContainer (container_Name r) (container_Image r) (container_ImagePullPolicy r)
    (container_Command r) (container_Ports r) (container_Env r) (container_VolumeMounts r).
#[export] Instance rebuild_PodSpec : Rebuild PodSpec := λ r,
  mkPodSpec (pod_Containers r) (pod_InitContainers r) (pod_Volumes r) (pod_HostNetwork r)
    (pod_NodeName r) (pod_Hostname r) (pod_Subdomain r) (pod_RestartPolicy r)
    (pod_SchedulerName r).
#[export] Instance rebuild_PodTemplateSpec : Rebuild PodTemplateSpec := λ r,
  mkPodTemplateSpec (template_meta r) (template_Spec r).
#[export] Instance rebuild_ReplicaSpec : Rebuild ReplicaSpec := λ r,
  mkReplicaSpec (Replicas r) (Template r) (RestartPolicy r).
#[export] Instance rebuild_CommonReplicaStatus : Rebuild CommonReplicaStatus := λ r,
  mkCommonReplicaStatus (Active r) (Succeeded r) (Failed r).
#[export] Instance rebuild_JobStatus : Rebuild JobStatus := λ r,
  mkJobStatus (Conditions r) (ReplicaStatuses r) (CompletionTime r).
#[export] Instance rebuild_RunPolicy : Rebuild RunPolicy := λ r,
  mkRunPolicy (CleanPodPolicy r) (SchedulingPolicy r).

#[export] Instance set_meta_Name : Setter meta_Name. Proof. solve_setter. Defined.
#[export] Instance set_meta_GenerateName : Setter meta_GenerateName. Proof. solve_setter. Defined.
#[export] Instance set_meta_Labels : Setter meta_Labels. Proof. solve_setter. Defined.
#[export] Instance set_meta_Annotations : Setter meta_Annotations. Proof. solve_setter. Defined.
#[export] Instance set_meta_Finalizers : Setter meta_Finalizers. Proof. solve_setter. Defined.
#[export] Instance set_container_Ports : Setter container_Ports. Proof. solve_setter. Defined.
#[export] Instance set_container_Env : Setter container_Env. Proof. solve_setter. Defined.
#[export] Instance set_container_VolumeMounts : Setter container_VolumeMounts. Proof. solve_setter. Defined.
#[export] Instance set_pod_Containers : Setter pod_Containers. Proof. solve_setter. Defined.
#[export] Instance set_pod_InitContainers : Setter pod_InitContainers. Proof. solve_setter. Defined.
#[export] Instance set_pod_Volumes : Setter pod_Volumes. Proof. solve_setter. Defined.
#[export] Instance set_pod_HostNetwork : Setter pod_HostNetwork. Proof. solve_setter. Defined.
#[export] Instance set_pod_NodeName : Setter pod_NodeName. Proof. solve_setter. Defined.
#[export] Instance set_pod_Hostname : Setter pod_Hostname. Proof. solve_setter. Defined.
#[export] Instance set_pod_Subdomain : Setter pod_Subdomain. Proof. solve_setter. Defined.
#[export] Instance set_pod_RestartPolicy : Setter pod_RestartPolicy. Proof. solve_setter. Defined.
#[export] Instance set_pod_SchedulerName : Setter pod_SchedulerName. Proof. solve_setter. Defined.
#[export] Instance set_template_meta : Setter template_meta. Proof. solve_setter. Defined.
#[export] Instance set_template_Spec : Setter template_Spec. Proof. solve_setter. Defined.
#[export] Instance set_Replicas : Setter Replicas. Proof. solve_setter. Defined.
#[export] Instance set_Template : Setter Template. Proof. solve_setter. Defined.
#[export] Instance set_RestartPolicy : Setter RestartPolicy. Proof. solve_setter. Defined.
#[export] Instance set_Active : Setter Active. Proof. solve_setter. Defined.
#[export] Instance set_Succeeded : Setter Succeeded. Proof. solve_setter. Defined.
#[export] Instance set_Failed : Setter Failed. Proof. solve_setter. Defined.
#[export] Instance set_ReplicaStatuses : Setter ReplicaStatuses. Proof. solve_setter. Defined.
#[export] Instance set_CompletionTime : Setter CompletionTime. Proof. solve_setter. Defined.
#[export] Instance set_CleanPodPolicy : Setter CleanPodPolicy. Proof. solve_setter. Defined.

(** ** The library functions the operator calls *)

(** Functions of [github.com/kubeflow/common]. *)
Class Kubeflow := {
  (* commonv1.ReplicaTypeLabel, commonv1.ReplicaIndexLabel: the deprecated
     label names, still accepted on reads *)
  Common_ReplicaTypeLabel : string;
  Common_ReplicaIndexLabel : string;
  (* common.KeyFunc: the namespace/name key of a job *)
  KeyFunc : ObjectMeta → go string;
  (* common.GenGeneralName jobName rtype index *)
  GenGeneralName : string → string → string → string;
  (* expectation.GenExpectationPodsKey / ...ServicesKey jobKey replicaType *)
  GenExpectationPodsKey : string → string → string;
  GenExpectationServicesKey : string → string → string;
  (* train.IsRetryableExitCode *)
  IsRetryableExitCode : Z → bool;
  (* util.UpdateJobConditions jobStatus type reason message, at a given time *)
  UpdateJobConditions : Z → JobStatus → string → string → string → JobStatus;
}.

(** [labels.SelectorFromSet(labels.Set{key: value}).Matches(labels)] of
    k8s.io/apimachinery. *)
Class Selectors := {
  SelectorMatches : string → string → gomap string → bool;
}.
