(* ===== verification/Api.v ===== *)
(** * The AresJob resource ([api/v1]) and its metadata keys ([metadata])

    Data and methods of [aresjob_types.go], [common.go], [phase_policy.go],
    [framework_types.go], [labels.go], [utils.go] and [metadata/*.go]. *)

From S2P Require Import Prelude GoStd Errors Kube.

(** ** Constants *)

Definition GangSchedulerName : string := "volcano".
Definition GangSchedulingPodGroupAnnotation : string := "scheduling.k8s.io/group-name".
Definition DefaultMPIHostFilePath : string := "/etc/mpi/hostfile".
Definition AresJobFinalizer : string := "ares.io/ares-finalizer".

(** The fields that objects are indexed by. *)
Definition JobOwnerKey : string := ".metadata.controller".
Definition ReplicaOwnerKey : string := ".metadata.replica-type".
Definition NodeNameKey : string := ".spec.nodeName".

Definition ReplicaIndexLabel : string := "ares.io/replica-index".
Definition ReplicaTypeLabel : string := "ares.io/replica-type".
Definition GroupNameLabel : string := "ares.io/group-name".
Definition JobNameLabel : string := "ares.io/job-name".
Definition JobRoleLabel : string := "ares.io/job-role".

Definition GroupName : string := "ares.io".
Definition AresQueueAnnotationKey : string := GroupName +:+ "/ares-queue".
Definition PreemptableAnnotationKey : string := GroupName +:+ "/preemptable".
Definition JobPriorityAnnotationKey : string := GroupName +:+ "/job-priority".

Definition ControllerPod : string := "Pod".
Definition JobScheduled : string := "Scheduled".
Definition Evicted : string := "Evicted".
Definition Preempted : string := "Preempted".
Definition ErrInvalidDefinition : string := "InvalidDefinition".
Definition ErrPortNotFound : error := Errorf "container port was not found".

Definition FrameworkBagua : string := "bagua".
Definition FrameworkCustom : string := "custom".
Definition FrameworkDask : string := "dask".
Definition FrameworkDemo : string := "demo".
Definition FrameworkMPI : string := "mpi".
Definition FrameworkPytorch : string := "pytorch".
Definition FrameworkStandalone : string := "standalone".
Definition FrameworkTensorflow : string := "tensorflow".

Definition RoleLauncher : string := "launcher".
Definition RoleWorker : string := "worker".
Definition RolePS : string := "ps".
Definition RoleEtcd : string := "etcd".
Definition RoleMaster : string := "master".
Definition RoleScheduler : string := "scheduler".
Definition RoleLeadWorker : string := "leadworker".
Definition RoleChief : string := "chief".
Definition RoleEvaluator : string := "evaluator".

(** [type JobPhase string], [type RolePhase string]: the phases are strings,
    the empty one included, and these are the named ones. *)
Definition JobPhasePending : string := "Pending".
Definition JobPhaseStarting : string := "Starting".
Definition JobPhaseRunning : string := "Running".
Definition JobPhaseFailed : string := "Failed".
Definition JobPhaseSucceeded : string := "Succeeded".

Definition RolePhasePending : string := "Pending".
Definition RolePhaseStarting : string := "Starting".
Definition RolePhaseRunning : string := "Running".
Definition RolePhaseFailed : string := "Failed".
Definition RolePhaseSucceeded : string := "Succeeded".

Definition RolePhaseConditionAnyPod : string := "AnyPod".
Definition RolePhaseConditionAllPods : string := "AllPods".

Definition OMPI : string := "ompi".
Definition MPICH : string := "mpich".

(** ** Data *)

Record JobPhasePolicy := mkJobPhasePolicy {
  policy_Failed : list (list string);
  policy_Succeeded : list (list string);
}.

Record RolePhasePolicy := mkRolePhasePolicy {
  rpolicy_Failed : option string;
  rpolicy_Succeeded : option string;
  rpolicy_NodeDownAsFailed : bool;
}.

Record DependenceSpec := mkDependenceSpec {
  dep_RoleNames : list string;
  dep_RolePhase : string;
  dep_MPIHostFile : option string;
}.

Record RoleSpec := mkRoleSpec {
  role_ReplicaSpec : option ReplicaSpec;       (* embedded pointer *)
  role_RolePhasePolicy : RolePhasePolicy;
  role_Controller : string;
  role_Dependence : option DependenceSpec;
}.

Record BaguaSpec := mkBaguaSpec {
  EnableElastic : bool;
  MinReplicas : option Z;
  MaxReplicas : option Z;
}.

Record MPISpec := mkMPISpec {
  ReplicasPerNode : Z;
  Implementation : string;
}.

Record TensorflowSpec := mkTensorflowSpec {
  EnableDynamicWorker : bool;
}.

Record FrameworkSpec := mkFrameworkSpec {
  fw_Bagua : option BaguaSpec;
  fw_MPI : option MPISpec;
  fw_Tensorflow : option TensorflowSpec;
}.

(** [RoleSpecs] is only read and iterated, so a nil map is the empty one;
    its values are pointers, nil for a JSON null. *)
Record AresJobSpec := mkAresJobSpec {
  spec_TTLSecondsAfterFailed : option Z;
  spec_RunPolicy : RunPolicy;
  spec_AvailablePorts : list Z;
  spec_FrameworkType : string;
  spec_Framework : FrameworkSpec;
  spec_RoleSpecs : gmap string (option RoleSpec);
  spec_JobPhasePolicy : option JobPhasePolicy;
}.

Record ReplicaStatus := mkReplicaStatus {
  rstatus_Common : option CommonReplicaStatus; (* embedded pointer *)
  rstatus_Pending : Z;
  rstatus_Unknown : Z;
  rstatus_Terminating : Z;
}.

Record RoleStatus := mkRoleStatus {
  role_Phase : string;
  role_Reason : string;
  role_Message : string;
  role_LastTransitionTime : option Z;
  role_ReplicaStatus : ReplicaStatus;
}.

Record AresJobStatus := mkAresJobStatus {
  status_JobStatus : option JobStatus;         (* embedded pointer *)
  status_RoleStatuses : gomap (option RoleStatus);
  status_Phase : string;
  status_RunningTime : option Z;
}.

Record AresJob := mkAresJob {
  job_meta : ObjectMeta;
  job_Spec : AresJobSpec;
  job_Status : AresJobStatus;
}.

#[export] Instance rebuild_JobPhasePolicy : Rebuild JobPhasePolicy := λ r,
  mkJobPhasePolicy (policy_Failed r) (policy_Succeeded r).
#[export] Instance rebuild_RolePhasePolicy : Rebuild RolePhasePolicy := λ r,
  mkRolePhasePolicy (rpolicy_Failed r) (rpolicy_Succeeded r) (rpolicy_NodeDownAsFailed r).
#[export] Instance rebuild_RoleSpec : Rebuild RoleSpec := λ r,
  mkRoleSpec (role_ReplicaSpec r) (role_RolePhasePolicy r) (role_Controller r)
    (role_Dependence r).
#[export] Instance rebuild_FrameworkSpec : Rebuild FrameworkSpec := λ r,
  mkFrameworkSpec (fw_Bagua r) (fw_MPI r) (fw_Tensorflow r).
#[export] Instance rebuild_AresJobSpec : Rebuild AresJobSpec := λ r,
  mkAresJobSpec (spec_TTLSecondsAfterFailed r) (spec_RunPolicy r) (spec_AvailablePorts r)
    (spec_FrameworkType r) (spec_Framework r) (spec_RoleSpecs r) (spec_JobPhasePolicy r).
#[export] Instance rebuild_ReplicaStatus : Rebuild ReplicaStatus := λ r,
  mkReplicaStatus (rstatus_Common r) (rstatus_Pending r) (rstatus_Unknown r)
    (rstatus_Terminating r).
#[export] Instance rebuild_RoleStatus : Rebuild RoleStatus := λ r,
  mkRoleStatus (role_Phase r) (role_Reason r) (role_Message r) (role_LastTransitionTime r)
    (role_ReplicaStatus r).
#[export] Instance rebuild_AresJobStatus : Rebuild AresJobStatus := λ r,
  mkAresJobStatus (status_JobStatus r) (status_RoleStatuses r) (status_Phase r)
    (status_RunningTime r).
#[export] Instance rebuild_AresJob : Rebuild AresJob := λ r,
  mkAresJob (job_meta r) (job_Spec r) (job_Status r).

#[export] Instance set_rpolicy_Failed : Setter rpolicy_Failed. Proof. solve_setter. Defined.
#[export] Instance set_rpolicy_Succeeded : Setter rpolicy_Succeeded. Proof. solve_setter. Defined.
#[export] Instance set_rpolicy_NodeDown : Setter rpolicy_NodeDownAsFailed. Proof. solve_setter. Defined.
#[export] Instance set_policy_Failed : Setter policy_Failed. Proof. solve_setter. Defined.
#[export] Instance set_policy_Succeeded : Setter policy_Succeeded. Proof. solve_setter. Defined.
#[export] Instance set_role_ReplicaSpec : Setter role_ReplicaSpec. Proof. solve_setter. Defined.
#[export] Instance set_role_RolePhasePolicy : Setter role_RolePhasePolicy. Proof. solve_setter. Defined.
#[export] Instance set_role_Controller : Setter role_Controller. Proof. solve_setter. Defined.
#[export] Instance set_role_Dependence : Setter role_Dependence. Proof. solve_setter. Defined.
#[export] Instance set_fw_Bagua : Setter fw_Bagua. Proof. solve_setter. Defined.
#[export] Instance set_fw_MPI : Setter fw_MPI. Proof. solve_setter. Defined.
#[export] Instance set_fw_Tensorflow : Setter fw_Tensorflow. Proof. solve_setter. Defined.
#[export] Instance set_spec_RunPolicy : Setter spec_RunPolicy. Proof. solve_setter. Defined.
#[export] Instance set_spec_Framework : Setter spec_Framework. Proof. solve_setter. Defined.
#[export] Instance set_spec_RoleSpecs : Setter spec_RoleSpecs. Proof. solve_setter. Defined.
#[export] Instance set_spec_JobPhasePolicy : Setter spec_JobPhasePolicy. Proof. solve_setter. Defined.
#[export] Instance set_rstatus_Common : Setter rstatus_Common. Proof. solve_setter. Defined.
#[export] Instance set_rstatus_Pending : Setter rstatus_Pending. Proof. solve_setter. Defined.
#[export] Instance set_rstatus_Unknown : Setter rstatus_Unknown. Proof. solve_setter. Defined.
#[export] Instance set_rstatus_Terminating : Setter rstatus_Terminating. Proof. solve_setter. Defined.
#[export] Instance set_role_Phase : Setter role_Phase. Proof. solve_setter. Defined.
#[export] Instance set_role_Reason : Setter role_Reason. Proof. solve_setter. Defined.
#[export] Instance set_role_Message : Setter role_Message. Proof. solve_setter. Defined.
#[export] Instance set_role_LastTransition : Setter role_LastTransitionTime. Proof. solve_setter. Defined.
#[export] Instance set_role_ReplicaStatus : Setter role_ReplicaStatus. Proof. solve_setter. Defined.
#[export] Instance set_status_JobStatus : Setter status_JobStatus. Proof. solve_setter. Defined.
#[export] Instance set_status_RoleStatuses : Setter status_RoleStatuses. Proof. solve_setter. Defined.
#[export] Instance set_status_Phase : Setter status_Phase. Proof. solve_setter. Defined.
#[export] Instance set_status_RunningTime : Setter status_RunningTime. Proof. solve_setter. Defined.
#[export] Instance set_job_meta : Setter job_meta. Proof. solve_setter. Defined.
#[export] Instance set_job_Spec : Setter job_Spec. Proof. solve_setter. Defined.
#[export] Instance set_job_Status : Setter job_Status. Proof. solve_setter. Defined.

Definition zero_ReplicaStatus : ReplicaStatus := mkReplicaStatus None 0 0 0.
Definition zero_RolePhasePolicy : RolePhasePolicy := mkRolePhasePolicy None None false.

(** [job.Spec.RoleSpecs[role]]: nil when absent. *)
Definition role_spec (spec : AresJobSpec) (role : string) : option RoleSpec :=
  mjoin (spec_RoleSpecs spec !! role).

(** The fields of the embedded [*commonv1.ReplicaSpec], promoted. *)
Definition spec_Replicas (spec : RoleSpec) : go (option Z) :=
  rs ← deref (role_ReplicaSpec spec); Done (Replicas rs).
Definition spec_RestartPolicy (spec : RoleSpec) : go string :=
  rs ← deref (role_ReplicaSpec spec); Done (RestartPolicy rs).
Definition spec_Template (spec : RoleSpec) : go PodTemplateSpec :=
  rs ← deref (role_ReplicaSpec spec); Done (Template rs).

(** [status.RoleStatuses[role]]: nil when absent. *)
Definition role_status (status : AresJobStatus) (role : string) : option RoleStatus :=
  mjoin (status_RoleStatuses status !? role).

(** ** Methods of [AresJobSpec] *)

Section methods.
Context `{MapOrder}.

Definition GetReplicaSpecs (spec : AresJobSpec) : go (gmap string (option ReplicaSpec)) :=
  fold_res (λ replicaSpecs '(replicaType, roleSpec),
    rs ← deref roleSpec;
    Done (<[replicaType := role_ReplicaSpec rs]> replicaSpecs)) ∅ (range 0 (spec_RoleSpecs spec)).

Definition GetTotalReplicas (s : AresJobSpec) : go Z :=
  fold_res (λ count '(_, spec),
    match spec with
    | None => Done count
    | Some spec =>
        replicas ← spec_Replicas spec;
        match replicas with
        | Some n => Done (wrap32 (count + n))
        | None => Done count
        end
    end) 0 (range 0 (spec_RoleSpecs s)).

Definition GetRoleReplicas (s : AresJobSpec) (role : string) : go Z :=
  match role_spec s role with
  | None => Done 0
  | Some spec => replicas ← spec_Replicas spec; Done (default 0 replicas)
  end.

Definition GetRolesReplicas (s : AresJobSpec) (roles : list string) : go Z :=
  fold_res (λ count role, n ← GetRoleReplicas s role; Done (wrap32 (count + n))) 0 roles.

Definition HasRoles (s : AresJobSpec) (roles : list string) : bool :=
  forallb (λ role, bool_decide (is_Some (spec_RoleSpecs s !! role))) roles.

Definition EnableGangScheduling (spec : AresJobSpec) : bool :=
  match SchedulingPolicy (spec_RunPolicy spec) with
  | Some (Some _) => true
  | _ => false
  end.

Fixpoint HasDependence_loop (l : list (string * option RoleSpec)) : go bool :=
  match l with
  | [] => Done false
  | (_, roleSpec) :: l =>
      spec ← deref roleSpec;
      if role_Dependence spec then Done true else HasDependence_loop l
  end.
Definition HasDependence (spec : AresJobSpec) : go bool :=
  HasDependence_loop (range 0 (spec_RoleSpecs spec)).

Definition CheckRolesExist (spec : AresJobSpec) (roles : list string) : go unit :=
  if forallb (λ role, bool_decide (is_Some (role_spec spec role))) roles then Done tt
  else Fail (Errorf ("roles([" +:+ Join roles " " +:+ "]) not exist")).
End methods.

(** ** Methods of [AresJobStatus] *)

Definition RolePhase (status : AresJobStatus) (rtype : string) : go string :=
  match status_RoleStatuses status !? rtype with
  | Some s => rs ← deref s; Done (role_Phase rs)
  | None => Done RolePhasePending
  end.

Definition status_Evicted (status : AresJobStatus) : go bool :=
  if decide (status_Phase status ≠ JobPhaseFailed) then Done false
  else
    js ← deref (status_JobStatus status);
    Done (existsb (λ cond,
      bool_decide (jcond_Type cond = JobFailed) &&
      bool_decide (jcond_Status cond = ConditionTrue) &&
      bool_decide (jcond_Reason cond = Preempted)) (Conditions js)).

(** ** Free functions *)

Definition MetaReplicaKeyFormat (jobName rtype : string) : string :=
  jobName +:+ "/" +:+ ToLower rtype.

Definition JobPhaseToCondition (phase : string) : string :=
  if decide (phase = JobPhasePending ∨ phase = JobPhaseStarting) then JobCreated
  else if decide (phase = JobPhaseRunning) then JobRunning
  else if decide (phase = JobPhaseFailed) then JobFailed
  else if decide (phase = JobPhaseSucceeded) then JobSucceeded
  else JobCreated.

Definition MPISpec_Validate (spec : option MPISpec) : go unit :=
  spec ← deref spec;
  if decide (Implementation spec ≠ OMPI ∧ Implementation spec ≠ MPICH)
  then Fail (Errorf ("unsupported mpi implementation:" +:+ Implementation spec))
  else Done tt.

Definition GetRolesIntersection (roleSpecs : gmap string (option RoleSpec))
    (roles : list string) : list string :=
  filter (λ r, r ∈ dom roleSpecs) roles.

Definition IsJobLevelKey (key : string) : bool :=
  bool_decide (key = AresQueueAnnotationKey) ||
  bool_decide (key = PreemptableAnnotationKey) ||
  bool_decide (key = JobPriorityAnnotationKey).
