(* ===== verification/DeepCopy.v ===== *)
(** * Deep copies ([api/v1/zz_generated.deepcopy.go])

    The methods [DeepCopyInto], [DeepCopy] and [DeepCopyObject] of the types
    of [api/v1], on a heap: here a struct is what lies in memory, with pointers,
    slices and maps as locations, and [rep_X] relates it to the value that the
    rest of the development works with.

    A method [DeepCopyInto] takes what [in] points to and returns what it leaves
    in [out]: [*out = *in] and then the fields it overwrites.  The objects of
    the libraries have their own methods, the parameters of [Library] and
    [LibraryCopies]; what is documented of them is [LibraryLaws]. *)

From S2P Require Import Prelude Errors Kube Api Heap.

(** The library structs embedded in or pointed to by those of [api/v1], and
    the other cells that they use. *)
Class Library := {
  lib_cell : Type;
  ObjectMetaS : Type;
  ListMetaS : Type;
  RunPolicyS : Type;
  ReplicaSpecS : Type;
  JobStatusS : Type;
  ListMeta : Type;
}.

(** ** The structs in memory *)

Record BaguaSpecS := mkBaguaSpecS {
  m_EnableElastic : bool;
  m_MinReplicas : option positive;
  m_MaxReplicas : option positive;
}.

Record FrameworkSpecS := mkFrameworkSpecS {
  m_Bagua : option positive;
  m_MPI : option positive;
  m_Tensorflow : option positive;
}.

Record JobPhasePolicyS := mkJobPhasePolicyS {
  m_policy_Failed : option slice;
  m_policy_Succeeded : option slice;
}.

Record RolePhasePolicyS := mkRolePhasePolicyS {
  m_rpolicy_Failed : option positive;
  m_rpolicy_Succeeded : option positive;
  m_NodeDownAsFailed : bool;
}.

Record DependenceSpecS := mkDependenceSpecS {
  m_RoleNames : option slice;
  m_dep_RolePhase : string;
  m_MPIHostFile : option positive;
}.

Record RoleSpecS := mkRoleSpecS {
  m_ReplicaSpec : option positive;
  m_RolePhasePolicy : RolePhasePolicyS;
  m_Controller : string;
  m_Dependence : option positive;
}.

Record ReplicaStatusS := mkReplicaStatusS {
  m_rstatus_Common : option positive;
  m_Pending : Z;
  m_Unknown : Z;
  m_Terminating : Z;
}.

(** A time, as everywhere, is the instant. *)
Record RoleStatusS := mkRoleStatusS {
  m_role_Phase : string;
  m_Reason : string;
  m_Message : string;
  m_LastTransitionTime : option Z;
  m_ReplicaStatus : ReplicaStatusS;
}.

Record AresJobStatusS := mkAresJobStatusS {
  m_JobStatus : option positive;
  m_RoleStatuses : option positive;
  m_status_Phase : string;
  m_RunningTime : option positive;
}.

Record TypeMeta := mkTypeMeta { type_Kind : string; type_APIVersion : string }.

Section structs.
Context `{Library}.

Record AresJobSpecS := mkAresJobSpecS {
  m_TTLSecondsAfterFailed : option positive;
  m_RunPolicy : RunPolicyS;
  m_AvailablePorts : option slice;
  m_FrameworkType : string;
  m_Framework : FrameworkSpecS;
  m_RoleSpecs : option positive;
  m_JobPhasePolicy : option positive;
}.

Record AresJobS := mkAresJobS {
  m_TypeMeta : TypeMeta;
  m_ObjectMeta : ObjectMetaS;
  m_Spec : AresJobSpecS;
  m_Status : AresJobStatusS;
}.

Record AresJobListS := mkAresJobListS {
  m_list_TypeMeta : TypeMeta;
  m_ListMeta : ListMetaS;
  m_Items : option slice;
}.

(** What a location holds. *)
Inductive cell :=
| cell_int (z : Z)
| cell_string (s : string)
| cell_time (t : option Z)
| cell_ints (l : list Z)
| cell_strings (l : list string)
| cell_slices (l : list (option slice))
| cell_pointers (m : gmap string (option positive))
| cell_jobs (l : list AresJobS)
| cell_Bagua (t : BaguaSpecS)
| cell_MPI (t : MPISpec)
| cell_Tensorflow (t : TensorflowSpec)
| cell_Framework (t : FrameworkSpecS)
| cell_JobPhasePolicy (t : JobPhasePolicyS)
| cell_RolePhasePolicy (t : RolePhasePolicyS)
| cell_Dependence (t : DependenceSpecS)
| cell_RoleSpec (t : RoleSpecS)
| cell_ReplicaStatus (t : ReplicaStatusS)
| cell_CommonReplicaStatus (t : CommonReplicaStatus)
| cell_RoleStatus (t : RoleStatusS)
| cell_Spec (t : AresJobSpecS)
| cell_Status (t : AresJobStatusS)
| cell_AresJob (t : AresJobS)
| cell_AresJobList (t : AresJobListS)
| cell_ReplicaSpec (t : ReplicaSpecS)
| cell_JobStatus (t : JobStatusS)
| cell_lib (t : lib_cell).
#[export] Instance stored_int : Stored cell Z :=
  {| inj := cell_int; proj c := match c with cell_int t => Some t | _ => None end; proj_inj t := eq_refl |}.
#[export] Instance stored_string : Stored cell string :=
  {| inj := cell_string; proj c := match c with cell_string t => Some t | _ => None end; proj_inj t := eq_refl |}.
#[export] Instance stored_time : Stored cell (option Z) :=
  {| inj := cell_time; proj c := match c with cell_time t => Some t | _ => None end; proj_inj t := eq_refl |}.
#[export] Instance stored_ints : Stored cell (list Z) :=
  {| inj := cell_ints; proj c := match c with cell_ints t => Some t | _ => None end; proj_inj t := eq_refl |}.
#[export] Instance stored_strings : Stored cell (list string) :=
  {| inj := cell_strings; proj c := match c with cell_strings t => Some t | _ => None end; proj_inj t := eq_refl |}.
#[export] Instance stored_slices : Stored cell (list (option slice)) :=
  {| inj := cell_slices; proj c := match c with cell_slices t => Some t | _ => None end; proj_inj t := eq_refl |}.
#[export] Instance stored_pointers : Stored cell (gmap string (option positive)) :=
  {| inj := cell_pointers; proj c := match c with cell_pointers t => Some t | _ => None end; proj_inj t := eq_refl |}.
#[export] Instance stored_jobs : Stored cell (list AresJobS) :=
  {| inj := cell_jobs; proj c := match c with cell_jobs t => Some t | _ => None end; proj_inj t := eq_refl |}.
#[export] Instance stored_Bagua : Stored cell BaguaSpecS :=
  {| inj := cell_Bagua; proj c := match c with cell_Bagua t => Some t | _ => None end; proj_inj t := eq_refl |}.
#[export] Instance stored_MPI : Stored cell MPISpec :=
  {| inj := cell_MPI; proj c := match c with cell_MPI t => Some t | _ => None end; proj_inj t := eq_refl |}.
#[export] Instance stored_Tensorflow : Stored cell TensorflowSpec :=
  {| inj := cell_Tensorflow; proj c := match c with cell_Tensorflow t => Some t | _ => None end; proj_inj t := eq_refl |}.
#[export] Instance stored_Framework : Stored cell FrameworkSpecS :=
  {| inj := cell_Framework; proj c := match c with cell_Framework t => Some t | _ => None end; proj_inj t := eq_refl |}.
#[export] Instance stored_JobPhasePolicy : Stored cell JobPhasePolicyS :=
  {| inj := cell_JobPhasePolicy; proj c := match c with cell_JobPhasePolicy t => Some t | _ => None end; proj_inj t := eq_refl |}.
#[export] Instance stored_RolePhasePolicy : Stored cell RolePhasePolicyS :=
  {| inj := cell_RolePhasePolicy; proj c := match c with cell_RolePhasePolicy t => Some t | _ => None end; proj_inj t := eq_refl |}.
#[export] Instance stored_Dependence : Stored cell DependenceSpecS :=
  {| inj := cell_Dependence; proj c := match c with cell_Dependence t => Some t | _ => None end; proj_inj t := eq_refl |}.
#[export] Instance stored_RoleSpec : Stored cell RoleSpecS :=
  {| inj := cell_RoleSpec; proj c := match c with cell_RoleSpec t => Some t | _ => None end; proj_inj t := eq_refl |}.
#[export] Instance stored_ReplicaStatus : Stored cell ReplicaStatusS :=
  {| inj := cell_ReplicaStatus; proj c := match c with cell_ReplicaStatus t => Some t | _ => None end; proj_inj t := eq_refl |}.
#[export] Instance stored_CommonReplicaStatus : Stored cell CommonReplicaStatus :=
  {| inj := cell_CommonReplicaStatus; proj c := match c with cell_CommonReplicaStatus t => Some t | _ => None end; proj_inj t := eq_refl |}.
#[export] Instance stored_RoleStatus : Stored cell RoleStatusS :=
  {| inj := cell_RoleStatus; proj c := match c with cell_RoleStatus t => Some t | _ => None end; proj_inj t := eq_refl |}.
#[export] Instance stored_Spec : Stored cell AresJobSpecS :=
  {| inj := cell_Spec; proj c := match c with cell_Spec t => Some t | _ => None end; proj_inj t := eq_refl |}.
#[export] Instance stored_Status : Stored cell AresJobStatusS :=
  {| inj := cell_Status; proj c := match c with cell_Status t => Some t | _ => None end; proj_inj t := eq_refl |}.
#[export] Instance stored_AresJob : Stored cell AresJobS :=
  {| inj := cell_AresJob; proj c := match c with cell_AresJob t => Some t | _ => None end; proj_inj t := eq_refl |}.
#[export] Instance stored_AresJobList : Stored cell AresJobListS :=
  {| inj := cell_AresJobList; proj c := match c with cell_AresJobList t => Some t | _ => None end; proj_inj t := eq_refl |}.
#[export] Instance stored_ReplicaSpec : Stored cell ReplicaSpecS :=
  {| inj := cell_ReplicaSpec; proj c := match c with cell_ReplicaSpec t => Some t | _ => None end; proj_inj t := eq_refl |}.
#[export] Instance stored_JobStatus : Stored cell JobStatusS :=
  {| inj := cell_JobStatus; proj c := match c with cell_JobStatus t => Some t | _ => None end; proj_inj t := eq_refl |}.
End structs.

(** The copying methods of the library structs. *)
Class LibraryCopies `{Library} := {
  ObjectMeta_DeepCopyInto : ObjectMetaS → mem cell ObjectMetaS;
  ListMeta_DeepCopyInto : ListMetaS → mem cell ListMetaS;
  RunPolicy_DeepCopyInto : RunPolicyS → mem cell RunPolicyS;
  ReplicaSpec_DeepCopyInto : ReplicaSpecS → mem cell ReplicaSpecS;
  JobStatus_DeepCopyInto : JobStatusS → mem cell JobStatusS;
  Time_DeepCopyInto : option Z → mem cell (option Z);
  Time_DeepCopy : option positive → mem cell (option positive);
}.

(** ** The methods *)

Section methods.
Context `{MapOrder, LibraryCopies}.

(** The method [DeepCopy] of a type is [copy_ptr] of its [DeepCopyInto]: nil for
    nil, otherwise a new struct that [DeepCopyInto] fills. *)

Definition BaguaSpec_DeepCopyInto (t : BaguaSpecS) : mem cell BaguaSpecS :=
  min ← copy_ptr (T := Z) mret (m_MinReplicas t);
  max ← copy_ptr (T := Z) mret (m_MaxReplicas t);
  mret (mkBaguaSpecS (m_EnableElastic t) min max).
Definition BaguaSpec_DeepCopy := copy_ptr BaguaSpec_DeepCopyInto.

Definition MPISpec_DeepCopyInto (t : MPISpec) : mem cell MPISpec := mret t.
Definition MPISpec_DeepCopy := copy_ptr MPISpec_DeepCopyInto.

Definition TensorflowSpec_DeepCopyInto (t : TensorflowSpec) : mem cell TensorflowSpec := mret t.
Definition TensorflowSpec_DeepCopy := copy_ptr TensorflowSpec_DeepCopyInto.

Definition FrameworkSpec_DeepCopyInto (t : FrameworkSpecS) : mem cell FrameworkSpecS :=
  bagua ← copy_ptr BaguaSpec_DeepCopyInto (m_Bagua t);
  mpi ← copy_ptr (T := MPISpec) mret (m_MPI t);
  tensorflow ← copy_ptr (T := TensorflowSpec) mret (m_Tensorflow t);
  mret (mkFrameworkSpecS bagua mpi tensorflow).
Definition FrameworkSpec_DeepCopy := copy_ptr FrameworkSpec_DeepCopyInto.

Definition JobPhasePolicy_DeepCopyInto (t : JobPhasePolicyS) : mem cell JobPhasePolicyS :=
  failed ← copy_slice (copy_slice (T := string) mret) (m_policy_Failed t);
  succeeded ← copy_slice (copy_slice (T := string) mret) (m_policy_Succeeded t);
  mret (mkJobPhasePolicyS failed succeeded).
Definition JobPhasePolicy_DeepCopy := copy_ptr JobPhasePolicy_DeepCopyInto.

Definition RolePhasePolicy_DeepCopyInto (t : RolePhasePolicyS) : mem cell RolePhasePolicyS :=
  failed ← copy_ptr (T := string) mret (m_rpolicy_Failed t);
  succeeded ← copy_ptr (T := string) mret (m_rpolicy_Succeeded t);
  mret (mkRolePhasePolicyS failed succeeded (m_NodeDownAsFailed t)).
Definition RolePhasePolicy_DeepCopy := copy_ptr RolePhasePolicy_DeepCopyInto.

Definition DependenceSpec_DeepCopyInto (t : DependenceSpecS) : mem cell DependenceSpecS :=
  names ← copy_slice (T := string) mret (m_RoleNames t);
  hostFile ← copy_ptr (T := string) mret (m_MPIHostFile t);
  mret (mkDependenceSpecS names (m_dep_RolePhase t) hostFile).
Definition DependenceSpec_DeepCopy := copy_ptr DependenceSpec_DeepCopyInto.

Definition RoleSpec_DeepCopyInto (t : RoleSpecS) : mem cell RoleSpecS :=
  spec ← copy_ptr ReplicaSpec_DeepCopyInto (m_ReplicaSpec t);
  policy ← RolePhasePolicy_DeepCopyInto (m_RolePhasePolicy t);
  dependence ← copy_ptr DependenceSpec_DeepCopyInto (m_Dependence t);
  mret (mkRoleSpecS spec policy (m_Controller t) dependence).
Definition RoleSpec_DeepCopy := copy_ptr RoleSpec_DeepCopyInto.

Definition ReplicaStatus_DeepCopyInto (t : ReplicaStatusS) : mem cell ReplicaStatusS :=
  status ← copy_ptr (T := CommonReplicaStatus) mret (m_rstatus_Common t);
  mret (mkReplicaStatusS status (m_Pending t) (m_Unknown t) (m_Terminating t)).
Definition ReplicaStatus_DeepCopy := copy_ptr ReplicaStatus_DeepCopyInto.

Definition RoleStatus_DeepCopyInto (t : RoleStatusS) : mem cell RoleStatusS :=
  time ← Time_DeepCopyInto (m_LastTransitionTime t);
  status ← ReplicaStatus_DeepCopyInto (m_ReplicaStatus t);
  mret (mkRoleStatusS (m_role_Phase t) (m_Reason t) (m_Message t) time status).
Definition RoleStatus_DeepCopy := copy_ptr RoleStatus_DeepCopyInto.

Definition AresJobSpec_DeepCopyInto (t : AresJobSpecS) : mem cell AresJobSpecS :=
  ttl ← copy_ptr (T := Z) mret (m_TTLSecondsAfterFailed t);
  runPolicy ← RunPolicy_DeepCopyInto (m_RunPolicy t);
  ports ← copy_slice (T := Z) mret (m_AvailablePorts t);
  framework ← FrameworkSpec_DeepCopyInto (m_Framework t);
  roles ← copy_map (copy_ptr RoleSpec_DeepCopyInto) (m_RoleSpecs t);
  policy ← copy_ptr JobPhasePolicy_DeepCopyInto (m_JobPhasePolicy t);
  mret (mkAresJobSpecS ttl runPolicy ports (m_FrameworkType t) framework roles policy).
Definition AresJobSpec_DeepCopy := copy_ptr AresJobSpec_DeepCopyInto.

(** [if in.RunningTime != nil { out.RunningTime = in.RunningTime.DeepCopy() }] *)
Definition copy_time (p : option positive) : mem cell (option positive) :=
  match p with
  | Some _ => Time_DeepCopy p
  | None => mret None
  end.

Definition AresJobStatus_DeepCopyInto (t : AresJobStatusS) : mem cell AresJobStatusS :=
  status ← copy_ptr JobStatus_DeepCopyInto (m_JobStatus t);
  roles ← copy_map (copy_ptr RoleStatus_DeepCopyInto) (m_RoleStatuses t);
  time ← copy_time (m_RunningTime t);
  mret (mkAresJobStatusS status roles (m_status_Phase t) time).
Definition AresJobStatus_DeepCopy := copy_ptr AresJobStatus_DeepCopyInto.

Definition AresJob_DeepCopyInto (t : AresJobS) : mem cell AresJobS :=
  objectMeta ← ObjectMeta_DeepCopyInto (m_ObjectMeta t);
  spec ← AresJobSpec_DeepCopyInto (m_Spec t);
  status ← AresJobStatus_DeepCopyInto (m_Status t);
  mret (mkAresJobS (m_TypeMeta t) objectMeta spec status).
Definition AresJob_DeepCopy := copy_ptr AresJob_DeepCopyInto.
Definition AresJob_DeepCopyObject (p : option positive) : mem cell (option positive) :=
  c ← AresJob_DeepCopy p;
  match c with Some c => mret (Some c) | None => mret None end.

Definition AresJobList_DeepCopyInto (t : AresJobListS) : mem cell AresJobListS :=
  listMeta ← ListMeta_DeepCopyInto (m_ListMeta t);
  items ← copy_slice AresJob_DeepCopyInto (m_Items t);
  mret (mkAresJobListS (m_list_TypeMeta t) listMeta items).
Definition AresJobList_DeepCopy := copy_ptr AresJobList_DeepCopyInto.
Definition AresJobList_DeepCopyObject (p : option positive) : mem cell (option positive) :=
  c ← AresJobList_DeepCopy p;
  match c with Some c => mret (Some c) | None => mret None end.
End methods.

(** ** What the structs represent *)

(** The lists and maps of Api do not tell nil from empty. *)
Definition rep_slice_list `{Library} {T V} `{Stored cell (list T)} (rep : repr cell T V) : repr cell (option slice) (list V) :=
  rep_as (default []) (rep_slice rep).
Definition rep_map_contents `{Library} {V} (rep : repr cell (option positive) V) : repr cell (option positive) (gmap string V) :=
  rep_as contents (rep_map rep).
(** A time that is not zero. *)
Definition rep_Time `{Library} : repr cell (option Z) Z := λ s t z, emp (t = Some z).

(** What is documented of the library structs: their methods copy them. *)
Class LibraryLaws `{LibraryCopies} := {
  rep_ObjectMeta : repr cell ObjectMetaS ObjectMeta;
  rep_ListMeta : repr cell ListMetaS ListMeta;
  rep_RunPolicy : repr cell RunPolicyS RunPolicy;
  rep_ReplicaSpec : repr cell ReplicaSpecS ReplicaSpec;
  rep_JobStatus : repr cell JobStatusS JobStatus;
  local_ObjectMeta :: LocalRep rep_ObjectMeta;
  local_ListMeta :: LocalRep rep_ListMeta;
  local_RunPolicy :: LocalRep rep_RunPolicy;
  local_ReplicaSpec :: LocalRep rep_ReplicaSpec;
  local_JobStatus :: LocalRep rep_JobStatus;
  copies_ObjectMeta :: Copies ObjectMeta_DeepCopyInto rep_ObjectMeta;
  copies_ListMeta :: Copies ListMeta_DeepCopyInto rep_ListMeta;
  copies_RunPolicy :: Copies RunPolicy_DeepCopyInto rep_RunPolicy;
  copies_ReplicaSpec :: Copies ReplicaSpec_DeepCopyInto rep_ReplicaSpec;
  copies_JobStatus :: Copies JobStatus_DeepCopyInto rep_JobStatus;
  copies_Time :: Copies Time_DeepCopyInto rep_flat;
  copies_Time_ptr :: Copies Time_DeepCopy (rep_ptr rep_Time);
}.

Section representations.
Context `{MapOrder, LibraryLaws}.

Definition rep_BaguaSpec : repr cell BaguaSpecS BaguaSpec := λ s t v,
  sep s (rep_ptr rep_flat s (m_MinReplicas t) (MinReplicas v))
    (sep s (rep_ptr rep_flat s (m_MaxReplicas t) (MaxReplicas v))
      (emp (m_EnableElastic t = EnableElastic v))).

Definition rep_FrameworkSpec : repr cell FrameworkSpecS FrameworkSpec := λ s t v,
  sep s (rep_ptr rep_BaguaSpec s (m_Bagua t) (fw_Bagua v))
    (sep s (rep_ptr rep_flat s (m_MPI t) (fw_MPI v))
      (sep s (rep_ptr rep_flat s (m_Tensorflow t) (fw_Tensorflow v)) (emp True))).

Definition rep_JobPhasePolicy : repr cell JobPhasePolicyS JobPhasePolicy := λ s t v,
  sep s (rep_slice_list (rep_slice_list rep_flat) s (m_policy_Failed t) (policy_Failed v))
    (sep s (rep_slice_list (rep_slice_list rep_flat) s (m_policy_Succeeded t) (policy_Succeeded v)) (emp True)).

Definition rep_RolePhasePolicy : repr cell RolePhasePolicyS RolePhasePolicy := λ s t v,
  sep s (rep_ptr rep_flat s (m_rpolicy_Failed t) (rpolicy_Failed v))
    (sep s (rep_ptr rep_flat s (m_rpolicy_Succeeded t) (rpolicy_Succeeded v))
      (emp (m_NodeDownAsFailed t = rpolicy_NodeDownAsFailed v))).

Definition rep_DependenceSpec : repr cell DependenceSpecS DependenceSpec := λ s t v,
  sep s (rep_slice_list rep_flat s (m_RoleNames t) (dep_RoleNames v))
    (sep s (rep_ptr rep_flat s (m_MPIHostFile t) (dep_MPIHostFile v))
      (emp (m_dep_RolePhase t = dep_RolePhase v))).

Definition rep_RoleSpec : repr cell RoleSpecS RoleSpec := λ s t v,
  sep s (rep_ptr rep_ReplicaSpec s (m_ReplicaSpec t) (role_ReplicaSpec v))
    (sep s (rep_RolePhasePolicy s (m_RolePhasePolicy t) (role_RolePhasePolicy v))
      (sep s (rep_ptr rep_DependenceSpec s (m_Dependence t) (role_Dependence v))
        (emp (m_Controller t = role_Controller v)))).

Definition rep_ReplicaStatus : repr cell ReplicaStatusS ReplicaStatus := λ s t v,
  sep s (rep_ptr rep_flat s (m_rstatus_Common t) (rstatus_Common v))
    (emp (m_Pending t = rstatus_Pending v ∧ m_Unknown t = rstatus_Unknown v ∧ m_Terminating t = rstatus_Terminating v)).

Definition rep_RoleStatus : repr cell RoleStatusS RoleStatus := λ s t v,
  sep s (rep_flat s (m_LastTransitionTime t) (role_LastTransitionTime v))
    (sep s (rep_ReplicaStatus s (m_ReplicaStatus t) (role_ReplicaStatus v))
      (emp (m_role_Phase t = role_Phase v ∧ m_Reason t = role_Reason v ∧ m_Message t = role_Message v))).

Definition rep_AresJobSpec : repr cell AresJobSpecS AresJobSpec := λ s t v,
  sep s (rep_ptr rep_flat s (m_TTLSecondsAfterFailed t) (spec_TTLSecondsAfterFailed v))
    (sep s (rep_RunPolicy s (m_RunPolicy t) (spec_RunPolicy v))
      (sep s (rep_slice_list rep_flat s (m_AvailablePorts t) (spec_AvailablePorts v))
        (sep s (rep_FrameworkSpec s (m_Framework t) (spec_Framework v))
          (sep s (rep_map_contents (rep_ptr rep_RoleSpec) s (m_RoleSpecs t) (spec_RoleSpecs v))
            (sep s (rep_ptr rep_JobPhasePolicy s (m_JobPhasePolicy t) (spec_JobPhasePolicy v))
              (emp (m_FrameworkType t = spec_FrameworkType v))))))).

Definition rep_AresJobStatus : repr cell AresJobStatusS AresJobStatus := λ s t v,
  sep s (rep_ptr rep_JobStatus s (m_JobStatus t) (status_JobStatus v))
    (sep s (rep_map (rep_ptr rep_RoleStatus) s (m_RoleStatuses t) (status_RoleStatuses v))
      (sep s (rep_ptr rep_Time s (m_RunningTime t) (status_RunningTime v))
        (emp (m_status_Phase t = status_Phase v)))).

(** The type of an object is not part of [AresJob]. *)
Definition rep_AresJob : repr cell AresJobS (TypeMeta * AresJob) := λ s t v,
  sep s (rep_ObjectMeta s (m_ObjectMeta t) (job_meta v.2))
    (sep s (rep_AresJobSpec s (m_Spec t) (job_Spec v.2))
      (sep s (rep_AresJobStatus s (m_Status t) (job_Status v.2))
        (emp (m_TypeMeta t = v.1)))).

Definition rep_AresJobList : repr cell AresJobListS (TypeMeta * ListMeta * list (TypeMeta * AresJob)) := λ s t v,
  sep s (rep_ListMeta s (m_ListMeta t) v.1.2)
    (sep s (rep_slice_list rep_AresJob s (m_Items t) v.2)
      (emp (m_list_TypeMeta t = v.1.1))).

(** ** The methods copy *)

#[export] Instance local_slice_list {T V} `{Stored cell (list T)} (rep : repr cell T V) : LocalRep rep → LocalRep (rep_slice_list rep).
Proof. apply _. Qed.
#[export] Instance local_map_contents {V} (rep : repr cell (option positive) V) : LocalRep rep → LocalRep (rep_map_contents rep).
Proof. apply _. Qed.
#[export] Instance local_Time : LocalRep rep_Time.
Proof. intros s t v. apply _. Qed.
#[export] Instance local_BaguaSpec : LocalRep rep_BaguaSpec.
Proof. intros s t v. apply _. Qed.
#[export] Instance local_FrameworkSpec : LocalRep rep_FrameworkSpec.
Proof. intros s t v. apply _. Qed.
#[export] Instance local_JobPhasePolicy : LocalRep rep_JobPhasePolicy.
Proof. intros s t v. apply _. Qed.
#[export] Instance local_RolePhasePolicy : LocalRep rep_RolePhasePolicy.
Proof. intros s t v. apply _. Qed.
#[export] Instance local_DependenceSpec : LocalRep rep_DependenceSpec.
Proof. intros s t v. apply _. Qed.
#[export] Instance local_RoleSpec : LocalRep rep_RoleSpec.
Proof. intros s t v. apply _. Qed.
#[export] Instance local_ReplicaStatus : LocalRep rep_ReplicaStatus.
Proof. intros s t v. apply _. Qed.
#[export] Instance local_RoleStatus : LocalRep rep_RoleStatus.
Proof. intros s t v. apply _. Qed.
#[export] Instance local_AresJobSpec : LocalRep rep_AresJobSpec.
Proof. intros s t v. apply _. Qed.
#[export] Instance local_AresJobStatus : LocalRep rep_AresJobStatus.
Proof. intros s t v. apply _. Qed.
#[export] Instance local_AresJob : LocalRep rep_AresJob.
Proof. intros s t v. apply _. Qed.
#[export] Instance local_AresJobList : LocalRep rep_AresJobList.
Proof. intros s t v. apply _. Qed.

#[export] Instance copies_slice_list {T V} `{Stored cell (list T)} f (rep : repr cell T V) :
  LocalRep rep → Copies f rep → Copies (copy_slice f) (rep_slice_list rep).
Proof. apply _. Qed.
#[export] Instance copies_map_contents {V} f (rep : repr cell (option positive) V) :
  LocalRep rep → Copies f rep → Copies (copy_map f) (rep_map_contents rep).
Proof. apply _. Qed.
#[export] Instance copies_time : Copies copy_time (rep_ptr rep_Time).
Proof. intros h [l|] v L; [apply copies_Time_ptr|]. destruct v; [by intros [[] _]|intros _; by apply makes_ret]. Qed.

#[export] Instance copies_BaguaSpec : Copies BaguaSpec_DeepCopyInto rep_BaguaSpec.
Proof. copy_struct rep_BaguaSpec BaguaSpec_DeepCopyInto. Qed.
#[export] Instance copies_FrameworkSpec : Copies FrameworkSpec_DeepCopyInto rep_FrameworkSpec.
Proof. copy_struct rep_FrameworkSpec FrameworkSpec_DeepCopyInto. Qed.
#[export] Instance copies_JobPhasePolicy : Copies JobPhasePolicy_DeepCopyInto rep_JobPhasePolicy.
Proof. copy_struct rep_JobPhasePolicy JobPhasePolicy_DeepCopyInto. Qed.
#[export] Instance copies_RolePhasePolicy : Copies RolePhasePolicy_DeepCopyInto rep_RolePhasePolicy.
Proof. copy_struct rep_RolePhasePolicy RolePhasePolicy_DeepCopyInto. Qed.
#[export] Instance copies_DependenceSpec : Copies DependenceSpec_DeepCopyInto rep_DependenceSpec.
Proof. copy_struct rep_DependenceSpec DependenceSpec_DeepCopyInto. Qed.
#[export] Instance copies_RoleSpec : Copies RoleSpec_DeepCopyInto rep_RoleSpec.
Proof. copy_struct rep_RoleSpec RoleSpec_DeepCopyInto. Qed.
#[export] Instance copies_ReplicaStatus : Copies ReplicaStatus_DeepCopyInto rep_ReplicaStatus.
Proof. copy_struct rep_ReplicaStatus ReplicaStatus_DeepCopyInto. Qed.
#[export] Instance copies_RoleStatus : Copies RoleStatus_DeepCopyInto rep_RoleStatus.
Proof. copy_struct rep_RoleStatus RoleStatus_DeepCopyInto. Qed.
#[export] Instance copies_AresJobSpec : Copies AresJobSpec_DeepCopyInto rep_AresJobSpec.
Proof. copy_struct rep_AresJobSpec AresJobSpec_DeepCopyInto. Qed.
#[export] Instance copies_AresJobStatus : Copies AresJobStatus_DeepCopyInto rep_AresJobStatus.
Proof. copy_struct rep_AresJobStatus AresJobStatus_DeepCopyInto. Qed.
#[export] Instance copies_AresJob : Copies AresJob_DeepCopyInto rep_AresJob.
Proof. copy_struct rep_AresJob AresJob_DeepCopyInto. Qed.
#[export] Instance copies_AresJobList : Copies AresJobList_DeepCopyInto rep_AresJobList.
Proof. copy_struct rep_AresJobList AresJobList_DeepCopyInto. Qed.
End representations.

(** ** Properties *)

(** C15: a request works on a copy of the cached job: [DeepCopy] of a job, which may
    share parts within itself and with anything else, ends, changes nothing
    that was there, and returns a job of the same value that lies in new
    locations only, none of them shared between two of its parts; so whatever
    is then written through the copy, or allocated, the cached job keeps its
    value. *)
Theorem DeepCopy_separates `{MapOrder, LibraryLaws} h p type job L :
  rep_ptr rep_AresJob true (Some p) (Some (type, job)) h L →
  ∃ p' h' L', AresJob_DeepCopy (Some p) h = (Done (Some p'), h') ∧ h ⊆ h' ∧
    rep_ptr rep_AresJob false (Some p') (Some (type, job)) h' L' ∧ L' ## dom h ∧
    ∀ h'', (∀ l, l ∈ dom h' → l ∉ L' → h'' !! l = h' !! l) →
      rep_ptr rep_AresJob true (Some p) (Some (type, job)) h'' L.
Proof.
  intros Hrep. by apply copy_separates; [apply _..|].
Qed.

(** The same of a list of jobs, as a client reads them. *)
Corollary AresJobList_DeepCopy_separates `{MapOrder, LibraryLaws} h p v L :
  rep_ptr rep_AresJobList true (Some p) (Some v) h L →
  ∃ p' h' L', AresJobList_DeepCopyObject (Some p) h = (Done (Some p'), h') ∧ h ⊆ h' ∧
    rep_ptr rep_AresJobList false (Some p') (Some v) h' L' ∧ L' ## dom h ∧
    ∀ h'', (∀ l, l ∈ dom h' → l ∉ L' → h'' !! l = h' !! l) → rep_ptr rep_AresJobList true (Some p) (Some v) h'' L.
Proof.
  intros Hrep. destruct (copy_separates AresJobList_DeepCopyInto _ _ _ _ _ _ _ Hrep) as (p' & h' & L' & Hrun & Hrest).
  exists p', h', L'. split; [|done]. unfold AresJobList_DeepCopyObject, AresJobList_DeepCopy, mbind, eff_bind. by rewrite Hrun.
Qed.

(** Libraries whose structs hold no pointers, but for the clean-up policy of a
    job. *)
Definition ex_library : Library :=
  {| lib_cell := Empty_set; ObjectMetaS := ObjectMeta; ListMetaS := unit; RunPolicyS := option positive * option (option Z);
     ReplicaSpecS := ReplicaSpec; JobStatusS := JobStatus; ListMeta := unit |}.
Definition ex_copies : @LibraryCopies ex_library := ltac:(
  refine (@Build_LibraryCopies ex_library mret mret _ mret mret mret (copy_ptr (T := option Z) mret));
  exact (λ t, policy ← @copy_ptr _ string _ mret t.1; mret (policy, t.2))).
Definition ex_rep_RunPolicy : repr (@cell ex_library) (option positive * option (option Z)) RunPolicy := λ s t v,
  sep s (rep_ptr rep_flat s t.1 (CleanPodPolicy v)) (emp (t.2 = SchedulingPolicy v)).
#[local] Existing Instances ex_library ex_copies.
Definition ex_laws : LibraryLaws.
Proof.
  refine {| rep_ObjectMeta := rep_flat (T := ObjectMeta); rep_ListMeta := rep_flat (T := unit); rep_RunPolicy := ex_rep_RunPolicy;
    rep_ReplicaSpec := rep_flat (T := ReplicaSpec); rep_JobStatus := rep_flat (T := JobStatus) |}; try apply _.
  - intros s t v. apply _.
  - intros h t v L (L1 & ? & Hp & [Hs ->] & -> & _). eapply (makes_field h); [done|exact Hp|apply _|apply _|].
    intros p h1 _. apply makes_ret. intros L' Hp' _. exists L', ∅. split_and!; [exact Hp'|done|done|set_solver].
  - refine (copies_ptr (T := option Z) mret rep_Time _ _). intros h t v L [-> ->]. by apply makes_ret.
Defined.

(** A job whose role has one condition for success and failure, shared. *)
Definition ex_memory : heap cell := {[
  1%positive := cell_AresJob (mkAresJobS (mkTypeMeta "AresJob" "ares.io/v1") zero_ObjectMeta
    (mkAresJobSpecS None (Some 2%positive, None) None "demo" (mkFrameworkSpecS None None None) (Some 3%positive) None)
    (mkAresJobStatusS None None "" None));
  2%positive := cell_string "None";
  3%positive := cell_pointers {["worker" := Some 4%positive]};
  4%positive := cell_RoleSpec (mkRoleSpecS None (mkRolePhasePolicyS (Some 5%positive) (Some 5%positive) false) "" None);
  5%positive := cell_string "AllPods" ]}.
Definition ex_represented : AresJob :=
  mkAresJob zero_ObjectMeta
    (mkAresJobSpec None (mkRunPolicy (Some "None") None) [] "demo" (mkFrameworkSpec None None None)
      {["worker" := Some (mkRoleSpec None (mkRolePhasePolicy (Some "AllPods") (Some "AllPods") false) "" None)]} None)
    (mkAresJobStatus None None "" None).

Lemma rep_map_singleton `{Library} {T V} `{Stored cell (gmap string T)} (rep : repr cell T V) h l k t v L :
  h !! l = Some (inj ({[k := t]} : gmap string T)) → rep true t v h L → ∃ L', rep_map rep true (Some l) (Some {[k := v]}) h L'.
Proof.
  intros Hl Hrep. exists ({[l]} ∪ (∅ ∪ L ∪ ∅)), {[k := t]}, {[l]}, (∅ ∪ L ∪ ∅). split_and!; [done| |done|done].
  exists [(k, t)], [(k, v)]. rewrite !map_to_list_singleton. split_and!; [done|done|].
  exists (∅ ∪ L), ∅. split_and!; [|done|done|done]. by exists ∅, L.
Qed.

Lemma rep_slice_list_nil `{Library} {T V} `{Stored cell (list T)} (rep : repr cell T V) h :
  rep_slice_list rep true None [] h ∅.
Proof. exists None, ∅, ∅. by split_and!. Qed.

Lemma rep_map_contents_intro `{Library} {V} (rep : repr cell (option positive) V) p m h L :
  rep_map rep true p (Some m) h L → rep_map_contents rep true p m h L.
Proof. intros Hm. exists (Some m), L, ∅. split_and!; [done|done|set_solver|done]. Qed.

Ltac rep_step :=
  first [eassumption | eapply rep_slice_list_nil | hnf]; lazymatch goal with
  | |- ∃ _, _ => eexists
  | |- _ ∧ _ => split
  | |- true = false → _ => discriminate
  | |- _ = _ => reflexivity
  | |- True => exact I
  end.

Lemma ex_memory_rep : ∃ L, rep_ptr (@rep_AresJob _ _ ex_laws) true (Some 1%positive)
  (Some (mkTypeMeta "AresJob" "ares.io/v1", ex_represented)) ex_memory L.
Proof.
  assert (∃ L, rep_ptr (@rep_RoleSpec _ _ ex_laws) true (Some 4%positive)
    (Some (mkRoleSpec None (mkRolePhasePolicy (Some "AllPods") (Some "AllPods") false) "" None)) ex_memory L) as [L1 Hrole].
  { eexists. repeat rep_step. }
  destruct (rep_map_singleton (rep_ptr (@rep_RoleSpec _ _ ex_laws)) ex_memory 3 "worker" (Some 4%positive)
    (Some (mkRoleSpec None (mkRolePhasePolicy (Some "AllPods") (Some "AllPods") false) "" None)) L1) as [L2 Hroles%rep_map_contents_intro];
    [done|done|].
  eexists. repeat rep_step.
Qed.

Lemma DeepCopy_separates_witness :
  ∃ p' h' L', @AresJob_DeepCopy canonical_order _ _ (Some 1%positive) ex_memory = (Done (Some p'), h') ∧
    rep_ptr (@rep_AresJob _ _ ex_laws) false (Some p') (Some (mkTypeMeta "AresJob" "ares.io/v1", ex_represented)) h' L' ∧
    L' ## dom ex_memory.
Proof.
  destruct ex_memory_rep as [L Hrep].
  destruct (@DeepCopy_separates canonical_order _ _ ex_laws ex_memory 1%positive (mkTypeMeta "AresJob" "ares.io/v1") ex_represented L)
    as (p' & h' & L' & Hrun & _ & Hrep' & Hd & _); [exact Hrep|].
  exists p', h', L'. split; [exact Hrun|]. split; [exact Hrep'|exact Hd].
Defined.
