(* ===== verification/World.v ===== *)
(** * The effects of the reconciler

    What the operator does to the rest of the cluster, as a log of actions:
    requests to the API server, whose answers are a parameter, calls on the
    expectations of kubeflow's controller and events.  The job being
    reconciled is shared and mutated, so it is part of the state. *)

From S2P Require Import Prelude GoStd Errors Kube Api.

(** [r.Recorder.Event] and [Eventf]: the events, in order. *)
Record Event := mkEvent {
  event_Type : string;
  event_Reason : string;
  event_Message : string;
}.
Definition EventTypeNormal : string := "Normal".
Definition EventTypeWarning : string := "Warning".

(** A JSON merge patch of the metadata: a null value deletes the key, a
    missing map leaves it alone. *)
Record MetadataPatch := mkMetadataPatch {
  patch_annotations : option (gmap string (option string));
  patch_labels : option (gmap string (option string));
}.

Inductive action :=
(* requests *)
| CreatePodWithControllerRef (ns : string) (template : PodTemplateSpec) (owner : ObjectMeta)
| DeletePod (ns name : string)
| CreateServiceWithControllerRef (ns : string) (service : Service) (owner : ObjectMeta)
| DeleteService (ns name : string)
| DeletePodGroup (ns name : string)
| PatchMetadata (object : ObjectMeta) (patch : MetadataPatch)
| UpdateStatus (job : AresJob)
| UpdateJob (job : AresJob)
| DeleteJobObject (ns name : string)
(* expectations *)
| SetExpectations (key : string) (add del : Z)
| RaiseExpectations (key : string) (add del : Z)
| CreationObserved (key : string)
| DeletionObserved (key : string)
| DeleteExpectationsOf (key : string)
(* events *)
| Recorded (event : Event).

Record world := mkWorld {
  the_job : AresJob;
  the_log : list action;
}.
#[export] Instance rebuild_world : Rebuild world := λ w, mkWorld (the_job w) (the_log w).
#[export] Instance set_the_job : Setter the_job. Proof. solve_setter. Defined.
#[export] Instance set_the_log : Setter the_log. Proof. solve_setter. Defined.

(** The answer to a request, after the requests made so far. *)
Class ApiServer := { answer : list action → action → option error }.

Abbreviation op A := (eff world error A).

(** A request: it is sent whether or not it succeeds. *)
Definition request `{ApiServer} (a : action) : op unit := λ w,
  (match answer (the_log w) a with None => Done tt | Some e => Fail e end,
   w <| the_log ::= λ l, l ++ [a] |>).

(** A local effect, which does not fail. *)
Definition emit (a : action) : op unit := modify (λ w, w <| the_log ::= λ l, l ++ [a] |>).

Definition get_job : op AresJob := gets the_job.
Definition set_job (job : AresJob) : op unit := modify (λ w, w <| the_job := job |>).

Definition is_create (a : action) : bool :=
  match a with CreatePodWithControllerRef _ _ _ => true | _ => false end.
Definition is_pod_delete (a : action) : bool :=
  match a with DeletePod _ _ => true | _ => false end.

(** An API server that accepts every request. *)
Definition accepting : ApiServer := {| answer _ _ := None |}.

(** ** Lemmas *)

(** A loop that emits one action per element appends them. *)
Lemma emit_all {A} (f : A → action) (l : list A) w :
  for_each l (λ x, emit (f x)) w = (Done tt, w <| the_log ::= λ log, log ++ (f <$> l) |>).
Proof.
  unfold for_each. destruct w as [job log]. revert log. induction l as [|x l IH]; intros log; simpl.
  - unfold mret, eff_ret, set_field, set_the_log. simpl. by rewrite app_nil_r.
  - rewrite (eff_bind_Done _ _ _ tt (mkWorld job (log ++ [f x]))) by done.
    rewrite IH. unfold set_field, set_the_log. simpl. by rewrite <- app_assoc.
Qed.

Lemma emit_events events w :
  for_each events (λ e, emit (Recorded e)) w = (Done tt, w <| the_log ::= λ l, l ++ (Recorded <$> events) |>).
Proof. apply emit_all. Qed.

(** Nested loops are one loop. *)
Lemma for_each_bind {S E A B} (g : A → list B) (f : B → eff S E unit) l (s : S) :
  for_each l (λ x, for_each (g x) f) s = for_each (l ≫= g) f s.
Proof.
  assert (Happ : ∀ l1 l2 s, for_each (l1 ++ l2) f s = (_ ← for_each l1 f; for_each l2 f) s).
  { unfold for_each. induction l1 as [|y l1 IH]; intros l2 s0; simpl; [done|].
    unfold mbind, eff_bind. destruct (f y s0) as [[[]|e|p] s1]; [exact (IH l2 s1)|done|done]. }
  revert s. induction l as [|x l IH]; intros s; simpl; [done|]. rewrite Happ. unfold for_each at 1, mbind, eff_bind. simpl.
  unfold mbind, eff_bind. destruct (for_each (g x) f s) as [[[]|e|p] s1]; [exact (IH s1)|done|done].
Qed.
