(* ===== verification/ReconcilerUtils.v ===== *)
(** * Helpers of the reconciler ([reconciler/utils.go])

    Phase tests, labels, pod filters, domain names, the invalid-definition
    marker, failure descriptions and the pod order. *)

From S2P Require Import Prelude GoStd Errors Kube Api.

(** ** Phases *)

Definition IsFinished (phase : string) : bool :=
  bool_decide (phase = JobPhaseFailed) || bool_decide (phase = JobPhaseSucceeded).

Definition IsRoleFinished (phase : string) : bool :=
  bool_decide (phase = RolePhaseFailed) || bool_decide (phase = RolePhaseSucceeded).

Definition IsRoleStarted (phase : string) : bool :=
  bool_decide (phase = RolePhaseRunning) || IsRoleFinished phase.

(** The first condition of the type: a copy, so a value. *)
Definition GetCondition (status : AresJobStatus) (conditionType : string) : option JobCondition :=
  js ← status_JobStatus status;
  list_find (λ cond, jcond_Type cond = conditionType) (Conditions js) ≫= λ p, Some p.2.

(** ** Labels *)

Fixpoint GetLabelByName_loop (labels : gmap string string) (names : list string) : string :=
  match names with
  | [] => ""
  | name :: names =>
      match labels !! name with
      | Some value => value
      | None => GetLabelByName_loop labels names
      end
  end.
Definition GetLabelByName (labels : gomap string) (candidateNames : list string) : string :=
  match labels with
  | None => ""
  | Some labels => GetLabelByName_loop labels candidateNames
  end.

Section labels.
Context `{Kubeflow}.

Definition GetReplicaType (labels : gomap string) : string :=
  GetLabelByName labels [ReplicaTypeLabel; Common_ReplicaTypeLabel].

Definition GetReplicaIndex (labels : gomap string) : string :=
  GetLabelByName labels [ReplicaIndexLabel; Common_ReplicaIndexLabel].
End labels.

(** ** Filters *)

Definition FilterPods (pods : list Pod) (requires : Pod → bool) : list Pod :=
  foldl (λ filtered pod, if requires pod then filtered ++ [pod] else filtered) [] pods.

Definition is_terminating (p : Pod) : bool :=
  bool_decide (is_Some (meta_DeletionTimestamp (pod_meta p))).

Definition FilterAlivePods (pods : list Pod) : list Pod :=
  FilterPods pods (λ p, negb (is_terminating p)).

Definition FilterTerminatingPods (pods : list Pod) : list Pod :=
  FilterPods pods is_terminating.

(** ** Domain names *)

Definition GetGeneralSharedName (jobName rtype : string) : string :=
  ReplaceAll (jobName +:+ "-" +:+ rtype) "/"%char "-"%char.

Definition GetServiceDomainName (jobName nameSpace role : string) : string :=
  GetGeneralSharedName jobName role +:+ "." +:+ nameSpace +:+ ".svc.cluster.local".

Section domain.
Context `{Kubeflow, MapOrder}.

Definition GetPodDomainName (jobName nameSpace role : string) (index : Z) : string :=
  GenGeneralName jobName role (Itoa index) +:+ "." +:+ GetServiceDomainName jobName nameSpace role.

(** [for i := 0; i < int(replicas); i++] *)
Definition indices (replicas : Z) : list Z := seqZ 0 replicas.

Definition GetRolesDomainNames (job : AresJob) (roles : list string) : go (list string) :=
  fold_res (λ res role,
    let serviceDomainName :=
      GetServiceDomainName (meta_Name (job_meta job)) (meta_Namespace (job_meta job)) role in
    replicas ← GetRoleReplicas (job_Spec job) role;
    Done (res ++ ((λ i, GenGeneralName (meta_Name (job_meta job)) role (Itoa i)
                        +:+ "." +:+ serviceDomainName) <$> indices replicas))) [] roles.
End domain.

(** ** Invalid definitions *)

Definition SetInvalidDefinition `{Kubeflow} (now : Z) (status : AresJobStatus) (msg : string)
    : AresJobStatus :=
  let js := default zero_JobStatus (status_JobStatus status) in
  status <| status_JobStatus := Some (UpdateJobConditions now js JobFailed ErrInvalidDefinition msg) |>
         <| status_Phase := JobPhaseFailed |>.

Definition IsInvalidDefinition (status : AresJobStatus) : bool :=
  match GetCondition status JobFailed with
  | None => false
  | Some cond => bool_decide (jcond_Reason cond = ErrInvalidDefinition)
  end.

(** ** Why a pod failed *)

(** The JSON encoding of a [ContainerStateTerminated], and its [%+v] form
    for the case that the encoding fails. *)
Class TerminatedText := {
  json_terminated : ContainerStateTerminated → option string;
  print_terminated : ContainerStateTerminated → string;
}.

Definition GetPodFailedInfo `{TerminatedText} (pod : Pod) : string :=
  let nodeName := pod_NodeName (pod_Spec pod) in
  let status := pod_Status pod in
  let terminatedInfo :=
    match omap cstatus_Terminated (pstatus_ContainerStatuses status) with
    | terminated :: _ => default (print_terminated terminated) (json_terminated terminated)
    | [] => ""
    end in
  let terminatedInfo :=
    if decide (terminatedInfo = "" ∧ pstatus_Reason status ≠ "")
    then "(" +:+ pstatus_Reason status +:+ ")" +:+ pstatus_Message status
    else terminatedInfo in
  Join ["nodeName=" +:+ nodeName; "info=" +:+ terminatedInfo] "; ".

(** ** The pod order *)

Section sort.
Context `{Kubeflow, SortSlice}.

Definition pod_type (p : Pod) : string := GetReplicaType (meta_Labels (pod_meta p)).
Definition pod_index (p : Pod) : string := GetReplicaIndex (meta_Labels (pod_meta p)).

(** The [less] closure, which reads the slice being sorted. *)
Definition pod_less (pods : list Pod) (i j : nat) : bool :=
  match pods !! i, pods !! j with
  | Some pi, Some pj =>
      let tpi := pod_type pi in
      let tpj := pod_type pj in
      if decide (tpi ≠ tpj) then string_lt tpi tpj
      else
        let idxi := pod_index pi in
        let idxj := pod_index pj in
        if decide (idxi = "" ∨ idxj = "") then bool_decide (i < j)%nat
        else if decide (String.length idxi = String.length idxj) then string_lt idxi idxj
        else bool_decide (String.length idxi < String.length idxj)%nat
  | _, _ => false
  end.

Definition SortPodsByRoleAndIndex (pods : list Pod) : list Pod := sort_slice pod_less pods.
End sort.

(** ** Lemmas *)

Lemma FilterPods_filter pods (requires : Pod → bool) :
  FilterPods pods requires = filter (λ p, requires p = true) pods.
Proof.
  enough (∀ acc, foldl (λ filtered pod, if requires pod then filtered ++ [pod] else filtered) acc pods =
    acc ++ filter (λ p, requires p = true) pods) as Hacc by apply (Hacc []).
  induction pods as [|p pods IH]; intros acc; simpl; [by rewrite app_nil_r|].
  rewrite filter_cons, IH. destruct (requires p); [|done]. by rewrite <- app_assoc.
Qed.

Lemma elem_of_FilterAlivePods p pods : p ∈ FilterAlivePods pods ↔ is_terminating p = false ∧ p ∈ pods.
Proof. unfold FilterAlivePods. rewrite FilterPods_filter, list_elem_of_filter. destruct (is_terminating p); naive_solver. Qed.

Lemma elem_of_FilterTerminatingPods p pods : p ∈ FilterTerminatingPods pods ↔ is_terminating p = true ∧ p ∈ pods.
Proof. unfold FilterTerminatingPods. by rewrite FilterPods_filter, list_elem_of_filter. Qed.
