(* ===== verification/Examples.v ===== *)
(** * Concrete values for the witnesses

    Library functions, jobs and pods at which the theorems are evaluated. *)

From S2P Require Import Prelude GoStd Errors Kube Api ReconcilerUtils.

(** The kubeflow library functions, as published. *)
Definition ex_kubeflow : Kubeflow := {|
  Common_ReplicaTypeLabel := "replica-type";
  Common_ReplicaIndexLabel := "replica-index";
  KeyFunc m := Done (meta_Namespace m +:+ "/" +:+ meta_Name m);
  GenGeneralName job rtype index := ReplaceAll (job +:+ "-" +:+ rtype +:+ "-" +:+ index) "/"%char "-"%char;
  GenExpectationPodsKey key rtype := key +:+ "/" +:+ ToLower rtype +:+ "/pods";
  GenExpectationServicesKey key rtype := key +:+ "/" +:+ ToLower rtype +:+ "/services";
  IsRetryableExitCode code := bool_decide (code ∈ [130; 137; 143; 138]);
  UpdateJobConditions now js type reason msg := mkJobStatus
    (filter (λ c, jcond_Type c ≠ type) (Conditions js) ++
     [mkJobCondition type ConditionTrue reason msg (Some now)])
    (ReplicaStatuses js) (CompletionTime js);
|}.

Definition ex_selectors : Selectors := {|
  SelectorMatches key value labels := bool_decide (labels !? key = Some value);
|}.

Definition ex_text : TerminatedText := {|
  json_terminated t := Some (Itoa (terminated_ExitCode t));
  print_terminated t := terminated_Reason t;
|}.

Definition ex_meta (name : string) : ObjectMeta := zero_ObjectMeta <| meta_Name := name |>.

Definition ex_container : Container := mkContainer "main" "image" "" [] (Some [mkContainerPort "port" 2222]) [] [].
Definition ex_template : PodTemplateSpec :=
  zero_Template <| template_Spec ::= λ s, s <| pod_Containers := [ex_container] |> |>.
Definition ex_replicas (n : Z) (policy : string) : ReplicaSpec := mkReplicaSpec (Some n) ex_template policy.

(** [n] replicas; failed when one pod is, succeeded when all are. *)
Definition ex_role (n : Z) (policy : string) : RoleSpec :=
  mkRoleSpec (Some (ex_replicas n policy))
    (mkRolePhasePolicy (Some RolePhaseConditionAnyPod) (Some RolePhaseConditionAllPods) true) ControllerPod None.

Definition ex_job (framework : string) (roles : list (string * RoleSpec)) : AresJob := {|
  job_meta := zero_ObjectMeta <| meta_Name := "job" |>;
  job_Spec := mkAresJobSpec None (mkRunPolicy None None) [] framework (mkFrameworkSpec None None None)
    (list_to_map (prod_map id Some <$> roles)) None;
  job_Status := mkAresJobStatus (Some zero_JobStatus) None "" None;
|}.

Definition ex_pod (role : string) (index : Z) (phase node : string) : Pod := {|
  pod_meta := zero_ObjectMeta <| meta_Name := role +:+ "-" +:+ Itoa index |>
    <| meta_Labels := Some (<[ReplicaTypeLabel := role]> {[ReplicaIndexLabel := Itoa index]}) |>;
  pod_Spec := mkPodSpec [] [] [] false node "" "" "" "";
  pod_Status := mkPodStatus phase [] "" "" "" ("10.0.0." +:+ Itoa index) [];
|}.

Definition ex_deleted (pod : Pod) : Pod :=
  mkPod (mkObjectMeta (meta_Name (pod_meta pod)) "" "" "" (meta_Labels (pod_meta pod)) None (Some 1) [] None)
    (pod_Spec pod) (pod_Status pod).
