(* ===== verification/Webhook.v ===== *)
(** * The webhook of the AresJob resource ([api/v1/aresjob_webhook.go])

    Defaulting and validation, which the controller also applies before it
    reconciles a job. *)

From S2P Require Import Prelude GoStd Errors Regex Kube Api ReconcilerUtils Examples.

(** [controllerutil] of controller-runtime. *)
Class ControllerUtil := {
  ContainsFinalizer : ObjectMeta → string → bool;
  AddFinalizer : ObjectMeta → string → ObjectMeta;
  RemoveFinalizer : ObjectMeta → string → ObjectMeta;
}.

(** ** Definitions *)

(** One iteration of the loop over the role specs, through the pointer. *)
Definition default_role (spec : RoleSpec) : go RoleSpec :=
  let spec := if decide (role_ReplicaSpec spec = None :> option ReplicaSpec)
              then spec <| role_ReplicaSpec := Some zero_ReplicaSpec |> else spec in
  let spec := if decide (String.length (role_Controller spec) = 0%nat)
              then spec <| role_Controller := ControllerPod |> else spec in
  rs ← deref (role_ReplicaSpec spec);
  let rs := if decide (String.length (RestartPolicy rs) = 0%nat)
            then rs <| RestartPolicy := RestartPolicyNever |> else rs in
  let policy := role_RolePhasePolicy spec in
  let policy :=
    if decide (RestartPolicy rs = RestartPolicyNever) then
      let policy := if decide (rpolicy_Failed policy = None)
                    then policy <| rpolicy_Failed := Some RolePhaseConditionAnyPod |> else policy in
      if decide (rpolicy_Succeeded policy = None)
      then policy <| rpolicy_Succeeded := Some RolePhaseConditionAllPods |> else policy
    else policy in
  let rs := if decide (Replicas rs = None) then rs <| Replicas := Some 1 |> else rs in
  Done (spec <| role_ReplicaSpec := Some rs |> <| role_RolePhasePolicy := policy |>).

Section webhook.
Context `{MapOrder, ControllerUtil}.

Definition default_meta (m : ObjectMeta) (hasDependence : bool) : ObjectMeta :=
  let m := m <| meta_Annotations := Some (contents (meta_Annotations m)) |> in
  let m := if hasDependence && negb (ContainsFinalizer m AresJobFinalizer)
           then AddFinalizer m AresJobFinalizer else m in
  m <| meta_Labels := Some (foldl (λ labels '(key, value),
         if IsJobLevelKey key then <[key := value]> labels else labels)
         (contents (meta_Labels m)) (range 0 (contents (meta_Annotations m)))) |>.

(** [for role, spec := range roles { ... }], whose body updates the spec
    through its pointer; [n] tells the loop from the others. *)
Definition for_roles (n : nat) (f : RoleSpec → go RoleSpec) (roles : gmap string (option RoleSpec))
    : go (gmap string (option RoleSpec)) :=
  fold_res (λ specs '(role, spec),
    spec ← deref spec;
    spec ← f spec;
    Done (<[role := Some spec]> specs)) roles (range n roles).

Definition default_roles : gmap string (option RoleSpec) → go (gmap string (option RoleSpec)) := for_roles 0 default_role.

Definition default_status (status : AresJobStatus) (roles : gmap string (option RoleSpec)) : AresJobStatus :=
  let status := status <| status_JobStatus := Some (default zero_JobStatus (status_JobStatus status)) |> in
  let statuses := foldl (λ statuses role,
      match mjoin (statuses !! role) with
      | Some _ => statuses
      | None => <[role := Some (mkRoleStatus RolePhasePending "" "" None zero_ReplicaStatus)]> statuses
      end) (contents (status_RoleStatuses status)) (range_keys 0 roles) in
  let status := status <| status_RoleStatuses := Some statuses |> in
  if decide (String.length (status_Phase status) = 0%nat)
  then status <| status_Phase := JobPhasePending |> else status.

Definition Default (r : AresJob) : go AresJob :=
  hasDependence ← HasDependence (job_Spec r);
  roles ← default_roles (spec_RoleSpecs (job_Spec r));
  Done (r <| job_meta ::= λ m, default_meta m hasDependence |>
          <| job_Spec ::= λ s, s <| spec_RunPolicy ::= λ p,
               if decide (CleanPodPolicy p = None) then p <| CleanPodPolicy := Some CleanPodPolicyNone |> else p |>
               <| spec_RoleSpecs := roles |> |>
          <| job_Status ::= λ s, default_status s roles |>).

(** One iteration of the validation; a nil [Replicas] is dereferenced for the
    message. *)
Definition validate_role (role : string) (spec : RoleSpec) : go unit :=
  match MatchDNS1123 role with
  | Fail err => Fail (Errorf ("illegal name for role: " +:+ error_string err))
  | Crash p => Crash p
  | Done _ =>
      replicas ← spec_Replicas spec;
      match replicas with
      | None => Crash NilDereference
      | Some n =>
          if decide (n ≤ 0) then Fail (Errorf ("replicas for role " +:+ role +:+ " must be positive: " +:+ Itoa n))
          else
            template ← spec_Template spec;
            if decide (length (pod_Containers (template_Spec template)) = 0%nat)
            then Fail (Errorf ("too few container in role: " +:+ role))
            else match role_Dependence spec with
                 | Some dependence =>
                     if decide (dep_MPIHostFile dependence = None ∧ length (dep_RoleNames dependence) = 0%nat)
                     then Fail (Errorf ("`spec.Dependence.RoleNames` is required when `MPIHostFile` is not provided: " +:+ role))
                     else Done tt
                 | None => Done tt
                 end
      end
  end.

Definition ValidateCreate (r : AresJob) : go unit :=
  if decide (size (spec_RoleSpecs (job_Spec r)) = 0%nat) then Fail (Errorf "spec.roleSpecs is required")
  else
    fold_res (λ _ '(role, spec), spec ← deref spec; validate_role role spec) tt
      (range 0 (spec_RoleSpecs (job_Spec r))).

Definition ValidateUpdate (r old : AresJob) : go unit := Done tt.
Definition ValidateDelete (r : AresJob) : go unit := Done tt.
End webhook.

(** ** What the two establish *)

(** A role spec after defaulting. *)
Definition role_complete (spec : RoleSpec) : Prop :=
  ∃ rs n, role_ReplicaSpec spec = Some rs ∧ Replicas rs = Some n ∧ RestartPolicy rs ≠ "" ∧
    role_Controller spec ≠ "" ∧
    (RestartPolicy rs = RestartPolicyNever →
     is_Some (rpolicy_Failed (role_RolePhasePolicy spec)) ∧ is_Some (rpolicy_Succeeded (role_RolePhasePolicy spec))).

(** A text that is set, or its default. *)
Definition filled (d s : string) : string := if decide (s = "") then d else s.

(** What is set in a role spec is kept, what is not has its default; phase
    policies have one only if the pods are never restarted. *)
Record role_filled (spec spec' : RoleSpec) : Prop := {
  filled_replica_spec : ∃ rs', role_ReplicaSpec spec' = Some rs' ∧
    match role_ReplicaSpec spec with
    | Some rs => Replicas rs' = Some (default 1 (Replicas rs)) ∧ Template rs' = Template rs ∧
                 RestartPolicy rs' = filled RestartPolicyNever (RestartPolicy rs)
    | None => Replicas rs' = Some 1 ∧ Template rs' = zero_Template ∧ RestartPolicy rs' = RestartPolicyNever
    end ∧
    let policy := role_RolePhasePolicy spec in
    role_RolePhasePolicy spec' =
      if decide (RestartPolicy rs' = RestartPolicyNever)
      then mkRolePhasePolicy (Some (default RolePhaseConditionAnyPod (rpolicy_Failed policy)))
             (Some (default RolePhaseConditionAllPods (rpolicy_Succeeded policy))) (rpolicy_NodeDownAsFailed policy)
      else policy;
  filled_controller : role_Controller spec' = filled ControllerPod (role_Controller spec);
  filled_dependence : role_Dependence spec' = role_Dependence spec;
}.

(** Annotations are kept, and those of the whole job become labels; the
    finalizer is added if a role has a dependence. *)
Definition job_level (key : string) : Prop := key ∈ [AresQueueAnnotationKey; PreemptableAnnotationKey; JobPriorityAnnotationKey].
#[export] Instance job_level_dec key : Decision (job_level key).
Proof. unfold job_level. apply _. Defined.

Definition meta_filled (dependence : Prop) (m m' : ObjectMeta) : Prop :=
  ∃ labels finalizers,
    m' = mkObjectMeta (meta_Name m) (meta_GenerateName m) (meta_Namespace m) (meta_UID m) (Some labels)
           (Some (contents (meta_Annotations m))) (meta_DeletionTimestamp m) finalizers (meta_Controller m) ∧
    (∀ key, labels !! key = match meta_Annotations m !? key with
                            | Some v => if decide (job_level key) then Some v else meta_Labels m !? key
                            | None => meta_Labels m !? key
                            end) ∧
    (dependence → AresJobFinalizer ∉ meta_Finalizers m → finalizers = meta_Finalizers m ++ [AresJobFinalizer]) ∧
    (¬ dependence ∨ AresJobFinalizer ∈ meta_Finalizers m → finalizers = meta_Finalizers m).

(** Statuses are kept; roles without one are pending, and so is a job without
    phase. *)
Definition status_filled (roles : gmap string (option RoleSpec)) (status status' : AresJobStatus) : Prop :=
  ∃ statuses,
    status' = mkAresJobStatus (Some (default zero_JobStatus (status_JobStatus status))) (Some statuses)
                (filled JobPhasePending (status_Phase status)) (status_RunningTime status) ∧
    ∀ role, role_status status' role =
      match role_status status role with
      | Some rs => Some rs
      | None => if decide (is_Some (roles !! role))
                then Some (mkRoleStatus RolePhasePending "" "" None zero_ReplicaStatus) else None
      end.

(** A role spec that validation accepts. *)
Definition role_valid (role : string) (spec : RoleSpec) : Prop :=
  MatchDNS1123 role = Done tt ∧
  ∃ rs n, role_ReplicaSpec spec = Some rs ∧ Replicas rs = Some n ∧ 0 < n ∧
    pod_Containers (template_Spec (Template rs)) ≠ [] ∧
    (∀ d, role_Dependence spec = Some d → dep_MPIHostFile d = None → dep_RoleNames d ≠ []).

(** A status after defaulting, for the roles of a spec. *)
Definition status_complete (status : AresJobStatus) (roles : gmap string (option RoleSpec)) : Prop :=
  is_Some (status_JobStatus status) ∧ status_Phase status ≠ "" ∧ is_Some (status_RoleStatuses status) ∧
  ∀ role, is_Some (roles !! role) → is_Some (role_status status role).

(** ** Lemmas *)

Lemma length_zero_iff (s : string) : String.length s = 0%nat ↔ s = "".
Proof. by destruct s. Qed.

Lemma default_role_total spec : ∃ spec', default_role spec = Done spec' ∧ role_complete spec'.
Proof.
  unfold default_role, role_complete. destruct spec as [[[[n|] t policy]|] [f s nd] c d]; simpl;
    repeat (case_decide; simpl); subst; eexists; (split; [done|]); simpl; do 2 eexists; split_and!; try done;
    rewrite ?length_zero_iff in *; try done; intros ?; split; first [by eexists|by apply not_eq_None_Some].
Qed.

(** The result, field by field. *)
Lemma default_role_eq spec :
  let rs := default zero_ReplicaSpec (role_ReplicaSpec spec) in
  let p := if decide (RestartPolicy rs = "") then RestartPolicyNever else RestartPolicy rs in
  let policy := role_RolePhasePolicy spec in
  let fill (v : string) (o : option string) := if decide (p = RestartPolicyNever) then Some (default v o) else o in
  default_role spec = Done (mkRoleSpec
    (Some (mkReplicaSpec (Some (default 1 (Replicas rs))) (Template rs) p))
    (mkRolePhasePolicy (fill RolePhaseConditionAnyPod (rpolicy_Failed policy))
       (fill RolePhaseConditionAllPods (rpolicy_Succeeded policy)) (rpolicy_NodeDownAsFailed policy))
    (if decide (role_Controller spec = "") then ControllerPod else role_Controller spec)
    (role_Dependence spec)).
Proof.
  unfold default_role. destruct spec as [[[[n|] t policy]|] [[f|] [s|] nd] c d]; simpl;
    repeat (case_decide; simpl); subst; rewrite ?length_zero_iff in *; done.
Qed.

Lemma default_role_filled spec spec' : default_role spec = Done spec' → role_filled spec spec'.
Proof.
  rewrite default_role_eq. intros [= <-]. split; simpl; [|done..]. eexists. split; [done|].
  destruct spec as [[rs|] [f s nd] c d]; simpl; (split; [done|]); repeat case_decide; done.
Qed.

Lemma default_role_complete spec : role_complete spec → default_role spec = Done spec.
Proof.
  intros (rs & n & Hrs & Hn & Hp & Hc & Hpol). unfold default_role.
  destruct spec as [r [f s nd] c d], rs as [reps t policy]. simpl in *. subst. simpl.
  assert (String.length c ≠ 0%nat ∧ String.length policy ≠ 0%nat) as [Hlc Hlp] by by rewrite !length_zero_iff.
  rewrite (decide_False _ _ Hlc). simpl. rewrite (decide_False _ _ Hlp). simpl.
  case_decide as Hnever; [|done]. destruct (Hpol Hnever) as [[f' ->] [s' ->]]. done.
Qed.

(** What a user sets is kept. *)
Lemma default_role_keeps spec spec' :
  default_role spec = Done spec' →
  role_Dependence spec' = role_Dependence spec ∧
  (∀ rs, role_ReplicaSpec spec = Some rs → ∃ rs', role_ReplicaSpec spec' = Some rs' ∧ Template rs' = Template rs ∧
     (∀ n, Replicas rs = Some n → Replicas rs' = Some n) ∧
     (RestartPolicy rs ≠ "" → RestartPolicy rs' = RestartPolicy rs)) ∧
  (∀ p, rpolicy_Failed (role_RolePhasePolicy spec) = Some p → rpolicy_Failed (role_RolePhasePolicy spec') = Some p) ∧
  (∀ p, rpolicy_Succeeded (role_RolePhasePolicy spec) = Some p → rpolicy_Succeeded (role_RolePhasePolicy spec') = Some p).
Proof.
  unfold default_role. destruct spec as [[[reps t policy]|] [f s nd] c d]; simpl;
    repeat (case_decide; simpl); intros Hd; injection Hd as <-; simpl in *; subst;
    (split_and!; [done| |done..]); intros ? Hrs; try done; injection Hrs as <-; simpl;
    eexists; split_and!; rewrite ?length_zero_iff in *; done.
Qed.

Section maps.
Context `{MapOrder}.

(** A loop over a map that updates the entry it visits. *)
Lemma fold_range_update {V W} (f : string → V → go W) (m : gmap string V) (n : nat) (m0 m' : gmap string W) :
  fold_res (λ acc '(k, v), w ← f k v; Done (<[k := w]> acc)) m0 (range n m) = Done m' →
  ∀ k, match m !! k with
       | Some v => ∃ w, f k v = Done w ∧ m' !! k = Some w
       | None => m' !! k = m0 !! k
       end.
Proof.
  assert (∀ k, m !! k = list_to_map (M := gmap string V) (range n m) !! k) as Hlk by (intros; by rewrite list_to_map_range).
  intros Hfold k. rewrite Hlk. clear Hlk. revert k m0 Hfold.
  pose proof (NoDup_range_keys n m) as Hnd. unfold range_keys in Hnd.
  induction (range n m) as [|[k v] l IH]; intros k' m0; simpl.
  { intros Heq. by simplify_eq. }
  simpl in Hnd. apply NoDup_cons in Hnd as [Hk Hnd].
  destruct (f k v) as [w| |] eqn:Hf; simpl; [|done..]. intros Hm. specialize (IH Hnd k' _ Hm).
  rewrite lookup_insert. case_decide as Hkk; subst.
  - apply not_elem_of_list_to_map in Hk. rewrite Hk, lookup_insert_eq in IH. by exists w.
  - destruct (list_to_map l !! k'); [done|]. by rewrite lookup_insert_ne in IH.
Qed.

Lemma fold_range_update_total {V W} (f : string → V → go W) (m : gmap string V) (n : nat) (m0 : gmap string W) :
  map_Forall (λ k v, ∃ w, f k v = Done w) m →
  ∃ m', fold_res (λ acc '(k, v), w ← f k v; Done (<[k := w]> acc)) m0 (range n m) = Done m'.
Proof.
  intros Hm. assert (∀ kv, kv ∈ range n m → ∃ w, f kv.1 kv.2 = Done w) as Hf.
  { intros [k v] Hin%elem_of_range. by apply (Hm k). }
  revert m0. induction (range n m) as [|[k v] l IH]; intros m0; simpl; [by eexists|].
  destruct (Hf (k, v)) as [w Hw]; [left|]. simpl in Hw. rewrite Hw. simpl. apply IH.
  intros kv Hin. apply Hf. by right.
Qed.

(** The loop over the role specs updates each of them, or panics. *)
Lemma for_roles_Done n f (roles roles' : gmap string (option RoleSpec)) :
  for_roles n f roles = Done roles' ↔
  ∀ role, match roles !! role with
          | Some s => ∃ spec spec', s = Some spec ∧ f spec = Done spec' ∧ roles' !! role = Some (Some spec')
          | None => roles' !! role = None
          end.
Proof.
  set (g := λ s : option RoleSpec, spec ← deref s; spec' ← f spec; Done (Some spec') : go (option RoleSpec)).
  assert (∀ s w, g s = Done w ↔ ∃ spec spec', s = Some spec ∧ f spec = Done spec' ∧ w = Some spec') as Hg.
  { intros [spec|] w; unfold g; simpl; [|split; [done|by intros (? & ? & ? & _)]]. split.
    - intros (spec' & Hf & [= <-])%res_bind_Done. by exists spec, spec'.
    - by intros (? & spec' & [= <-] & -> & ->). }
  assert (for_roles n f roles = fold_res (λ acc '(k, v), w ← g v; Done (<[k := w]> acc)) roles (range n roles)) as ->.
  { unfold for_roles. generalize roles at 1 3 as acc. induction (range n roles) as [|[k [s|]] l IH]; intros acc; simpl; [done| |done].
    assert (g (Some s) = (spec' ← f s; Done (Some spec'))) as -> by done. destruct (f s); simpl; [apply IH|done|done]. }
  split.
  - intros Hfold role. pose proof (fold_range_update (λ _, g) _ _ _ _ Hfold role) as Hlk.
    destruct (roles !! role) as [s|]; [|done]. destruct Hlk as (w & (spec & spec' & -> & ? & ->)%Hg & ?). by exists spec, spec'.
  - intros Hroles. destruct (fold_range_update_total (λ _, g) roles n roles) as [m Hm].
    { intros role s Hs. specialize (Hroles role). rewrite Hs in Hroles. destruct Hroles as (spec & spec' & -> & ? & _).
      exists (Some spec'). apply Hg. by exists spec, spec'. }
    rewrite Hm. f_equal. apply map_eq. intros role. pose proof (fold_range_update (λ _, g) _ _ _ _ Hm role) as Hlk.
    specialize (Hroles role). destruct (roles !! role) as [s|].
    + destruct Hlk as (w & (spec & spec' & -> & Hf & ->)%Hg & ->). destruct Hroles as (? & ? & [= <-] & Hf' & ->). congruence.
    + congruence.
Qed.
End maps.

Section default.
Context `{MapOrder, ControllerUtil}.

Definition no_nil_spec (roles : gmap string (option RoleSpec)) : Prop := map_Forall (λ _ spec, is_Some spec) roles.
Definition has_dependence (roles : gmap string (option RoleSpec)) : Prop :=
  ∃ role spec, roles !! role = Some (Some spec) ∧ is_Some (role_Dependence spec).

Lemma HasDependence_spec spec :
  no_nil_spec (spec_RoleSpecs spec) →
  ∃ b, HasDependence spec = Done b ∧ (b = true ↔ has_dependence (spec_RoleSpecs spec)).
Proof.
  intros Hnil. unfold HasDependence.
  assert (∀ l, (∀ kv, kv ∈ l → is_Some kv.2) → ∃ b, HasDependence_loop l = Done b ∧
    (b = true ↔ ∃ k s, (k, Some s) ∈ l ∧ is_Some (role_Dependence s))) as Hloop.
  { induction l as [|[k s] l IH]; intros Hl; simpl.
    - exists false. split; [done|]. split; [done|]. by intros (? & ? & ?%elem_of_nil & _).
    - destruct (Hl (k, s)) as [s' Hs]; [left|]. simpl in Hs. subst s. simpl.
      destruct (role_Dependence s') as [d|] eqn:Hd.
      + exists true. split; [done|]. split; [|done]. intros _. exists k, s'. split; [left|by eexists].
      + destruct IH as (b & -> & Hb); [intros; apply Hl; by right|]. exists b. split; [done|]. rewrite Hb. split.
        * intros (k' & s2 & Hin & ?). exists k', s2. split; [by right|done].
        * intros (k' & s2 & [[= -> ->]|Hin]%elem_of_cons & Hs2); [rewrite Hd in Hs2; by destruct Hs2|by exists k', s2]. }
  destruct (Hloop (range 0 (spec_RoleSpecs spec))) as (b & Hb & Hiff).
  { intros [k s] Hin%elem_of_range. by apply (Hnil k). }
  exists b. split; [done|]. rewrite Hiff. unfold has_dependence. by setoid_rewrite elem_of_range.
Qed.

Lemma default_roles_spec roles : no_nil_spec roles →
  ∃ roles', default_roles roles = Done roles' ∧
    ∀ role, match roles !! role with
            | Some s => ∃ spec spec', s = Some spec ∧ default_role spec = Done spec' ∧ roles' !! role = Some (Some spec')
            | None => roles' !! role = None
            end.
Proof.
  intros Hnil. assert (∀ role, ∃ o : option (option RoleSpec), match roles !! role with
    | Some s => ∃ spec spec', s = Some spec ∧ default_role spec = Done spec' ∧ o = Some (Some spec')
    | None => o = None
    end) as Hex.
  { intros role. destruct (roles !! role) as [s|] eqn:Hs; [|by eexists]. destruct (Hnil _ _ Hs) as [spec ->].
    destruct (default_role_total spec) as (spec' & Hd & _). by eexists _, spec, spec'. }
  set (roles' := omap (λ s : option RoleSpec, spec ← s; match default_role spec with Done spec' => Some (Some spec') | _ => None end) roles).
  exists roles'. assert (∀ role, match roles !! role with
            | Some s => ∃ spec spec', s = Some spec ∧ default_role spec = Done spec' ∧ roles' !! role = Some (Some spec')
            | None => roles' !! role = None
            end) as Hroles'.
  { intros role. unfold roles'. rewrite lookup_omap. specialize (Hex role) as [o Ho]. destruct (roles !! role) as [s|]; [|done].
    destruct Ho as (spec & spec' & -> & Hd & _). exists spec, spec'. simpl. by rewrite Hd. }
  split; [|done]. by apply for_roles_Done.
Qed.

Lemma default_status_roles status roles role :
  role_status (default_status status roles) role =
  match role_status status role with
  | Some rs => Some rs
  | None => if decide (is_Some (roles !! role))
            then Some (mkRoleStatus RolePhasePending "" "" None zero_ReplicaStatus) else None
  end.
Proof.
  assert (status_RoleStatuses (default_status status roles) = Some (foldl (λ statuses role,
      match mjoin (statuses !! role) with
      | Some _ => statuses
      | None => <[role := Some (mkRoleStatus RolePhasePending "" "" None zero_ReplicaStatus)]> statuses
      end) (contents (status_RoleStatuses status)) (range_keys 0 roles))) as Hst.
  { unfold default_status. by case_decide. }
  unfold role_status. rewrite Hst, mlookup_Some, mlookup_contents. clear Hst.
  generalize (contents (status_RoleStatuses status)) as m. intros m.
  pose proof (NoDup_range_keys 0 roles) as Hnd.
  assert (∀ A (x y : A), (if decide (is_Some (roles !! role)) then x else y) =
    if decide (role ∈ range_keys 0 roles) then x else y) as ->.
  { intros A x y. pose proof (elem_of_range_keys 0 roles role). by repeat case_decide; try tauto. }
  revert m. induction (range_keys 0 roles) as [|k l IH]; intros m; simpl.
  { destruct (mjoin (m !! role)); [done|]. rewrite ?decide_False by apply not_elem_of_nil. done. }
  apply NoDup_cons in Hnd as [Hk Hnd]. rewrite (IH Hnd).
  destruct (mjoin (m !! k)) as [rs|] eqn:Hmk.
  - destruct (mjoin (m !! role)) as [rs'|] eqn:Hmr; [done|]. destruct (decide (role ∈ l)).
    + by rewrite decide_True by by right.
    + rewrite decide_False; [done|]. intros [->|?]%elem_of_cons; [by rewrite Hmk in Hmr|done].
  - destruct (decide (k = role)) as [->|Hne].
    + rewrite lookup_insert_eq. simpl. rewrite Hmk. by rewrite decide_True by by left.
    + rewrite lookup_insert_ne by done. destruct (mjoin (m !! role)); [done|].
      destruct (decide (role ∈ l)); [by rewrite decide_True by by right|].
      rewrite decide_False; [done|]. by intros [->|?]%elem_of_cons.
Qed.
End default.

(** A nil spec is dereferenced by the search for a dependence or, if that stops
    before, by the loop. *)
Section nil_spec.
Context `{MapOrder}.

Lemma nil_spec_elem (roles : gmap string (option RoleSpec)) n : ¬ no_nil_spec roles → ∃ role, (role, None) ∈ range n roles.
Proof.
  intros Hnil. destruct (decide (map_Exists (λ _ s, s = None :> option RoleSpec) roles)) as [(role & s & Hs & ->)|Hno].
  - exists role. by apply elem_of_range.
  - destruct Hnil. intros role s Hs. apply not_eq_None_Some. intros ->. apply Hno. by exists role, None.
Qed.

Lemma HasDependence_nil spec : ¬ no_nil_spec (spec_RoleSpecs spec) →
  HasDependence spec = Crash NilDereference ∨ ∃ b, HasDependence spec = Done b.
Proof.
  intros [role Hin]%(nil_spec_elem _ 0). unfold HasDependence. clear Hin. induction (range 0 _) as [|[k [s|]] l IH]; simpl.
  - right. by eexists.
  - destruct (role_Dependence s); [right; by eexists|done].
  - by left.
Qed.

Lemma default_roles_nil roles : ¬ no_nil_spec roles → default_roles roles = Crash NilDereference.
Proof.
  intros [role Hin]%(nil_spec_elem _ 0). unfold default_roles, for_roles. generalize roles at 1 as acc.
  revert Hin. induction (range 0 roles) as [|[k [s|]] l IH]; intros Hin acc; simpl; [by apply elem_of_nil in Hin| |done].
  apply elem_of_cons in Hin as [?|Hin]; [done|]. destruct (default_role_total s) as (s' & -> & _). simpl. by apply IH.
Qed.
End nil_spec.

Lemma IsJobLevelKey_spec key : IsJobLevelKey key = bool_decide (job_level key).
Proof.
  unfold IsJobLevelKey, job_level. apply eq_true_iff_eq. rewrite !orb_true_iff, !bool_decide_eq_true.
  rewrite !elem_of_cons, elem_of_nil. tauto.
Qed.

Lemma default_meta_filled `{MapOrder, ControllerUtil} m b (dependence : Prop) :
  (∀ m f, ContainsFinalizer m f = bool_decide (f ∈ meta_Finalizers m)) →
  (∀ m f, AddFinalizer m f = m <| meta_Finalizers ::= λ l, l ++ [f] |>) →
  (b = true ↔ dependence) → meta_filled dependence m (default_meta m b).
Proof.
  intros Hcontains Hadd Hb. unfold default_meta. rewrite Hcontains, Hadd.
  destruct m as [name gname ns uid labels annotations deleted fs owner]. unfold set_field. simpl.
  assert (∀ (acc : gmap string string) key, foldl (λ labels '(key, value), if IsJobLevelKey key then <[key := value]> labels else labels) acc
      (range 0 (contents annotations)) !! key =
    match annotations !? key with Some v => if decide (job_level key) then Some v else acc !! key | None => acc !! key end) as Hcopied.
  { intros acc key. rewrite (foldl_range_lookup _ (λ k v, if IsJobLevelKey k then Some v else None))
      by (intros ? k ?; by destruct (IsJobLevelKey k)).
    rewrite mlookup_contents. destruct (contents annotations !! key); simpl; [|done]. rewrite IsJobLevelKey_spec.
    case_decide; [by rewrite bool_decide_true|by rewrite bool_decide_false]. }
  unfold meta_filled. simpl. destruct b; simpl; [case_bool_decide as Hin; simpl|].
  all: eexists _, _; split_and!; [reflexivity|intros key; rewrite (mlookup_contents labels); apply Hcopied|naive_solver..].
Qed.

Lemma default_status_filled `{MapOrder} status roles roles' : (∀ role, is_Some (roles' !! role) ↔ is_Some (roles !! role)) →
  status_filled roles status (default_status status roles').
Proof.
  intros Hdom. assert (∃ statuses, status_RoleStatuses (default_status status roles') = Some statuses) as [statuses Hst].
  { unfold default_status. case_decide; by eexists. }
  exists statuses. split.
  - revert Hst. unfold default_status, filled. destruct status as [js sts phase time]. unfold set_field. simpl.
    rewrite (decide_ext (String.length phase = 0%nat) (phase = "")) by apply length_zero_iff.
    by case_decide as Hp; intros [= <-].
  - intros role. rewrite default_status_roles. destruct (role_status status role); [done|]. by apply decide_ext.
Qed.

Lemma status_complete_dom status roles roles' : (∀ role, is_Some (roles' !! role) ↔ is_Some (roles !! role)) →
  status_complete status roles' → status_complete status roles.
Proof. intros Hdom (? & ? & ? & Hroles). split_and!; [done..|]. intros role Hrole. by apply Hroles, Hdom. Qed.

Lemma default_status_complete `{MapOrder} status roles : status_complete (default_status status roles) roles.
Proof.
  unfold status_complete. split_and!.
  - unfold default_status. case_decide; by eexists.
  - unfold default_status. case_decide as Hp; simpl; [done|]. by rewrite length_zero_iff in Hp.
  - unfold default_status. case_decide; by eexists.
  - intros role Hrole. rewrite default_status_roles, decide_True by done. destruct (role_status _ _); by eexists.
Qed.

(** ** Properties *)


Lemma ValidateCreate_Done `{MapOrder} r :
  ValidateCreate r = Done tt ↔
    spec_RoleSpecs (job_Spec r) ≠ ∅ ∧
    map_Forall (λ role s, ∃ spec, s = Some spec ∧ role_valid role spec) (spec_RoleSpecs (job_Spec r)).
Proof.
  set (roles := spec_RoleSpecs (job_Spec r)).
  assert (∀ role spec, validate_role role spec = Done tt ↔ role_valid role spec) as Hvalid.
  { intros role spec. unfold validate_role, role_valid.
    destruct (MatchDNS1123 role) as [[]| |] eqn:Hm; [|naive_solver..].
    unfold spec_Replicas, spec_Template. destruct (role_ReplicaSpec spec) as [rs|]; simpl; [|naive_solver].
    destruct (Replicas rs) as [n|] eqn:Hn; [|naive_solver].
    case_decide as Hpos; [naive_solver lia|].
    case_decide as Hlen; [naive_solver (eauto using nil_length_inv)|].
    assert (pod_Containers (template_Spec (Template rs)) ≠ []) by (intros Hc; by rewrite Hc in Hlen).
    destruct (role_Dependence spec) as [d|].
    - case_decide as Hdep; [|split; [intros _; split; [done|]; exists rs, n; split_and!; try done; [lia|]|done]].
      + split; [done|]. intros (_ & ? & ? & [= <-] & _ & _ & _ & Hd). destruct Hdep as [H1 H2].
        by destruct (Hd d eq_refl H1); apply nil_length_inv.
      + intros d' [= <-] H1 H2. apply Hdep. by rewrite H1, H2.
    - split; [|done]. intros _. split; [done|]. exists rs, n. split_and!; try done. lia. }
  unfold ValidateCreate. fold roles. case_decide as Hsz.
  { split; [done|]. intros [Hne _]. by apply map_size_empty_inv in Hsz. }
  assert (roles ≠ ∅) by by rewrite <- map_size_empty_iff.
  transitivity (∀ kv, kv ∈ range 0 roles → ∃ spec, kv.2 = Some spec ∧ role_valid kv.1 spec).
  + generalize (range 0 roles) as l. induction l as [|[k s] l IH]; simpl.
    * split; [|done]. intros _ kv []%elem_of_nil.
    * split.
      -- intros ([] & Hs & Hl)%res_bind_Done. apply res_bind_Done in Hs as (spec & Hs & Hv).
         apply deref_Done in Hs as ->. apply Hvalid in Hv. rewrite IH in Hl.
         intros kv [->|Hin]%elem_of_cons; [by exists spec|by apply Hl].
      -- intros Hall. destruct (Hall (k, s)) as (spec & Hs & Hv); [left|]. simpl in *. subst s. simpl.
         apply Hvalid in Hv as ->. simpl. apply IH. intros. apply Hall. by right.
  + split.
    * intros Hall. split; [done|]. intros role s Hs. apply (Hall (role, s)). by apply elem_of_range.
    * intros [_ Hall] [role s] Hin%elem_of_range. by apply Hall.
Qed.

(** C36: validation accepts a job exactly when it has a role and every role has
    a spec, a DNS-1123 name, a positive number of replicas, a container, and
    role names in its dependence unless that names an MPI host file.  On a job
    whose roles have specs with their replicas set, such as a defaulted one,
    it never panics. *)
Theorem ValidateCreate_spec `{MapOrder} r :
  (ValidateCreate r = Done tt ↔
    spec_RoleSpecs (job_Spec r) ≠ ∅ ∧
    map_Forall (λ role s, ∃ spec, s = Some spec ∧ role_valid role spec) (spec_RoleSpecs (job_Spec r))) ∧
  (map_Forall (λ _ s, ∃ spec, s = Some spec ∧ role_complete spec) (spec_RoleSpecs (job_Spec r)) →
   ∀ p, ValidateCreate r ≠ Crash p).
Proof.
  set (roles := spec_RoleSpecs (job_Spec r)). split; [apply ValidateCreate_Done|].
  intros Hall p. unfold ValidateCreate. case_decide; [done|].
  assert (∀ kv, kv ∈ range 0 roles → ∃ spec, kv.2 = Some spec ∧ role_complete spec) as Hl.
  { intros [role s] Hin%elem_of_range. by apply (Hall role). }
  fold roles. induction (range 0 roles) as [|[k s] l IH]; simpl; [done|].
  destruct (Hl (k, s)) as (spec & Hs & rs & n & Hrs & Hn & _); [left|]. simpl in Hs. subst s. simpl.
  unfold validate_role, spec_Replicas, spec_Template. rewrite Hrs. simpl. rewrite Hn.
  destruct (MatchDNS1123 k) as [[]| |] eqn:Hm; simpl; [|done|].
  2:{ unfold MatchDNS1123 in Hm. by destruct (matches _ _). }
  assert (∀ kv, kv ∈ l → ∃ spec, kv.2 = Some spec ∧ role_complete spec) as Hl' by (intros; apply Hl; by right).
  repeat (case_decide || case_match); simpl; try done; by apply IH.
Qed.

Section idempotence.
Context `{MapOrder, ControllerUtil}.
Hypothesis contains_spec : ∀ m f, ContainsFinalizer m f = bool_decide (f ∈ meta_Finalizers m).
Hypothesis add_spec : ∀ m f, AddFinalizer m f = m <| meta_Finalizers ::= λ l, l ++ [f] |>.

Lemma copy_labels_twice (a l : gmap string string) :
  let copy l := foldl (λ labels '(key, value), if IsJobLevelKey key then <[key := value]> labels else labels) l (range 0 a) in
  copy (copy l) = copy l.
Proof.
  intros copy. apply map_eq. intros key.
  assert (∀ l, copy l !! key = match a !! key ≫= (λ v, if IsJobLevelKey key then Some v else None) with
                               | Some v => Some v | None => l !! key end) as Hcopy.
  { intros l'. unfold copy. by rewrite (foldl_range_lookup _ (λ k v, if IsJobLevelKey k then Some v else None))
      by (intros ? k ?; by destruct (IsJobLevelKey k)). }
  rewrite !Hcopy. by destruct (a !! key ≫= _).
Qed.

Lemma default_meta_idempotent m b : default_meta (default_meta m b) b = default_meta m b.
Proof.
  unfold default_meta. rewrite !contains_spec, !add_spec. simpl.
  destruct m as [n g ns uid labels annotations d fs c]. simpl.
  destruct b; simpl; [|by rewrite copy_labels_twice].
  destruct (bool_decide_reflect (AresJobFinalizer ∈ fs)) as [Hf|Hf]; simpl.
  - rewrite bool_decide_true by done. simpl. by rewrite copy_labels_twice.
  - rewrite bool_decide_true by (apply elem_of_app; right; left). simpl. by rewrite copy_labels_twice.
Qed.

Lemma default_roles_idempotent roles roles' : default_roles roles = Done roles' →
  no_nil_spec roles ∧ default_roles roles' = Done roles' ∧
  (has_dependence roles' ↔ has_dependence roles) ∧ no_nil_spec roles'.
Proof.
  intros Hroles.
  assert (no_nil_spec roles) as Hnil.
  { intros role s Hs. unfold default_roles in Hroles. rewrite for_roles_Done in Hroles. specialize (Hroles role).
    rewrite Hs in Hroles. destruct Hroles as (spec & _ & -> & _). by eexists. }
  destruct (default_roles_spec roles Hnil) as (roles2 & Heq & Hspec). rewrite Hroles in Heq. injection Heq as <-.
  assert (no_nil_spec roles') as Hnil'.
  { intros role s Hs. specialize (Hspec role). rewrite Hs in Hspec. destruct (roles !! role); [|done].
    destruct Hspec as (? & ? & _ & _ & [= ->]). by eexists. }
  split_and!; [done| | |done].
  - destruct (default_roles_spec roles' Hnil') as (roles3 & Heq & Hspec'). rewrite Heq. f_equal.
    apply map_eq. intros role. specialize (Hspec role). specialize (Hspec' role).
    destruct (roles' !! role) as [s|]; [|done]. destruct Hspec' as (spec & spec' & -> & Hd & ->).
    destruct (roles !! role); [|done]. destruct Hspec as (spec0 & spec1 & _ & Hd0 & [= <-]).
    destruct (default_role_total spec0) as (spec2 & Hd2 & Hc). rewrite Hd0 in Hd2. injection Hd2 as <-.
    rewrite (default_role_complete _ Hc) in Hd. by injection Hd as <-.
  - unfold has_dependence. split; intros (role & spec & Hr & Hd); specialize (Hspec role); rewrite Hr in Hspec.
    + destruct (roles !! role) as [s|] eqn:Hs; [|done]. destruct Hspec as (spec0 & spec1 & -> & Hd0 & [= <-]).
      apply default_role_keeps in Hd0 as [Hdep _]. exists role, spec0. by rewrite <- Hdep.
    + destruct Hspec as (spec0 & spec1 & [= <-] & Hd0 & Hr').
      apply default_role_keeps in Hd0 as [Hdep _]. exists role, spec1. by rewrite Hdep.
Qed.

Lemma default_status_idempotent status roles :
  default_status (default_status status roles) roles = default_status status roles.
Proof.
  set (status' := default_status status roles).
  assert (is_Some (status_JobStatus status') ∧ status_Phase status' ≠ "" ∧ is_Some (status_RoleStatuses status'))
    as ([js Hjs] & Hp & [m Hm]).
  { unfold status', default_status. case_decide as Hp; simpl; split_and!; first [by eexists|done|idtac]. by rewrite length_zero_iff in Hp. }
  assert (∀ role, role ∈ range_keys 0 roles → is_Some (mjoin (m !! role))) as Hall.
  { intros role Hin%elem_of_range_keys. pose proof (default_status_roles status roles role) as Hr.
    fold status' in Hr. unfold role_status in Hr. rewrite Hm, mlookup_Some, decide_True in Hr by done.
    rewrite Hr. destruct (mjoin (status_RoleStatuses status !? role)); by eexists. }
  unfold default_status at 1. destruct status' as [js' m' p t]. simpl in *. subst. simpl.
  rewrite decide_False by by rewrite length_zero_iff.
  f_equal. f_equal. induction (range_keys 0 roles) as [|role l IH]; simpl; [done|].
  destruct (Hall role) as [rs ->]; [left|]. apply IH. intros. apply Hall. by right.
Qed.
End idempotence.

(** On a defaulted job defaulting changes nothing. *)
Lemma Default_idempotent `{MapOrder, ControllerUtil} r r' :
  (∀ m f, ContainsFinalizer m f = bool_decide (f ∈ meta_Finalizers m)) →
  (∀ m f, AddFinalizer m f = m <| meta_Finalizers ::= λ l, l ++ [f] |>) →
  Default r = Done r' → Default r' = Done r'.
Proof.
  intros Hcontains Hadd. unfold Default at 1.
  intros (b & Hb & Hr)%res_bind_Done. apply res_bind_Done in Hr as (roles' & Hroles & [= <-]).
  destruct (default_roles_idempotent _ _ Hroles) as (Hnil & Hagain & Hdep & Hnil').
  unfold Default. simpl.
  destruct (HasDependence_spec (job_Spec r) Hnil) as (b1 & Hb1 & Hiff). rewrite Hb in Hb1. injection Hb1 as <-.
  match goal with |- context [HasDependence ?s] => destruct (HasDependence_spec s) as (b2 & -> & Hiff2); [done|] end.
  assert (b2 = b) as -> by (apply eq_true_iff_eq; rewrite Hiff, Hiff2; exact Hdep).
  simpl. rewrite Hagain. simpl.
  destruct r as [m s st]. unfold set_field, set_job_meta, set_job_Spec, set_job_Status. simpl.
  rewrite default_meta_idempotent, default_status_idempotent by done.
  unfold set_field, set_spec_RunPolicy, set_spec_RoleSpecs. simpl. f_equal. f_equal. f_equal.
  destruct (spec_RunPolicy s) as [c p]. simpl. by destruct c.
Qed.

(** What defaulting returns, pointwise. *)
Lemma Default_roles `{MapOrder, ControllerUtil} r r' : Default r = Done r' →
  no_nil_spec (spec_RoleSpecs (job_Spec r)) ∧
  (∀ role, match spec_RoleSpecs (job_Spec r) !! role with
           | Some s => ∃ spec spec', s = Some spec ∧ default_role spec = Done spec' ∧
                       spec_RoleSpecs (job_Spec r') !! role = Some (Some spec')
           | None => spec_RoleSpecs (job_Spec r') !! role = None
           end) ∧
  spec_JobPhasePolicy (job_Spec r') = spec_JobPhasePolicy (job_Spec r) ∧
  spec_Framework (job_Spec r') = spec_Framework (job_Spec r) ∧
  spec_FrameworkType (job_Spec r') = spec_FrameworkType (job_Spec r) ∧
  spec_AvailablePorts (job_Spec r') = spec_AvailablePorts (job_Spec r) ∧
  job_Status r' = default_status (job_Status r) (spec_RoleSpecs (job_Spec r')).
Proof.
  unfold Default. intros (b & _ & Hr)%res_bind_Done. apply res_bind_Done in Hr as (roles' & Hroles & [= <-]). simpl.
  destruct (default_roles_idempotent _ _ Hroles) as (Hnil & _).
  destruct (default_roles_spec _ Hnil) as (roles2 & Heq & Hspec). rewrite Hroles in Heq. injection Heq as <-.
  split_and!; done.
Qed.

#[local] Existing Instances canonical_order.

Definition ex_controllerutil : ControllerUtil := {|
  ContainsFinalizer m f := bool_decide (f ∈ meta_Finalizers m);
  AddFinalizer m f := m <| meta_Finalizers ::= λ l, l ++ [f] |>;
  RemoveFinalizer m f := m <| meta_Finalizers ::= filter (λ x, x ≠ f) |>;
|}.
#[local] Existing Instances ex_controllerutil.

Definition ex_raw_job : AresJob :=
  ex_job "demo" [("worker", mkRoleSpec (Some (mkReplicaSpec None ex_template "")) zero_RolePhasePolicy "" None)].


Lemma ValidateCreate_spec_witness :
  ValidateCreate (ex_job "demo" [("worker", ex_role 2 "Never")]) ≠ Crash NilDereference.
Proof.
  apply (ValidateCreate_spec (ex_job "demo" [("worker", ex_role 2 "Never")])).
  apply map_Forall_to_list. vm_compute. repeat constructor. eexists. split; [reflexivity|].
  do 2 eexists. split_and!; [reflexivity..|discriminate|discriminate|]. intros _. split; by eexists.
Defined.
