(* ===== verification/Metadata.v ===== *)
(** * Metadata synchronisation ([reconciler/metadata.go])

    The difference of two string maps as a JSON merge patch, and the patch
    that carries the job-level keys of a job to the objects it owns. *)

From S2P Require Import Prelude GoStd Errors Kube Api World Examples.

(** ** Definitions *)

Section diff.
Context `{MapOrder}.

(** The result is nil when it is empty; a [None] value is the JSON null. *)
Definition diff (current expected : gomap string) (filter : string → bool) : option (gmap string (option string)) :=
  let current := contents current in
  let expected := contents expected in
  let result := foldl (λ result '(key, val),
    if negb (filter key) then result
    else match current !! key with
         | Some oldVal => if decide (oldVal ≠ val) then <[key := Some val]> result else result
         | None => <[key := Some val]> result
         end) ∅ (range 0 expected) in
  let result := foldl (λ result key,
    if negb (filter key) then result
    else match expected !! key with
         | Some _ => result
         | None => <[key := None]> result
         end) result (range_keys 1 current) in
  if decide (size result = 0%nat) then None else Some result.

Definition patchMetadata `{ApiServer} (expected object : ObjectMeta) : op unit :=
  let annotations := diff (meta_Annotations object) (meta_Annotations expected) IsJobLevelKey in
  let labels := diff (meta_Labels object) (meta_Annotations expected) IsJobLevelKey in
  match annotations, labels with
  | None, None => mret tt
  | _, _ => request (PatchMetadata object (mkMetadataPatch annotations labels))
  end.
End diff.

(** ** Merge patches (RFC 7396), on flat maps *)

Definition merge_map (m : gmap string string) (p : gmap string (option string)) : gmap string string :=
  merge (λ v p, match p with Some p => p | None => v end) m p.

Definition merge_gomap (m : gomap string) (p : option (gmap string (option string))) : gomap string :=
  match p with
  | None => m
  | Some p => Some (merge_map (contents m) p)
  end.

Definition apply_patch (object : ObjectMeta) (p : MetadataPatch) : ObjectMeta :=
  object <| meta_Annotations := merge_gomap (meta_Annotations object) (patch_annotations p) |>
         <| meta_Labels := merge_gomap (meta_Labels object) (patch_labels p) |>.

(** The object carries exactly the job's values of the job-level keys. *)
Definition in_sync (expected : ObjectMeta) (m : gomap string) : Prop :=
  ∀ key, IsJobLevelKey key = true → contents m !! key = contents (meta_Annotations expected) !! key.

(** ** Lemmas *)

Section lemmas.
Context `{MapOrder}.

Lemma diff_lookup current expected (filter : string → bool) key :
  contents (diff current expected filter) !! key =
  if filter key then
    match contents current !! key, contents expected !! key with
    | _, Some v => if decide (contents current !! key = Some v) then None else Some (Some v)
    | Some _, None => Some None
    | None, None => None
    end
  else None.
Proof.
  set (cur := contents current). set (exp := contents expected).
  assert (∀ r : gmap string (option string),
    contents (if decide (size r = 0%nat) then None else Some r) = r) as Hcontents.
  { intros r. case_decide as Hr; [|done]. by apply map_size_empty_inv in Hr as ->. }
  unfold diff. fold cur exp. rewrite Hcontents.
  rewrite (foldl_range_keys_lookup _ (λ k _, if filter k then match exp !! k with Some _ => None | None => Some None end else None)).
  2:{ intros r k. by destruct (filter k), (exp !! k). }
  rewrite (foldl_range_lookup _ (λ k v, if filter k then if decide (cur !! k = Some v) then None else Some (Some v) else None)).
  2:{ intros r k v. destruct (filter k); simpl; [|done]. destruct (cur !! k) as [v'|]; [|done].
      by repeat case_decide; simplify_eq. }
  destruct (cur !! key) as [v|], (exp !! key) as [v'|], (filter key); simpl; rewrite ?lookup_empty; try done; by repeat case_decide.
Qed.

Lemma diff_None current expected (filter : string → bool) :
  diff current expected filter = None ↔
  ∀ key, filter key = true → contents current !! key = contents expected !! key.
Proof.
  assert (diff current expected filter = None ↔ contents (diff current expected filter) = ∅) as ->.
  { split; [by intros ->|]. unfold diff. case_decide as Hs; [done|]. simpl. intros Hr.
    rewrite Hr in Hs. by rewrite map_size_empty in Hs. }
  rewrite map_empty. setoid_rewrite diff_lookup. split; intros Hkey key.
  - intros Hf. specialize (Hkey key). rewrite Hf in Hkey.
    destruct (contents expected !! key) as [v|].
    + destruct (contents current !! key); case_decide; naive_solver.
    + by destruct (contents current !! key).
  - destruct (filter key) eqn:Hf; [|done]. rewrite Hkey by done.
    destruct (contents expected !! key); [|done]. by rewrite decide_True.
Qed.

(** Applying the difference installs the expected value of every key the
    filter selects, and touches no other key. *)
Lemma merge_diff m expected (filter : string → bool) key :
  contents (merge_gomap m (diff m expected filter)) !! key =
  if filter key then contents expected !! key else contents m !! key.
Proof.
  assert (∀ p, contents (merge_gomap m p) !! key =
    match contents p !! key with Some v => v | None => contents m !! key end) as ->.
  { intros [p|]; simpl; [|by rewrite lookup_empty]. unfold merge_map.
    rewrite lookup_merge. by destruct (contents m !! key), (p !! key). }
  rewrite diff_lookup. destruct (filter key); [|done].
  destruct (contents m !! key) as [v|] eqn:Hm, (contents expected !! key) as [v'|]; simpl; try done.
  by case_decide; simplify_eq.
Qed.
End lemmas.

(** The patch that [patchMetadata] sends, if any. *)
Definition the_patch `{MapOrder} (expected object : ObjectMeta) : MetadataPatch :=
  mkMetadataPatch (diff (meta_Annotations object) (meta_Annotations expected) IsJobLevelKey)
    (diff (meta_Labels object) (meta_Annotations expected) IsJobLevelKey).

(** ** Properties *)

(** Synchronising an object with its job sends no request exactly when
    the annotations and the labels of the object already carry the job's
    values of the job-level keys (the queue, the priority, the preemptability)
    and no stale ones; otherwise it sends one merge patch, whose application
    gives an object in that state with every other key, and every other field,
    unchanged, on which a second synchronisation sends nothing. *)
Theorem patchMetadata_syncs `{MapOrder, ApiServer} expected object w :
  let synced := in_sync expected (meta_Annotations object) ∧ in_sync expected (meta_Labels object) in
  let p := the_patch expected object in
  let object' := apply_patch object p in
  (synced → patchMetadata expected object w = (Done tt, w)) ∧
  (¬ synced → patchMetadata expected object w = request (PatchMetadata object p) w) ∧
  (in_sync expected (meta_Annotations object') ∧ in_sync expected (meta_Labels object')) ∧
  (∀ key, IsJobLevelKey key = false →
     contents (meta_Annotations object') !! key = contents (meta_Annotations object) !! key ∧
     contents (meta_Labels object') !! key = contents (meta_Labels object) !! key) ∧
  (meta_Name object' = meta_Name object ∧ meta_Namespace object' = meta_Namespace object ∧
   meta_UID object' = meta_UID object ∧ meta_Controller object' = meta_Controller object) ∧
  (∀ w', patchMetadata expected object' w' = (Done tt, w')).
Proof.
  assert (∀ o w, in_sync expected (meta_Annotations o) ∧ in_sync expected (meta_Labels o) →
    patchMetadata expected o w = (Done tt, w)) as Hsynced.
  { intros o w0 [Ha Hl]. unfold patchMetadata. by rewrite (proj2 (diff_None _ _ _) Ha), (proj2 (diff_None _ _ _) Hl). }
  intros synced p object'.
  assert (in_sync expected (meta_Annotations object') ∧ in_sync expected (meta_Labels object')) as Hs'.
  { split; intros key Hkey; simpl; rewrite merge_diff; by rewrite Hkey. }
  split; [by auto|]. split; [|split; [done|split; [|by auto]]].
  - intros Hno. unfold patchMetadata.
    destruct (diff (meta_Annotations object) _ _) eqn:Ha; [by rewrite <- Ha|].
    destruct (diff (meta_Labels object) _ _) eqn:Hl; [by rewrite <- Ha, <- Hl|].
    destruct Hno. split; [exact (proj1 (diff_None _ _ _) Ha)|exact (proj1 (diff_None _ _ _) Hl)].
  - intros key Hkey. simpl. by rewrite !merge_diff, Hkey.
Qed.

#[local] Existing Instances canonical_order accepting.

Lemma patchMetadata_syncs_witness :
  let job := zero_ObjectMeta <| meta_Annotations := Some {[AresQueueAnnotationKey := "prod"]} |> in
  let pod := zero_ObjectMeta <| meta_Annotations := Some {[JobPriorityAnnotationKey := "9"]} |> in
  let w := mkWorld (ex_job "demo" []) [] in
  patchMetadata job pod w = request (PatchMetadata pod (the_patch job pod)) w ∧
  patchMetadata job (apply_patch pod (the_patch job pod)) w = (Done tt, w).
Proof.
  intros job pod w. destruct (patchMetadata_syncs job pod w) as (_ & Hno & _ & _ & _ & Hagain).
  split; [|apply Hagain]. apply Hno. intros [Ha _].
  assert (IsJobLevelKey AresQueueAnnotationKey = true) as Hq by reflexivity.
  apply Ha in Hq. vm_compute in Hq. discriminate Hq.
Defined.
