(* ===== verification/Expectation.v ===== *)
(** * Expectations ([reconciler/expectation.go])

    The keys of a job's expectations, and the operations that apply to all of
    them; the store of expectations is kubeflow's. *)

From S2P Require Import Prelude GoStd Errors Kube Api World ReconcilerUtils Examples.

(** The objects a job owns, as the event handlers see them. *)
Inductive Object :=
| PodObject (pod : Pod)
| ServiceObject (svc : Service)
| PodGroupObject (pg : PodGroup)
| OtherObject (meta : ObjectMeta).

Definition object_meta (obj : Object) : ObjectMeta :=
  match obj with
  | PodObject pod => pod_meta pod
  | ServiceObject svc => service_meta svc
  | PodGroupObject pg => pg_meta pg
  | OtherObject meta => meta
  end.

Section expectation.
Context `{MapOrder, Kubeflow}.

(** The keys of a job, in the order in which they are visited. *)
Definition role_keys (key rtype : string) : list string :=
  [GenExpectationPodsKey key rtype; GenExpectationServicesKey key rtype].

Definition ExpectationsFuncApply {S} (job : AresJob) (f : string → eff S error unit) : eff S error unit :=
  key ← lift (KeyFunc (job_meta job));
  for_each (range_keys 0 (spec_RoleSpecs (job_Spec job))) (λ rtype,
    for_each (role_keys key rtype) f).

Definition ResetExpectations `{ApiServer} : op unit :=
  job ← get_job;
  ExpectationsFuncApply job (λ key, request (SetExpectations key 0 0)).

(** [satisfied] is the answer of kubeflow's store. *)
Definition SatisfiedExpectations (satisfied : string → bool) (job : AresJob) : bool :=
  match (ExpectationsFuncApply (S := unit) job (λ key,
           if satisfied key then mret tt
           else throw (Errorf ("expectation is not satisfied: " +:+ key))) tt).1 with
  | Done _ => true
  | _ => false
  end.

Definition DeleteExpectations : op unit :=
  job ← get_job;
  _ ← attempt (ExpectationsFuncApply job (λ key, emit (DeleteExpectationsOf key)));
  mret tt.

Definition expect_key (key rtype : string) (obj : Object) : string :=
  match obj with
  | PodObject _ => GenExpectationPodsKey key rtype
  | ServiceObject _ => GenExpectationServicesKey key rtype
  | _ => ""
  end.

Definition observe (job : AresJob) (obj : Object) (observed : string → action) : op unit :=
  match KeyFunc (job_meta job) with
  | Done key =>
      let rtype := GetReplicaType (meta_Labels (object_meta obj)) in
      if decide (String.length rtype = 0%nat) then mret tt
      else emit (observed (expect_key key rtype obj))
  | Fail _ => mret tt
  | Crash p => lift (Crash p)
  end.

Definition AddObject (job : AresJob) (obj : Object) : op unit := observe job obj CreationObserved.
Definition DeleteObject (job : AresJob) (obj : Object) : op unit := observe job obj DeletionObserved.

(** ** Lemmas *)

Lemma for_each_pure {S A} (f : A → eff S error unit) (l : list A) (P : A → Prop) s :
  (∀ x, P x → f x s = (Done tt, s)) → Forall P l → for_each l f s = (Done tt, s).
Proof.
  intros Hf. unfold for_each. induction 1 as [|x l Hx _ IH]; simpl; [done|].
  by rewrite (eff_bind_Done _ _ _ tt s (Hf x Hx)).
Qed.

Lemma for_each_stops {S A} (f : A → eff S error unit) (l : list A) (P : A → Prop) s :
  (∀ x, x ∈ l → (P x ∧ f x s = (Done tt, s)) ∨ (¬ P x ∧ ∃ e, f x s = (Fail e, s))) →
  (Forall P l ∧ for_each l f s = (Done tt, s)) ∨ (¬ Forall P l ∧ ∃ e, for_each l f s = (Fail e, s)).
Proof.
  unfold for_each. induction l as [|x l IH]; intros Hf; simpl; [by left|].
  destruct (Hf x) as [[Hx Heq]|[Hx [e Heq]]]; [left| |].
  - rewrite (eff_bind_Done _ _ _ tt s Heq). destruct IH as [[Hl ->]|[Hl [e He]]]; [by intros; apply Hf; right|left; auto|].
    right. split; [by intros [_ ?]%Forall_cons|]. by exists e.
  - right. split; [by intros [? _]%Forall_cons|]. exists e. by apply eff_bind_Fail.
Qed.

Lemma SatisfiedExpectations_iff satisfied job :
  SatisfiedExpectations satisfied job = true ↔
  ∃ key, KeyFunc (job_meta job) = Done key ∧
    ∀ role, is_Some (spec_RoleSpecs (job_Spec job) !! role) → Forall (λ k, satisfied k = true) (role_keys key role).
Proof.
  unfold SatisfiedExpectations, ExpectationsFuncApply.
  destruct (KeyFunc (job_meta job)) as [key|e|p] eqn:Hkey; simpl; [|naive_solver..].
  rewrite (eff_bind_Done _ _ _ key tt) by done.
  set (check := λ k, if satisfied k then mret tt else _).
  assert (∀ role, (Forall (λ k, satisfied k = true) (role_keys key role) ∧
      for_each (role_keys key role) check tt = (Done tt, tt)) ∨
    (¬ Forall (λ k, satisfied k = true) (role_keys key role) ∧ ∃ e, for_each (role_keys key role) check tt = (Fail e, tt)))
    as Hrole.
  { intros role. apply for_each_stops. intros k _. unfold check.
    destruct (satisfied k); [by left|right]. split; [done|]. by eexists. }
  destruct (for_each_stops (λ role, for_each (role_keys key role) check)
    (range_keys 0 (spec_RoleSpecs (job_Spec job)))
    (λ role, Forall (λ k, satisfied k = true) (role_keys key role)) tt) as [[Hall ->]|[Hno [e ->]]]; [by auto|..]; simpl.
  - rewrite Forall_forall in Hall. split; [|done]. intros _. exists key. split; [done|].
    intros role Hr. by apply Hall, elem_of_range_keys.
  - split; [done|]. intros (key' & [= <-] & Hall). destruct Hno. apply Forall_forall.
    intros role Hr%elem_of_range_keys. by apply Hall.
Qed.
End expectation.
