(* ===== verification/Cache.v ===== *)
(** * The role cache ([cache/])

    Keys and entries of [type.go], the interface of [interface.go] with the
    laws its clients rely on, the in-memory backend of [memory.go] and the
    delegating front of [cache.go]. *)

From S2P Require Import Prelude GoStd Errors Api.

(** ** Entries and keys ([type.go]) *)

Record RoleCache := mkRoleCache {
  cache_Phase : string;
  cache_Running : bool;
  cache_IPs : list string;
}.
#[export] Instance rebuild_RoleCache : Rebuild RoleCache := λ r,
  mkRoleCache (cache_Phase r) (cache_Running r) (cache_IPs r).

#[export] Instance set_cache_IPs : Setter cache_IPs. Proof. solve_setter. Defined.

Definition RoleCacheOptionFunc : Type := RoleCache → RoleCache.

Definition WithIPs (ips : list string) : RoleCacheOptionFunc := λ c, c <| cache_IPs := ips |>.

Definition NewRoleCache (phase : string) (opts : list RoleCacheOptionFunc) : RoleCache :=
  foldl (λ c opt, opt c)
    {| cache_Phase := phase;
       cache_Running := bool_decide (phase = RolePhaseRunning);
       cache_IPs := [] |} opts.

Abbreviation JobCache := (gmap string RoleCache).

Definition NamespacedNameToKey (ns name : string) : string := ns +:+ "." +:+ name.

Definition KeyToNamespacedName (key : string) : go (string * string) :=
  match SplitN2 key "."%char with
  | [ns; name] => Done (ns, name)
  | parts => Fail (Errorf ("failed to split '" +:+ key +:+ "' to 2 parts: [" +:+ Join parts " " +:+ "]"))
  end.

(** ** The interface ([interface.go]) *)

Class Interface (C : Type) := {
  SetRoleCache : string → string → RoleCache → eff C error unit;
  GetRoleCache : string → string → eff C error (option RoleCache);
  GetJobCache : string → eff C error JobCache;
  DeleteJobCache : string → eff C error unit;
  Close : eff C error unit;
}.

(** What the operator relies on: an open cache behaves as a finite map from
    (job, role) to entries. *)
Class InterfaceLaws (C : Type) `{Interface C} := {
  is_open : C → Prop;
  entry : C → string → string → option RoleCache;
  set_role_law : ∀ c job role data, is_open c → ∃ c',
    SetRoleCache job role data c = (Done tt, c') ∧ is_open c' ∧
    ∀ j r, entry c' j r = if decide (j = job ∧ r = role) then Some data else entry c j r;
  get_role_law : ∀ c job role, is_open c → ∃ c',
    GetRoleCache job role c = (Done (entry c job role), c') ∧ is_open c' ∧
    ∀ j r, entry c' j r = entry c j r;
  get_job_law : ∀ c job, is_open c → ∃ m c',
    GetJobCache job c = (Done m, c') ∧ is_open c' ∧
    (∀ r, m !! r = entry c job r) ∧ ∀ j r, entry c' j r = entry c j r;
  delete_job_law : ∀ c job, is_open c → ∃ c',
    DeleteJobCache job c = (Done tt, c') ∧ is_open c' ∧
    ∀ j r, entry c' j r = if decide (j = job) then None else entry c j r;
}.

(** ** The in-memory backend ([memory.go]) *)

Module MemoryCache.
Record t := mk { cache : gomap JobCache }.

Definition NewMemoryCache : t := mk (Some ∅).

(** [getSubCache] creates the job's map when it is missing, on reads too. *)
Definition getSubCache (key : string) : eff t error JobCache := λ c,
  match cache c with
  | None => (Fail (Errorf "MemoryCache has been closed"), c)
  | Some m =>
      match m !! key with
      | Some sc => (Done sc, c)
      | None => (Done ∅, mk (Some (<[key := ∅]> m)))
      end
  end.

Definition SetRoleCache (jobKey roleName : string) (data : RoleCache) : eff t error unit :=
  sc ← getSubCache jobKey;
  modify (λ c, mk (fmap (M := option) <[jobKey := <[roleName := data]> sc]> (cache c))).

Definition GetRoleCache (jobKey roleName : string) : eff t error (option RoleCache) :=
  sc ← getSubCache jobKey;
  mret (sc !! roleName).

Definition GetJobCache (jobKey : string) : eff t error JobCache := getSubCache jobKey.

Definition DeleteJobCache (jobKey : string) : eff t error unit :=
  modify (λ c, match cache c !? jobKey with
               | Some _ => mk (fmap (M := option) (delete jobKey) (cache c))
               | None => c
               end).

Definition Close : eff t error unit := modify (λ _, mk None).

(** The entry of a job and role, and whether the cache is open. *)
Definition entry (c : t) (job role : string) : option RoleCache :=
  sc ← cache c !? job; sc !! role.
Definition is_open (c : t) : Prop := is_Some (cache c).

Lemma getSubCache_open c key : is_open c → ∃ sc c',
  getSubCache key c = (Done sc, c') ∧ is_open c' ∧ cache c' !? key = Some sc ∧
  (∀ r, sc !! r = entry c key r) ∧ (∀ j r, entry c' j r = entry c j r).
Proof.
  destruct c as [[m|]]; [|by intros []]. intros _. unfold getSubCache, entry. simpl.
  destruct (m !! key) as [sc|] eqn:Hsc; simpl.
  - eexists _, _. split_and!; [done|by eexists|done| |done]. intros r. by rewrite mlookup_Some, Hsc.
  - eexists _, _. split_and!; [done|by eexists|apply lookup_insert_eq| |].
    + intros r. by rewrite mlookup_Some, Hsc, lookup_empty.
    + intros j r. simpl. rewrite !mlookup_Some, lookup_insert. case_decide as Hj; [|done].
      by rewrite <- Hj, Hsc; simpl; rewrite lookup_empty.
Qed.

Lemma SetRoleCache_law c job role data : is_open c → ∃ c',
  SetRoleCache job role data c = (Done tt, c') ∧ is_open c' ∧
  ∀ j r, entry c' j r = if decide (j = job ∧ r = role) then Some data else entry c j r.
Proof.
  intros Hc. destruct (getSubCache_open c job Hc) as (sc & c' & Hget & [m Hm] & Hsc & Hr & Hent).
  unfold SetRoleCache, mbind, eff_bind. rewrite Hget. simpl.
  eexists. split_and!; [done|rewrite Hm; by eexists|].
  intros j r. rewrite <- Hent. unfold entry. simpl. rewrite Hm in Hsc |- *.
  rewrite mlookup_Some in Hsc. simpl. rewrite !mlookup_Some, lookup_insert.
  destruct (decide (job = j)) as [->|]; simpl; [|by rewrite decide_False by naive_solver].
  rewrite Hsc. simpl. rewrite lookup_insert.
  repeat case_decide; naive_solver.
Qed.

Lemma GetRoleCache_law c job role : is_open c → ∃ c',
  GetRoleCache job role c = (Done (entry c job role), c') ∧ is_open c' ∧
  ∀ j r, entry c' j r = entry c j r.
Proof.
  intros Hc. destruct (getSubCache_open c job Hc) as (sc & c' & Hget & Ho & Hsc & Hr & Hent).
  exists c'. unfold GetRoleCache, mbind, eff_bind. rewrite Hget. by rewrite <- Hr.
Qed.

Lemma DeleteJobCache_law c job : is_open c → ∃ c',
  DeleteJobCache job c = (Done tt, c') ∧ is_open c' ∧
  ∀ j r, entry c' j r = if decide (j = job) then None else entry c j r.
Proof.
  destruct c as [[m|]]; [|by intros []]. intros _.
  eexists. split; [done|]. unfold DeleteJobCache, entry. simpl. rewrite mlookup_Some.
  destruct (m !! job) as [sc|] eqn:Hsc; simpl; split; [by eexists| |by eexists|].
  - intros j r. rewrite !mlookup_Some, lookup_delete. by repeat case_decide; subst.
  - intros j r. case_decide; subst; [|done]. by rewrite mlookup_Some, Hsc.
Qed.

#[global] Instance memory_interface : Interface t := {|
  Cache.SetRoleCache := SetRoleCache;
  Cache.GetRoleCache := GetRoleCache;
  Cache.GetJobCache := GetJobCache;
  Cache.DeleteJobCache := DeleteJobCache;
  Cache.Close := Close;
|}.

#[global] Instance memory_laws : InterfaceLaws t.
Proof.
  refine {| Cache.is_open := is_open; Cache.entry := entry |}.
  - intros c job role data Hc. by apply SetRoleCache_law.
  - intros c job role Hc. by apply GetRoleCache_law.
  - intros c job Hc. destruct (getSubCache_open c job Hc) as (sc & c' & ?); naive_solver.
  - intros c job Hc. by apply DeleteJobCache_law.
Defined.
End MemoryCache.

(** ** The front ([cache.go])

    [New] on the scheme of the parsed URI; every method delegates. *)
Record Cache := mkCache { backend : MemoryCache.t }.

Definition New (scheme : string) : go Cache :=
  if decide (scheme = "memory") then Done (mkCache MemoryCache.NewMemoryCache)
  else Fail (Errorf ("unknown cache backend: " +:+ scheme)).

Definition on_backend {A} (m : eff MemoryCache.t error A) : eff Cache error A :=
  λ c, let '(r, b) := m (backend c) in (r, mkCache b).

#[export] Instance cache_interface : Interface Cache := {|
  SetRoleCache job role data := on_backend (SetRoleCache job role data);
  GetRoleCache job role := on_backend (GetRoleCache job role);
  GetJobCache job := on_backend (GetJobCache job);
  DeleteJobCache job := on_backend (DeleteJobCache job);
  Close := on_backend Close;
|}.

(** ** Keys *)

Lemma SplitN2_app sep a b : ContainsByte sep a = false → SplitN2 (a +:+ String sep b) sep = [a; b].
Proof.
  induction a as [|c a IH]; simpl; intros Hno; [by rewrite decide_True|].
  apply orb_false_iff in Hno as [Hc%bool_decide_eq_false Ha]. rewrite decide_False by done.
  by rewrite IH.
Qed.

Lemma SplitN2_none sep s : ContainsByte sep s = false → SplitN2 s sep = [s].
Proof.
  induction s as [|c s IH]; simpl; [done|]. intros [Hc%bool_decide_eq_false Hs]%orb_false_iff.
  rewrite decide_False by done. by rewrite IH.
Qed.

Lemma SplitN2_two sep s a b : SplitN2 s sep = [a; b] → s = a +:+ String sep b.
Proof.
  revert a. induction s as [|c s IH]; intros a; simpl; [done|].
  case_decide as Hc; [intros [= <- <-]; by rewrite Hc|].
  destruct (SplitN2 s sep) as [|x l]; [done|]. intros [= <- ->]. rewrite (IH x eq_refl). done.
Qed.

(** The key of a job in the role cache determines the job, for namespaces
    without a dot (a namespace is a DNS label): splitting the key gives the
    namespace and the name back, whatever dots the name has, so two jobs never
    share a key; and every key that can be split is the key of its parts. *)
Theorem job_key_roundtrip ns name :
  ContainsByte "."%char ns = false →
  KeyToNamespacedName (NamespacedNameToKey ns name) = Done (ns, name) ∧
  (∀ ns' name', ContainsByte "."%char ns' = false →
     NamespacedNameToKey ns name = NamespacedNameToKey ns' name' → ns = ns' ∧ name = name') ∧
  (∀ key ns' name', KeyToNamespacedName key = Done (ns', name') → NamespacedNameToKey ns' name' = key).
Proof.
  assert (Hround : ∀ ns name, ContainsByte "."%char ns = false → KeyToNamespacedName (NamespacedNameToKey ns name) = Done (ns, name)).
  { intros ns0 name0 Hno. unfold KeyToNamespacedName, NamespacedNameToKey. 
    change (ns0 +:+ "." +:+ name0) with (ns0 +:+ String "."%char name0). by rewrite SplitN2_app. }
  intros Hno. split_and!; [by apply Hround| |].
  - intros ns' name' Hno' Heq. assert (Done (E := error) (ns, name) = Done (ns', name')) as [= -> ->]; [|done].
    by rewrite <- !Hround, Heq.
  - intros key ns' name'. unfold KeyToNamespacedName. destruct (SplitN2 key _) as [|a [|b [|]]] eqn:Hs; try done.
    intros [= -> ->]. by apply SplitN2_two in Hs.
Qed.

Lemma job_key_roundtrip_witness : KeyToNamespacedName (NamespacedNameToKey "prod" "train.v2") = Done ("prod", "train.v2").
Proof. apply (job_key_roundtrip "prod" "train.v2"). reflexivity. Defined.
