(* ===== verification/Conf.v ===== *)
(** * The operator's configuration ([conf/type.go])

    The configuration tree, its validation and the cache URIs.  The YAML
    decoder is a third-party package and [text/template] a template engine:
    compiling and executing a command template are parameters. *)

From S2P Require Import Prelude GoStd Errors Kube Api.
From Stdlib Require Import QArith.

Open Scope Z_scope.

(** ** Data *)

Record CmdConfig := mkCmdConfig {
  cmd_Name : string;
  cmd_Namespace : string;
  cmd_CacheURI : string;
  cmd_Key : string;
  cmd_Roles : string;
  cmd_MPIHostFile : string;
  cmd_ReplicasPerNode : Z;
  cmd_MPIImplementation : string;
}.

(** [template.New("cmdTemplate").Parse] and [Execute]. *)
Class Templates := {
  Template_t : Type;
  ParseTemplate : string → go Template_t;
  ExecuteTemplate : Template_t → CmdConfig → go string;
}.

Record VolumeConfig := mkVolumeConfig {
  vol_Name : string;
  vol_HostPath : string;
}.

Record InitializerConfig `{Templates} := mkInitializerConfig {
  init_Image : string;
  init_Cmd : string;
  init_CmdTemplate : option Template_t;
  init_Envs : gmap string string;
  init_Volumes : list VolumeConfig;
}.

Record ObserverConfig := mkObserverConfig {
  obs_Enabled : bool;
  obs_Service : string;
  obs_NodePort : Z;
  obs_Namespace : string;
  obs_Labels : gmap string string;
}.

Record CacheConfig := mkCacheConfig {
  cache_URI : string;
  cache_Observer : ObserverConfig;
}.

(** The float is only compared with zero. *)
Record RestConfig := mkRestConfig {
  rest_QPS : Q;
  rest_Burst : Z;
}.

Record OperatorConfig := mkOperatorConfig {
  op_Rest : RestConfig;
  op_TTLSecondsAfterSucceeded : option Z;    (* AresJob.TTLSecondsAfterSucceeded *)
}.

Record Configuration `{Templates} := mkConfiguration {
  conf_Operator : OperatorConfig;
  conf_Cache : CacheConfig;
  conf_Initializers : gmap string (option InitializerConfig);
}.

(** ** The cache *)

Definition NodePortEnabled (c : ObserverConfig) : bool := bool_decide (0 < obs_NodePort c).

Definition CacheNodePortEnabled (c : CacheConfig) : bool :=
  obs_Enabled (cache_Observer c) && NodePortEnabled (cache_Observer c).

Definition NodePortURI (c : ObserverConfig) (ips : list string) : string :=
  let ip := Join ips "," in
  let ip := if decide (0 < String.length ip)%nat then ip +:+ ":" +:+ Itoa (obs_NodePort c)
            else Itoa (obs_NodePort c) in
  "nodePort://" +:+ ip.

Definition ObserverURI (c : ObserverConfig) : string :=
  if NodePortEnabled c then NodePortURI c [] else "http://" +:+ obs_Service c.

Definition GetURI (c : CacheConfig) : string :=
  if obs_Enabled (cache_Observer c) then ObserverURI (cache_Observer c) else cache_URI c.

(** ** Validation *)

Definition ObserverValidate (c : ObserverConfig) (prefix : string) : go unit :=
  if NodePortEnabled c then
    if decide (String.length (obs_Namespace c) = 0%nat) then Fail (Errorf (prefix +:+ ".namespace is required"))
    else if decide (size (obs_Labels c) = 0%nat) then Fail (Errorf (prefix +:+ ".labels is required"))
    else Done tt
  else Done tt.

Definition CacheValidate (c : CacheConfig) (prefix : string) : go unit :=
  ObserverValidate (cache_Observer c) (prefix +:+ ".observer").

Definition RestValidate (c : RestConfig) (prefix : string) : go unit :=
  if Qle_bool (rest_QPS c) 0 || bool_decide (rest_Burst c ≤ 0)
  then Fail (Errorf (prefix +:+ ".qps and " +:+ prefix +:+ ".burst must be positive"))
  else Done tt.

Definition OperatorValidate (c : OperatorConfig) (prefix : string) : go unit :=
  RestValidate (op_Rest c) (prefix +:+ ".restConfig").

Section conf.
Context `{Templates, MapOrder}.

Fixpoint validate_volumes (prefix : string) (i : Z) (volumes : list VolumeConfig) : go unit :=
  match volumes with
  | [] => Done tt
  | volume :: volumes =>
      if decide (String.length (vol_Name volume) = 0%nat ∨ String.length (vol_HostPath volume) = 0%nat)
      then Fail (Errorf (prefix +:+ ".volumes[" +:+ Itoa i +:+ "] is not completed"))
      else validate_volumes prefix (i + 1) volumes
  end.

(** The compiled template is stored in the configuration. *)
Definition InitializerValidate (c : InitializerConfig) (prefix : string) : go InitializerConfig :=
  if decide (String.length (init_Image c) = 0%nat) then Fail (Errorf (prefix +:+ ".image is required"))
  else
    match ParseTemplate (init_Cmd c) with
    | Fail err => Fail (Errorf (prefix +:+ ".cmd parse failed: " +:+ error_string err))
    | Crash p => Crash p
    | Done t =>
        _ ← validate_volumes prefix 0 (init_Volumes c);
        Done (mkInitializerConfig _ (init_Image c) (init_Cmd c) (Some t) (init_Envs c) (init_Volumes c))
    end.

(** The receivers are pointers, so validation updates the initializers of
    the configuration. *)
Definition Configuration_Validate (c : Configuration) : go Configuration :=
  _ ← CacheValidate (conf_Cache c) "$.cache";
  _ ← OperatorValidate (conf_Operator c) "$.operator";
  inits ← fold_res (λ inits '(t, initConfig),
      ic ← deref initConfig;
      ic ← InitializerValidate ic ("$." +:+ t);
      Done (<[t := Some ic]> inits))
    (conf_Initializers c) (range 0 (conf_Initializers c));
  Done (mkConfiguration _ (conf_Operator c) (conf_Cache c) inits).

Definition GetCommonConfig (c : Configuration) : go (option InitializerConfig) :=
  match conf_Initializers c !! "common" with
  | Some config => Done config
  | None => Fail (Errorf "common initializer config is not found")
  end.

Definition TTLSecondsAfterSucceeded (c : Configuration) : option Z :=
  seconds ← op_TTLSecondsAfterSucceeded (conf_Operator c);
  Some (wrap64 (seconds * Second)).

Definition GetRestConfig (c : Configuration) : RestConfig := op_Rest (conf_Operator c).
End conf.
