(* ===== verification/Dependence.v ===== *)
(** * Dependences between roles ([reconciler/dependence.go], [reconciler/cache.go])

    The init container that makes a pod wait for the roles it depends on,
    and the URI at which it finds the role cache. *)

From S2P Require Import Prelude GoStd Errors Kube Api ReconcilerUtils Cache Conf.

(** ** [path.Dir] *)

(** [strings.Split(s, sep)] for a one-byte separator. *)
Fixpoint Split (s : string) (sep : ascii) : list string :=
  match s with
  | EmptyString => [""]
  | String c s' =>
      if decide (c = sep) then "" :: Split s' sep
      else match Split s' sep with
           | p :: ps => String c p :: ps
           | [] => []
           end
  end.

(** The elements that survive [path.Clean], innermost first. *)
Definition clean_elem (rooted : bool) (out : list string) (elem : string) : list string :=
  if decide (elem = "" ∨ elem = ".") then out
  else if decide (elem = "..") then
    match out with
    | top :: rest => if decide (top = "..") then elem :: out else rest
    | [] => if rooted then [] else [elem]
    end
  else elem :: out.

(** [path.Clean]. *)
Definition PathClean (p : string) : string :=
  if decide (p = "") then "."
  else
    let rooted := match p with String c _ => bool_decide (c = "/"%char) | _ => false end in
    let out := reverse (foldl (clean_elem rooted) [] (Split p "/"%char)) in
    if rooted then "/" +:+ Join out "/"
    else if decide (out = []) then "." else Join out "/".

(** [path.Dir]: the path up to its final slash, cleaned. *)
Definition PathDir (p : string) : string :=
  let elems := Split p "/"%char in
  let dir := take (length elems - 1) elems in
  PathClean (match dir with [] => "" | _ => Join dir "/" +:+ "/" end).

(** ** Building the init container *)

Definition GetConfigurationVolume : Volume := mkVolume "configurations" EmptyDir.

Definition PullIfNotPresent : string := "IfNotPresent".

Section dependence.
Context `{Templates, MapOrder}.

Definition GetInitContainer (initConfig : InitializerConfig) (cmdConfig : CmdConfig) (setLocalIPEnv : bool)
    : go Container :=
  let cmdConfig := mkCmdConfig (cmd_Name cmdConfig) (cmd_Namespace cmdConfig) (cmd_CacheURI cmdConfig)
    (cmd_Key cmdConfig) (if decide (cmd_Roles cmdConfig = "") then "''" else cmd_Roles cmdConfig)
    (cmd_MPIHostFile cmdConfig) (cmd_ReplicasPerNode cmdConfig) (cmd_MPIImplementation cmdConfig) in
  template ← deref (init_CmdTemplate initConfig);
  buffer ← ExecuteTemplate template cmdConfig;
  let env := [mkEnvVar "KS_KUBE_HOST_IP" "" (Some "status.hostIP")]
    ++ (if setLocalIPEnv then [mkEnvVar "LOCAL_IP" "" (Some "status.hostIP")] else [])
    ++ ((λ '(name, val), mkEnvVar name val None) <$> range 0 (init_Envs initConfig)) in
  let mounts := (λ volume, mkVolumeMount (vol_Name volume) (vol_HostPath volume)) <$> init_Volumes initConfig in
  Done (mkContainer "initializer" (init_Image initConfig) PullIfNotPresent
    ["/bin/bash"; "-c"; ReplaceAll buffer "010"%char " "%char] None env mounts).

(** ** The cache URI ([reconciler/cache.go]) *)

(** [ips.List()] is the sorted set; [hosts] is the result of listing the
    observer's pods. *)
Definition getObserverHostIPs (hosts : error + list Pod) : go (list string) :=
  match hosts with
  | inl err => Fail err
  | inr pods =>
      let ips := foldl (λ (ips : gset string) pod,
        let ip := pstatus_HostIP (pod_Status pod) in
        if decide (0 < String.length ip)%nat then {[ip]} ∪ ips else ips) ∅ pods in
      Done (merge_sort String.le (elements ips))
  end.

Definition getCacheURI (config : Configuration) (hosts : error + list Pod) : string :=
  let c := conf_Cache config in
  if negb (CacheNodePortEnabled c) then GetURI c
  else match getObserverHostIPs hosts with
       | Done ips => NodePortURI (cache_Observer c) ips
       | _ => NodePortURI (cache_Observer c) []
       end.

(** ** Adding it to a pod *)

Section add.
Context (config : Configuration) (hosts : error + list Pod).

Definition update_pod_spec (t : PodTemplateSpec) (f : PodSpec → PodSpec) : PodTemplateSpec :=
  t <| template_Spec ::= f |>.

(** The template and the container: the volumes are added to the template
    here, the container by the caller. *)
Definition addInitContainer (job : AresJob) (podTemplate : PodTemplateSpec) (rtype : string)
    (cmdConfig : CmdConfig) : go (Container * PodTemplateSpec) :=
  spec ← deref (role_spec (job_Spec job) rtype);
  dependence ← deref (role_Dependence spec);
  let cmdConfig := mkCmdConfig (meta_Name (job_meta job)) (meta_Namespace (job_meta job))
    (getCacheURI config hosts)
    (NamespacedNameToKey (meta_Namespace (job_meta job)) (meta_Name (job_meta job)))
    (Join (dep_RoleNames dependence) ",")
    (cmd_MPIHostFile cmdConfig) (cmd_ReplicasPerNode cmdConfig) (cmd_MPIImplementation cmdConfig) in
  initConfig ← GetCommonConfig config;
  initConfig ← deref initConfig;
  initContainer ← GetInitContainer initConfig cmdConfig true;
  Done (initContainer, update_pod_spec podTemplate (λ s, s <| pod_Volumes ::= λ vs,
    vs ++ ((λ volume, mkVolume (vol_Name volume) (HostPath (vol_HostPath volume))) <$> init_Volumes initConfig) |>)).

Definition AddMPIInitializer (job : AresJob) (podTemplate : PodTemplateSpec) (rtype index : string)
    : go PodTemplateSpec :=
  spec ← deref (role_spec (job_Spec job) rtype);
  dependence ← deref (role_Dependence spec);
  filepaths ← deref (dep_MPIHostFile dependence);
  first ← slice_get (Split filepaths ","%char) 0;
  let mount := mkVolumeMount (volume_Name GetConfigurationVolume) (PathDir first) in
  podTemplate ←
    (match pod_Containers (template_Spec podTemplate) with
     | c :: cs => Done (update_pod_spec podTemplate (λ s,
         s <| pod_Volumes ::= λ vs, vs ++ [GetConfigurationVolume] |>
           <| pod_Containers := (c <| container_VolumeMounts ::= λ ms, ms ++ [mount] |>) :: cs |>))
     | [] => Crash IndexOutOfRange
     end);
  mpi ← deref (fw_MPI (spec_Framework (job_Spec job)));
  '(initContainer, podTemplate) ← addInitContainer job podTemplate rtype
    (mkCmdConfig "" "" "" "" "" filepaths (ReplicasPerNode mpi) (Implementation mpi));
  let initContainer := initContainer <| container_VolumeMounts ::= λ ms, mount :: ms |> in
  Done (update_pod_spec podTemplate (λ s, s <| pod_InitContainers ::= λ cs, initContainer :: cs |>)).

Definition AddWaiter (job : AresJob) (podTemplate : PodTemplateSpec) (rtype index : string)
    : go PodTemplateSpec :=
  '(initContainer, podTemplate) ← addInitContainer job podTemplate rtype
    (mkCmdConfig "" "" "" "" "" "''" 0 "''");
  Done (update_pod_spec podTemplate (λ s, s <| pod_InitContainers ::= λ cs, initContainer :: cs |>)).
End add.
End dependence.
