(* ===== verification/NodeManager.v ===== *)
(** * The node manager ([reconciler/node/manager.go])

    The set of unhealthy nodes, its operations under their lock as atomic
    steps, and the abstract machine it refines. *)

From S2P Require Import Prelude GoStd Errors Kube.

(** ** Definitions *)

(** [type Conditions map[corev1.NodeConditionType]corev1.NodeCondition] *)
Abbreviation NodeConditions := (gmap string Condition).

Definition Conditions_String `{MapOrder} (conds : NodeConditions) : string :=
  match conds !! NodeReady with
  | Some cond => cond_Type cond +:+ "(" +:+ cond_Status cond +:+ "): " +:+ cond_Message cond
  | None =>
      let ctypes := range_keys 0 conds in
      match range 1 conds with
      | (_, cond) :: _ =>
          Join ctypes "/" +:+ "(" +:+ cond_Status cond +:+ "): " +:+ cond_Message cond
      | [] => Itoa (Z.of_nat (size conds)) +:+ " unhealthy conditions"
      end
  end.

Record Manager := mkManager { unhealthyNodes : gmap string NodeConditions }.

Definition NewManager : Manager := mkManager ∅.

(** A missing node reads as the nil map, of length 0. *)
Definition IsNodeDown `{MapOrder} (m : Manager) (name : string) : bool * string :=
  let conds := default ∅ (unhealthyNodes m !! name) in
  if decide (size conds = 0%nat) then (false, "") else (true, Conditions_String conds).

Definition RemoveNode (m : Manager) (name : string) : bool * Manager :=
  match unhealthyNodes m !! name with
  | Some _ => (true, mkManager (delete name (unhealthyNodes m)))
  | None => (false, m)
  end.

Definition SetNode (m : Manager) (name : string) (conds : NodeConditions) : bool * Manager :=
  (bool_decide (unhealthyNodes m !! name = None), mkManager (<[name := conds]> (unhealthyNodes m))).

Definition unknown_conditions (node : Node) : NodeConditions :=
  foldl (λ conds cond,
    if decide (cond_Status cond = ConditionUnknown) then <[cond_Type cond := cond]> conds
    else conds) ∅ (node_Conditions node).

Definition HandleGeneric (m : Manager) (node : Node) : bool * Manager :=
  let conds := unknown_conditions node in
  if decide (0 < size conds)%nat then SetNode m (node_Name node) conds
  else (false, (RemoveNode m (node_Name node)).2).

Definition HandleUpdate (m : Manager) (old node : Node) : bool * Manager := HandleGeneric m node.

(** ** The abstract machine

    The watched nodes that are down; an observation of a node, or its removal. *)

Inductive observation :=
| Observed (node : Node)
| Removed (name : string).

Definition unhealthy (node : Node) : Prop :=
  Exists (λ c, cond_Status c = ConditionUnknown) (node_Conditions node).
#[export] Instance unhealthy_dec node : Decision (unhealthy node).
Proof. unfold unhealthy. apply _. Defined.

(** The answer is whether the node just went down. *)
Definition spec_step (down : gset string) (o : observation) : bool * gset string :=
  match o with
  | Observed node =>
      if decide (unhealthy node)
      then (bool_decide (node_Name node ∉ down), {[node_Name node]} ∪ down)
      else (false, down ∖ {[node_Name node]})
  | Removed name => (false, down ∖ {[name]})
  end.

Definition manager_step (m : Manager) (o : observation) : bool * Manager :=
  match o with
  | Observed node => HandleGeneric m node
  | Removed name => (false, (RemoveNode m name).2)
  end.

Fixpoint run {S} (step : S → observation → bool * S) (s : S) (l : list observation)
    : list bool * S :=
  match l with
  | [] => ([], s)
  | o :: l => let '(b, s') := step s o in let '(bs, s'') := run step s' l in (b :: bs, s'')
  end.

(** The nodes a manager reports as down; entries are never empty. *)
Definition down_set (m : Manager) : gset string := dom (unhealthyNodes m).
Definition manager_inv (m : Manager) : Prop := map_Forall (λ _ conds, conds ≠ ∅) (unhealthyNodes m).

(** ** Lemmas *)

Lemma unknown_conditions_nonempty node : unknown_conditions node ≠ ∅ ↔ unhealthy node.
Proof.
  unfold unknown_conditions, unhealthy.
  enough (∀ acc, foldl (λ conds cond,
    if decide (cond_Status cond = ConditionUnknown) then <[cond_Type cond := cond]> conds
    else conds) acc (node_Conditions node) ≠ (∅ : NodeConditions) ↔
    acc ≠ ∅ ∨ Exists (λ c, cond_Status c = ConditionUnknown) (node_Conditions node)) as ->;
    [naive_solver|].
  induction (node_Conditions node) as [|c l IH]; intros acc; simpl.
  - rewrite Exists_nil. naive_solver.
  - rewrite IH, Exists_cons. case_decide; [|naive_solver].
    pose proof (insert_non_empty acc (cond_Type c) c). naive_solver.
Qed.

Lemma unknown_conditions_size node : (0 < size (unknown_conditions node))%nat ↔ unhealthy node.
Proof.
  rewrite <- unknown_conditions_nonempty, <- map_size_non_empty_iff. lia.
Qed.

Lemma RemoveNode_dom m name : down_set (RemoveNode m name).2 = down_set m ∖ {[name]}.
Proof.
  unfold RemoveNode, down_set. destruct (unhealthyNodes m !! name) eqn:Hm; simpl.
  - apply dom_delete_L.
  - apply not_elem_of_dom in Hm. set_solver.
Qed.

Lemma RemoveNode_inv m name : manager_inv m → manager_inv (RemoveNode m name).2.
Proof.
  unfold RemoveNode, manager_inv. destruct (_ !! name); simpl; [|done]. apply map_Forall_delete.
Qed.

Lemma manager_step_inv m o : manager_inv m → manager_inv (manager_step m o).2.
Proof.
  intros Hm. destruct o as [node|name]; simpl; [|by apply RemoveNode_inv].
  unfold HandleGeneric. case_decide as Hs; simpl; [|by apply RemoveNode_inv].
  apply map_Forall_insert_2; [|done]. by apply unknown_conditions_nonempty, unknown_conditions_size.
Qed.

Lemma manager_step_spec m o :
  ((manager_step m o).1, down_set (manager_step m o).2) = spec_step (down_set m) o.
Proof.
  destruct o as [node|name]; simpl; [|by rewrite RemoveNode_dom].
  unfold HandleGeneric. pose proof (unknown_conditions_size node).
  destruct (decide (unhealthy node)); [rewrite decide_True by tauto|rewrite decide_False by tauto; by rewrite <- RemoveNode_dom].
  unfold SetNode. simpl.
  f_equal; [|apply dom_insert_L].
  apply bool_decide_ext. unfold down_set. by rewrite not_elem_of_dom.
Qed.

Lemma IsNodeDown_down_set `{MapOrder} m name :
  manager_inv m → (IsNodeDown m name).1 = bool_decide (name ∈ down_set m).
Proof.
  intros Hm. unfold IsNodeDown, down_set. symmetry.
  destruct (unhealthyNodes m !! name) as [conds|] eqn:Hn; simpl.
  - rewrite bool_decide_eq_true_2 by by apply elem_of_dom_2 in Hn.
    apply Hm in Hn. by rewrite decide_False by by rewrite map_size_empty_iff.
  - rewrite bool_decide_eq_false_2 by by apply not_elem_of_dom.
    by rewrite decide_True by apply map_size_empty.
Qed.

(** ** Properties *)

(** C38: after any sequence of node observations and removals from an empty
    manager, the manager has answered every observation as the abstract
    machine does, and [IsNodeDown] is true exactly of the nodes whose last
    event was an observation with a condition of status Unknown (the set the
    abstract machine keeps). *)
Theorem node_manager_refines `{MapOrder} (l : list observation) (name : string) :
  (run manager_step NewManager l).1 = (run spec_step ∅ l).1 ∧
  (IsNodeDown (run manager_step NewManager l).2 name).1 =
    bool_decide (name ∈ (run spec_step ∅ l).2).
Proof.
  assert (∀ m, manager_inv m →
    manager_inv (run manager_step m l).2 ∧
    ((run manager_step m l).1, down_set (run manager_step m l).2) = run spec_step (down_set m) l)
    as Hrun.
  { induction l as [|o l IH]; intros m Hm; simpl; [done|].
    rewrite <- manager_step_spec. pose proof (manager_step_inv m o Hm) as Hm'.
    destruct (manager_step m o) as [b m']; simpl in *. destruct (IH m' Hm') as [Hi He].
    rewrite <- He. by destruct (run manager_step m' l). }
  destruct (Hrun NewManager) as [Hi He]; [apply map_Forall_empty|].
  change (down_set NewManager) with (dom (∅ : gmap string NodeConditions)) in He.
  rewrite dom_empty_L in He. rewrite <- He. simpl. split; [done|]. by apply IsNodeDown_down_set.
Qed.
