(* ===== verification/PodOrder.v ===== *)
(** * The order of the pods

    Comparing index labels by length and then lexicographically is comparing
    the numbers they denote, so [SortPodsByRoleAndIndex] orders the pods of a
    role by index. *)

From S2P Require Import Prelude GoStd Errors Kube Api ReconcilerUtils Examples.

(** ** Decimal numerals *)

Definition shorter_or_less (a b : string) : bool :=
  if decide (String.length a = String.length b) then string_lt a b
  else bool_decide (String.length a < String.length b)%nat.

Definition is_digit_value (d : Z) : Prop := 0 ≤ d < 10.
Definition numeral (l : list Z) : string := String.string_of_list_ascii (digit_char <$> l).

Lemma foldl_horner l n : foldl (λ n d, n * 10 + d) n l = n * 10 ^ Z.of_nat (length l) + horner l.
Proof.
  unfold horner. revert n. induction l as [|d l IH]; intros n; [simpl; lia|].
  change (foldl (λ n d, n * 10 + d) (n * 10 + d) l = n * 10 ^ Z.of_nat (length (d :: l)) + foldl (λ n d, n * 10 + d) (0 * 10 + d) l).
  rewrite IH, (IH (0 * 10 + d)). simpl length. rewrite Nat2Z.inj_succ, Z.pow_succ_r by lia. nia.
Qed.

Lemma horner_cons d l : horner (d :: l) = d * 10 ^ Z.of_nat (length l) + horner l.
Proof. exact (foldl_horner l d). Qed.

Lemma horner_bound l : Forall is_digit_value l → 0 ≤ horner l < 10 ^ Z.of_nat (length l).
Proof.
  induction 1 as [|d l Hd Hl IH]; [unfold horner; simpl; lia|].
  rewrite horner_cons. simpl length. rewrite Nat2Z.inj_succ, Z.pow_succ_r by lia. unfold is_digit_value in Hd. nia.
Qed.

Lemma length_numeral l : String.length (numeral l) = length l.
Proof. unfold numeral. induction l as [|d l IH]; [done|]. exact (f_equal S IH). Qed.

Lemma compare_digit d1 d2 :
  is_digit_value d1 → is_digit_value d2 → Ascii.compare (digit_char d1) (digit_char d2) = (d1 ?= d2).
Proof.
  intros H1 H2. unfold Ascii.compare. rewrite <- N2Z.inj_compare.
  change (Z.of_N (N_of_ascii (digit_char d1))) with (byte (digit_char d1)).
  change (Z.of_N (N_of_ascii (digit_char d2))) with (byte (digit_char d2)).
  rewrite !byte_digit_char by done. destruct (Z.compare_spec d1 d2); [subst; apply Z.compare_refl|..].
  - apply Z.compare_lt_iff. lia.
  - apply Z.compare_gt_iff. lia.
Qed.

Lemma compare_numeral l1 l2 :
  length l1 = length l2 → Forall is_digit_value l1 → Forall is_digit_value l2 →
  String.compare (numeral l1) (numeral l2) = (horner l1 ?= horner l2).
Proof.
  intros Hlen H1. revert l2 Hlen. induction H1 as [|d1 l1 Hd1 Hl1 IH]; intros [|d2 l2]; [done..|].
  intros [= Hlen] [Hd2 Hl2]%Forall_cons.
  change (match Ascii.compare (digit_char d1) (digit_char d2) with
          | Eq => String.compare (numeral l1) (numeral l2) | Lt => Lt | Gt => Gt end = (horner (d1 :: l1) ?= horner (d2 :: l2))).
  rewrite compare_digit, IH by done. rewrite !horner_cons, Hlen.
  pose proof (horner_bound l1 Hl1) as Hb1. pose proof (horner_bound l2 Hl2) as Hb2. rewrite Hlen in Hb1.
  destruct (Z.compare_spec d1 d2) as [->|Hlt|Hgt].
  - destruct (Z.compare_spec (horner l1) (horner l2)); symmetry;
      [apply Z.compare_eq_iff|apply Z.compare_lt_iff|apply Z.compare_gt_iff]; lia.
  - symmetry. apply Z.compare_lt_iff. nia.
  - symmetry. apply Z.compare_gt_iff. nia.
Qed.

(** A numeral without leading zeros is at least the power of ten it reaches. *)
Lemma digits_length_le a b : 0 ≤ a ≤ b → (length (digits a) ≤ length (digits b))%nat.
Proof.
  intros Hab. destruct (digits_spec a) as (Ha & Ha2 & d & l & Hd & Hpos); [lia|].
  destruct (digits_spec b) as (Hb & Hb2 & _); [lia|].
  apply horner_bound in Hb2. rewrite Hb in Hb2. apply Nat.nlt_ge. intros Hlt.
  rewrite Hd in Ha, Hlt, Ha2. apply Forall_cons in Ha2 as [Hd2 Hl2]. rewrite horner_cons in Ha.
  pose proof (horner_bound l Hl2) as Hl3. simpl in Hlt.
  assert (10 ^ Z.of_nat (length (digits b)) ≤ 10 ^ Z.of_nat (length l)) by (apply Z.pow_le_mono_r; lia).
  destruct l as [|d' l']; [|specialize (Hpos ltac:(done)); nia].
  simpl in *. assert (length (digits b) = 0%nat) as Hb0 by lia. rewrite Hb0 in Hb2. simpl in Hb2.
  assert (b = 0) by lia. assert (a = 0) as -> by lia. subst b. by rewrite Hd in Hb0.
Qed.

Lemma shorter_or_less_Itoa a b : 0 ≤ a → 0 ≤ b → shorter_or_less (Itoa a) (Itoa b) = bool_decide (a < b).
Proof.
  intros Ha Hb.
  assert (Hnum : ∀ n, 0 ≤ n → Itoa n = numeral (digits n)) by (intros n Hn; unfold Itoa; by rewrite decide_False by lia).
  unfold shorter_or_less. rewrite !Hnum, !length_numeral by done.
  destruct (digits_spec a Ha) as (Hha & Hda & _). destruct (digits_spec b Hb) as (Hhb & Hdb & _).
  case_decide as Hlen.
  - unfold string_lt, String.ltb. rewrite compare_numeral, Hha, Hhb by done.
    destruct (Z.compare_spec a b); symmetry; [apply bool_decide_eq_false|apply bool_decide_eq_true|apply bool_decide_eq_false]; lia.
  - apply bool_decide_ext. split; intros Hlt.
    + apply Z.nle_gt. intros Hle. pose proof (digits_length_le b a ltac:(lia)). lia.
    + pose proof (digits_length_le a b ltac:(lia)). lia.
Qed.

(** ** Sorting *)

Section order.
Context `{Kubeflow, SortSlice}.

(** The index label of every pod is the decimal form of its index. *)
Definition index_labelled (idx : Pod → Z) (pods : list Pod) : Prop :=
  ∀ p, p ∈ pods → 0 ≤ idx p ∧ pod_index p = Itoa (idx p).

Definition pod_lt (idx : Pod → Z) (p q : Pod) : bool :=
  if decide (pod_type p ≠ pod_type q) then string_lt (pod_type p) (pod_type q) else bool_decide (idx p < idx q).

(** By role, and within a role by index. *)
Definition role_index_le (idx : Pod → Z) (p q : Pod) : Prop :=
  String.le (pod_type p) (pod_type q) ∧ (pod_type p = pod_type q → idx p ≤ idx q).

Lemma string_lt_false a b : string_lt b a = false ↔ String.le a b.
Proof.
  unfold string_lt, String.ltb, String.le, String.leb. rewrite (String.compare_antisym b a).
  destruct (String.compare a b); simpl; split; done.
Qed.

Lemma pod_lt_false idx p q : pod_lt idx q p = false ↔ role_index_le idx p q.
Proof.
  unfold pod_lt, role_index_le. case_decide as Htype.
  - rewrite string_lt_false. naive_solver.
  - rewrite bool_decide_eq_false, Htype. split; [intros Hlt; split; [reflexivity|intros; lia]|].
    intros [_ Hle]. specialize (Hle eq_refl). lia.
Qed.

#[export] Instance role_index_le_trans idx : Transitive (role_index_le idx).
Proof.
  intros p q r [H1 H2] [H3 H4]. split; [by trans (pod_type q)|]. intros Heq.
  assert (pod_type p = pod_type q) as Hpq by (apply (anti_symm String.le); [done|by rewrite Heq]).
  specialize (H2 Hpq). rewrite Hpq in Heq. specialize (H4 Heq). lia.
Qed.

Lemma pod_less_lt idx l i j p q :
  l !! i = Some p → l !! j = Some q → 0 ≤ idx p ∧ pod_index p = Itoa (idx p) → 0 ≤ idx q ∧ pod_index q = Itoa (idx q) →
  pod_less l i j = pod_lt idx p q.
Proof.
  intros Hp Hq [Hip Hlp] [Hiq Hlq]. unfold pod_less, pod_lt. rewrite Hp, Hq, Hlp, Hlq. case_decide; [done|].
  rewrite decide_False by (intros [Hnil|Hnil]; by apply Itoa_nonempty in Hnil). by apply shorter_or_less_Itoa.
Qed.

Lemma pod_lt_asym idx p q : pod_lt idx p q = true → pod_lt idx q p = false.
Proof.
  intros Hlt. apply pod_lt_false. revert Hlt. unfold pod_lt, role_index_le. case_decide as Htype.
  - intros Hlt. split; [|done]. apply string_lt_false. unfold string_lt, String.ltb in *.
    rewrite String.compare_antisym. by destruct (String.compare _ _).
  - rewrite bool_decide_eq_true, Htype. intros. split; [reflexivity|intros; lia].
Qed.

Lemma SortPods_sorted idx pods :
  index_labelled idx pods → StronglySorted (role_index_le idx) (SortPodsByRoleAndIndex pods).
Proof.
  intros Hidx. apply Sorted_StronglySorted; [apply _|].
  assert (Hs : Sorted (λ p q, pod_lt idx q p = false) (SortPodsByRoleAndIndex pods)).
  { apply sort_slice_sorted; [|intros; by apply pod_lt_asym].
    intros l i j p q _ Hincl Hp Hq. apply pod_less_lt; [done..| |]; apply Hidx, Hincl; by eapply list_elem_of_lookup_2. }
  induction Hs as [|p l Hl IH Hhd]; constructor; [exact IH|].
  destruct Hhd; constructor. by apply pod_lt_false.
Qed.

Lemma StronglySorted_filter {A} (R : relation A) (P : A → Prop) `{∀ x, Decision (P x)} l :
  StronglySorted R l → StronglySorted R (filter P l).
Proof.
  induction 1 as [|x l Hl IH Hx]; [constructor|]. rewrite filter_cons. case_decide; [|done].
  constructor; [done|]. rewrite Forall_forall in Hx |- *. intros y [_ Hy]%list_elem_of_filter. by apply Hx.
Qed.

(** The pods of a role, as they come out of the sort: those of the role, by
    index. *)
Lemma sorted_role_pods idx pods rtype :
  index_labelled idx pods →
  let l := filter (λ p, pod_type p = rtype) (SortPodsByRoleAndIndex pods) in
  l ≡ₚ filter (λ p, pod_type p = rtype) pods ∧ StronglySorted (λ p q, idx p ≤ idx q) l.
Proof.
  intros Hidx l. split; [by apply filter_Permutation, sort_slice_perm|].
  pose proof (StronglySorted_filter _ (λ p, pod_type p = rtype) _ (SortPods_sorted idx pods Hidx)) as Hs. fold l in Hs.
  assert (Hall : ∀ p, p ∈ l → pod_type p = rtype) by (by intros p [? _]%list_elem_of_filter).
  clearbody l. induction Hs as [|p l Hl IH Hp]; [constructor|].
  constructor; [apply IH; intros; apply Hall; by right|].
  rewrite Forall_forall in Hp |- *. intros q Hq. apply (Hp q Hq).
  rewrite (Hall p), (Hall q); [done|by right|by left].
Qed.
End order.
