(* ===== verification/Phase.v ===== *)
(** * Role and job phases ([reconciler/phase.go])

    Counting the pods of a role, deriving the phase of a role from the
    counters and of the job from the roles, and the role cache entry published
    when a phase changes. *)

From S2P Require Import Prelude GoStd Errors Kube Api World ReconcilerUtils NodeManager Cache.

Definition JobPhaseTransitionReason : string := "JobPhaseTransition".
Definition RolePhaseTransitionReason : string := "RolePhaseTransition".
Definition podFailedReason : string := "PodFailed".
Definition podMissingReason : string := "PodMissing".
Definition nodeDownReason : string := "PossibleNodeDown".

(** ** Counting pods *)

Definition initializeReplicaStatuses (status : AresJobStatus) (rtype : string) : AresJobStatus :=
  let m := contents (status_RoleStatuses status) in
  let rs := default (mkRoleStatus RolePhasePending "" "" None zero_ReplicaStatus) (mjoin (m !! rtype)) in
  let fresh := mkReplicaStatus (Some zero_CommonReplicaStatus) 0 0 0 in
  status <| status_RoleStatuses := Some (<[rtype := Some (rs <| role_ReplicaStatus := fresh |>)]> m) |>.

(** [status.RoleStatuses[rtype].field = ...]: through the pointer. *)
Definition update_role_status (status : AresJobStatus) (rtype : string)
    (f : RoleStatus → go RoleStatus) : go AresJobStatus :=
  rs ← deref (role_status status rtype);
  rs ← f rs;
  m ← minsert (status_RoleStatuses status) rtype (Some rs);
  Done (status <| status_RoleStatuses := m |>).

(** An increment of an int32 counter of the embedded pointer. *)
Definition incr_common (f : (Z → Z) → CommonReplicaStatus → CommonReplicaStatus)
    (rs : RoleStatus) : go RoleStatus :=
  c ← deref (rstatus_Common (role_ReplicaStatus rs));
  Done (rs <| role_ReplicaStatus ::= λ r, r <| rstatus_Common := Some (f (λ n, wrap32 (n + 1)) c) |> |>).
Definition incr_own (f : (Z → Z) → ReplicaStatus → ReplicaStatus) (rs : RoleStatus) : go RoleStatus :=
  Done (rs <| role_ReplicaStatus ::= f (λ n, wrap32 (n + 1)) |>).

Definition incr_Pending : RoleStatus → go RoleStatus := incr_own (set_field (proj := rstatus_Pending)).
Definition incr_Unknown : RoleStatus → go RoleStatus := incr_own (set_field (proj := rstatus_Unknown)).
Definition incr_Terminating : RoleStatus → go RoleStatus :=
  incr_own (set_field (proj := rstatus_Terminating)).
Definition incr_Active : RoleStatus → go RoleStatus := incr_common (set_field (proj := Active)).
Definition incr_Succeeded : RoleStatus → go RoleStatus := incr_common (set_field (proj := Succeeded)).
Definition incr_Failed : RoleStatus → go RoleStatus := incr_common (set_field (proj := Failed)).

Definition updateRoleReplicaStatuses (status : AresJobStatus) (rtype : string) (pod : Pod)
    : go AresJobStatus :=
  let phase := pstatus_Phase (pod_Status pod) in
  if decide (phase = "" ∨ phase = PodPending) then update_role_status status rtype incr_Pending
  else if decide (phase = PodRunning) then update_role_status status rtype incr_Active
  else if decide (phase = PodSucceeded) then update_role_status status rtype incr_Succeeded
  else if decide (phase = PodFailed) then update_role_status status rtype incr_Failed
  else if decide (phase = PodUnknown) then update_role_status status rtype incr_Unknown
  else Done status.

Section phase.
Context `{MapOrder, Kubeflow, SortSlice, TerminatedText}.

Definition updateReplicaStatus (nm : Manager) (job : AresJob) (roleName : string) (pod : Pod)
    : go AresJob :=
  let roleSpec := role_spec (job_Spec job) roleName in
  let status := job_Status job in
  status' ←
    (if is_terminating pod then update_role_status status roleName incr_Terminating
     else
       down ← (if decide (pod_NodeName (pod_Spec pod) = "") then Done false
               else
                 spec ← deref roleSpec;
                 Done (rpolicy_NodeDownAsFailed (role_RolePhasePolicy spec) &&
                       (IsNodeDown nm (pod_NodeName (pod_Spec pod))).1));
       if (down : bool) then update_role_status status roleName incr_Failed
       else updateRoleReplicaStatuses status roleName pod);
  Done (job <| job_Status := status' |>).

(** [UpdateRoleReplicas] publishes the counters of the role in the
    embedded [JobStatus] too; the shared pointer is only written by the next
    [initializeReplicaStatuses], which allocates a fresh one. *)
Definition UpdateRoleReplicas (nm : Manager) (job : AresJob) (roleName : string) (pods : list Pod)
    : go AresJob :=
  let job := job <| job_Status ::= λ s, initializeReplicaStatuses s roleName |> in
  job ← fold_res (λ job pod, updateReplicaStatus nm job roleName pod) job pods;
  js ← deref (status_JobStatus (job_Status job));
  rs ← deref (role_status (job_Status job) roleName);
  let m := contents (ReplicaStatuses js) in
  let js := js <| ReplicaStatuses := Some (<[roleName := rstatus_Common (role_ReplicaStatus rs)]> m) |> in
  Done (job <| job_Status ::= λ s, s <| status_JobStatus := Some js |> |>).

(** ** The phase of a role *)

Definition status_Active (rs : RoleStatus) : go Z :=
  c ← deref (rstatus_Common (role_ReplicaStatus rs)); Done (Active c).
Definition status_Succeeded (rs : RoleStatus) : go Z :=
  c ← deref (rstatus_Common (role_ReplicaStatus rs)); Done (Succeeded c).
Definition status_Failed (rs : RoleStatus) : go Z :=
  c ← deref (rstatus_Common (role_ReplicaStatus rs)); Done (Failed c).

(** The two policy switches, on the counter they test. *)
Definition policy_holds (policy : option string) (counter : go Z) (replicas : Z) : go bool :=
  match policy with
  | None => Done false
  | Some cond =>
      if decide (cond = RolePhaseConditionAnyPod) then n ← counter; Done (bool_decide (0 < n))
      else if decide (cond = RolePhaseConditionAllPods) then n ← counter; Done (bool_decide (replicas ≤ n))
      else Done false
  end.

Definition GetRolePhase (rtype : string) (spec : RoleSpec) (aresStatus : AresJobStatus) : go string :=
  let policy := role_RolePhasePolicy spec in
  p ← spec_Replicas spec;
  replicas ← deref p;
  status ← deref (role_status aresStatus rtype);
  let lastPhase := role_Phase status in
  failed ← policy_holds (rpolicy_Failed policy) (status_Failed status) replicas;
  if (failed : bool) then Done RolePhaseFailed else
  succeeded ← policy_holds (rpolicy_Succeeded policy) (status_Succeeded status) replicas;
  if (succeeded : bool) then Done RolePhaseSucceeded else
  active ← status_Active status;
  if decide (replicas ≤ active) then Done RolePhaseRunning else
  if decide (lastPhase = RolePhasePending) then Done RolePhaseStarting else
  nsucceeded ← status_Succeeded status;
  nfailed ← status_Failed status;
  let actual := wrap32 (active + nsucceeded + nfailed + rstatus_Unknown (role_ReplicaStatus status)
                        + rstatus_Pending (role_ReplicaStatus status)) in
  restartPolicy ← spec_RestartPolicy spec;
  if decide (restartPolicy = RestartPolicyNever ∧ lastPhase = RolePhaseRunning ∧ actual < replicas)
  then Done RolePhaseFailed
  else Done lastPhase.

(** ** Why a role failed *)

Definition pod_name (pod : Pod) : string := meta_Name (pod_meta pod).

Definition missing_indices (present : gset string) (expected : Z) : list string :=
  filter (λ i, i ∉ present) (Itoa <$> seqZ 0 expected).

Definition extractFailedReason (m : Manager) (pods : list Pod) (expected : Z) : string * string :=
  let alivePods := FilterAlivePods pods in
  match filter (λ pod, pstatus_Phase (pod_Status pod) = PodFailed) alivePods with
  | pod :: _ => (podFailedReason, "pod=" +:+ pod_name pod +:+ "; " +:+ GetPodFailedInfo pod)
  | [] =>
  match filter (λ pod, pod_NodeName (pod_Spec pod) ≠ "" ∧
                       (IsNodeDown m (pod_NodeName (pod_Spec pod))).1 = true) alivePods with
  | pod :: _ =>
      let nodeName := pod_NodeName (pod_Spec pod) in
      (nodeDownReason, "pod=" +:+ pod_name pod +:+ ", node=" +:+ nodeName +:+ ": "
                       +:+ (IsNodeDown m nodeName).2)
  | [] =>
  let indexSet : gset string := list_to_set (pod_index <$> pods) in
  let gone := filter (λ pod, is_terminating pod = true) pods in
  let terminating := merge_sort String.le (pod_index <$> gone) in
  let terminatingDetail :=
    (λ pod, pod_name pod +:+ "(" +:+ pod_NodeName (pod_Spec pod) +:+ ")") <$> take 3 gone in
  if decide (terminating ≠ []) then
    (podMissingReason, "total " +:+ Itoa (Z.of_nat (length terminating)) +:+ " pods were terminating: "
       +:+ Join terminating "," +:+ "; " +:+ Join terminatingDetail "," +:+ "...")
  else
  let missing := missing_indices indexSet expected in
  if decide (missing ≠ []) then
    (podMissingReason, "total " +:+ Itoa (Z.of_nat (length missing)) +:+ " pods were missing: "
       +:+ Join missing ",")
  else ("", "")
  end end.

Definition UpdateRolePhase (now : Z) (nm : Manager) (job : AresJob) (roleName : string)
    (pods : list Pod) : go (AresJob * list Event) :=
  roleSpec ← deref (role_spec (job_Spec job) roleName);
  rolePhase ← GetRolePhase roleName roleSpec (job_Status job);
  roleStatus ← deref (role_status (job_Status job) roleName);
  if decide (rolePhase = role_Phase roleStatus) then Done (job, [])
  else
    p ← spec_Replicas roleSpec;
    replicas ← deref p;
    let msg := "Phase of role " +:+ roleName +:+ " of AresJob(" +:+ spec_FrameworkType (job_Spec job)
      +:+ ") " +:+ meta_Name (job_meta job) +:+ " has changed: " +:+ role_Phase roleStatus
      +:+ " -> " +:+ rolePhase in
    status' ← update_role_status (job_Status job) roleName (λ rs,
      let rs := rs <| role_Phase := rolePhase |> <| role_LastTransitionTime := Some now |> in
      if decide (rolePhase = RolePhaseFailed) then
        let '(reason, message) := extractFailedReason nm pods replicas in
        Done (rs <| role_Reason := reason |> <| role_Message := message |>)
      else Done rs);
    Done (job <| job_Status := status' |>,
          [mkEvent EventTypeNormal RolePhaseTransitionReason msg]).

(** ** The phase of the job *)

Fixpoint all_in_phase (roleStatuses : gmap string (option RoleStatus)) (roleNames : list string)
    (rolePhase : string) : go bool :=
  match roleNames with
  | [] => Done true
  | roleName :: roleNames =>
      rs ← deref (mjoin (roleStatuses !! roleName));
      if decide (role_Phase rs = rolePhase) then all_in_phase roleStatuses roleNames rolePhase
      else Done false
  end.

(** The [satisfyPolicy] closure. *)
Fixpoint satisfyPolicy (roleStatuses : gmap string (option RoleStatus)) (conds : list (list string))
    (rolePhase : string) : go bool :=
  match conds with
  | [] => Done false
  | roleNames :: conds =>
      satisfied ← all_in_phase roleStatuses roleNames rolePhase;
      if (satisfied : bool) then Done true else satisfyPolicy roleStatuses conds rolePhase
  end.

Definition GetJobPhase (lastPhase : string) (policy : JobPhasePolicy)
    (roleStatuses : gmap string (option RoleStatus)) : go string :=
  failed ← satisfyPolicy roleStatuses (policy_Failed policy) RolePhaseFailed;
  if (failed : bool) then Done JobPhaseFailed else
  succeeded ← satisfyPolicy roleStatuses (policy_Succeeded policy) RolePhaseSucceeded;
  if (succeeded : bool) then Done JobPhaseSucceeded else
  let roleNames := range_keys 0 roleStatuses in
  running ← satisfyPolicy roleStatuses [roleNames] RolePhaseRunning;
  if (running : bool) then Done JobPhaseRunning else
  if decide (lastPhase = JobPhasePending) then Done JobPhaseStarting
  else Done lastPhase.

(** The message is built after the assignment, so it names the new phase
    twice. *)
Definition SetJobPhase (now : Z) (job : AresJob) (phase : string) : go (AresJob * list Event) :=
  status ← (if IsFinished phase then
              js ← deref (status_JobStatus (job_Status job));
              Done (if decide (CompletionTime js = None)
                    then job_Status job <| status_JobStatus := Some (js <| CompletionTime := Some now |>) |>
                    else job_Status job)
            else Done (job_Status job));
  let status := if decide (phase = JobPhaseRunning ∧ status_RunningTime status = None)
                then status <| status_RunningTime := Some now |> else status in
  let status := status <| status_Phase := phase |> in
  let msg := "Phase of AresJob(" +:+ spec_FrameworkType (job_Spec job) +:+ ") "
    +:+ meta_Name (job_meta job) +:+ " has changed: " +:+ status_Phase status +:+ " -> " +:+ phase in
  Done (job <| job_Status := status |>, [mkEvent EventTypeNormal JobPhaseTransitionReason msg]).

(** Called with the status of the job itself. *)
Definition UpdatePhases (now : Z) (job : AresJob) : go (AresJob * list Event) :=
  let job := job <| job_Status ::= λ s,
    if decide (status_Phase s = "") then s <| status_Phase := JobPhasePending |> else s |> in
  let policy := default (mkJobPhasePolicy [] []) (spec_JobPhasePolicy (job_Spec job)) in
  let job := job <| job_Spec ::= λ s, s <| spec_JobPhasePolicy := Some policy |> |> in
  phase ← GetJobPhase (status_Phase (job_Status job)) policy (contents (status_RoleStatuses (job_Status job)));
  if decide (phase = status_Phase (job_Status job)) then Done (job, [])
  else
    let msg := "AresJob " +:+ meta_Name (job_meta job) +:+ " is " +:+ phase +:+ "." in
    js ← deref (status_JobStatus (job_Status job));
    let js := UpdateJobConditions now js (JobPhaseToCondition phase) phase msg in
    SetJobPhase now (job <| job_Status ::= λ s, s <| status_JobStatus := Some js |> |>) phase.

(** ** The role cache *)

Definition BuildRoleCache (job : AresJob) (rtype phase : string) (pods : list Pod) : go RoleCache :=
  let pods := FilterAlivePods pods in
  spec ← deref (role_spec (job_Spec job) rtype);
  template ← spec_Template spec;
  let fn := if pod_HostNetwork (template_Spec template)
            then λ pod, pstatus_HostIP (pod_Status pod)
            else λ pod, pstatus_PodIP (pod_Status pod) in
  let pods := SortPodsByRoleAndIndex pods in
  let ips := filter (λ ip, ip ≠ "") (fn <$> filter (λ pod, pod_type pod = rtype) pods) in
  Done (NewRoleCache phase [WithIPs ips]).

(** [OnRolePhaseChanged], on the result of [r.GetPodsForReplica]. *)
Definition OnRolePhaseChanged {C} `{Interface C} (job : AresJob) (rtype phase : string)
    (getPods : error + list Pod) : eff (option C) error unit := λ c,
  match c with
  | None => (Done tt, None)
  | Some c =>
      match getPods with
      | inl err => (Fail err, Some c)
      | inr pods =>
          let key := NamespacedNameToKey (meta_Namespace (job_meta job)) (meta_Name (job_meta job)) in
          match BuildRoleCache job rtype phase pods with
          | Done data => let '(r, c') := SetRoleCache key rtype data c in (r, Some c')
          | Fail err => (Fail err, Some c)
          | Crash p => (Crash p, Some c)
          end
      end
  end.
End phase.
