(* ===== verification/Pod.v ===== *)
(** * Pods of a role ([reconciler/pod.go], [reconciler/reconciler.go])

    Grouping the pods of a role by index, creating the missing ones,
    deleting those that are out of range or to be restarted, and updating the
    status of the role from the rest. *)

From S2P Require Import Prelude GoStd Errors Kube Api World ReconcilerUtils Examples Metadata Conf Dependence.
From S2P Require Import NodeManager Cache Phase.

Definition restartPolicyOverwrittenReason : string := "RestartPolicyOverwritten".

(** [fmt.Errorf("couldn't get key...")] is only logged; [KeyFunc]'s error is
    returned. *)

(** The methods that the reconciler calls through [r.Controller] and
    [r.FrameworkController], which a framework may override. *)
Class Controller := {
  SetClusterSpec : AresJob → PodTemplateSpec → string → string → go PodTemplateSpec;
  GetDefaultContainerName : string;
  GetDefaultContainerPortName : string;
  IsMasterRole : gmap string (option ReplicaSpec) → string → Z → bool;
  GeneratePodName : string → string → string → string;
  GenerateServiceName : string → string → string;
  GetGroupNameLabelValue : string;
}.

(** The methods of [Reconciler] itself. *)
Definition base_controller `{Kubeflow} : Controller := {|
  SetClusterSpec _ podTemplate _ _ := Done podTemplate;
  GetDefaultContainerName := "";
  GetDefaultContainerPortName := "";
  IsMasterRole _ _ _ := false;
  GeneratePodName := GenGeneralName;
  GenerateServiceName := GetGeneralSharedName;
  GetGroupNameLabelValue := GroupName;
|}.

(** ** Grouping *)

Section group.
Context `{Kubeflow, Selectors}.

Definition FilterPodsForReplicaType (pods : list Pod) (replicaType : string) : list Pod :=
  filter (λ pod, SelectorMatches Common_ReplicaTypeLabel replicaType (meta_Labels (pod_meta pod)) = true ∨
                 SelectorMatches ReplicaTypeLabel replicaType (meta_Labels (pod_meta pod)) = true) pods.

(** The index label, when it is present and a number. *)
Definition parsed_index (pod : Pod) : option Z :=
  let replicaIndex := GetReplicaIndex (meta_Labels (pod_meta pod)) in
  if decide (String.length replicaIndex = 0%nat) then None
  else match Atoi replicaIndex with
       | (index, None) => Some index
       | (_, Some _) => None
       end.

Definition calculatePodSliceSize (pods : list Pod) (replicas : Z) : Z :=
  let size := foldl (λ size pod,
    match parsed_index pod with
    | Some index => Z.max size index
    | None => size
    end) 0 pods in
  Z.max (wrap64 (size + 1)) replicas.

Definition slice_append (podSlices : list (list Pod)) (index : Z) (pod : Pod) : go (list (list Pod)) :=
  podSlice ← slice_get podSlices index;
  Done (<[Z.to_nat index := podSlice ++ [pod]]> podSlices).

Definition GetPodSlices (pods : list Pod) (replicas : Z) : go (list (list Pod)) :=
  let size := calculatePodSliceSize pods replicas in
  if decide (size < 0) then Crash MakeSliceLen
  else
    fold_res (λ podSlices pod,
      match parsed_index pod with
      | None => Done podSlices
      | Some index => slice_append podSlices index pod
      end) (replicate (Z.to_nat size) []) pods.
End group.

(** ** Creating a pod *)

Section create.
Context `{MapOrder, Kubeflow, Templates, ApiServer, Controller}.
Context (config : Configuration) (hosts : error + list Pod).

Definition GenLabels (jobName : string) : gmap string string :=
  <[GroupNameLabel := GetGroupNameLabelValue]>
    {[JobNameLabel := ReplaceAll jobName "/"%char "-"%char]}.

(** [for key, value := range m { into[key] = value }] *)
Definition copy_map (n : nat) (m : gmap string string) (into : gmap string string) : gmap string string :=
  foldl (λ into '(key, value), <[key := value]> into) into (range n m).

Definition setRestartPolicy (rt : string) (podTemplateSpec : PodTemplateSpec) (spec : ReplicaSpec)
    : op PodTemplateSpec :=
  let restartPolicy := if decide (RestartPolicy spec = RestartPolicyExitCode)
                       then RestartPolicyNever else RestartPolicy spec in
  let original := pod_RestartPolicy (template_Spec podTemplateSpec) in
  _ ← (if decide ((0 < String.length original)%nat ∧ original ≠ restartPolicy) then
         emit (Recorded (mkEvent EventTypeWarning restartPolicyOverwrittenReason
           ("Restart policy for " +:+ rt +:+ " is overwritten: " +:+ original +:+ " -> " +:+ restartPolicy)))
       else mret tt);
  mret (update_pod_spec podTemplateSpec (λ s, s <| pod_RestartPolicy := restartPolicy |>)).

Definition SetScheduler (job : AresJob) (podTemplate : PodTemplateSpec) : PodTemplateSpec :=
  if EnableGangScheduling (job_Spec job) then
    podTemplate <| template_Spec ::= λ s, s <| pod_SchedulerName := GangSchedulerName |> |>
      <| template_meta ::= λ m, m <| meta_Annotations :=
           Some (<[GangSchedulingPodGroupAnnotation := meta_Name (job_meta job)]> (contents (meta_Annotations m))) |> |>
  else podTemplate.

Definition SetDependence (job : AresJob) (podTemplate : PodTemplateSpec) (rtype index : string)
    : go PodTemplateSpec :=
  match role_spec (job_Spec job) rtype with
  | None => Done podTemplate
  | Some spec =>
      match role_Dependence spec with
      | None => Done podTemplate
      | Some dependence =>
          match dep_MPIHostFile dependence with
          | None => AddWaiter config hosts job podTemplate rtype index
          | Some _ => AddMPIInitializer config hosts job podTemplate rtype index
          end
      end
  end.

(** A pod that is never restarted has a fixed name, others get a fresh one. *)
Definition named_template (name : string) (spec : ReplicaSpec) : PodTemplateSpec :=
  if decide (RestartPolicy spec = RestartPolicyNever)
  then Template spec <| template_meta ::= λ m, m <| meta_Name := name |> |>
  else Template spec <| template_meta ::= λ m, m <| meta_GenerateName := name +:+ "-" |> |>.

(** The labels, annotations and names of the new pod, before the framework
    sees the template. *)
Definition new_pod_template (job : AresJob) (rt index : string) (spec : ReplicaSpec) (masterRole : bool)
    : PodTemplateSpec :=
  let labels := <[ReplicaIndexLabel := index]> (<[ReplicaTypeLabel := rt]> (GenLabels (meta_Name (job_meta job)))) in
  let labels := if masterRole then <[JobRoleLabel := RoleMaster]> labels else labels in
  let name := GeneratePodName (meta_Name (job_meta job)) rt index in
  let podTemplate := named_template name spec in
  let tlabels := copy_map 0 labels (contents (meta_Labels (template_meta podTemplate))) in
  let '(tannotations, tlabels) :=
    foldl (λ '(annotations, labels) '(key, value),
      if IsJobLevelKey key then (<[key := value]> annotations, <[key := value]> labels)
      else (annotations, labels))
      (contents (meta_Annotations (template_meta podTemplate)), tlabels)
      (range 1 (contents (meta_Annotations (job_meta job)))) in
  podTemplate
    <| template_meta ::= λ m, m <| meta_Labels := Some tlabels |> <| meta_Annotations := Some tannotations |> |>
    <| template_Spec ::= λ s, s <| pod_Hostname := name |>
         <| pod_Subdomain := GetGeneralSharedName (meta_Name (job_meta job)) rt |> |>.

Definition CreateNewPod (rt index : string) (spec : ReplicaSpec) (masterRole : bool) : op unit :=
  job ← get_job;
  jobKey ← lift (KeyFunc (job_meta job));
  podTemplate ← lift (SetClusterSpec job (new_pod_template job rt index spec masterRole) rt index);
  podTemplate ← setRestartPolicy rt podTemplate spec;
  let podTemplate := SetScheduler job podTemplate in
  podTemplate ← lift (SetDependence job podTemplate rt index);
  let expectationPodsKey := GenExpectationPodsKey jobKey rt in
  _ ← emit (RaiseExpectations expectationPodsKey 1 0);
  result ← attempt (request (CreatePodWithControllerRef (meta_Namespace (job_meta job)) podTemplate (job_meta job)));
  match result with
  | inr _ => mret tt
  | inl err =>
      if IsTimeout err then mret tt
      else _ ← emit (CreationObserved expectationPodsKey); throw err
  end.
End create.

(** ** The reconciliation *)

Section reconcile.
Context `{MapOrder, Kubeflow, Selectors, SortSlice, TerminatedText, Templates, ApiServer, Controller}.
Context (config : Configuration) (hosts : error + list Pod) (now : Z) (nm : Manager).

(** The exit code of the first terminated container, or a magic number. *)
Definition pod_exit_code (pod : Pod) : Z :=
  match omap cstatus_Terminated (pstatus_ContainerStatuses (pod_Status pod)) with
  | terminated :: _ => terminated_ExitCode terminated
  | [] => 48879 (* 0xbeef *)
  end.

Definition restarts (spec : ReplicaSpec) (pod : Pod) : bool :=
  bool_decide (RestartPolicy spec = RestartPolicyAlways) ||
  bool_decide (RestartPolicy spec = RestartPolicyOnFailure) ||
  (bool_decide (RestartPolicy spec = RestartPolicyExitCode) && IsRetryableExitCode (pod_exit_code pod)).

(** What the loop carries: the validated pods and the expected creations and
    deletions. *)
Definition progress : Type := list Pod * Z * Z.

Definition delete_pod (expectationPodsKey : string) (pod : Pod) : op unit :=
  _ ← request (DeletePod (meta_Namespace (pod_meta pod)) (meta_Name (pod_meta pod)));
  emit (RaiseExpectations expectationPodsKey 0 1).

(** The body of the loop over [podSlices]. *)
Definition reconcile_slice (rtype rt expectationPodsKey : string) (spec : ReplicaSpec) (numReplicas : Z)
    (replicas : gmap string (option ReplicaSpec)) (acc : progress) (slice : Z * list Pod) : op progress :=
  let '(validatedPods, expectedCreation, expectedDeletion) := acc in
  let '(index, podSlice) := slice in
  match podSlice with
  | _ :: _ :: _ => mret acc
  | [] =>
      job ← get_job;
      rolePhase ← lift (RolePhase (job_Status job) rtype);
      if decide (RestartPolicy spec = RestartPolicyNever ∧ IsRoleStarted rolePhase = true) then mret acc
      else
        let masterRole := IsMasterRole replicas rtype index in
        _ ← CreateNewPod config hosts rt (Itoa index) spec masterRole;
        mret (validatedPods, expectedCreation + 1, expectedDeletion)
  | [pod] =>
      expectedDeletion ←
        (if decide (index < 0 ∨ numReplicas ≤ index) then
           _ ← delete_pod expectationPodsKey pod; mret (expectedDeletion + 1)
         else mret expectedDeletion);
      if decide (pstatus_Phase (pod_Status pod) = PodFailed) then
        _ ← emit (Recorded (mkEvent EventTypeNormal podFailedReason
                    ("Pod " +:+ pod_name pod +:+ " is failed: " +:+ GetPodFailedInfo pod)));
        if restarts spec pod then
          _ ← delete_pod expectationPodsKey pod;
          mret (validatedPods, expectedCreation, expectedDeletion + 1)
        else mret (validatedPods ++ [pod], expectedCreation, expectedDeletion)
      else mret (validatedPods ++ [pod], expectedCreation, expectedDeletion)
  end.

Definition indexed {A} (l : list A) : list (Z * A) := imap (λ i a, (Z.of_nat i, a)) l.

Definition ReconcilePods (jobStatus : option JobStatus) (pods : list Pod) (rtype : string) (spec : ReplicaSpec)
    (replicas : gmap string (option ReplicaSpec)) : op unit :=
  job ← get_job;
  jobKey ← lift (KeyFunc (job_meta job));
  let expectationPodsKey := GenExpectationPodsKey jobKey rtype in
  let rt := ToLower rtype in
  let pods := FilterPodsForReplicaType pods rt in
  numReplicas ← lift (deref (Replicas spec));
  let '(reconcilingPods, validatedPods) :=
    if decide (RestartPolicy spec = RestartPolicyNever) then (pods, [])
    else (FilterAlivePods pods, FilterTerminatingPods pods) in
  podSlices ← lift (GetPodSlices reconcilingPods numReplicas);
  '(validatedPods, expectedCreation, expectedDeletion) ←
    fold_eff (reconcile_slice rtype rt expectationPodsKey spec numReplicas replicas)
      (validatedPods, 0, 0) (indexed podSlices);
  job ← get_job;
  let job := job <| job_Status ::= λ s, s <| status_JobStatus := jobStatus |> |> in
  job ← lift (UpdateRoleReplicas nm job rtype validatedPods);
  _ ← set_job job;
  if decide (expectedCreation = 0 ∧ expectedDeletion = 0) then
    '(job, events) ← lift (UpdateRolePhase now nm job rtype validatedPods);
    _ ← set_job job;
    for_each events (λ e, emit (Recorded e))
  else mret tt.
End reconcile.

(** ** Ports and metadata *)

Section ports.
Context `{Controller}.

Fixpoint find_port (containers : list Container) : go Z :=
  match containers with
  | [] => Fail ErrPortNotFound
  | container :: containers =>
      if decide (container_Name container ≠ GetDefaultContainerName) then find_port containers
      else match filter (λ port, port_Name port = GetDefaultContainerPortName) (default [] (container_Ports container)) with
           | port :: _ => Done (port_ContainerPort port)
           | [] => find_port containers
           end
  end.

Definition GetPort (job : AresJob) (rtype : string) : go Z :=
  spec ← deref (role_spec (job_Spec job) rtype);
  template ← spec_Template spec;
  find_port (pod_Containers (template_Spec template)).
End ports.

Definition SyncToPod `{MapOrder, ApiServer} (getPods : error + list Pod) : op unit :=
  match getPods with
  | inl err => throw err
  | inr pods => for_each pods (λ pod, job ← get_job; patchMetadata (job_meta job) (pod_meta pod))
  end.
