(* ===== verification/PodGroup.v ===== *)
(** * Gang scheduling ([reconciler/podgroup.go])

    Reading the scheduling and eviction of a job from its pod group, and
    writing the job's metadata to it.  The results of reading the pod group
    and of listing the pods are arguments. *)

From S2P Require Import Prelude GoStd Errors Kube Api World ReconcilerUtils Examples Metadata NodeManager Cache Phase.

Inductive ReconcileAction := ActionContinue | ActionSkip | ActionBreak.
#[export] Instance ReconcileAction_eq_dec : EqDecision ReconcileAction.
Proof. solve_decision. Defined.

(** ** Conditions *)

(** The first condition that matches, in the order of the loop. *)
Definition find_condition (P : Condition → bool) (msg : Condition → string) (l : list Condition) : bool * string :=
  match filter (λ c, P c = true) l with
  | c :: _ => (true, msg c)
  | [] => (false, "")
  end.

Definition IsPodPreempted (pod : Pod) : bool * string :=
  find_condition (λ c, bool_decide (cond_Type c = PodReady) && bool_decide (cond_Status c = ConditionFalse) &&
                       bool_decide (cond_Reason c = Preempted)) cond_Message (pstatus_Conditions (pod_Status pod)).

Definition IsPodGroupEvicted (pg : PodGroup) : bool * string :=
  find_condition (λ c, bool_decide (cond_Type c = Evicted) && bool_decide (cond_Status c = ConditionTrue))
    cond_Message (pg_Conditions pg).

Definition IsPodGroupScheduled (pg : PodGroup) : bool * string :=
  find_condition (λ c, bool_decide (cond_Type c = PodGroupScheduled) && bool_decide (cond_Status c = ConditionTrue))
    cond_Reason (pg_Conditions pg).

(** ** The phases of the roles ([getPhases] of [reconciler/job.go]) *)

Definition getPhases `{MapOrder} (job : AresJob) : go (gmap string string) :=
  fold_res (λ phases '(role, status),
    rs ← deref status;
    Done (<[role := role_Phase rs]> phases)) ∅ (range 0 (contents (status_RoleStatuses (job_Status job)))).

(** ** The pod group of a job *)

Section podgroup.
Context `{Kubeflow, ApiServer}.
Context (getPodGroup : error + PodGroup) (getPods : error + list Pod) (now : Z).

Definition GetPodGroupForJob : go (option PodGroup) :=
  match getPodGroup with
  | inl err => if IsNotFound err then Done None else Fail err
  | inr pg => Done (Some pg)
  end.

Definition PodGroupExists : bool :=
  match GetPodGroupForJob with
  | Done _ => true
  | _ => false
  end.

(** [util.UpdateJobConditions(job.Status.JobStatus, ...)], through the pointer. *)
Definition update_conditions (type reason message : string) : op unit :=
  job ← get_job;
  js ← lift (deref (status_JobStatus (job_Status job)));
  set_job (job <| job_Status ::= λ s, s <| status_JobStatus :=
    Some (UpdateJobConditions now js type reason message) |> |>).

Definition updateJobCondition (ctype reason message : string) : op unit :=
  _ ← update_conditions ctype reason message;
  job ← get_job;
  request (UpdateStatus job).

Definition updateScheduledByPodGroup (podgroup : PodGroup) : op bool :=
  job ← get_job;
  let already := match GetCondition (job_Status job) JobScheduled with
                 | Some cond => bool_decide (jcond_Status cond = ConditionTrue)
                 | None => false
                 end in
  if already then mret false
  else
    let '(scheduled, message) := IsPodGroupScheduled podgroup in
    if negb scheduled then mret false
    else _ ← updateJobCondition JobScheduled JobScheduled message; mret true.

Definition setEvictedCondition (message : string) : op unit :=
  update_conditions JobFailed Preempted message.

Definition isPodPreempted : bool * string :=
  match getPods with
  | inl _ => (false, "")
  | inr pods =>
      match filter (λ pod, (IsPodPreempted pod).1 = true) pods with
      | pod :: _ => (true, (IsPodPreempted pod).2)
      | [] => (false, "")
      end
  end.

(** [Some true]: evicted; [Some false]: possibly; nil: not. *)
Definition checkEviction (podgroup : PodGroup) : op (option bool) :=
  let '(evicted, msg) := IsPodGroupEvicted podgroup in
  if evicted then _ ← setEvictedCondition msg; mret (Some true)
  else if isPodPreempted.1 then mret (Some false)
  else mret None.

(** [r.UpdateJobStatusInApiServer] ([reconciler/job.go]): the two sides of its
    comparison have different types, so it always updates a copy.  The phases
    are computed for the log, between the request and the test of its error. *)
Definition UpdateJobStatusInApiServer `{MapOrder} (jobStatus : option JobStatus) : op unit :=
  job ← get_job;
  let job := job <| job_Status ::= λ s, s <| status_JobStatus := jobStatus |> |> in
  result ← attempt (request (UpdateStatus job));
  _ ← lift (getPhases job);
  match result with
  | inl err => throw err
  | inr _ => mret tt
  end.

Definition SyncFromPodGroup `{MapOrder} : op ReconcileAction :=
  job ← get_job;
  if negb (EnableGangScheduling (job_Spec job)) then mret ActionContinue
  else
    match GetPodGroupForJob with
    | Crash p => lift (Crash p)
    | Fail _ | Done None => mret ActionContinue
    | Done (Some podgroup) =>
        updated ← updateScheduledByPodGroup podgroup;
        if (updated : bool) then mret ActionBreak
        else
          job ← get_job;
          evicted ← lift (status_Evicted (job_Status job));
          if (evicted : bool) then mret ActionSkip
          else
            evicted ← checkEviction podgroup;
            match evicted with
            | None => mret ActionContinue
            | Some false => mret ActionSkip
            | Some true =>
                job ← get_job;
                _ ← (if decide (status_Phase (job_Status job) ≠ JobPhaseFailed) then
                       '(job, events) ← lift (SetJobPhase now job JobPhaseFailed);
                       _ ← set_job job;
                       for_each events (λ e, emit (Recorded e))
                     else mret tt);
                job ← get_job;
                _ ← UpdateJobStatusInApiServer (status_JobStatus (job_Status job));
                mret ActionBreak
            end
    end.

Definition SyncToPodGroup `{MapOrder} : op unit :=
  job ← get_job;
  if negb (EnableGangScheduling (job_Spec job)) then mret tt
  else
    podgroup ← lift GetPodGroupForJob;
    match podgroup with
    | None => mret tt
    | Some podgroup => patchMetadata (job_meta job) (pg_meta podgroup)
    end.
End podgroup.
