(* ===== verification/Job.v ===== *)
(** * The job as a whole ([reconciler/job.go])

    Status updates, clean-up, synchronisation and the gate of gang
    scheduling in front of kubeflow's reconciliation. *)

From S2P Require Import Prelude GoStd Errors Kube Api World ReconcilerUtils Examples Metadata Expectation NodeManager.
From S2P Require Import Cache Phase PodGroup Conf Dependence Pod.

Definition FailedDeleteJobReason : string := "FailedDeleteJob".
Definition SuccessfulDeleteJobReason : string := "SuccessfulDeleteJob".

(** What the reconciler calls of kubeflow's [common.JobController]. *)
Class JobController := {
  JobController_ReconcileJobs : gmap string (option ReplicaSpec) → JobStatus → RunPolicy → op unit;
  (* SyncPodGroup of the job with the given MinMember *)
  JobController_SyncPodGroup : AresJob → Z → op PodGroup;
}.

Section job.
Context `{MapOrder, Kubeflow, ApiServer}.

(** ** Reading and deleting the job *)

Definition GetJobFromInformerCache (get : error + AresJob) : go AresJob :=
  match get with
  | inl err => Fail err
  | inr job => Done job
  end.

Definition GetJobFromAPIClient (get : error + AresJob) : go AresJob := GetJobFromInformerCache get.

Definition DeleteJob : op unit :=
  job ← get_job;
  result ← attempt (request (DeleteJobObject (meta_Namespace (job_meta job)) (meta_Name (job_meta job))));
  match result with
  | inl err =>
      _ ← emit (Recorded (mkEvent EventTypeWarning FailedDeleteJobReason ("Error deleting: " +:+ error_string err)));
      throw err
  | inr _ =>
      emit (Recorded (mkEvent EventTypeNormal SuccessfulDeleteJobReason ("Deleted job: " +:+ meta_Name (job_meta job))))
  end.

(** ** Status *)

Definition UpdateJobStatus (now : Z) (jobStatus : option JobStatus) : op unit :=
  job ← get_job;
  let job := job <| job_Status ::= λ s, s <| status_JobStatus := jobStatus |> |> in
  '(job, events) ← lift (UpdatePhases now job);
  _ ← set_job job;
  for_each events (λ e, emit (Recorded e)).

(** ** Clean-up and synchronisation *)

Definition CleanUpResources (getPods : error + list Pod) (getServices : error + list Service) : op unit :=
  job ← get_job;
  pods ← (match getPods with inl err => throw err | inr pods => mret pods end);
  _ ← for_each pods (λ pod, request (DeletePod (meta_Namespace (pod_meta pod)) (meta_Name (pod_meta pod))));
  services ← (match getServices with inl err => throw err | inr services => mret services end);
  _ ← for_each services (λ svc,
        request (DeleteService (meta_Namespace (service_meta svc)) (meta_Name (service_meta svc))));
  if EnableGangScheduling (job_Spec job)
  then request (DeletePodGroup (meta_Namespace (job_meta job)) (meta_Name (job_meta job)))
  else mret tt.

Definition SyncFromJob (getPodGroup : error + PodGroup) (getPods : error + list Pod) : op unit :=
  _ ← SyncToPodGroup getPodGroup;
  SyncToPod getPods.

(** ** Reconciliation *)

Definition ReconcileJobs `{JobController} (replicas : gmap string (option ReplicaSpec)) (jobStatus : JobStatus)
    (runPolicy : RunPolicy) : op unit :=
  job ← get_job;
  _ ← (if negb (IsFinished (status_Phase (job_Status job))) && EnableGangScheduling (job_Spec job) then
         policy ← lift (deref (SchedulingPolicy runPolicy));
         minMember ← lift (deref policy);
         podGroup ← JobController_SyncPodGroup job minMember;
         let phase := pg_Phase podGroup in
         if decide (String.length phase = 0%nat ∨ phase = PodGroupPending) then
           throw (AReconcileError (NewReconcileError ("pod group is [" +:+ phase +:+ "]")
                                     [WithRetryAfter Second; DisableReRaise]))
         else mret tt
       else mret tt);
  result ← attempt ResetExpectations;
  match result with
  | inl err => throw (Errorf ("failed to reset expectations: " +:+ error_string err))
  | inr _ => JobController_ReconcileJobs replicas jobStatus runPolicy
  end.

(** [CleanForJob] ([reconciler/reconciler.go]). *)
Definition CleanForJob : op unit := DeleteExpectations.
End job.

(** [ResolveOwner] ([reconciler/reconciler.go]); [get] reads a job by namespace
    and name. *)
Definition AresJobKind : string := "AresJob".
Definition AresJobAPIVersion : string := GroupName +:+ "/v1".

Definition ResolveOwner (get : string → string → error + AresJob) (ns : string) (ref : OwnerReference) : option AresJob :=
  if decide (owner_Kind ref ≠ AresJobKind) then None
  else match GetJobFromInformerCache (get ns (owner_Name ref)) with
       | Done job => if decide (meta_UID (job_meta job) ≠ owner_UID ref) then None else Some job
       | _ => None
       end.

(** [IsAresJob] ([api/v1/groupversion_info.go]). *)
Definition IsAresJob (owner : option OwnerReference) : bool :=
  match owner with
  | None => false
  | Some owner =>
      if decide (owner_APIVersion owner ≠ AresJobAPIVersion ∨ owner_Kind owner ≠ AresJobKind) then false else true
  end.
