(* ===== verification/Controller.v ===== *)
(** * The controller ([controllers/aresjob_controller.go], [controllers/job.go])

    One reconcile request of a job: finalisation, defaulting, validation, the
    gates in front of the framework's reconciliation, and what follows it.
    Reads of the cluster are arguments; writes are actions of the world. *)

From S2P Require Import Prelude GoStd Errors Regex Kube Api World ReconcilerUtils Examples Webhook Metadata Expectation.
From S2P Require Import Cache Conf Dependence NodeManager Phase Pod PodGroup Job.

(** ** State *)

(** The world, the role cache (nil when it is not configured) and the
    deliveries scheduled on the clean-up queue. *)
Record cstate (C : Type) := mkCState {
  c_world : world;
  c_cache : option C;
  c_queue : list (string * string * Z);
}.
Arguments mkCState {C}.
Arguments c_world {C}.
Arguments c_cache {C}.
Arguments c_queue {C}.

Abbreviation cop C A := (eff (cstate C) error A).

Definition on_world {C A} (m : op A) : cop C A := λ s,
  let '(r, w) := m (c_world s) in (r, mkCState w (c_cache s) (c_queue s)).
Definition on_cache {C A} (m : eff (option C) error A) : cop C A := λ s,
  let '(r, c) := m (c_cache s) in (r, mkCState (c_world s) c (c_queue s)).
(** [CleanUpQueue.AddAfter] *)
Definition AddAfter {C} (ns name : string) (duration : Z) : cop C unit :=
  modify (λ s, mkCState (c_world s) (c_cache s) (c_queue s ++ [(ns, name, duration)])).

(** What the controller calls of a framework. *)
Record Framework (C : Type) := mkFramework {
  F_SetDefault : AresJob → go AresJob;
  F_Validate : AresJob → go unit;
  F_ReconcileJobs : gmap string (option ReplicaSpec) → JobStatus → RunPolicy → op unit;
  F_AddObject : AresJob → Object → op unit;
  F_DeleteObject : AresJob → Object → op unit;
  F_OnRolePhaseChanged : AresJob → string → string → eff (option C) error unit;
  F_CleanUpResources : op unit;
}.
Arguments mkFramework {C}.
Arguments F_SetDefault {C}.
Arguments F_Validate {C}.
Arguments F_ReconcileJobs {C}.
Arguments F_AddObject {C}.
Arguments F_DeleteObject {C}.
Arguments F_OnRolePhaseChanged {C}.
Arguments F_CleanUpResources {C}.

(** [ctrl.Result]. *)
Record Result := mkResult { Requeue : bool; RequeueAfter : Z }.
Definition no_requeue : Result := mkResult false 0.
Definition requeue : Result := mkResult true 0.

(** What the reads of one reconcile request return. *)
Record Reads := mkReads {
  read_job : error + AresJob;
  read_podgroup : error + PodGroup;
  read_pods : error + list Pod;
  read_satisfied : string → bool;
}.

Section controller.
Context {C : Type} `{Interface C}.
Context `{MapOrder, Kubeflow, ApiServer, ControllerUtil, Templates}.
(* scheme.Scheme.Default of client-go *)
Context (SchemeDefault : AresJob → AresJob).
Context (frameworks : string → option (Framework C)) (config : Configuration) (now : Z).

Definition getFramework (name : string) : option (Framework C) := frameworks name.

(** ** Clean-up *)

(** [t.Sub(u)] saturates. *)
Definition time_Sub (t u : Z) : Z := Z.max (- 2 ^ 63) (Z.min (2 ^ 63 - 1) (t - u)).

Definition last_transition (status : AresJobStatus) (type : string) : Z :=
  match GetCondition status type with
  | Some cond => default now (jcond_LastTransitionTime cond)
  | None => now
  end.

(** The delay before the clean-up, if there is to be one. *)
Definition cleanup_delay (job : AresJob) : option Z :=
  let phase := status_Phase (job_Status job) in
  let after (duration lastTime : Z) := Z.max 0 (wrap64 (duration - time_Sub now lastTime)) in
  if negb (IsFinished phase) then None
  else if decide (phase = JobPhaseFailed) then
    seconds ← spec_TTLSecondsAfterFailed (job_Spec job);
    Some (after (wrap64 (seconds * Second)) (last_transition (job_Status job) JobFailed))
  else
    ttl ← TTLSecondsAfterSucceeded config;
    Some (after ttl (last_transition (job_Status job) JobSucceeded)).

Definition OnJobFinished (job : AresJob) : cop C unit :=
  match cleanup_delay job with
  | None => mret tt
  | Some duration => AddAfter (meta_Namespace (job_meta job)) (meta_Name (job_meta job)) duration
  end.

(** What [cleanupNextItem] does with the item it takes from the queue. *)
Inductive queue_action := QueueShutdown | QueueForget | QueueRateLimited.

Definition cleanupNextItem (item : option (string * string)) (get : string → string → error + AresJob) : cop C queue_action :=
  match item with
  | None => mret QueueShutdown
  | Some (ns, name) =>
      match GetJobFromInformerCache (get ns name) with
      | Crash p => lift (Crash p)
      | Fail err => mret (if IsNotFound err then QueueForget else QueueRateLimited)
      | Done aresjob =>
          match getFramework (spec_FrameworkType (job_Spec aresjob)) with
          | None => mret QueueForget
          | Some framework =>
              _ ← on_world (set_job aresjob);
              result ← attempt (on_world (F_CleanUpResources framework));
              mret (match result with inl _ => QueueRateLimited | inr _ => QueueForget end)
          end
      end
  end.

(** ** Role phases *)

Definition HandleRolePhases (old job : AresJob) : cop C unit :=
  hasDependence ← lift (HasDependence (job_Spec job));
  if negb hasDependence then mret tt
  else
    match getFramework (spec_FrameworkType (job_Spec job)) with
    | None => mret tt
    | Some framework =>
        for_each (range 0 (contents (status_RoleStatuses (job_Status job)))) (λ '(roleName, roleStatus),
          oldPhase ← lift (match status_RoleStatuses (job_Status old) !? roleName with
                           | Some status => status ← deref status; Done (role_Phase status)
                           | None => Done RolePhasePending
                           end);
          rs ← lift (deref roleStatus);
          if decide (oldPhase = role_Phase rs ∧ role_Phase rs ≠ RolePhaseRunning) then mret tt
          else on_cache (F_OnRolePhaseChanged framework job roleName (role_Phase rs)))
    end.

(** ** Finalisation *)

Definition deleteJobCache (ns name : string) : cop C unit := on_cache (λ c,
  match c with
  | None => (Done tt, None)
  | Some c => let '(r, c') := DeleteJobCache (NamespacedNameToKey ns name) c in (r, Some c')
  end).

Definition finalize (job : AresJob) : cop C unit :=
  _ ← on_world (_ ← set_job job; CleanForJob);
  if negb (ContainsFinalizer (job_meta job) AresJobFinalizer) then mret tt
  else
    _ ← deleteJobCache (meta_Namespace (job_meta job)) (meta_Name (job_meta job));
    let job := job <| job_meta ::= λ m, RemoveFinalizer m AresJobFinalizer |> in
    on_world (_ ← set_job job; request (UpdateJob job)).

(** ** The reconcile request *)

Definition setInvalidDefinition (msg : string) : cop C unit :=
  on_world (
    job ← get_job;
    let job := job <| job_Status ::= λ s, SetInvalidDefinition now s msg |> in
    _ ← set_job job;
    request (UpdateStatus job)).

(** [changed] is the comparison of the specs by [reflect.DeepEqual]. *)
Definition setDefault (spec_eqb : AresJobSpec → AresJobSpec → bool) (old : AresJob) (framework : Framework C) : cop C bool :=
  job ← on_world get_job;
  let job := SchemeDefault job in
  job ← lift (F_SetDefault framework job);
  job ← lift (Default job);
  _ ← on_world (set_job job);
  if spec_eqb (job_Spec old) (job_Spec job) then mret false
  else _ ← on_world (request (UpdateJob job)); mret true.

(** An error whose handling ignores the outcome of the status update. *)
Definition validate (framework : Framework C) : cop C unit :=
  job ← on_world get_job;
  match ValidateCreate job with
  | Crash p => lift (Crash p)
  | Fail err =>
      _ ← attempt (setInvalidDefinition ("common validation failed: " +:+ error_string err)); throw err
  | Done _ =>
      match F_Validate framework job with
      | Crash p => lift (Crash p)
      | Fail err =>
          _ ← attempt (setInvalidDefinition ("framework validation failed: " +:+ error_string err)); throw err
      | Done _ => mret tt
      end
  end.

(** After the reconciliation of the framework. *)
Definition after_reconcile (reads : Reads) (aresjob : AresJob) : cop C (Result * option error) :=
  result ← attempt (on_world (SyncFromJob (read_podgroup reads) (read_pods reads)));
  match result with
  | inl err => mret (requeue, Some err)
  | inr _ =>
      job ← on_world get_job;
      result ← attempt (HandleRolePhases aresjob job);
      match result with
      | inl err => mret (requeue, Some err)
      | inr _ =>
          _ ← (if IsFinished (status_Phase (job_Status job)) then OnJobFinished job else mret tt);
          mret (no_requeue, None)
      end
  end.

(** How an error of the framework's reconciliation is answered. *)
Definition reconcile_failed (err : error) : cop C (Result * option error) :=
  if IsInvalid err then
    _ ← attempt (setInvalidDefinition ("failed to reconcile: " +:+ error_string err));
    mret (no_requeue, None)
  else match IsReconcileError err with
       | Some e => mret (mkResult false (RetryAfter e), Err e)
       | None => mret (requeue, Some err)
       end.

Definition reconcile_framework (reads : Reads) (aresjob : AresJob) (framework : Framework C) (needReconcile : bool)
    : cop C (Result * option error) :=
  result ← (if needReconcile then
      job ← on_world get_job;
      replicas ← lift (GetReplicaSpecs (job_Spec job));
      js ← lift (deref (status_JobStatus (job_Status job)));
      attempt (on_world (F_ReconcileJobs framework replicas js (spec_RunPolicy (job_Spec job))))
    else mret (inr tt));
  match result with
  | inl err => reconcile_failed err
  | inr _ => after_reconcile reads aresjob
  end.

(** The gates between validation and the framework. *)
Definition reconcile_gated (reads : Reads) (aresjob : AresJob) (framework : Framework C) : cop C (Result * option error) :=
  job ← on_world get_job;
  if negb (SatisfiedExpectations (read_satisfied reads) job) then mret (no_requeue, None)
  else
    result ← attempt (on_world (SyncFromPodGroup (read_podgroup reads) (read_pods reads) now));
    match result with
    | inl err => mret (requeue, Some err)
    | inr ActionBreak => mret (no_requeue, None)
    | inr ActionSkip => reconcile_framework reads aresjob framework false
    | inr ActionContinue => reconcile_framework reads aresjob framework true
    end.

Definition Reconcile (spec_eqb : AresJobSpec → AresJobSpec → bool) (reads : Reads) : cop C (Result * option error) :=
  match read_job reads with
  | inl err => if IsNotFound err then mret (no_requeue, None) else mret (requeue, Some err)
  | inr aresjob =>
      _ ← on_world (set_job aresjob);
      if decide (is_Some (meta_DeletionTimestamp (job_meta aresjob))) then
        result ← attempt (finalize aresjob);
        mret (match result with inl _ => requeue | inr _ => no_requeue end, None)
      else if IsInvalidDefinition (job_Status aresjob) then mret (no_requeue, None)
      else
        match getFramework (spec_FrameworkType (job_Spec aresjob)) with
        | None =>
            _ ← attempt (setInvalidDefinition ("unknown framework: " +:+ spec_FrameworkType (job_Spec aresjob)));
            mret (no_requeue, None)
        | Some framework =>
            result ← attempt (setDefault spec_eqb aresjob framework);
            match result with
            | inl err => mret (requeue, Some err)
            | inr true => mret (no_requeue, None)
            | inr false =>
                result ← attempt (validate framework);
                match result with
                | inl _ => mret (no_requeue, None)
                | inr _ => reconcile_gated reads aresjob framework
                end
            end
        end
  end.
End controller.
