(* ===== verification/PodSlices.v ===== *)
(** * Grouping the pods of a role by index

    [GetPodSlices] puts every pod whose index label is a number in the slot
    of that number, and panics on a negative one. *)

From S2P Require Import Prelude GoStd Errors Kube Api World ReconcilerUtils Examples Pod.

Section slices.
Context `{Kubeflow}.

(** The pods of an index, in order. *)
Definition slot (pods : list Pod) (i : Z) : list Pod := filter (λ pod, parsed_index pod = Some i) pods.

Definition indices_in (pods : list Pod) (lo hi : Z) : Prop :=
  Forall (λ pod, ∀ i, parsed_index pod = Some i → lo ≤ i < hi) pods.

Lemma slot_snoc pods pod i :
  slot (pods ++ [pod]) i = slot pods i ++ (if decide (parsed_index pod = Some i) then [pod] else []).
Proof. unfold slot. rewrite filter_app, filter_cons. by case_decide. Qed.

(** The slice holds the slot of each of its positions. *)
Definition grouped (pods : list Pod) (slices : list (list Pod)) : Prop :=
  ∀ i s, slices !! i = Some s → s = slot pods (Z.of_nat i).

Lemma slice_append_grouped pods slices pod i :
  0 ≤ i < Z.of_nat (length slices) → parsed_index pod = Some i → grouped pods slices →
  ∃ slices', slice_append slices i pod = Done slices' ∧ length slices' = length slices ∧
    grouped (pods ++ [pod]) slices'.
Proof.
  intros Hi Hp Hg. unfold slice_append, slice_get. rewrite decide_False by lia.
  destruct (lookup_lt_is_Some_2 slices (Z.to_nat i)) as [s Hs]; [lia|].
  rewrite Hs. simpl. eexists. split; [done|]. split; [apply length_insert|].
  intros j t Hj. rewrite slot_snoc, Hp. apply list_lookup_insert_Some in Hj as [(<- & <- & _)|[Hne Hj]].
  - rewrite decide_True by (f_equal; lia). f_equal. apply (Hg _ _ Hs).
  - rewrite decide_False, app_nil_r by (intros [= ->]; lia). by apply Hg.
Qed.

Lemma fold_slices_grouped pods slices done_pods :
  indices_in pods 0 (Z.of_nat (length slices)) → grouped done_pods slices →
  ∃ slices', fold_res (λ podSlices pod,
      match parsed_index pod with
      | None => Done podSlices
      | Some index => slice_append podSlices index pod
      end) slices pods = Done slices' ∧
    length slices' = length slices ∧ grouped (done_pods ++ pods) slices'.
Proof.
  revert slices done_pods. induction pods as [|pod pods IH]; intros slices done_pods Hin Hg; simpl.
  { exists slices. by rewrite app_nil_r. }
  apply Forall_cons in Hin as [Hpod Hin].
  destruct (parsed_index pod) as [i|] eqn:Hp.
  - destruct (slice_append_grouped done_pods slices pod i) as (s1 & -> & Hl & Hg1); [by apply Hpod|done..|].
    simpl. destruct (IH s1 (done_pods ++ [pod])) as (s2 & ? & ? & ?); [by rewrite Hl|done|].
    exists s2. rewrite <- Hl. by rewrite <- app_assoc in *.
  - simpl. destruct (IH slices (done_pods ++ [pod])) as (s2 & ? & ? & ?); [done| |].
    { intros j t Hj. rewrite slot_snoc, Hp. simpl. rewrite app_nil_r. by apply Hg. }
    exists s2. by rewrite <- app_assoc in *.
Qed.

Definition max_index (pods : list Pod) : Z :=
  foldl (λ size pod, match parsed_index pod with Some index => Z.max size index | None => size end) 0 pods.

Lemma max_index_spec pods hi :
  0 < hi → indices_in pods 0 hi → 0 ≤ max_index pods < hi ∧ indices_in pods 0 (max_index pods + 1).
Proof.
  intros Hhi Hin. unfold max_index.
  enough (∀ acc, 0 ≤ acc < hi → ∀ r, r = foldl (λ size pod, match parsed_index pod with
    | Some index => Z.max size index | None => size end) acc pods →
    acc ≤ r < hi ∧ indices_in pods 0 (r + 1)) as Hgen.
  { destruct (Hgen 0 ltac:(lia) _ eq_refl) as [Hr ?]. split; [lia|done]. }
  induction Hin as [|pod pods Hpod _ IH]; intros acc Hacc r ->; simpl; [split; [lia|constructor]|].
  destruct (parsed_index pod) as [i|] eqn:Hp.
  - specialize (Hpod i eq_refl). destruct (IH (Z.max acc i) ltac:(lia) _ eq_refl) as [Hr Hin].
    split; [lia|]. constructor; [|done]. intros j Hj. assert (i = j) as <- by congruence. lia.
  - destruct (IH acc ltac:(lia) _ eq_refl) as [Hr Hin]. split; [lia|]. constructor; [|done]. intros j. congruence.
Qed.

Lemma GetPodSlices_spec pods replicas :
  0 ≤ replicas < 2 ^ 63 → indices_in pods 0 (2 ^ 63 - 1) →
  ∃ slices, GetPodSlices pods replicas = Done slices ∧
    Z.of_nat (length slices) = Z.max (max_index pods + 1) replicas ∧
    grouped pods slices ∧ indices_in pods 0 (Z.of_nat (length slices)).
Proof.
  intros Hr Hin. destruct (max_index_spec pods (2 ^ 63 - 1) ltac:(lia) Hin) as [Hm Hin'].
  unfold GetPodSlices, calculatePodSliceSize. fold (max_index pods).
  rewrite wrap64_id by (unfold int64_range; lia). rewrite decide_False by lia.
  set (size := Z.to_nat (Z.max (max_index pods + 1) replicas)).
  assert (indices_in pods 0 (Z.of_nat (length (replicate size ([] : list Pod))))) as Hin2.
  { rewrite length_replicate. eapply Forall_impl; [exact Hin'|]. simpl. intros pod Hpod i Hi.
    specialize (Hpod i Hi). lia. }
  destruct (fold_slices_grouped pods (replicate size []) []) as (slices & Hs & Hl & Hg); [done| |].
  { intros i s [-> _]%lookup_replicate. done. }
  exists slices. rewrite Hs, Hl. split; [done|]. rewrite length_replicate in *. split; [lia|]. by split.
Qed.

(** The loop stops at a negative index, if not before. *)
Lemma fold_slices_negative pods slices :
  Exists (λ pod, ∃ i, parsed_index pod = Some i ∧ i < 0) pods →
  fold_res (λ podSlices pod,
    match parsed_index pod with
    | None => Done podSlices
    | Some index => slice_append podSlices index pod
    end) slices pods = (Crash IndexOutOfRange : go _).
Proof.
  intros Hex. revert slices. induction pods as [|pod pods IH]; intros slices; [by apply Exists_nil in Hex|].
  simpl. apply Exists_cons in Hex. destruct (parsed_index pod) as [i|] eqn:Hp.
  - unfold slice_append, slice_get. case_decide as Hi; [done|].
    destruct (slices !! Z.to_nat i); simpl; [|done]. apply IH. destruct Hex as [(j & [= <-] & ?)|?]; [lia|done].
  - simpl. apply IH. destruct Hex as [(j & ? & ?)|?]; [congruence|done].
Qed.
End slices.

(** ** Properties *)

(** When no pod has a negative index label, the pods of a role are
    grouped by index: the result has a slot for every replica and for every
    index that occurs, the slot of index [i] holds exactly the pods labelled
    [i], in order, and every pod with a numeric label is in one slot. *)
Theorem GetPodSlices_groups `{Kubeflow} pods replicas :
  0 ≤ replicas < 2 ^ 63 → indices_in pods 0 (2 ^ 63 - 1) →
  ∃ slices, GetPodSlices pods replicas = Done slices ∧
    replicas ≤ Z.of_nat (length slices) ∧
    (∀ i s, slices !! i = Some s → s = slot pods (Z.of_nat i)) ∧
    (∀ pod i, pod ∈ pods → parsed_index pod = Some i → ∃ s, slices !! Z.to_nat i = Some s ∧ pod ∈ s).
Proof.
  intros Hr Hin. destruct (GetPodSlices_spec pods replicas Hr Hin) as (slices & Hs & Hl & Hg & Hin').
  exists slices. split_and!; [done|lia|exact Hg|].
  intros pod i Hpod Hi. unfold indices_in in Hin'. rewrite Forall_forall in Hin'.
  specialize (Hin' pod Hpod i Hi).
  destruct (lookup_lt_is_Some_2 slices (Z.to_nat i)) as [s Hlook]; [lia|].
  exists s. split; [done|]. rewrite (Hg _ _ Hlook). apply list_elem_of_filter. split; [|done].
  rewrite Hi. f_equal. lia.
Qed.

(** A negative index label is only warned about before it is used as a
    position: one pod with such a label makes the reconciliation of its role
    panic, whatever the other pods are. *)
Theorem GetPodSlices_negative_panics `{Kubeflow} pods pod i replicas :
  pod ∈ pods → parsed_index pod = Some i → i < 0 → 0 ≤ replicas →
  GetPodSlices pods replicas = Crash IndexOutOfRange.
Proof.
  intros Hpod Hi Hneg Hr. unfold GetPodSlices, calculatePodSliceSize. rewrite decide_False by lia.
  apply fold_slices_negative, Exists_exists. exists pod. split; [done|]. by exists i.
Qed.

#[local] Existing Instance ex_kubeflow.

Lemma GetPodSlices_groups_witness :
  let pods := [ex_pod "worker" 2 PodRunning ""; ex_pod "worker" 0 PodRunning ""] in
  ∃ slices, GetPodSlices pods 2 = Done slices ∧ length slices = 3%nat.
Proof.
  intros pods. destruct (GetPodSlices_groups pods 2) as (slices & Hs & _).
  - lia.
  - apply Forall_cons. split; [|apply Forall_cons; split; [|constructor]];
      intros i Hi; vm_compute in Hi; injection Hi as <-; lia.
  - exists slices. split; [exact Hs|]. vm_compute in Hs. injection Hs as <-. reflexivity.
Defined.

Lemma GetPodSlices_negative_panics_witness :
  GetPodSlices [ex_pod "worker" 0 PodRunning ""; ex_pod "worker" (-1) PodRunning ""] 2 = Crash IndexOutOfRange.
Proof.
  apply (GetPodSlices_negative_panics _ (ex_pod "worker" (-1) PodRunning "") (-1)); [right; left|reflexivity|lia|lia].
Defined.
