(* ===== verification/PodCreate.v ===== *)
(** * Creating a pod

    The identity of a created pod (its labels place it in the slot it was
    created for) and the bookkeeping of expectations around a creation. *)

From S2P Require Import Prelude GoStd Errors Kube Api World ReconcilerUtils Examples Metadata Conf Dependence.
From S2P Require Import NodeManager Cache Phase Pod.

(** What the reconciler relies on of a framework: it may change the containers
    of a pod, not its metadata nor its names. *)
Class ControllerLaws `{Controller} : Prop := {
  cluster_spec_meta : ∀ job t rt index t', SetClusterSpec job t rt index = Done t' → template_meta t' = template_meta t;
  cluster_spec_names : ∀ job t rt index t', SetClusterSpec job t rt index = Done t' →
    pod_Hostname (template_Spec t') = pod_Hostname (template_Spec t) ∧
    pod_Subdomain (template_Spec t') = pod_Subdomain (template_Spec t);
}.

#[export] Instance base_controller_laws `{Kubeflow} : @ControllerLaws base_controller.
Proof. constructor; simpl; intros; by simplify_eq. Qed.

(** ** Requests and their answers *)

(** What an accepted or timed-out creation may lead to: a pod. *)
Definition may_create `{ApiServer} (log : list action) (a : action) : Prop :=
  match a with
  | CreatePodWithControllerRef _ _ _ =>
      match answer log a with None => True | Some e => IsTimeout e = true end
  | _ => False
  end.
#[export] Instance may_create_dec `{ApiServer} log a : Decision (may_create log a).
Proof. unfold may_create. destruct a; try apply _. destruct (answer _ _); apply _. Defined.

Definition accepted_delete `{ApiServer} (log : list action) (a : action) : Prop :=
  match a with DeletePod _ _ => answer log a = None | _ => False end.
#[export] Instance accepted_delete_dec `{ApiServer} log a : Decision (accepted_delete log a).
Proof. unfold accepted_delete. destruct a; apply _. Defined.

Arguments may_create : simpl never.
Arguments accepted_delete : simpl never.

(** The pods that the actions [new], done after [log], may have created and
    have deleted. *)
Fixpoint tally `{ApiServer} (P : list action → action → Prop) `{∀ l a, Decision (P l a)}
    (log new : list action) : Z :=
  match new with
  | [] => 0
  | a :: new => (if decide (P log a) then 1 else 0) + tally P (log ++ [a]) new
  end.

(** The creations and deletions they leave expected. *)
Definition expect_add (a : action) : Z :=
  match a with RaiseExpectations _ add _ => add | CreationObserved _ => -1 | _ => 0 end.
Definition expect_del (a : action) : Z :=
  match a with RaiseExpectations _ _ del => del | DeletionObserved _ => -1 | _ => 0 end.
Definition total (f : action → Z) (l : list action) : Z := foldr (λ a n, f a + n) 0 l.

(** Expectations and requests agree, up to a creation in flight. *)
Definition balanced `{ApiServer} (log new : list action) : Prop :=
  total expect_add new = tally may_create log new ∧ total expect_del new = tally accepted_delete log new.

Lemma total_app f l1 l2 : total f (l1 ++ l2) = total f l1 + total f l2.
Proof. unfold total. induction l1 as [|a l1 IH]; simpl; lia. Qed.

Lemma tally_app `{ApiServer} P `{∀ l a, Decision (P l a)} log l1 l2 :
  tally P log (l1 ++ l2) = tally P log l1 + tally P (log ++ l1) l2.
Proof.
  revert log. induction l1 as [|a l1 IH]; intros log; simpl; [by rewrite app_nil_r|].
  rewrite IH, <- app_assoc. simpl. lia.
Qed.

Lemma balanced_app `{ApiServer} log l1 l2 :
  balanced log l1 → balanced (log ++ l1) l2 → balanced log (l1 ++ l2).
Proof. unfold balanced. rewrite !total_app, !tally_app. lia. Qed.

Lemma balanced_nil `{ApiServer} log : balanced log [].
Proof. done. Qed.

(** Computations whose new actions are balanced, whatever their outcome. *)
Definition balances `{ApiServer} {A} (m : op A) : Prop :=
  ∀ w, ∃ new, the_log (m w).2 = the_log w ++ new ∧ balanced (the_log w) new.

Section balances.
Context `{ApiServer}.

Lemma balances_ret {A} (a : A) : balances (mret a).
Proof. intros w. exists []. by rewrite app_nil_r. Qed.
Lemma balances_lift {A} (r : go A) : balances (lift r).
Proof. intros w. exists []. by rewrite app_nil_r. Qed.
Lemma balances_throw {A} (e : error) : balances (A := A) (throw e).
Proof. intros w. exists []. by rewrite app_nil_r. Qed.
Lemma balances_get_job : balances get_job.
Proof. intros w. exists []. by rewrite app_nil_r. Qed.
Lemma balances_set_job job : balances (set_job job).
Proof. intros w. exists []. by rewrite app_nil_r. Qed.
Lemma balances_event e : balances (emit (Recorded e)).
Proof. intros w. exists [Recorded e]. done. Qed.

Lemma balances_bind {A B} (m : op A) (f : A → op B) :
  balances m → (∀ a, balances (f a)) → balances (m ≫= f).
Proof.
  intros Hm Hf w. destruct (Hm w) as (l1 & Hl1 & Hb1). unfold mbind, eff_bind.
  destruct (m w) as [[a|e|p] w1]; simpl in *; [|by exists l1..].
  destruct (Hf a w1) as (l2 & Hl2 & Hb2). exists (l1 ++ l2).
  rewrite Hl2, Hl1, app_assoc. split; [done|]. rewrite Hl1 in Hb2. by apply balanced_app.
Qed.

Lemma balances_fold {A B} (f : B → A → op B) b l :
  (∀ b a, balances (f b a)) → balances (fold_eff f b l).
Proof.
  intros Hf. revert b. induction l as [|a l IH]; intros b; simpl; [apply balances_ret|].
  apply balances_bind; [apply Hf|apply IH].
Qed.

Lemma balances_delete key pod : balances (delete_pod key pod).
Proof.
  intros w. unfold delete_pod, request, mbind, eff_bind, emit, modify. simpl.
  set (a := DeletePod _ _). destruct (answer (the_log w) a) as [e|] eqn:Ha; simpl.
  - exists [a]. split; [done|]. unfold balanced. simpl.
    by rewrite decide_False by (unfold accepted_delete; simpl; by rewrite Ha).
  - exists [a; RaiseExpectations key 0 1]. rewrite <- app_assoc. split; [done|].
    unfold balanced. simpl. by rewrite decide_True.
Qed.
End balances.

(** ** A creation *)

Section create.
Context `{MapOrder, Kubeflow, Templates, ApiServer, Controller}.
Context (config : Configuration) (hosts : error + list Pod).

Definition with_restart_policy (spec : ReplicaSpec) (t : PodTemplateSpec) : PodTemplateSpec :=
  update_pod_spec t (λ s, s <| pod_RestartPolicy :=
    if decide (RestartPolicy spec = RestartPolicyExitCode) then RestartPolicyNever else RestartPolicy spec |>).

(** The template the API server receives. *)
Definition final_template (job : AresJob) (rt index : string) (spec : ReplicaSpec) (masterRole : bool)
    : go PodTemplateSpec :=
  t ← SetClusterSpec job (new_pod_template job rt index spec masterRole) rt index;
  SetDependence config hosts job (SetScheduler job (with_restart_policy spec t)) rt index.

Definition is_local (a : action) : Prop :=
  match a with Recorded _ => True | _ => False end.

(** [CreateNewPod] on a template that can be built: possibly an event, the
    raised expectation, the request and, when it is refused, the observation
    that takes the expectation back. *)
Lemma CreateNewPod_eq rt index spec masterRole w key t :
  KeyFunc (job_meta (the_job w)) = Done key →
  final_template (the_job w) rt index spec masterRole = Done t →
  let create := CreatePodWithControllerRef (meta_Namespace (job_meta (the_job w))) t (job_meta (the_job w)) in
  let ekey := GenExpectationPodsKey key rt in
  ∃ events, Forall is_local events ∧
    let log1 := the_log w ++ events ++ [RaiseExpectations ekey 1 0] in
    CreateNewPod config hosts rt index spec masterRole w =
      match answer log1 create with
      | None => (Done tt, w <| the_log := log1 ++ [create] |>)
      | Some e => if IsTimeout e then (Done tt, w <| the_log := log1 ++ [create] |>)
                  else (Fail e, w <| the_log := log1 ++ [create; CreationObserved ekey] |>)
      end.
Proof.
  destruct w as [job log]. simpl. intros Hkey Ht. set (create := CreatePodWithControllerRef _ _ _). set (ekey := GenExpectationPodsKey key rt). unfold final_template in Ht.
  apply res_bind_Done in Ht as (t0 & Hc & Hd).
  unfold CreateNewPod, setRestartPolicy, mbind, eff_bind, get_job, gets, lift. simpl. rewrite Hkey, Hc.
  change (update_pod_spec t0 _) with (with_restart_policy spec t0).
  unfold attempt, request, throw, emit, modify, mret, eff_ret, set_field, set_the_log.
  case_decide as Hev; simpl; rewrite Hd; fold create ekey.
  - match goal with |- context [Recorded ?e] => exists [Recorded e] end.
    split; [by repeat constructor|]. rewrite <- !app_assoc. simpl.
    destruct (answer _ create) as [e|]; simpl; [|by rewrite <- ?app_assoc].
    destruct (IsTimeout e); simpl; by rewrite <- ?app_assoc.
  - exists []. split; [done|]. simpl.
    destruct (answer _ create) as [e|]; simpl; [|done].
    destruct (IsTimeout e); simpl; by rewrite <- ?app_assoc.
Qed.

(** ** The identity of the new pod *)

Lemma copy_map_lookup n m into key :
  copy_map n m into !! key = match m !! key with Some v => Some v | None => into !! key end.
Proof.
  unfold copy_map. rewrite (foldl_range_lookup _ (λ _ v, Some v)) by done. by destruct (m !! key).
Qed.

(** The job-level annotations are copied to both maps; other keys are not
    touched. *)
Lemma copy_job_keys_lookup n (m annotations labels : gmap string string) key :
  let r := foldl (λ '(annotations, labels) '(key, value),
      if IsJobLevelKey key then (<[key := value]> annotations, <[key := value]> labels)
      else (annotations, labels)) (annotations, labels) (range n m) in
  let copied (into : gmap string string) :=
    match m !! key with
    | Some v => if IsJobLevelKey key then Some v else into !! key
    | None => into !! key
    end in
  r.1 !! key = copied annotations ∧ r.2 !! key = copied labels.
Proof.
  simpl.
  assert (∀ l a b, foldl (λ '(annotations, labels) '(key, value),
      if IsJobLevelKey key then (<[key := value]> annotations, <[key := value]> labels)
      else (annotations, labels)) (a, b) l =
    (foldl (λ (r : gmap string string) '(key, value), if IsJobLevelKey key then <[key := value]> r else r) a l,
     foldl (λ (r : gmap string string) '(key, value), if IsJobLevelKey key then <[key := value]> r else r) b l)) as ->.
  { induction l as [|[k v] l IH]; intros a b; simpl; [done|]. by destruct (IsJobLevelKey k). }
  simpl. rewrite !(foldl_range_lookup _ (λ k v, if IsJobLevelKey k then Some v else None))
    by (intros r k v; by destruct (IsJobLevelKey k)).
  destruct (m !! key); simpl; [|done]. by destruct (IsJobLevelKey key).
Qed.

Lemma SetDependence_keeps job t rt index t' :
  SetDependence config hosts job t rt index = Done t' →
  template_meta t' = template_meta t ∧
  pod_Hostname (template_Spec t') = pod_Hostname (template_Spec t) ∧
  pod_Subdomain (template_Spec t') = pod_Subdomain (template_Spec t).
Proof.
  unfold SetDependence. destruct (role_spec (job_Spec job) rt) as [spec|]; [|intros; by simplify_eq].
  destruct (role_Dependence spec) as [d|]; [|intros; by simplify_eq].
  assert (∀ t cmd c t', addInitContainer config hosts job t rt cmd = Done (c, t') →
    template_meta t' = template_meta t ∧ pod_Hostname (template_Spec t') = pod_Hostname (template_Spec t) ∧
    pod_Subdomain (template_Spec t') = pod_Subdomain (template_Spec t)) as Hadd.
  { intros t1 cmd c t2. unfold addInitContainer. intros Hd. res_inv. done. }
  destruct (dep_MPIHostFile d).
  - unfold AddMPIInitializer. intros Hd. res_inv.
    destruct (pod_Containers (template_Spec t)) as [|c cs]; [done|]. simplify_eq.
    match goal with H : addInitContainer _ _ _ _ _ _ = Done ?p |- _ => destruct p as [? ?]; apply Hadd in H end.
    by simplify_eq.
  - unfold AddWaiter. intros Hd. res_inv.
    match goal with H : addInitContainer _ _ _ _ _ _ = Done ?p |- _ => destruct p as [? ?]; apply Hadd in H end.
    by simplify_eq.
Qed.

Lemma SetScheduler_labels job t : meta_Labels (template_meta (SetScheduler job t)) = meta_Labels (template_meta t).
Proof. unfold SetScheduler. by destruct (EnableGangScheduling _). Qed.

Lemma final_template_labels `{!ControllerLaws} job rt index spec masterRole t :
  final_template job rt index spec masterRole = Done t →
  meta_Labels (template_meta t) = meta_Labels (template_meta (new_pod_template job rt index spec masterRole)).
Proof.
  unfold final_template. intros (t0 & Hc & Hd)%res_bind_Done.
  apply SetDependence_keeps in Hd as [Hd _]. apply cluster_spec_meta in Hc.
  rewrite Hd, SetScheduler_labels. simpl. by rewrite Hc.
Qed.

Lemma final_template_names `{!ControllerLaws} job rt index spec masterRole t :
  final_template job rt index spec masterRole = Done t →
  pod_Hostname (template_Spec t) = GeneratePodName (meta_Name (job_meta job)) rt index ∧
  pod_Subdomain (template_Spec t) = GetGeneralSharedName (meta_Name (job_meta job)) rt.
Proof.
  unfold final_template. intros (t0 & Hc & Hd)%res_bind_Done.
  apply SetDependence_keeps in Hd as (_ & -> & ->). apply cluster_spec_names in Hc as [Hh Hs].
  unfold new_pod_template in Hh, Hs. destruct (foldl _ _ (range 1 _)) as [a l]. simpl in *.
  unfold SetScheduler. by destruct (EnableGangScheduling _).
Qed.

(** The labels the reconciler gives to a pod of a role and index. *)
Definition pod_labels (job : AresJob) (rt index : string) (masterRole : bool) : gmap string string :=
  let l := <[ReplicaIndexLabel := index]> (<[ReplicaTypeLabel := rt]> (GenLabels (meta_Name (job_meta job)))) in
  if masterRole then <[JobRoleLabel := RoleMaster]> l else l.

Lemma named_template_labels name spec :
  meta_Labels (template_meta (named_template name spec)) = meta_Labels (template_meta (Template spec)).
Proof. unfold named_template. by case_decide. Qed.

Lemma new_pod_template_labels job rt index spec masterRole key :
  meta_Labels (template_meta (new_pod_template job rt index spec masterRole)) !? key =
  match contents (meta_Annotations (job_meta job)) !! key, IsJobLevelKey key with
  | Some v, true => Some v
  | _, _ => match pod_labels job rt index masterRole !! key with
            | Some v => Some v
            | None => contents (meta_Labels (template_meta (Template spec))) !! key
            end
  end.
Proof.
  unfold new_pod_template. fold (pod_labels job rt index masterRole). rewrite named_template_labels.
  set (tlabels := copy_map 0 _ _). set (tannotations := contents (meta_Annotations (template_meta (named_template _ _)))).
  destruct (copy_job_keys_lookup 1 (contents (meta_Annotations (job_meta job))) tannotations tlabels key) as [_ Hl].
  destruct (foldl _ _ (range 1 _)) as [a l]. simpl in *. rewrite mlookup_Some, Hl. unfold tlabels.
  rewrite copy_map_lookup. by destruct (contents (meta_Annotations (job_meta job)) !! key), (IsJobLevelKey key).
Qed.

(** The labels of the created pod. *)
Lemma created_labels `{!ControllerLaws} job rt index spec masterRole t :
  final_template job rt index spec masterRole = Done t →
  meta_Labels (template_meta t) !? ReplicaIndexLabel = Some index ∧
  meta_Labels (template_meta t) !? ReplicaTypeLabel = Some rt ∧
  ∀ key v, IsJobLevelKey key = true → meta_Annotations (job_meta job) !? key = Some v →
    meta_Labels (template_meta t) !? key = Some v.
Proof.
  intros ->%final_template_labels. rewrite !new_pod_template_labels. split_and!.
  - assert (IsJobLevelKey ReplicaIndexLabel = false) as -> by done.
    assert (pod_labels job rt index masterRole !! ReplicaIndexLabel = Some index) as ->; [|by destruct (_ !! _)].
    unfold pod_labels. destruct masterRole; [rewrite lookup_insert_ne by done|]; by rewrite lookup_insert_eq.
  - assert (IsJobLevelKey ReplicaTypeLabel = false) as -> by done.
    assert (pod_labels job rt index masterRole !! ReplicaTypeLabel = Some rt) as ->; [|by destruct (_ !! _)].
    unfold pod_labels. destruct masterRole; [rewrite lookup_insert_ne by done|];
      rewrite lookup_insert_ne by done; by rewrite lookup_insert_eq.
  - intros key v Hkey. rewrite mlookup_contents. intros Hv. by rewrite new_pod_template_labels, Hv, Hkey.
Qed.
End create.

(** A pod with the labels of a created one is found again. *)
Lemma labelled_pod_index `{Kubeflow} pod i :
  meta_Labels (pod_meta pod) !? ReplicaIndexLabel = Some (Itoa i) → int64_range i → parsed_index pod = Some i.
Proof.
  unfold parsed_index, GetReplicaIndex, GetLabelByName. intros Hl Hi.
  destruct (meta_Labels (pod_meta pod)) as [labels|]; [|done]. rewrite mlookup_Some in Hl. simpl. rewrite Hl.
  rewrite Atoi_Itoa by done. case_decide as Hz; [|done].
  destruct (Itoa i) eqn:Hs; [by apply Itoa_nonempty in Hs|done].
Qed.

Lemma labelled_pod_type `{Kubeflow} pod rt :
  meta_Labels (pod_meta pod) !? ReplicaTypeLabel = Some rt → pod_type pod = rt.
Proof.
  unfold pod_type, GetReplicaType, GetLabelByName. intros Hl.
  destruct (meta_Labels (pod_meta pod)) as [labels|]; [|done]. rewrite mlookup_Some in Hl. simpl. by rewrite Hl.
Qed.

(** ** Properties *)

(** C32: the pod created for an index of a role is found again as such: with
    the labels of the template the API server receives, it is selected as a
    pod of the role, its type is the role, its index label parses back to the
    index, so that it lands in the slot it was created for, and it carries
    the job's queue, priority and preemptability in its labels. *)
Theorem created_pod_identity `{MapOrder, Kubeflow, Selectors, Templates, Controller, !ControllerLaws}
    config hosts job rt i spec masterRole t pod :
  (∀ key value labels, SelectorMatches key value labels = true ↔ labels !? key = Some value) →
  final_template config hosts job rt (Itoa i) spec masterRole = Done t →
  int64_range i → meta_Labels (pod_meta pod) = meta_Labels (template_meta t) →
  FilterPodsForReplicaType [pod] rt = [pod] ∧ pod_type pod = rt ∧ parsed_index pod = Some i ∧
  ∀ key v, IsJobLevelKey key = true → meta_Annotations (job_meta job) !? key = Some v →
    meta_Labels (pod_meta pod) !? key = Some v.
Proof.
  intros Hsel Ht Hi Hl. destruct (created_labels _ _ _ _ _ _ _ _ Ht) as (Hidx & Htype & Hkeys). rewrite <- Hl in Hidx, Htype, Hkeys.
  split_and!; [|by apply labelled_pod_type|by apply labelled_pod_index|exact Hkeys].
  unfold FilterPodsForReplicaType. rewrite filter_cons. rewrite decide_True by (right; by apply Hsel). done.
Qed.

#[local] Existing Instances canonical_order canonical_sort ex_kubeflow ex_text ex_selectors.

(** A template that does not depend on the configuration. *)
Definition ex_templates : Templates := {|
  Template_t := string;
  ParseTemplate s := Done s;
  ExecuteTemplate t c := Done (t +:+ " --key " +:+ cmd_Key c +:+ " --roles " +:+ cmd_Roles c);
|}.
#[local] Existing Instances ex_templates base_controller.
Definition ex_config : Configuration :=
  mkConfiguration _ (mkOperatorConfig (mkRestConfig (QArith_base.inject_Z 1) 1) None)
    (mkCacheConfig "memory://" (mkObserverConfig false "" 0 "" ∅))
    {["common" := Some (mkInitializerConfig _ "init:1" "wait" (Some "wait") ∅ [])]}.

Lemma created_pod_identity_witness :
  let job := ex_job "demo" [("worker", ex_role 2 "")] <| job_meta ::= λ m, m <| meta_Annotations := Some {[AresQueueAnnotationKey := "prod"]} |> |> in
  ∃ t, final_template ex_config (inr []) job "worker" "7"
         (ex_replicas 2 "") false = Done t ∧
    let pod := mkPod (template_meta t) (template_Spec t) zero_PodStatus in
    parsed_index pod = Some 7 ∧ pod_type pod = "worker" ∧
    meta_Labels (pod_meta pod) !? AresQueueAnnotationKey = Some "prod".
Proof.
  intros job. eexists. split; [vm_compute; reflexivity|]. intros pod.
  destruct (created_pod_identity ex_config (inr []) job "worker" 7 (ex_replicas 2 "") false
    (mkPodTemplateSpec (pod_meta pod) (pod_Spec pod)) pod) as (_ & Ht & Hi & Hk).
  - intros key value labels. simpl. by rewrite bool_decide_eq_true.
  - vm_compute. reflexivity.
  - unfold int64_range. lia.
  - reflexivity.
  - split; [exact Hi|]. split; [exact Ht|]. apply Hk; reflexivity.
Defined.
