(* ===== verification/PhaseCount.v ===== *)
(** * The counters of a role

    [UpdateRoleReplicas] counts every pod of the role once, in the class of
    its state. *)

From S2P Require Import Prelude GoStd Errors Kube Api World ReconcilerUtils Examples NodeManager Phase.

(** ** The classes *)

Inductive pod_class := CTerminating | CFailed | CPending | CActive | CSucceeded | CUnknown.
#[export] Instance pod_class_eq_dec : EqDecision pod_class.
Proof. solve_decision. Defined.

Section classes.
Context `{MapOrder}.

Definition phase_class (phase : string) : option pod_class :=
  if decide (phase = "" ∨ phase = PodPending) then Some CPending
  else if decide (phase = PodRunning) then Some CActive
  else if decide (phase = PodSucceeded) then Some CSucceeded
  else if decide (phase = PodFailed) then Some CFailed
  else if decide (phase = PodUnknown) then Some CUnknown
  else None.

(** The pod runs on a node that is down, and the role treats that as a
    failure. *)
Definition on_down_node (nm : Manager) (spec : RoleSpec) (pod : Pod) : Prop :=
  pod_NodeName (pod_Spec pod) ≠ "" ∧
  rpolicy_NodeDownAsFailed (role_RolePhasePolicy spec) = true ∧
  (IsNodeDown nm (pod_NodeName (pod_Spec pod))).1 = true.
#[export] Instance on_down_node_dec nm spec pod : Decision (on_down_node nm spec pod).
Proof. unfold on_down_node. apply _. Defined.

Definition classify (nm : Manager) (spec : RoleSpec) (pod : Pod) : option pod_class :=
  if is_terminating pod then Some CTerminating
  else if decide (on_down_node nm spec pod) then Some CFailed
  else phase_class (pstatus_Phase (pod_Status pod)).

Definition count (nm : Manager) (spec : RoleSpec) (pods : list Pod) (c : pod_class) : Z :=
  Z.of_nat (length (filter (λ pod, classify nm spec pod = Some c) pods)).
End classes.

(** The counters, as a record of the source, of a count per class. *)
Definition mk_counts (f : pod_class → Z) : ReplicaStatus :=
  mkReplicaStatus (Some (mkCommonReplicaStatus (f CActive) (f CSucceeded) (f CFailed)))
    (f CPending) (f CUnknown) (f CTerminating).

Definition bump (c : option pod_class) (f : pod_class → Z) (c' : pod_class) : Z :=
  if decide (c = Some c') then wrap32 (f c' + 1) else f c'.

(** ** One pod *)

Section one_pod.
Context `{MapOrder}.

Definition with_counts (job : AresJob) (m : gmap string (option RoleStatus)) (role : string)
    (rs : RoleStatus) (f : pod_class → Z) : AresJob :=
  job <| job_Status ::= λ s, s <| status_RoleStatuses :=
    Some (<[role := Some (rs <| role_ReplicaStatus := mk_counts f |>)]> m) |> |>.

Lemma update_role_status_insert s m role rs f :
  update_role_status (s <| status_RoleStatuses := Some (<[role := Some rs]> m) |>) role f =
  rs' ← f rs; Done (s <| status_RoleStatuses := Some (<[role := Some rs']> m) |>).
Proof.
  unfold update_role_status, role_status. simpl. rewrite mlookup_Some, lookup_insert_eq. simpl.
  destruct (f rs); simpl; [|done..]. by rewrite insert_insert_eq.
Qed.

Lemma updateReplicaStatus_classify nm job m role rs f spec pod :
  role_spec (job_Spec job) role = Some spec →
  updateReplicaStatus nm (with_counts job m role rs f) role pod =
  Done (with_counts job m role rs (bump (classify nm spec pod) f)).
Proof.
  intros Hspec. unfold updateReplicaStatus, with_counts, classify. simpl.
  rewrite Hspec. destruct (is_terminating pod) eqn:Ht; simpl.
  { by rewrite update_role_status_insert. }
  destruct (decide (on_down_node nm spec pod)) as [(Hn & Hp & Hd)|Hd].
  { rewrite decide_False by done. simpl. rewrite Hp, Hd. simpl. by rewrite update_role_status_insert. }
  replace (if decide (pod_NodeName (pod_Spec pod) = "") then Done false else
    Done (rpolicy_NodeDownAsFailed (role_RolePhasePolicy spec) &&
          (IsNodeDown nm (pod_NodeName (pod_Spec pod))).1)) with (Done (E := error) false).
  2:{ unfold on_down_node in Hd. case_decide; [done|]. f_equal.
      destruct (rpolicy_NodeDownAsFailed _), (IsNodeDown _ _).1; naive_solver. }
  simpl. unfold updateRoleReplicaStatuses, phase_class.
  repeat case_decide; simpl; rewrite ?update_role_status_insert; done.
Qed.
End one_pod.

(** ** All the pods *)

Section all_pods.
Context `{MapOrder}.

Definition add_counts (nm : Manager) (spec : RoleSpec) (pods : list Pod) (f : pod_class → Z)
    : pod_class → Z :=
  foldl (λ f pod, bump (classify nm spec pod) f) f pods.

Lemma add_counts_spec nm spec pods f c :
  int32_range (f c) → add_counts nm spec pods f c = wrap32 (f c + count nm spec pods c).
Proof.
  unfold add_counts, count. revert f. induction pods as [|pod pods IH]; intros f Hf; simpl.
  { rewrite Z.add_0_r. symmetry. by apply wrap32_id. }
  rewrite filter_cons. unfold bump at 2. rewrite IH; unfold bump; [|case_decide; auto with ares].
  case_decide; simpl; [|done].
  rewrite wrap32_wrap32_add. f_equal. lia.
Qed.

Lemma fold_updateReplicaStatus nm job m role rs f spec pods :
  role_spec (job_Spec job) role = Some spec →
  fold_res (λ job pod, updateReplicaStatus nm job role pod) (with_counts job m role rs f) pods =
  Done (with_counts job m role rs (add_counts nm spec pods f)).
Proof.
  intros Hspec. revert f. induction pods as [|pod pods IH]; intros f; simpl; [done|].
  rewrite (updateReplicaStatus_classify _ _ _ _ _ _ spec) by done. apply IH.
Qed.
End all_pods.

(** The status of the role before counting: a missing one starts as Pending. *)
Definition role_status_or_new (status : AresJobStatus) (role : string) : RoleStatus :=
  default (mkRoleStatus RolePhasePending "" "" None zero_ReplicaStatus) (mjoin (contents (status_RoleStatuses status) !! role)).

(** The functional result of counting. *)
Lemma UpdateRoleReplicas_eq `{MapOrder} nm job role pods spec js :
  role_spec (job_Spec job) role = Some spec →
  status_JobStatus (job_Status job) = Some js →
  Z.of_nat (length pods) < 2 ^ 31 →
  let counts := mk_counts (count nm spec pods) in
  UpdateRoleReplicas nm job role pods = Done (job <| job_Status ::= λ s,
    s <| status_RoleStatuses := Some (<[role := Some
           (role_status_or_new (job_Status job) role <| role_ReplicaStatus := counts |>)]>
           (contents (status_RoleStatuses (job_Status job)))) |>
      <| status_JobStatus := Some (js <| ReplicaStatuses :=
           Some (<[role := rstatus_Common counts]> (contents (ReplicaStatuses js))) |>) |> |>).
Proof.
  intros Hspec Hjs Hlen counts. unfold UpdateRoleReplicas.
  set (rs := role_status_or_new (job_Status job) role).
  replace (job <| job_Status ::= λ s, initializeReplicaStatuses s role |>) with
    (with_counts job (contents (status_RoleStatuses (job_Status job))) role rs (λ _, 0))
    by reflexivity.
  rewrite (fold_updateReplicaStatus _ _ _ _ _ _ spec) by done. simpl. rewrite Hjs. simpl.
  unfold role_status. simpl. rewrite mlookup_Some, lookup_insert_eq. simpl.
  assert (∀ c, add_counts nm spec pods (λ _, 0) c = count nm spec pods c) as Hc.
  { intros c. rewrite add_counts_spec by done. apply wrap32_id. unfold int32_range, count.
    pose proof (length_filter (λ pod, classify nm spec pod = Some c) pods). lia. }
  assert (mk_counts (add_counts nm spec pods (λ _, 0)) = counts) as Hcounts.
  { unfold counts, mk_counts. by rewrite !Hc. }
  unfold with_counts. rewrite Hcounts. unfold counts, mk_counts. by rewrite !Hc.
Qed.

(** ** Properties *)

(** C24: when a role has fewer than 2^31 pods, counting them succeeds and
    sets each counter of the role to the number of its pods in that class:
    terminating first, then failed on a node that is down when the role
    treats that as a failure, then by the phase of the pod.  The
    counters of the embedded kubeflow status are the same; the phase of the
    role is kept (a new role is Pending), the other roles, the spec and the
    metadata are untouched; and if every phase is one of Kubernetes' the six
    counters add up to the number of pods. *)
Theorem UpdateRoleReplicas_counts `{MapOrder} nm job role pods spec js :
  role_spec (job_Spec job) role = Some spec →
  status_JobStatus (job_Status job) = Some js →
  Z.of_nat (length pods) < 2 ^ 31 →
  ∃ job' st js',
    UpdateRoleReplicas nm job role pods = Done job' ∧
    role_status (job_Status job') role = Some st ∧
    status_JobStatus (job_Status job') = Some js' ∧
    role_ReplicaStatus st = mk_counts (count nm spec pods) ∧
    ReplicaStatuses js' !? role = Some (rstatus_Common (role_ReplicaStatus st)) ∧
    role_Phase st = role_Phase (role_status_or_new (job_Status job) role) ∧
    (∀ role', role' ≠ role →
       role_status (job_Status job') role' = role_status (job_Status job) role' ∧
       ReplicaStatuses js' !? role' = ReplicaStatuses js !? role') ∧
    job_Spec job' = job_Spec job ∧ job_meta job' = job_meta job ∧
    (Forall (λ pod, is_Some (classify nm spec pod)) pods →
     foldr Z.add 0 (count nm spec pods <$>
       [CTerminating; CFailed; CPending; CActive; CSucceeded; CUnknown]) = Z.of_nat (length pods)).
Proof.
  intros Hspec Hjs Hlen. rewrite (UpdateRoleReplicas_eq _ _ _ _ spec js) by done.
  do 3 eexists. split_and!; [done| |done| | | | |done..|]; unfold role_status; simpl.
  - by rewrite mlookup_Some, lookup_insert_eq.
  - done.
  - by rewrite mlookup_Some, lookup_insert_eq.
  - done.
  - intros role' Hne. by rewrite !mlookup_Some, !lookup_insert_ne, !mlookup_contents by done.
  - clear. induction 1 as [|pod pods [c Hc] _ IH]; [done|].
    rewrite length_cons, Nat2Z.inj_succ, <- IH. csimpl.
    unfold count. rewrite !filter_cons, Hc. destruct c; simpl; lia.
Qed.

#[local] Existing Instances canonical_order.

Lemma UpdateRoleReplicas_counts_witness :
  let pods := [ex_pod "worker" 0 PodRunning "a"; ex_pod "worker" 1 PodRunning "b";
               ex_deleted (ex_pod "worker" 2 PodFailed "b"); ex_pod "worker" 3 PodSucceeded ""] in
  let nm := mkManager {["b" := {[NodeReady := mkCondition NodeReady ConditionUnknown "" ""]}]} in
  ∃ job', UpdateRoleReplicas nm (ex_job "demo" [("worker", ex_role 3 "")]) "worker" pods = Done job' ∧
  role_ReplicaStatus <$> role_status (job_Status job') "worker" =
    Some (mkReplicaStatus (Some (mkCommonReplicaStatus 1 1 1)) 0 0 1).
Proof.
  intros pods nm.
  destruct (UpdateRoleReplicas_counts nm (ex_job "demo" [("worker", ex_role 3 "")]) "worker" pods
    (ex_role 3 "") zero_JobStatus) as (job' & st & js' & Hd & Hst & _ & Hc & _); [reflexivity..|].
  exists job'. split; [exact Hd|]. rewrite Hst. simpl. rewrite Hc. vm_compute. reflexivity.
Defined.
