(* ===== verification/PodGroupSync.v ===== *)
(** * What the pod group tells about a job

    The outcome of every call of [SyncFromPodGroup], and that an eviction is
    recorded once. *)

From S2P Require Import Prelude GoStd Errors Kube Api World ReconcilerUtils Examples Phase PodGroup.

(** ** What the objects say *)

Definition has_condition (type status : string) (l : list Condition) : Prop :=
  ∃ c, c ∈ l ∧ cond_Type c = type ∧ cond_Status c = status.

Definition some_pod_preempted (pods : list Pod) : Prop :=
  ∃ pod c, pod ∈ pods ∧ c ∈ pstatus_Conditions (pod_Status pod) ∧
    cond_Type c = PodReady ∧ cond_Status c = ConditionFalse ∧ cond_Reason c = Preempted.

Definition marked_scheduled (job : AresJob) : Prop :=
  ∃ c, GetCondition (job_Status job) JobScheduled = Some c ∧ jcond_Status c = ConditionTrue.

(** The job has failed, and by eviction. *)
Definition marked_evicted (job : AresJob) : Prop :=
  status_Phase (job_Status job) = JobPhaseFailed ∧
  ∃ js c, status_JobStatus (job_Status job) = Some js ∧ c ∈ Conditions js ∧
    jcond_Type c = JobFailed ∧ jcond_Status c = ConditionTrue ∧ jcond_Reason c = Preempted.

(** No role status is nil. *)
Definition statuses_present (job : AresJob) : Prop :=
  ∀ role, status_RoleStatuses (job_Status job) !? role ≠ Some None.

Definition with_condition `{Kubeflow} (now : Z) (job : AresJob) (js : JobStatus) (type reason msg : string) : AresJob :=
  job <| job_Status ::= λ s, s <| status_JobStatus := Some (UpdateJobConditions now js type reason msg) |> |>.

(** How a refused or accepted request ends. *)
Definition answered `{ApiServer} {A} (w : world) (a : action) (x : A) : go A :=
  match answer (the_log w) a with None => Done x | Some e => Fail e end.

(** What kubeflow promises of [UpdateJobConditions]: a job that has not failed
    gets a condition of the type, the first one, with the reason. *)
Class ConditionLaws `{Kubeflow} := {
  update_condition_first : ∀ now js type reason msg,
    (∀ c, c ∈ Conditions js → ¬ (jcond_Type c = JobFailed ∧ jcond_Status c = ConditionTrue)) →
    ∃ n c, list_find (λ c, jcond_Type c = type) (Conditions (UpdateJobConditions now js type reason msg)) = Some (n, c) ∧
      jcond_Status c = ConditionTrue ∧ jcond_Reason c = reason;
}.

(** ** The tests *)

Lemma find_condition_spec P msg l : (find_condition P msg l).1 = true ↔ ∃ c, c ∈ l ∧ P c = true.
Proof.
  unfold find_condition. destruct (filter _ l) as [|c l'] eqn:Hl.
  - rewrite filter_nil_iff in Hl. split; [done|]. intros (c & Hc & HP). by destruct (Hl c Hc).
  - apply filter_cons_elem in Hl as [HP Hin]. split; eauto.
Qed.

Ltac bool_props := repeat rewrite andb_true_iff; repeat rewrite bool_decide_eq_true.

Lemma IsPodGroupScheduled_spec pg :
  (IsPodGroupScheduled pg).1 = true ↔ has_condition PodGroupScheduled ConditionTrue (pg_Conditions pg).
Proof. unfold IsPodGroupScheduled. rewrite find_condition_spec. unfold has_condition. by setoid_rewrite andb_true_iff; setoid_rewrite bool_decide_eq_true. Qed.

Lemma IsPodGroupEvicted_spec pg :
  (IsPodGroupEvicted pg).1 = true ↔ has_condition Evicted ConditionTrue (pg_Conditions pg).
Proof. unfold IsPodGroupEvicted. rewrite find_condition_spec. unfold has_condition. by setoid_rewrite andb_true_iff; setoid_rewrite bool_decide_eq_true. Qed.

Lemma isPodPreempted_spec pods : (isPodPreempted (inr pods)).1 = true ↔ some_pod_preempted pods.
Proof.
  assert (Hpod : ∀ pod, (IsPodPreempted pod).1 = true ↔
    ∃ c, c ∈ pstatus_Conditions (pod_Status pod) ∧
      cond_Type c = PodReady ∧ cond_Status c = ConditionFalse ∧ cond_Reason c = Preempted).
  { intros pod. unfold IsPodPreempted. rewrite find_condition_spec.
    setoid_rewrite andb_true_iff. setoid_rewrite andb_true_iff. setoid_rewrite bool_decide_eq_true. naive_solver. }
  unfold isPodPreempted, some_pod_preempted. destruct (filter _ pods) as [|pod l] eqn:Hl; simpl.
  - rewrite filter_nil_iff in Hl. setoid_rewrite Hpod in Hl. naive_solver.
  - apply filter_cons_elem in Hl as [Hp Hin]. split; [intros _|done].
    apply Hpod in Hp as (c & ?). naive_solver.
Qed.

Lemma status_Evicted_spec job js :
  status_JobStatus (job_Status job) = Some js →
  ∃ b : bool, status_Evicted (job_Status job) = Done b ∧ (b = true ↔ marked_evicted job).
Proof.
  intros Hjs. unfold status_Evicted, marked_evicted. rewrite Hjs. case_decide as Hphase.
  - exists false. split; [done|]. naive_solver.
  - eexists. split; [done|]. rewrite existsb_exists. setoid_rewrite andb_true_iff. setoid_rewrite andb_true_iff.
    setoid_rewrite bool_decide_eq_true. setoid_rewrite <- list_elem_of_In.
    naive_solver.
Qed.

(** ** The steps *)

Section sync.
Context `{MapOrder, Kubeflow, ApiServer}.
Context (pg : PodGroup) (pods : list Pod) (now : Z).

Lemma getPhases_returns job : statuses_present job → ∃ phases, getPhases job = Done phases.
Proof.
  intros Hpresent. unfold getPhases. eexists. apply (fold_res_pure _ (λ phases '(role, status),
    match status with Some rs => <[role := role_Phase rs]> phases | None => phases end)).
  intros phases [role [rs|]] Hin; [done|]. apply elem_of_range in Hin.
  destruct (Hpresent role). by rewrite mlookup_contents.
Qed.

Lemma update_conditions_run w js type reason msg :
  status_JobStatus (job_Status (the_job w)) = Some js →
  update_conditions now type reason msg w =
  (Done tt, w <| the_job := with_condition now (the_job w) js type reason msg |>).
Proof. intros Hjs. unfold update_conditions, mbind, eff_bind, get_job, gets, lift. by rewrite Hjs. Qed.

Lemma request_run w a : request a w = (answered w a tt, w <| the_log ::= λ l, l ++ [a] |>).
Proof. done. Qed.

(** A job just seen scheduled gets the condition, and the status is updated. *)
Lemma updateScheduled_run w js :
  status_JobStatus (job_Status (the_job w)) = Some js →
  (marked_scheduled (the_job w) ∨ ¬ has_condition PodGroupScheduled ConditionTrue (pg_Conditions pg) →
   updateScheduledByPodGroup now pg w = (Done false, w)) ∧
  (¬ marked_scheduled (the_job w) ∧ has_condition PodGroupScheduled ConditionTrue (pg_Conditions pg) →
   let job' := with_condition now (the_job w) js JobScheduled JobScheduled (IsPodGroupScheduled pg).2 in
   updateScheduledByPodGroup now pg w =
   (answered (w <| the_job := job' |>) (UpdateStatus job') true,
    mkWorld job' (the_log w ++ [UpdateStatus job']))).
Proof.
  intros Hjs. rewrite <- IsPodGroupScheduled_spec. unfold marked_scheduled, updateScheduledByPodGroup.
  rewrite (eff_bind_Done _ _ w (the_job w) w) by done. destruct (IsPodGroupScheduled pg) as [scheduled msg]; simpl.
  assert (Hdec : match GetCondition (job_Status (the_job w)) JobScheduled with
                 | Some cond => bool_decide (jcond_Status cond = ConditionTrue) | None => false end = true ↔
                 ∃ c, GetCondition (job_Status (the_job w)) JobScheduled = Some c ∧ jcond_Status c = ConditionTrue).
  { destruct (GetCondition _ _); [rewrite bool_decide_eq_true|]; naive_solver. }
  rewrite <- Hdec. match type of Hdec with ?b = true ↔ _ => clear Hdec; destruct b end;
    destruct scheduled; simpl; split; try naive_solver.
  intros _. unfold updateJobCondition. unfold answered, mbind, eff_bind. rewrite (update_conditions_run w js) by done.
  simpl. by destruct (answer _ _).
Qed.

(** The phase, completion time and events of a job just seen evicted. *)
Lemma SetJobPhase_failed job js :
  status_JobStatus (job_Status job) = Some js →
  ∃ job' js' events, SetJobPhase now job JobPhaseFailed = Done (job', events) ∧
    status_Phase (job_Status job') = JobPhaseFailed ∧ status_JobStatus (job_Status job') = Some js' ∧
    CompletionTime js' = Some (default now (CompletionTime js)) ∧ Conditions js' = Conditions js ∧
    job_meta job' = job_meta job ∧ job_Spec job' = job_Spec job ∧
    status_RoleStatuses (job_Status job') = status_RoleStatuses (job_Status job) ∧
    (length events = 1%nat).
Proof.
  intros Hjs. unfold SetJobPhase. rewrite Hjs. simpl. case_decide as Hct; simpl.
  - eexists _, (js <| CompletionTime := Some now |>), _. split; [done|]. simpl. rewrite Hct. by repeat split.
  - destruct (CompletionTime js) as [t|] eqn:Ht; [|done].
    exists (job <| job_Status ::= λ s, s <| status_Phase := JobPhaseFailed |> |>), js. eexists.
    split; [done|]. simpl. rewrite Ht. by repeat split.
Qed.

(** Updating the status sends the job as it is. *)
Lemma UpdateJobStatusInApiServer_run w :
  statuses_present (the_job w) →
  UpdateJobStatusInApiServer (status_JobStatus (job_Status (the_job w))) w =
  (answered w (UpdateStatus (the_job w)) tt, w <| the_log ::= λ l, l ++ [UpdateStatus (the_job w)] |>).
Proof.
  intros [phases Hphases]%getPhases_returns. unfold UpdateJobStatusInApiServer.
  rewrite (eff_bind_Done _ _ w (the_job w) w) by done. cbv zeta.
  replace (the_job w <| job_Status ::= λ s, s <| status_JobStatus := status_JobStatus (job_Status (the_job w)) |> |>)
    with (the_job w) by (destruct (the_job w) as [? ? []]; done).
  unfold attempt, request, lift, mbind, eff_bind, answered. by destruct (answer _ _); simpl; rewrite Hphases.
Qed.

Lemma update_and_break w :
  statuses_present (the_job w) →
  (job ← get_job; _ ← UpdateJobStatusInApiServer (status_JobStatus (job_Status job)); mret ActionBreak) w =
  (answered w (UpdateStatus (the_job w)) ActionBreak, w <| the_log ::= λ l, l ++ [UpdateStatus (the_job w)] |>).
Proof.
  intros Hpresent. rewrite (eff_bind_Done _ _ w (the_job w) w) by done.
  unfold mbind, eff_bind at 1. rewrite (UpdateJobStatusInApiServer_run w) by done. unfold answered.
  by destruct (answer _ _).
Qed.

(** The job of an eviction seen for the first time. *)
Definition evicted_job (job job' : AresJob) (js : JobStatus) (msg : string) (events : list Event) : Prop :=
  status_Phase (job_Status job') = JobPhaseFailed ∧
  (∃ js', status_JobStatus (job_Status job') = Some js' ∧
          Conditions js' = Conditions (UpdateJobConditions now js JobFailed Preempted msg)) ∧
  status_RoleStatuses (job_Status job') = status_RoleStatuses (job_Status job) ∧
  job_meta job' = job_meta job ∧ job_Spec job' = job_Spec job ∧
  length events = (if decide (status_Phase (job_Status job) = JobPhaseFailed) then 0 else 1)%nat.

(** The part of the call that handles an eviction seen for the first time. *)
Lemma SyncFromPodGroup_evicted_run w js :
  status_JobStatus (job_Status (the_job w)) = Some js → statuses_present (the_job w) →
  EnableGangScheduling (job_Spec (the_job w)) = true →
  updateScheduledByPodGroup now pg w = (Done false, w) →
  ¬ marked_evicted (the_job w) → has_condition Evicted ConditionTrue (pg_Conditions pg) →
  ∃ job' events, evicted_job (the_job w) job' js (IsPodGroupEvicted pg).2 events ∧
    let w' := mkWorld job' (the_log w ++ (Recorded <$> events)) in
    SyncFromPodGroup (inr pg) (inr pods) now w =
    (answered w' (UpdateStatus job') ActionBreak, w' <| the_log ::= λ l, l ++ [UpdateStatus job'] |>).
Proof.
  intros Hjs Hpresent Hgang Hsched Hnot Hev. rewrite <- IsPodGroupEvicted_spec in Hev.
  destruct (status_Evicted_spec _ js Hjs) as (b & Hb & Hiff).
  destruct b; [by destruct Hnot; apply Hiff|]. clear Hiff Hnot.
  destruct (IsPodGroupEvicted pg) as [ev msg] eqn:Hpg; simpl in Hev; subst ev; simpl.
  set (job1 := with_condition now (the_job w) js JobFailed Preempted msg).
  set (w1 := w <| the_job := job1 |>).
  assert (Hcheck : checkEviction (inr pods) now pg w = (Done (Some true), w1)).
  { unfold checkEviction. rewrite Hpg. unfold setEvictedCondition.
    by rewrite (eff_bind_Done _ _ w tt w1) by (by apply update_conditions_run). }
  destruct (SetJobPhase_failed job1 (UpdateJobConditions now js JobFailed Preempted msg) eq_refl)
    as (job2 & js2 & events & Hset & Hp & Hjs2 & _ & Hc & Hm & Hs & Hr & Hlen).
  unfold SyncFromPodGroup. rewrite (eff_bind_Done _ _ w (the_job w) w) by done. rewrite Hgang. simpl.
  rewrite (eff_bind_Done _ _ w false w) by done. rewrite (eff_bind_Done _ _ w (the_job w) w) by done.
  rewrite (eff_bind_Done _ _ w false w) by (unfold lift; by rewrite Hb).
  rewrite (eff_bind_Done _ _ w (Some true) w1) by done. rewrite (eff_bind_Done _ _ w1 job1 w1) by done.
  destruct (decide (status_Phase (job_Status (the_job w)) = JobPhaseFailed)) as [Hf|Hf].
  - exists job1, []. split; [unfold evicted_job; rewrite decide_True by done; naive_solver|].
    rewrite decide_False by (intros Hne; by apply Hne). rewrite (eff_bind_Done _ _ w1 tt w1) by done.
    rewrite update_and_break by done. simpl. by rewrite app_nil_r.
  - exists job2, events. split; [unfold evicted_job; rewrite decide_False by done; naive_solver|].
    set (w2 := mkWorld job2 (the_log w1 ++ (Recorded <$> events))). rewrite decide_True by done.
    rewrite (eff_bind_Done _ _ w1 tt w2).
    { rewrite update_and_break; [done|]. unfold statuses_present. simpl. by rewrite Hr. }
    rewrite (eff_bind_Done _ _ w1 (job2, events) w1) by (unfold lift; by rewrite Hset).
    rewrite (eff_bind_Done _ _ w1 tt (mkWorld job2 (the_log w1))) by done. by rewrite emit_events.
Qed.

Lemma SyncFromPodGroup_known_run w js :
  status_JobStatus (job_Status (the_job w)) = Some js → EnableGangScheduling (job_Spec (the_job w)) = true →
  updateScheduledByPodGroup now pg w = (Done false, w) → marked_evicted (the_job w) →
  SyncFromPodGroup (inr pg) (inr pods) now w = (Done ActionSkip, w).
Proof.
  intros Hjs Hgang Hno Hev. destruct (status_Evicted_spec _ js Hjs) as (b & Hb & Hiff). apply Hiff in Hev as ->.
  unfold SyncFromPodGroup. rewrite (eff_bind_Done _ _ w (the_job w) w) by done. rewrite Hgang. simpl.
  rewrite (eff_bind_Done _ _ w false w) by done. rewrite (eff_bind_Done _ _ w (the_job w) w) by done.
  by rewrite (eff_bind_Done _ _ w true w) by (unfold lift; by rewrite Hb).
Qed.

(** C26: the answer of the gang scheduler is read exactly as follows.  A job
    that is not scheduled as a gang, or has no pod group, goes on untouched.
    Otherwise the first of these that holds decides: the pod group has just
    been scheduled (the condition is recorded and the status sent); the job is
    known to be evicted (the framework is skipped); the pod group is evicted
    (the job fails, with the transition recorded unless it had failed before,
    and the status sent); some pod is preempted (the framework is skipped);
    else the reconciliation goes on.  The last three change nothing but in the
    case of the eviction, and a refused status update is the call's error. *)
Theorem SyncFromPodGroup_outcome getPodGroup w js :
  status_JobStatus (job_Status (the_job w)) = Some js → statuses_present (the_job w) →
  let run := SyncFromPodGroup getPodGroup (inr pods) now w in
  let scheduled := has_condition PodGroupScheduled ConditionTrue (pg_Conditions pg) in
  let evicted := has_condition Evicted ConditionTrue (pg_Conditions pg) in
  (EnableGangScheduling (job_Spec (the_job w)) = false ∨ (∃ err, getPodGroup = inl err) →
     run = (Done ActionContinue, w)) ∧
  (EnableGangScheduling (job_Spec (the_job w)) = true → getPodGroup = inr pg →
     (¬ marked_scheduled (the_job w) ∧ scheduled →
        ∃ msg, let job' := with_condition now (the_job w) js JobScheduled JobScheduled msg in
        run = (answered (w <| the_job := job' |>) (UpdateStatus job') ActionBreak,
               mkWorld job' (the_log w ++ [UpdateStatus job']))) ∧
     (marked_scheduled (the_job w) ∨ ¬ scheduled →
        (marked_evicted (the_job w) → run = (Done ActionSkip, w)) ∧
        (¬ marked_evicted (the_job w) → evicted →
           ∃ job' msg events, evicted_job (the_job w) job' js msg events ∧
           let w' := mkWorld job' (the_log w ++ (Recorded <$> events)) in
           run = (answered w' (UpdateStatus job') ActionBreak, w' <| the_log ::= λ l, l ++ [UpdateStatus job'] |>)) ∧
        (¬ marked_evicted (the_job w) → ¬ evicted → some_pod_preempted pods → run = (Done ActionSkip, w)) ∧
        (¬ marked_evicted (the_job w) → ¬ evicted → ¬ some_pod_preempted pods → run = (Done ActionContinue, w)))).
Proof.
  intros Hjs Hpresent run scheduled evicted.
  destruct (status_Evicted_spec _ js Hjs) as (b & Hb & Hiff).
  destruct (updateScheduled_run w js Hjs) as [Hno Hyes]. split.
  - subst run. unfold SyncFromPodGroup. rewrite (eff_bind_Done _ _ w (the_job w) w) by done.
    intros [->|[err ->]]; simpl; [done|].
    unfold GetPodGroupForJob. destruct (EnableGangScheduling _), (IsNotFound err); done.
  - intros Hgang ->. split; [|intros Hs; specialize (Hno Hs)].
    + intros Hs. specialize (Hyes Hs). exists (IsPodGroupScheduled pg).2. subst run. unfold SyncFromPodGroup.
      rewrite (eff_bind_Done _ _ w (the_job w) w) by done. rewrite Hgang. simpl. unfold mbind at 1, eff_bind at 1.
      rewrite Hyes. unfold answered. by destruct (answer _ _).
    + assert (Hquiet : ¬ marked_evicted (the_job w) → ¬ evicted →
        run = (Done (if (isPodPreempted (inr pods)).1 then ActionSkip else ActionContinue), w)).
      { intros Hne Hnoev. subst run. unfold SyncFromPodGroup, checkEviction.
        destruct (isPodPreempted (inr pods)) as [preempted pmsg]. rewrite (eff_bind_Done _ _ w (the_job w) w) by done.
        rewrite Hgang. simpl. rewrite (eff_bind_Done _ _ w false w) by done.
        rewrite (eff_bind_Done _ _ w (the_job w) w) by done. destruct b; [by destruct Hne; apply Hiff|].
        rewrite (eff_bind_Done _ _ w false w) by (unfold lift; by rewrite Hb).
        subst evicted. rewrite <- IsPodGroupEvicted_spec in Hnoev.
        destruct (IsPodGroupEvicted pg) as [[] msg]; [by destruct Hnoev|by destruct preempted]. }
      split_and!; [| |intros Hne Hnoev Hpre..].
      * intros Hev. by apply (SyncFromPodGroup_known_run w js).
      * intros Hne Hev.
        destruct (SyncFromPodGroup_evicted_run w js Hjs Hpresent Hgang Hno Hne Hev) as (job' & events & Hj & Hrun).
        exists job', (IsPodGroupEvicted pg).2, events. by split.
      * rewrite Hquiet by done. by apply isPodPreempted_spec in Hpre as ->.
      * rewrite Hquiet by done. rewrite <- isPodPreempted_spec in Hpre. by destruct (isPodPreempted _).1.
Qed.
End sync.

Section once.
Context `{MapOrder, Kubeflow, ApiServer, !ConditionLaws}.

(** C27: an eviction is recorded once.  After the call that sees it first,
    whatever the API server answered, a further call with any pod group and
    pods skips the framework, sends nothing and leaves the job as it is, unless
    it has a first scheduling to record. *)
Theorem eviction_recorded_once w js pg pods now pg' pods' now' :
  status_JobStatus (job_Status (the_job w)) = Some js → statuses_present (the_job w) →
  EnableGangScheduling (job_Spec (the_job w)) = true →
  (∀ c, c ∈ Conditions js → ¬ (jcond_Type c = JobFailed ∧ jcond_Status c = ConditionTrue)) →
  marked_scheduled (the_job w) ∨ ¬ has_condition PodGroupScheduled ConditionTrue (pg_Conditions pg) →
  has_condition Evicted ConditionTrue (pg_Conditions pg) →
  let w' := (SyncFromPodGroup (inr pg) (inr pods) now w).2 in
  marked_scheduled (the_job w') ∨ ¬ has_condition PodGroupScheduled ConditionTrue (pg_Conditions pg') →
  marked_evicted (the_job w') ∧
  SyncFromPodGroup (inr pg') (inr pods') now' w' = (Done ActionSkip, w').
Proof.
  intros Hjs Hpresent Hgang Hnofail Hs Hev w' Hs'.
  assert (Hnot : ¬ marked_evicted (the_job w)).
  { intros (_ & js' & c & Hjs' & Hc & Htype & Hstatus & _). assert (js' = js) by congruence. subst. by apply (Hnofail c). }
  destruct (updateScheduled_run pg now w js Hjs) as [Hno _].
  destruct (SyncFromPodGroup_evicted_run pg pods now w js Hjs Hpresent Hgang (Hno Hs) Hnot Hev) as (job' & events & Hj & Hrun).
  simpl in Hrun. subst w'. rewrite Hrun in Hs' |- *. simpl in Hs' |- *.
  destruct Hj as (Hphase & (js' & Hjs' & Hconds) & Hroles & _ & Hspec & _).
  assert (Hmarked : marked_evicted job').
  { split; [done|]. destruct (update_condition_first now js JobFailed Preempted (IsPodGroupEvicted pg).2 Hnofail)
      as (n & c & (Hn & Htype & _)%list_find_Some & Hstatus & Hreason).
    exists js', c. rewrite Hconds. apply list_elem_of_lookup_2 in Hn. by repeat split. }
  split; [done|]. apply (SyncFromPodGroup_known_run pg' pods' now' _ js'); [done|by simpl; rewrite Hspec| |done].
  by apply (updateScheduled_run pg' now' _ js').
Qed.
End once.

(** ** Witnesses *)

Lemma ex_condition_laws : @ConditionLaws ex_kubeflow.
Proof.
  split. intros now js type reason msg _.
  eexists _, (mkJobCondition type ConditionTrue reason msg (Some now)). split; [|by split]. simpl. rewrite list_find_app_r.
  - simpl. by rewrite decide_True.
  - apply list_find_None, Forall_forall. intros c Hc%list_elem_of_filter. naive_solver.
Qed.

Definition ex_gang_job : AresJob := ex_job "standalone" [] <| job_Spec ::= λ s, s <| spec_RunPolicy :=
  mkRunPolicy None (Some (Some 1)) |> |> <| job_Status ::= λ s, s <| status_Phase := JobPhaseRunning |> |>.
Definition ex_evicted_group : PodGroup :=
  mkPodGroup zero_ObjectMeta "Running" [mkCondition Evicted ConditionTrue "" "preempted by another job"].

#[local] Existing Instances canonical_order ex_kubeflow accepting ex_condition_laws.

Lemma ex_gang_present : statuses_present ex_gang_job.
Proof. by intros role. Qed.

Lemma ex_gang_not_scheduled : ¬ has_condition PodGroupScheduled ConditionTrue (pg_Conditions ex_evicted_group).
Proof. intros (c & Hc & Htype & _). apply list_elem_of_singleton in Hc as ->. discriminate. Qed.

Lemma ex_gang_evicted : has_condition Evicted ConditionTrue (pg_Conditions ex_evicted_group).
Proof. eexists. split; [by left|done]. Qed.

Lemma SyncFromPodGroup_outcome_witness :
  let run := SyncFromPodGroup (inr ex_evicted_group) (inr []) 7 (mkWorld ex_gang_job []) in
  run.1 = Done ActionBreak ∧ status_Phase (job_Status (the_job run.2)) = JobPhaseFailed.
Proof.
  destruct (SyncFromPodGroup_outcome ex_evicted_group [] 7 (inr ex_evicted_group) (mkWorld ex_gang_job []) zero_JobStatus)
    as [_ Hpg]; [reflexivity|exact ex_gang_present|].
  destruct (Hpg eq_refl eq_refl) as [_ Hrest].
  destruct (Hrest (or_intror ex_gang_not_scheduled)) as (_ & Hev & _).
  destruct Hev as (job' & msg & events & (Hphase & _) & Hrun).
  - intros [Hphase _]. discriminate.
  - exact ex_gang_evicted.
  - cbv zeta in Hrun |- *. rewrite Hrun. split; [reflexivity|exact Hphase].
Defined.

Lemma eviction_recorded_once_witness :
  let w' := (SyncFromPodGroup (inr ex_evicted_group) (inr []) 7 (mkWorld ex_gang_job [])).2 in
  SyncFromPodGroup (inr ex_evicted_group) (inr []) 8 w' = (Done ActionSkip, w').
Proof.
  apply (eviction_recorded_once (mkWorld ex_gang_job []) zero_JobStatus ex_evicted_group [] 7 ex_evicted_group [] 8).
  - reflexivity.
  - exact ex_gang_present.
  - reflexivity.
  - intros c Hc. inversion Hc.
  - right. exact ex_gang_not_scheduled.
  - exact ex_gang_evicted.
  - right. exact ex_gang_not_scheduled.
Defined.
