(* ===== verification/JobSync.v ===== *)
(** * The operations on the whole job

    Clean-up as a plan of requests, the gate in front of kubeflow's
    reconciliation, and the synchronisation of the metadata. *)

From S2P Require Import Prelude GoStd Errors Kube Api World ReconcilerUtils Examples Metadata Expectation NodeManager.
From S2P Require Import Cache Phase PodGroup PodGroupSync Conf Dependence Pod Job.

(** ** Plans of requests *)

(** [sends plan e] describes a call that makes the requests of [plan] in
    order and stops at the first refused one; [e] is the error it ends with
    once all of them are accepted, if any. *)
Definition sends `{ApiServer} (plan : list action) (e : option error) (w : world) (run : go unit * world) : Prop :=
  ∃ k, (k ≤ length plan)%nat ∧ run.2 = w <| the_log ::= λ l, l ++ take k plan |> ∧
    (∀ i a, (S i < k)%nat → plan !! i = Some a → answer (the_log w ++ take i plan) a = None) ∧
    ((k = length plan ∧ run.1 = match e with None => Done tt | Some e => Fail e end ∧
      (∀ i a, plan !! i = Some a → answer (the_log w ++ take i plan) a = None)) ∨
     (∃ i a err, k = S i ∧ plan !! i = Some a ∧ answer (the_log w ++ take i plan) a = Some err ∧ run.1 = Fail err)).

Section plans.
Context `{ApiServer}.

Fixpoint send (plan : list action) (e : option error) : op unit :=
  match plan with
  | [] => match e with None => mret tt | Some e => throw e end
  | a :: plan => _ ← request a; send plan e
  end.

Lemma send_sends plan e w : sends plan e w (send plan e w).
Proof.
  revert w. induction plan as [|a plan IH]; intros w; simpl.
  - exists 0%nat. destruct w as [j l]. unfold set_field, set_the_log. simpl. rewrite app_nil_r.
    split_and!; [lia|by destruct e|lia|]. left. split_and!; [done|by destruct e|by intros i a].
  - destruct (answer (the_log w) a) as [err|] eqn:Ha.
    + rewrite (eff_bind_Fail _ _ w err (w <| the_log ::= λ l, l ++ [a] |>)) by (unfold request; by rewrite Ha).
      exists 1%nat. split_and!; [simpl; lia|done|intros; lia|]. right. exists 0%nat, a, err. simpl. by rewrite app_nil_r.
    + set (w1 := w <| the_log ::= λ l, l ++ [a] |>).
      rewrite (eff_bind_Done _ _ w tt w1) by (unfold request; by rewrite Ha).
      destruct (IH w1) as (k & Hk & Hlog & Hacc & Hend).
      assert (Hshift : ∀ i, the_log w ++ take (S i) (a :: plan) = the_log w1 ++ take i plan).
      { intros i. simpl. by rewrite <- app_assoc. }
      exists (S k). split_and!.
      * simpl. lia.
      * rewrite Hlog. destruct w. unfold set_field, set_the_log. simpl. by rewrite <- app_assoc.
      * intros [|i] b Hi; simpl; [intros [= <-]; by rewrite app_nil_r|]. intros Hb.
        change (answer (the_log w ++ take (S i) (a :: plan)) b = None). rewrite Hshift. apply Hacc; [lia|done].
      * destruct Hend as [(Hk' & Hr & Hall)|(i & b & err & -> & Hb & Herr & Hr)].
        -- left. split_and!; [simpl; lia|done|]. intros [|i] b; simpl; [intros [= <-]; by rewrite app_nil_r|].
           intros Hb. change (answer (the_log w ++ take (S i) (a :: plan)) b = None). rewrite Hshift. by apply Hall.
        -- right. exists (S i), b, err. split_and!; [done|done|by rewrite Hshift|done].
Qed.

Lemma send_app plan1 plan2 e w : send (plan1 ++ plan2) e w = (_ ← send plan1 None; send plan2 e) w.
Proof.
  revert w. induction plan1 as [|a plan1 IH]; intros w; simpl; [done|].
  unfold mbind, eff_bind. destruct (request a w) as [[[]|err|p] w']; [exact (IH w')|done|done].
Qed.

Lemma for_each_request {A} (f : A → action) l w : for_each l (λ x, request (f x)) w = send (f <$> l) None w.
Proof.
  unfold for_each. revert w. induction l as [|x l IH]; intros w; simpl; [done|].
  unfold mbind, eff_bind. by destruct (request (f x) w) as [[[]|err|p] w'].
Qed.

Lemma for_each_send {A B} (f : B → action) (g : A → list B) l w :
  for_each l (λ x, for_each (g x) (λ y, request (f y))) w = send (f <$> (l ≫= g)) None w.
Proof. rewrite for_each_bind. apply for_each_request. Qed.

Lemma send_no_panic plan e w p : (send plan e w).1 ≠ Crash p.
Proof.
  revert w. induction plan as [|a plan IH]; intros w; simpl; [by destruct e|]. unfold mbind, eff_bind, request.
  destruct (answer _ a); [done|apply IH].
Qed.

Lemma send_job plan w : the_job (send plan None w).2 = the_job w.
Proof.
  revert w. induction plan as [|a plan IH]; intros w; simpl; [done|]. unfold mbind, eff_bind, request.
  by destruct (answer _ a); simpl; rewrite ?IH.
Qed.
End plans.

Definition pod_deletions (pods : list Pod) : list action :=
  (λ pod, DeletePod (meta_Namespace (pod_meta pod)) (meta_Name (pod_meta pod))) <$> pods.
Definition service_deletions (services : list Service) : list action :=
  (λ svc, DeleteService (meta_Namespace (service_meta svc)) (meta_Name (service_meta svc))) <$> services.
Definition podgroup_deletion (job : AresJob) : list action :=
  if EnableGangScheduling (job_Spec job)
  then [DeletePodGroup (meta_Namespace (job_meta job)) (meta_Name (job_meta job))] else [].

(** What a clean-up has to send, and the error of the reads it ends with. *)
Definition cleanup_plan (getPods : error + list Pod) (getServices : error + list Service) (job : AresJob)
    : list action * option error :=
  match getPods, getServices with
  | inl err, _ => ([], Some err)
  | inr pods, inl err => (pod_deletions pods, Some err)
  | inr pods, inr services => (pod_deletions pods ++ service_deletions services ++ podgroup_deletion job, None)
  end.

Section job.
Context `{MapOrder, Kubeflow, ApiServer}.

Lemma CleanUpResources_send getPods getServices w :
  CleanUpResources getPods getServices w =
  send (cleanup_plan getPods getServices (the_job w)).1 (cleanup_plan getPods getServices (the_job w)).2 w.
Proof.
  unfold CleanUpResources. rewrite (eff_bind_Done _ _ w (the_job w) w) by done.
  destruct getPods as [err|pods]; [done|]. rewrite (eff_bind_Done _ _ w pods w) by done.
  destruct getServices as [err|services]; cbn [cleanup_plan fst snd].
  - rewrite <- (app_nil_r (pod_deletions pods)), send_app. unfold mbind, eff_bind.
    unfold pod_deletions. rewrite <- for_each_request. done.
  - rewrite send_app. unfold mbind, eff_bind. unfold pod_deletions. rewrite <- for_each_request.
    destruct (for_each pods _ w) as [[[]|err|p] w1]; [|done..]. rewrite send_app.
    unfold mbind, eff_bind, mret, eff_ret. unfold service_deletions. rewrite <- for_each_request.
    destruct (for_each services _ w1) as [[[]|err|p] w2]; [|done..].
    unfold podgroup_deletion. destruct (EnableGangScheduling _); [|done]. simpl. unfold mbind, eff_bind.
    by destruct (request _ w2) as [[[]|err|p] w3].
Qed.

(** A clean-up deletes every pod of the job, then every service, then the
    pod group of a gang-scheduled job, each by one request, in this order.  It
    stops at the first refused request, with the error of the refusal, having
    sent exactly the requests up to it; when none is refused all have been
    sent.  When the services cannot be listed the pods are deleted all the
    same, and the error of the listing is returned. *)
Theorem CleanUpResources_plan getPods getServices w :
  let plan := cleanup_plan getPods getServices (the_job w) in
  sends plan.1 plan.2 w (CleanUpResources getPods getServices w).
Proof.
  intros plan. subst plan. rewrite CleanUpResources_send. apply send_sends.
Qed.

(** The expectations of every role are set back to zero. *)
Definition reset_plan (key : string) (job : AresJob) : list action :=
  (λ k, SetExpectations k 0 0) <$> (range_keys 0 (spec_RoleSpecs (job_Spec job)) ≫= role_keys key).

Lemma ResetExpectations_run key w :
  KeyFunc (job_meta (the_job w)) = Done key →
  ResetExpectations w = send (reset_plan key (the_job w)) None w.
Proof.
  intros Hkey. unfold ResetExpectations, ExpectationsFuncApply.
  rewrite (eff_bind_Done _ _ w (the_job w) w) by done.
  rewrite (eff_bind_Done _ _ w key w) by (unfold lift; by rewrite Hkey). apply for_each_send.
Qed.

Context `{JobController}.

(** The job waits for its pod group: it is scheduled as a gang and not over. *)
Definition waits (job : AresJob) : bool :=
  negb (IsFinished (status_Phase (job_Status job))) && EnableGangScheduling (job_Spec job).

(** C28: the gate of gang scheduling.  For a job that waits for its pod group,
    the pod group is synchronised with the minimum of the scheduling policy;
    an error of that call is returned, and a pod group without phase or still
    pending is answered by an error that asks for a retry in one second and is
    not raised again, with nothing else done.  Behind the gate, or when there
    is none, the expectations of every role are set to zero, one request per
    key, and exactly when all of these are accepted is kubeflow's
    reconciliation entered, in that state. *)
Theorem ReconcileJobs_gate replicas js minMember w :
  let job := the_job w in
  let policy := spec_RunPolicy (job_Spec job) in
  let run := ReconcileJobs replicas js policy w in
  (waits job = true → SchedulingPolicy policy = Some (Some minMember)) →
  (∀ err w1, waits job = true → JobController_SyncPodGroup job minMember w = (Fail err, w1) → run = (Fail err, w1)) ∧
  (∀ pg w1, waits job = true → JobController_SyncPodGroup job minMember w = (Done pg, w1) →
     pg_Phase pg = "" ∨ pg_Phase pg = PodGroupPending →
     run = (Fail (AReconcileError (mkReconcileError ("pod group is [" +:+ pg_Phase pg +:+ "]") Second false)), w1)) ∧
  (∀ w1 key, KeyFunc (job_meta (the_job w1)) = Done key →
         (waits job = false ∧ w1 = w) ∨
         (waits job = true ∧ ∃ pg, JobController_SyncPodGroup job minMember w = (Done pg, w1) ∧
            pg_Phase pg ≠ "" ∧ pg_Phase pg ≠ PodGroupPending) →
     ∃ resets, sends (reset_plan key (the_job w1)) None w1 resets ∧
       run = match resets with
             | (Done _, w2) => JobController_ReconcileJobs replicas js policy w2
             | (Fail err, w2) => (Fail (Errorf ("failed to reset expectations: " +:+ error_string err)), w2)
             | (Crash p, w2) => (Crash p, w2)
             end).
Proof.
  intros job policy run Hpolicy.
  set (enter := result ← attempt ResetExpectations;
    match result with
    | inl err => throw (Errorf ("failed to reset expectations: " +:+ error_string err))
    | inr _ => JobController_ReconcileJobs replicas js policy
    end).
  assert (Henter : ∀ w1 key, KeyFunc (job_meta (the_job w1)) = Done key → enter w1 = match send (reset_plan key (the_job w1)) None w1 with
             | (Done _, w2) => JobController_ReconcileJobs replicas js policy w2
             | (Fail err, w2) => (Fail (Errorf ("failed to reset expectations: " +:+ error_string err)), w2)
             | (Crash p, w2) => (Crash p, w2)
             end).
  { intros w1 key Hkey. rewrite <- ResetExpectations_run by done. unfold enter, attempt, mbind, eff_bind.
    by destruct (ResetExpectations w1) as [[[]|err|p] w2]. }
  assert (Hrun : run = (_ ← (if waits job then
      podGroup ← JobController_SyncPodGroup job minMember;
      let phase := pg_Phase podGroup in
      if decide (String.length phase = 0%nat ∨ phase = PodGroupPending) then
        throw (AReconcileError (NewReconcileError ("pod group is [" +:+ phase +:+ "]") [WithRetryAfter Second; DisableReRaise]))
      else mret tt else mret tt); enter) w).
  { subst run. unfold ReconcileJobs. rewrite (eff_bind_Done _ _ w job w) by done. fold (waits job).
    destruct (waits job); [|done]. by rewrite Hpolicy. }
  rewrite Hrun. clear Hrun run. split_and!.
  - intros err w1 Hw Hs. rewrite Hw. unfold mbind, eff_bind. by rewrite Hs.
  - intros pg w1 Hw Hs Hphase. rewrite Hw. unfold mbind, eff_bind. rewrite Hs. cbv zeta.
    rewrite decide_True by (destruct Hphase as [-> | ->]; [by left|by right]). done.
  - intros w1 key Hkey Hcase. exists (send (reset_plan key (the_job w1)) None w1). split; [apply send_sends|].
    rewrite <- Henter by done. destruct Hcase as [[Hw ->]|(Hw & pg & Hs & Hne & Hnp)]; rewrite Hw; [done|].
    unfold mbind, eff_bind. rewrite Hs. cbv zeta. rewrite decide_False; [done|].
    intros [Hlen|Hp]; [|done]. by destruct (pg_Phase pg).
Qed.
End job.

Section metadata.
Context `{MapOrder, Kubeflow, ApiServer}.

Definition synced (expected object : ObjectMeta) : Prop :=
  in_sync expected (meta_Annotations object) ∧ in_sync expected (meta_Labels object).

Definition patch_plan (expected object : ObjectMeta) : list action :=
  match patch_annotations (the_patch expected object), patch_labels (the_patch expected object) with
  | None, None => []
  | _, _ => [PatchMetadata object (the_patch expected object)]
  end.

Lemma patchMetadata_send expected object w : patchMetadata expected object w = send (patch_plan expected object) None w.
Proof.
  unfold patchMetadata, patch_plan, the_patch. simpl.
  destruct (diff (meta_Annotations object) _ _), (diff (meta_Labels object) _ _); simpl; unfold mbind, eff_bind; try done;
    by destruct (request _ w) as [[[]|err|p] w'].
Qed.

Lemma elem_of_patch_plan expected object a :
  a ∈ patch_plan expected object ↔ ¬ synced expected object ∧ a = PatchMetadata object (the_patch expected object).
Proof.
  unfold patch_plan, synced, in_sync. rewrite <- !diff_None. simpl.
  destruct (diff (meta_Annotations object) _ _), (diff (meta_Labels object) _ _); rewrite ?list_elem_of_singleton.
  1-3: (split; [intros ->; split; [by intros []|done]|by intros [_ ->]]).
  split; [by intros ?%not_elem_of_nil|]. intros [Hno _]. by destruct Hno.
Qed.

Lemma SyncToPod_send pods w :
  SyncToPod (inr pods) w = send (pods ≫= λ pod, patch_plan (job_meta (the_job w)) (pod_meta pod)) None w.
Proof.
  unfold SyncToPod, for_each. revert w. induction pods as [|pod pods IH]; intros w; simpl; [done|].
  rewrite send_app. unfold mbind, eff_bind, get_job, gets. rewrite patchMetadata_send.
  pose proof (send_job (patch_plan (job_meta (the_job w)) (pod_meta pod)) w) as Hjob.
  destruct (send _ None w) as [[[]|err|p] w']; simpl in Hjob |- *; [|done..]. rewrite <- Hjob. exact (IH w').
Qed.

(** The objects that carry the metadata of the job: its pod group, when it is
    scheduled as a gang and has one, and its pods. *)
Definition carriers (job : AresJob) (getPodGroup : error + PodGroup) (pods : list Pod) : list ObjectMeta :=
  (if EnableGangScheduling (job_Spec job) then match getPodGroup with inr pg => [pg_meta pg] | inl _ => [] end else []) ++
  (pod_meta <$> pods).

(** After a reconciliation the metadata of the job is carried to its
    objects.  When the pod group can be read or does not exist, and the pods
    can be listed, a patch is sent for exactly the objects that do not carry
    the job's values of the job-level keys (and by [patchMetadata_syncs] it is
    the patch that makes them carry them); a refused patch ends the call with
    its error, the patches before it having been sent and no others. *)
Theorem SyncFromJob_patches getPodGroup pods w :
  (∀ err, getPodGroup = inl err → IsNotFound err = true) →
  ∃ plan, sends plan None w (SyncFromJob getPodGroup (inr pods) w) ∧
    ∀ a, a ∈ plan ↔ ∃ object, object ∈ carriers (the_job w) getPodGroup pods ∧
      ¬ synced (job_meta (the_job w)) object ∧ a = PatchMetadata object (the_patch (job_meta (the_job w)) object).
Proof.
  intros Hread. set (expected := job_meta (the_job w)).
  exists (carriers (the_job w) getPodGroup pods ≫= patch_plan expected). split.
  - assert (SyncFromJob getPodGroup (inr pods) w =
            send (carriers (the_job w) getPodGroup pods ≫= patch_plan expected) None w) as ->; [|apply send_sends].
    unfold SyncFromJob, carriers. rewrite bind_app, send_app.
    set (objects := if EnableGangScheduling _ then _ else _).
    assert (Hpg : SyncToPodGroup getPodGroup w = send (objects ≫= patch_plan expected) None w).
    { unfold SyncToPodGroup, GetPodGroupForJob. rewrite (eff_bind_Done _ _ w (the_job w) w) by done.
      subst objects. destruct (EnableGangScheduling _); [|done]. simpl.
      destruct getPodGroup as [err|pg]; [by rewrite (Hread err)|].
      rewrite (eff_bind_Done _ _ w (Some pg) w) by done. simpl. rewrite app_nil_r. apply patchMetadata_send. }
    pose proof (send_job (objects ≫= patch_plan expected) w) as Hjob.
    unfold mbind, eff_bind. rewrite Hpg. destruct (send _ None w) as [[[]|err|p] w']; [|done..].
    rewrite SyncToPod_send. simpl in Hjob. rewrite Hjob. f_equal. by rewrite list_fmap_bind.
  - intros a. rewrite list_elem_of_bind. setoid_rewrite elem_of_patch_plan. naive_solver.
Qed.
End metadata.

(** ** Witnesses *)

(** A kubeflow controller whose pod groups are in the given phase. *)
Definition ex_job_controller (phase : string) : JobController := {|
  JobController_ReconcileJobs _ _ _ := mret tt;
  JobController_SyncPodGroup job _ := mret (mkPodGroup (job_meta job) phase []);
|}.

#[local] Existing Instances canonical_order ex_kubeflow accepting.

(** A job whose pod group is pending is tried again in a second, and one whose
    pod group runs has its expectations reset. *)
Lemma ReconcileJobs_gate_witness :
  let w := mkWorld (ex_gang_job <| job_Spec ::= λ s, s <| spec_RoleSpecs := {["worker" := Some (ex_role 1 "")]} |> |>) [] in
  let policy := spec_RunPolicy (job_Spec (the_job w)) in
  (ReconcileJobs (H2 := ex_job_controller "Pending") ∅ zero_JobStatus policy w).1 =
    Fail (AReconcileError (mkReconcileError "pod group is [Pending]" Second false)) ∧
  length (the_log (ReconcileJobs (H2 := ex_job_controller "Running") ∅ zero_JobStatus policy w).2) = 2%nat.
Proof.
  intros w policy. subst policy. split.
  - destruct (ReconcileJobs_gate (H2 := ex_job_controller "Pending") ∅ zero_JobStatus 1 w) as (_ & Hpending & _); [reflexivity|].
    rewrite (Hpending (mkPodGroup (job_meta (the_job w)) "Pending" []) w); [reflexivity..|]. by right.
  - destruct (ReconcileJobs_gate (H2 := ex_job_controller "Running") ∅ zero_JobStatus 1 w) as (_ & _ & Hgate); [reflexivity|].
    destruct (Hgate w "/job") as (resets & (k & _ & Hlog & _ & Hend) & Hrun); [reflexivity| |].
    + right. split; [reflexivity|]. eexists. split; [reflexivity|]. split; discriminate.
    + destruct Hend as [(Hk & Hr & _)|(i & a & err & _ & _ & Ha & _)]; [|discriminate Ha].
      cbv zeta in Hrun. rewrite Hrun. destruct resets as [r w2]. simpl in Hr, Hlog. rewrite Hr, Hlog, Hk. vm_compute. reflexivity.
Defined.

Lemma SyncFromJob_patches_witness :
  let w := mkWorld (ex_job "demo" [] <| job_meta := ex_meta "job" <| meta_Annotations := Some {[AresQueueAnnotationKey := "prod"]} |> |>) [] in
  ∃ plan, sends plan None w (SyncFromJob (inl (StatusError StatusReasonNotFound "")) (inr [ex_pod "worker" 0 PodRunning "node"]) w) ∧
    plan ≠ [].
Proof.
  intros w. destruct (SyncFromJob_patches (inl (StatusError StatusReasonNotFound "")) [ex_pod "worker" 0 PodRunning "node"] w)
    as (plan & Hsends & Hplan).
  - intros err [= <-]. reflexivity.
  - exists plan. split; [exact Hsends|]. intros Hnil.
    set (object := pod_meta (ex_pod "worker" 0 PodRunning "node")).
    assert (PatchMetadata object (the_patch (job_meta (the_job w)) object) ∈ plan) as Hin.
    { apply Hplan. exists object. split; [left|]. split; [|reflexivity]. intros [Ha _].
      assert (IsJobLevelKey AresQueueAnnotationKey = true) as Hq by reflexivity.
      apply Ha in Hq. vm_compute in Hq. discriminate Hq. }
    rewrite Hnil in Hin. inversion Hin.
Defined.
