(* ===== verification/Reconcile.v ===== *)
(** * One reconcile request

    What has to hold for the framework to be entered, that an invalid job is
    left alone for good, and what the deletion of a job does. *)

From S2P Require Import Prelude GoStd Errors Regex Kube Api World ReconcilerUtils Examples Webhook Metadata Expectation.
From S2P Require Import Cache Conf Dependence NodeManager Phase Pod PodCreate PodGroup PodGroupSync Job JobSync.
From S2P Require Import Controller.

(** A framework with another reconciliation. *)
Definition with_reconcile {C} (g : gmap string (option ReplicaSpec) → JobStatus → RunPolicy → op unit)
    (f : Framework C) : Framework C :=
  mkFramework (F_SetDefault f) (F_Validate f) g (F_AddObject f) (F_DeleteObject f) (F_OnRolePhaseChanged f)
    (F_CleanUpResources f).

Definition with_job {C} (s : cstate C) (job : AresJob) : cstate C :=
  mkCState (mkWorld job (the_log (c_world s))) (c_cache s) (c_queue s).

Section gate.
Context {C : Type} `{Interface C}.
Context `{MapOrder, Kubeflow, ApiServer, ControllerUtil, Templates}.
Context (SchemeDefault : AresJob → AresJob).
Context (config : Configuration) (now : Z) (spec_eqb : AresJobSpec → AresJobSpec → bool).
Implicit Types (frameworks : string → option (Framework C)) (s : cstate C) (f : Framework C).

Abbreviation run frameworks := (Reconcile SchemeDefault frameworks config now spec_eqb).

(** The job after defaulting. *)
Definition defaulted (f : Framework C) (job : AresJob) : go AresJob :=
  job ← F_SetDefault f (SchemeDefault job); Default job.

(** Everything that has to hold for the framework to be entered: the job was
    read, is not being deleted and not marked invalid, has a framework, is
    complete and valid, all its expectations are met, and nothing is to be done
    for its pod group. *)
Record passes_gates frameworks (reads : Reads) (s : cstate C) (aresjob : AresJob) (f : Framework C) (job : AresJob)
    (w : world) : Prop := {
  gate_read : read_job reads = inr aresjob;
  gate_alive : meta_DeletionTimestamp (job_meta aresjob) = None;
  gate_not_marked : IsInvalidDefinition (job_Status aresjob) = false;
  gate_framework : frameworks (spec_FrameworkType (job_Spec aresjob)) = Some f;
  gate_defaulted : defaulted f aresjob = Done job;
  gate_complete : spec_eqb (job_Spec aresjob) (job_Spec job) = true;
  gate_valid : ValidateCreate job = Done tt;
  gate_framework_valid : F_Validate f job = Done tt;
  gate_expectations : SatisfiedExpectations (read_satisfied reads) job = true;
  gate_podgroup : SyncFromPodGroup (read_podgroup reads) (read_pods reads) now (mkWorld job (the_log (c_world s))) =
    (Done ActionContinue, w);
}.

Lemma setDefault_run s aresjob f :
  attempt (setDefault SchemeDefault spec_eqb aresjob f) (with_job s aresjob) =
  match defaulted f aresjob with
  | Done job =>
      if spec_eqb (job_Spec aresjob) (job_Spec job) then (Done (inr false), with_job s job)
      else let s' := mkCState (mkWorld job (the_log (c_world s) ++ [UpdateJob job])) (c_cache s) (c_queue s) in
           (match answer (the_log (c_world s)) (UpdateJob job) with
            | None => Done (inr true)
            | Some err => Done (inl err)
            end, s')
  | Fail err => (Done (inl err), with_job s aresjob)
  | Crash p => (Crash p, with_job s aresjob)
  end.
Proof.
  unfold setDefault, defaulted, attempt, lift, mbind, eff_bind, res_bind. simpl.
  destruct (F_SetDefault f (SchemeDefault aresjob)) as [job1|err|p]; [|done..].
  destruct (Default job1) as [job|err|p]; [|done..]. simpl.
  destruct (spec_eqb _ _); [done|]. unfold on_world, request. simpl. by destruct (answer _ _).
Qed.

Lemma validate_accepts s f job :
  ValidateCreate job = Done tt → F_Validate f job = Done tt →
  attempt (validate now f) (with_job s job) = (Done (inr tt), with_job s job).
Proof. intros Hv Hf. unfold validate, attempt, mbind, eff_bind. simpl. by rewrite Hv, Hf. Qed.

Lemma validate_accepted s f job s1 :
  attempt (validate now f) (with_job s job) = (Done (inr tt), s1) →
  ValidateCreate job = Done tt ∧ F_Validate f job = Done tt ∧ s1 = with_job s job.
Proof.
  unfold validate, attempt, mbind, eff_bind. simpl.
  destruct (ValidateCreate job) as [[]|err|p]; simpl; [| |done].
  - destruct (F_Validate f job) as [[]|err|p]; simpl; [by intros [= <-]| |done].
    intros Hs. by repeat case_match; simplify_eq.
  - intros Hs. by repeat case_match; simplify_eq.
Qed.

Lemma validate_with_reconcile g f s : validate now (with_reconcile g f) s = validate now f s.
Proof. done. Qed.

Lemma HandleRolePhases_with_reconcile frameworks g old job s :
  HandleRolePhases (λ name, with_reconcile g <$> frameworks name) old job s = HandleRolePhases frameworks old job s.
Proof.
  unfold HandleRolePhases, getFramework, mbind, eff_bind, lift. destruct (HasDependence (job_Spec job)) as [b|e|p]; [|done..].
  destruct b; [|done]. simpl. by destruct (frameworks _).
Qed.

Lemma after_reconcile_with_reconcile frameworks g reads aresjob s :
  after_reconcile (λ name, with_reconcile g <$> frameworks name) config now reads aresjob s =
  after_reconcile frameworks config now reads aresjob s.
Proof.
  unfold after_reconcile, mbind, eff_bind. destruct (attempt _ s) as [[[e|[]]|e|p] s1]; [done| |done..].
  simpl. unfold attempt. by rewrite HandleRolePhases_with_reconcile.
Qed.

Lemma reconcile_failed_with_reconcile err s : reconcile_failed (C := C) now err s = reconcile_failed now err s.
Proof. done. Qed.

(** The framework is not asked to reconcile. *)
Lemma reconcile_framework_skipped frameworks g reads aresjob f s :
  reconcile_framework (λ name, with_reconcile g <$> frameworks name) config now reads aresjob (with_reconcile g f) false s =
  reconcile_framework frameworks config now reads aresjob f false s.
Proof. unfold reconcile_framework, mbind, eff_bind. simpl. apply after_reconcile_with_reconcile. Qed.

Lemma Reconcile_passes frameworks reads s aresjob f job w : passes_gates frameworks reads s aresjob f job w →
  run frameworks reads s = reconcile_framework frameworks config now reads aresjob f true (mkCState w (c_cache s) (c_queue s)).
Proof.
  intros []. unfold Reconcile. rewrite gate_read0.
  rewrite (eff_bind_Done _ _ s tt (with_job s aresjob)) by done.
  rewrite decide_False by (rewrite gate_alive0; by intros []). rewrite gate_not_marked0. unfold getFramework.
  rewrite gate_framework0. rewrite (eff_bind_Done _ _ _ (inr false) (with_job s job)).
  2:{ rewrite setDefault_run, gate_defaulted0. by rewrite gate_complete0. }
  rewrite (eff_bind_Done _ _ _ (inr tt) (with_job s job)) by by apply validate_accepts.
  unfold reconcile_gated. rewrite (eff_bind_Done _ _ _ job (with_job s job)) by done.
  rewrite gate_expectations0. simpl.
  rewrite (eff_bind_Done _ _ _ (inr ActionContinue) (mkCState w (c_cache s) (c_queue s))); [done|].
  unfold attempt, on_world, with_job. simpl. by rewrite gate_podgroup0.
Qed.

(** C11: the framework is entered exactly when every gate is passed.  When the
    job was read, is not being deleted and not marked invalid, has a framework,
    is complete and valid, has all its expectations met and needs nothing done
    for its pod group, the request goes on with the framework's reconciliation
    of the defaulted job, nothing having been sent before.  In any other case
    the request does the same, answer for answer and action for action,
    whatever the reconciliation of the frameworks is. *)
Theorem Reconcile_enters_framework frameworks reads s :
  (∀ aresjob f job w, passes_gates frameworks reads s aresjob f job w →
     run frameworks reads s =
     reconcile_framework frameworks config now reads aresjob f true (mkCState w (c_cache s) (c_queue s))) ∧
  ((∀ aresjob f job w, ¬ passes_gates frameworks reads s aresjob f job w) →
   ∀ g, run (λ name, with_reconcile g <$> frameworks name) reads s = run frameworks reads s).
Proof.
  split.
  - intros aresjob f job w. apply Reconcile_passes.
  - intros Hno g. unfold Reconcile. destruct (read_job reads) as [err|aresjob] eqn:Hread; [done|].
    rewrite !(eff_bind_Done _ _ s tt (with_job s aresjob)) by done.
    case_decide as Hdel; [done|]. destruct (IsInvalidDefinition _) eqn:Hmarked; [done|]. unfold getFramework.
    destruct (frameworks (spec_FrameworkType (job_Spec aresjob))) as [f|] eqn:Hf; [|done]. simpl.
    unfold mbind, eff_bind. rewrite !setDefault_run.
    change (defaulted (with_reconcile g f) aresjob) with (defaulted f aresjob).
    destruct (defaulted f aresjob) as [job|err|p] eqn:Hdef; [|done..].
    destruct (spec_eqb _ _) eqn:Heq; [|by destruct (answer _ _)].
    change (attempt (validate now (with_reconcile g f))) with (attempt (validate now f)).
    destruct (attempt (validate now f) (with_job s job)) as [[[err|[]]|err|p] s1] eqn:Hval; [done| |done..].
    apply validate_accepted in Hval as (Hv & Hfv & ->). unfold reconcile_gated, mbind, eff_bind. simpl.
    destruct (SatisfiedExpectations _ job) eqn:Hsat; [|done]. simpl. unfold attempt, on_world. simpl.
    destruct (SyncFromPodGroup _ _ _ _) as [[[]|err|p] w] eqn:Hpg; [|apply reconcile_framework_skipped|done..].
    destruct (Hno aresjob f job w). split; try done.
    by destruct (meta_DeletionTimestamp (job_meta aresjob)); [destruct Hdel|].
Qed.

(** ** Invalid definitions *)

Definition marked_job (job : AresJob) (msg : string) : AresJob :=
  job <| job_Status ::= λ st, SetInvalidDefinition now st msg |>.

Definition not_failed (job : AresJob) : Prop :=
  ∀ js c, status_JobStatus (job_Status job) = Some js → c ∈ Conditions js →
    ¬ (jcond_Type c = JobFailed ∧ jcond_Status c = ConditionTrue).

(** The request finds the definition of the job to be invalid, in world [w]:
    its framework is unknown, one of the two validations of the completed job
    rejects it, or the API server rejects an object of it as invalid. *)
Inductive rejected frameworks (reads : Reads) s (aresjob : AresJob) : world → Prop :=
| rejected_unknown :
    frameworks (spec_FrameworkType (job_Spec aresjob)) = None →
    rejected frameworks reads s aresjob (mkWorld aresjob (the_log (c_world s)))
| rejected_validation f job err :
    frameworks (spec_FrameworkType (job_Spec aresjob)) = Some f →
    defaulted f aresjob = Done job → spec_eqb (job_Spec aresjob) (job_Spec job) = true →
    ValidateCreate job = Fail err ∨ (ValidateCreate job = Done tt ∧ F_Validate f job = Fail err) →
    rejected frameworks reads s aresjob (mkWorld job (the_log (c_world s)))
| rejected_object f job w0 replicas js err w :
    passes_gates frameworks reads s aresjob f job w0 →
    GetReplicaSpecs (job_Spec (the_job w0)) = Done replicas → status_JobStatus (job_Status (the_job w0)) = Some js →
    F_ReconcileJobs f replicas js (spec_RunPolicy (job_Spec (the_job w0))) w0 = (Fail err, w) → IsInvalid err = true →
    rejected frameworks reads s aresjob w.

Lemma setInvalidDefinition_run msg s :
  attempt (setInvalidDefinition now msg) s =
  let job := marked_job (the_job (c_world s)) msg in
  (Done (match answer (the_log (c_world s)) (UpdateStatus job) with None => inr tt | Some err => inl err end),
   mkCState (mkWorld job (the_log (c_world s) ++ [UpdateStatus job])) (c_cache s) (c_queue s)).
Proof.
  unfold setInvalidDefinition, attempt, on_world, mbind, eff_bind, request. simpl.
  destruct s as [[job log] cache queue]. simpl. by destruct (answer _ _).
Qed.

(** What a rejection does. *)
Definition marks (w : world) s (r : go (Result * option error) * cstate C) : Prop :=
  ∃ msg, let job := marked_job (the_job w) msg in
    r = (Done (no_requeue, None), mkCState (mkWorld job (the_log w ++ [UpdateStatus job])) (c_cache s) (c_queue s)).

Lemma mark_then_return {A} (x : A) msg s0 w :
  c_world s0 = w →
  (_ ← attempt (setInvalidDefinition now msg); mret x) s0 =
  (Done x, mkCState (mkWorld (marked_job (the_job w) msg) (the_log w ++ [UpdateStatus (marked_job (the_job w) msg)]))
             (c_cache s0) (c_queue s0)).
Proof. intros <-. unfold mbind, eff_bind. by rewrite setInvalidDefinition_run. Qed.

Lemma rejected_marks frameworks reads s aresjob w :
  read_job reads = inr aresjob → meta_DeletionTimestamp (job_meta aresjob) = None →
  IsInvalidDefinition (job_Status aresjob) = false →
  rejected frameworks reads s aresjob w → marks w s (run frameworks reads s).
Proof.
  intros Hread Halive Hmarked Hrej. unfold marks, Reconcile. rewrite Hread.
  rewrite (eff_bind_Done _ _ s tt (with_job s aresjob)) by done.
  rewrite decide_False by (rewrite Halive; by intros []). rewrite Hmarked. unfold getFramework.
  destruct Hrej as [Hf|f job err Hf Hdef Heq Hval|f job w0 replicas js err w [] Hspecs Hjs Hrec Hinv].
  - rewrite Hf. eexists. by rewrite (mark_then_return _ _ (with_job s aresjob) (mkWorld aresjob (the_log (c_world s)))).
  - rewrite Hf. rewrite (eff_bind_Done _ _ _ (inr false) (with_job s job)).
    2:{ rewrite setDefault_run, Hdef. by rewrite Heq. }
    assert (∃ msg, validate now f (with_job s job) = (_ ← attempt (setInvalidDefinition now msg); throw err) (with_job s job))
      as [msg Hmsg].
    { unfold validate, mbind at 1, eff_bind at 1. simpl.
      destruct Hval as [->|[-> ->]]; eexists; reflexivity. }
    exists msg. cbv zeta. unfold mbind at 1, eff_bind at 1, attempt at 1. rewrite Hmsg.
    by unfold mbind at 1, eff_bind at 1; rewrite setInvalidDefinition_run.
  - rewrite gate_framework0. rewrite (eff_bind_Done _ _ _ (inr false) (with_job s job)).
    2:{ rewrite setDefault_run, gate_defaulted0. by rewrite gate_complete0. }
    rewrite (eff_bind_Done _ _ _ (inr tt) (with_job s job)) by by apply validate_accepts.
    unfold reconcile_gated. rewrite (eff_bind_Done _ _ _ job (with_job s job)) by done.
    rewrite gate_expectations0. simpl.
    set (s0 := mkCState w0 (c_cache s) (c_queue s)).
    rewrite (eff_bind_Done _ _ _ (inr ActionContinue) s0) by (unfold attempt, on_world, with_job; simpl; by rewrite gate_podgroup0).
    unfold reconcile_framework.
    rewrite (eff_bind_Done _ _ s0 (inl err) (mkCState w (c_cache s) (c_queue s))).
    2:{ rewrite (eff_bind_Done _ _ s0 (the_job w0) s0) by done. rewrite (eff_bind_Done _ _ s0 replicas s0) by (unfold lift; by rewrite Hspecs).
        rewrite (eff_bind_Done _ _ s0 js s0) by (unfold lift; by rewrite Hjs).
        unfold attempt, on_world. simpl. by rewrite Hrec. }
    unfold reconcile_failed. rewrite Hinv. eexists. by rewrite (mark_then_return _ _ (mkCState w (c_cache s) (c_queue s)) w).
Qed.

Lemma marked_job_is_invalid `{!ConditionLaws} job msg :
  not_failed job → IsInvalidDefinition (job_Status (marked_job job msg)) = true.
Proof.
  intros Hnot. unfold IsInvalidDefinition, GetCondition, marked_job, SetInvalidDefinition. simpl.
  destruct (update_condition_first now (default zero_JobStatus (status_JobStatus (job_Status job))) JobFailed ErrInvalidDefinition msg)
    as (n & c & Hfind & _ & Hreason).
  - intros c Hc. destruct (status_JobStatus (job_Status job)) as [js|] eqn:Hjs; simpl in Hc; [by apply (Hnot js)|by apply not_elem_of_nil in Hc].
  - rewrite Hfind. simpl. by rewrite bool_decide_eq_true.
Qed.

(** C12: an invalid definition is marked once and then left alone.  When the
    framework of a job is unknown, a validation of the completed job rejects
    it, or the API server rejects one of its objects as invalid, the request
    ends without an error and without a retry; the job, in memory and in the
    one status update sent, is failed and, unless it had already failed for
    another reason, marked as an invalid definition.  Every later request that
    reads the marked job, whatever else it reads, ends at once: nothing is
    sent, cached or queued. *)
Theorem invalid_definition_quarantined `{!ConditionLaws} frameworks reads s aresjob w :
  read_job reads = inr aresjob → meta_DeletionTimestamp (job_meta aresjob) = None →
  IsInvalidDefinition (job_Status aresjob) = false →
  rejected frameworks reads s aresjob w →
  ∃ job, run frameworks reads s = (Done (no_requeue, None),
           mkCState (mkWorld job (the_log w ++ [UpdateStatus job])) (c_cache s) (c_queue s)) ∧
    status_Phase (job_Status job) = JobPhaseFailed ∧ job_Spec job = job_Spec (the_job w) ∧
    (not_failed (the_job w) → IsInvalidDefinition (job_Status job) = true ∧
       ∀ frameworks' reads' s' job', read_job reads' = inr job' → job_Status job' = job_Status job →
         meta_DeletionTimestamp (job_meta job') = None →
         run frameworks' reads' s' = (Done (no_requeue, None), with_job s' job')).
Proof.
  intros Hread Halive Hmarked Hrej.
  destruct (rejected_marks frameworks reads s aresjob w Hread Halive Hmarked Hrej) as [msg Hrun]. simpl in Hrun.
  exists (marked_job (the_job w) msg). split_and!; [done|done|done|].
  intros Hnot. pose proof (marked_job_is_invalid (the_job w) msg Hnot) as Hinv. split; [done|].
  intros frameworks' reads' s' job' Hread' Hstatus Halive'. unfold Reconcile. rewrite Hread'.
  rewrite (eff_bind_Done _ _ s' tt (with_job s' job')) by done.
  rewrite decide_False by (rewrite Halive'; by intros []). by rewrite Hstatus, Hinv.
Qed.

(** ** Deletion *)

(** The keys of the expectations of a job. *)
Definition forgotten (key : string) (job : AresJob) : list action :=
  DeleteExpectationsOf <$> (range_keys 0 (spec_RoleSpecs (job_Spec job)) ≫= role_keys key).

Lemma DeleteExpectations_run key w :
  KeyFunc (job_meta (the_job w)) = Done key →
  DeleteExpectations w = (Done tt, w <| the_log ::= λ l, l ++ forgotten key (the_job w) |>).
Proof.
  intros Hkey. unfold DeleteExpectations, ExpectationsFuncApply.
  rewrite (eff_bind_Done _ _ w (the_job w) w) by done.
  rewrite (eff_bind_Done _ _ w (inr tt) (w <| the_log ::= λ l, l ++ forgotten key (the_job w) |>)); [done|].
  unfold attempt. rewrite (eff_bind_Done _ _ w key w) by (unfold lift; by rewrite Hkey).
  by rewrite for_each_bind, emit_all.
Qed.

(** C31: the deletion of a job.  Its expectations are forgotten, key by key.
    When the job carries the finalizer, its entries are deleted from the role
    cache, if there is one, and only then is the finalizer removed, by one
    update of the job; so a job that is gone has no entry left.  When the cache
    refuses, the finalizer stays and the request is retried; it is retried as
    well when the update is refused.  A job without the finalizer is left as it
    is. *)
Theorem deletion_finalizes frameworks reads s aresjob key :
  read_job reads = inr aresjob → is_Some (meta_DeletionTimestamp (job_meta aresjob)) →
  KeyFunc (job_meta aresjob) = Done key →
  let log := the_log (c_world s) ++ forgotten key aresjob in
  let cache_key := NamespacedNameToKey (meta_Namespace (job_meta aresjob)) (meta_Name (job_meta aresjob)) in
  let job := aresjob <| job_meta ::= λ m, RemoveFinalizer m AresJobFinalizer |> in
  (ContainsFinalizer (job_meta aresjob) AresJobFinalizer = false →
     run frameworks reads s = (Done (no_requeue, None), mkCState (mkWorld aresjob log) (c_cache s) (c_queue s))) ∧
  (ContainsFinalizer (job_meta aresjob) AresJobFinalizer = true →
     (∀ c c' err, c_cache s = Some c → DeleteJobCache cache_key c = (Fail err, c') →
        run frameworks reads s = (Done (requeue, None), mkCState (mkWorld aresjob log) (Some c') (c_queue s))) ∧
     (∀ cache', match c_cache s with
                | None => cache' = None
                | Some c => ∃ c', DeleteJobCache cache_key c = (Done tt, c') ∧ cache' = Some c'
                end →
        run frameworks reads s =
        (Done (match answer log (UpdateJob job) with None => no_requeue | Some _ => requeue end, None),
         mkCState (mkWorld job (log ++ [UpdateJob job])) cache' (c_queue s)))).
Proof.
  intros Hread Hdel Hkey log cache_key job.
  set (s1 := mkCState (mkWorld aresjob log) (c_cache s) (c_queue s)).
  assert (Hrun : run frameworks reads s =
    match finalize aresjob (with_job s aresjob) with
    | (Done _, s') => (Done (no_requeue, None), s')
    | (Fail _, s') => (Done (requeue, None), s')
    | (Crash p, s') => (Crash p, s')
    end).
  { unfold Reconcile. rewrite Hread. rewrite (eff_bind_Done _ _ s tt (with_job s aresjob)) by done.
    rewrite decide_True by done. unfold attempt, mbind, eff_bind. by destruct (finalize _ _) as [[[]|e|p] s']. }
  assert (Hclean : on_world (C := C) (_ ← set_job aresjob; CleanForJob) (with_job s aresjob) = (Done tt, s1)).
  { unfold on_world. rewrite (eff_bind_Done _ _ _ tt (mkWorld aresjob (the_log (c_world s)))) by done.
    unfold CleanForJob. by rewrite (DeleteExpectations_run key). }
  rewrite Hrun. unfold finalize.
  rewrite (eff_bind_Done _ _ _ tt s1 Hclean). clear Hrun Hclean. split; intros Hcont; rewrite Hcont; [done|].
  cbn [negb]. fold cache_key job. split.
  - intros c c' err Hc Herr. rewrite (eff_bind_Fail _ _ s1 err (mkCState (mkWorld aresjob log) (Some c') (c_queue s))); [done|].
    unfold deleteJobCache, on_cache. simpl. rewrite Hc. fold cache_key. by rewrite Herr.
  - intros cache' Hcache. rewrite (eff_bind_Done _ _ s1 tt (mkCState (mkWorld aresjob log) cache' (c_queue s))).
    + unfold on_world, mbind, eff_bind, request. simpl. by destruct (answer log _).
    + unfold deleteJobCache, on_cache. simpl. destruct (c_cache s) as [c|]; [|by rewrite Hcache].
      destruct Hcache as (c' & Hc' & ->). fold cache_key. by rewrite Hc'.
Qed.
End gate.

(** ** Witnesses *)

#[local] Existing Instances canonical_order ex_kubeflow accepting ex_controllerutil ex_condition_laws ex_templates.

(** A framework whose objects the API server finds invalid. *)
Definition ex_framework : Framework MemoryCache.t :=
  mkFramework Done (λ _, Done tt) (λ _ _ _, throw (StatusError StatusReasonInvalid "bad pod")) (λ _ _, mret tt) (λ _ _, mret tt)
    (λ _ _ _, mret tt) (mret tt).
Definition ex_frameworks (name : string) : option (Framework MemoryCache.t) :=
  if decide (name = "demo") then Some ex_framework else None.

Definition ex_complete_job : AresJob :=
  match Default ex_raw_job with Done job => job | _ => ex_raw_job end.
Definition ex_state (job : AresJob) : cstate MemoryCache.t :=
  mkCState (mkWorld job []) (Some MemoryCache.NewMemoryCache) [].
Definition ex_reads (job : AresJob) : Reads :=
  mkReads (inr job) (inl (StatusError StatusReasonNotFound "")) (inr []) (λ _, true).
Lemma ex_passes : passes_gates id 7 (λ _ _, true) ex_frameworks (ex_reads ex_complete_job) (ex_state ex_complete_job)
  ex_complete_job ex_framework ex_complete_job (mkWorld ex_complete_job []).
Proof. split; vm_compute; reflexivity. Qed.

Lemma Reconcile_enters_framework_witness :
  Reconcile id ex_frameworks ex_config 7 (λ _ _, true) (ex_reads ex_complete_job) (ex_state ex_complete_job) =
  reconcile_framework ex_frameworks ex_config 7 (ex_reads ex_complete_job) ex_complete_job ex_framework true
    (mkCState (mkWorld ex_complete_job []) (Some MemoryCache.NewMemoryCache) []).
Proof.
  destruct (Reconcile_enters_framework id ex_config 7 (λ _ _, true) ex_frameworks (ex_reads ex_complete_job)
    (ex_state ex_complete_job)) as [Hgate _].
  exact (Hgate _ _ _ _ ex_passes).
Defined.

Lemma invalid_definition_quarantined_witness :
  ∃ job, (the_log (c_world (Reconcile id ex_frameworks ex_config 7 (λ _ _, true) (ex_reads ex_complete_job)
            (ex_state ex_complete_job)).2)) = [UpdateStatus job] ∧ IsInvalidDefinition (job_Status job) = true.
Proof.
  destruct (invalid_definition_quarantined id ex_config 7 (λ _ _, true) ex_frameworks (ex_reads ex_complete_job)
    (ex_state ex_complete_job) ex_complete_job (mkWorld ex_complete_job [])) as (job & Hrun & _ & _ & Hlater).
  - reflexivity.
  - vm_compute. reflexivity.
  - vm_compute. reflexivity.
  - eapply rejected_object; [exact ex_passes|vm_compute; reflexivity|vm_compute; reflexivity|reflexivity|reflexivity].
  - exists job. split; [rewrite Hrun; reflexivity|]. apply Hlater.
    intros js c Hjs Hc. vm_compute in Hjs. injection Hjs as <-. inversion Hc.
Defined.

Lemma deletion_finalizes_witness :
  let job := mkAresJob (mkObjectMeta "job" "" "ns" "" None None (Some 3) [AresJobFinalizer] None)
               (job_Spec ex_complete_job) (job_Status ex_complete_job) in
  let run := Reconcile id ex_frameworks ex_config 7 (λ _ _, true) (ex_reads job) (ex_state job) in
  run.1 = Done (no_requeue, None) ∧ meta_Finalizers (job_meta (the_job (c_world run.2))) = [].
Proof.
  intros job run.
  destruct (deletion_finalizes id ex_config 7 (λ _ _, true) ex_frameworks (ex_reads job) (ex_state job) job "ns/job")
    as [_ Hdel]; [reflexivity|by eexists|reflexivity|].
  destruct (Hdel eq_refl) as [_ Hok]. subst run. rewrite (Hok (Some MemoryCache.NewMemoryCache)).
  - split; reflexivity.
  - eexists. split; reflexivity.
Defined.
