(* ===== verification/Publish.v ===== *)
(** * Publishing the roles others depend on

    The entry of a role in the role cache, which the waiting pods of other
    roles read, and when it is written. *)

From S2P Require Import Prelude GoStd Errors Regex Kube Api World ReconcilerUtils Examples PodOrder Webhook Metadata.
From S2P Require Import Expectation Cache Conf Dependence NodeManager Phase Pod PodGroup Job Controller.

Section entry.
Context `{MapOrder, Kubeflow, SortSlice, TerminatedText}.

(** The address of a pod that the waiting pods connect to. *)
Definition pod_address (template : PodTemplateSpec) (pod : Pod) : string :=
  if pod_HostNetwork (template_Spec template) then pstatus_HostIP (pod_Status pod) else pstatus_PodIP (pod_Status pod).

(** The entry of a role lists the addresses of its live pods by index. *)
Definition lists_addresses (idx : Pod → Z) (rtype : string) (template : PodTemplateSpec) (pods : list Pod)
    (ips : list string) : Prop :=
  ∃ l, l ≡ₚ filter (λ p, is_terminating p = false ∧ pod_type p = rtype) pods ∧
    StronglySorted (λ p q, idx p ≤ idx q) l ∧
    ips = filter (λ ip, ip ≠ "") (pod_address template <$> l).

Lemma BuildRoleCache_run job rtype phase pods spec rs :
  role_spec (job_Spec job) rtype = Some spec → role_ReplicaSpec spec = Some rs →
  BuildRoleCache job rtype phase pods =
  Done (mkRoleCache phase (bool_decide (phase = RolePhaseRunning))
    (filter (λ ip, ip ≠ "") (pod_address (Template rs) <$>
      filter (λ pod, pod_type pod = rtype) (SortPodsByRoleAndIndex (FilterAlivePods pods))))).
Proof.
  intros Hspec Hrs. unfold BuildRoleCache, spec_Template. rewrite Hspec. simpl. rewrite Hrs. simpl.
  unfold NewRoleCache, WithIPs, pod_address. simpl. by destruct (pod_HostNetwork _).
Qed.

Lemma BuildRoleCache_ips idx job rtype phase pods spec rs :
  role_spec (job_Spec job) rtype = Some spec → role_ReplicaSpec spec = Some rs →
  index_labelled idx (FilterAlivePods pods) →
  ∃ ips, BuildRoleCache job rtype phase pods = Done (mkRoleCache phase (bool_decide (phase = RolePhaseRunning)) ips) ∧
    lists_addresses idx rtype (Template rs) pods ips.
Proof.
  intros Hspec Hrs Hidx. eexists. split; [by eapply BuildRoleCache_run|].
  destruct (sorted_role_pods idx (FilterAlivePods pods) rtype Hidx) as [Hperm Hsorted].
  eexists. split; [|split; [exact Hsorted|reflexivity]].
  rewrite Hperm. unfold FilterAlivePods. rewrite FilterPods_filter, list_filter_filter.
  rewrite (list_filter_iff _ (λ p, is_terminating p = false ∧ pod_type p = rtype)); [done|].
  intros p. destruct (is_terminating p); simpl; intuition congruence.
Qed.

(** ** Publication *)

Context {C : Type} `{InterfaceLaws C}.

Lemma OnRolePhaseChanged_publishes idx job rtype phase pods spec rs (c : C) :
  role_spec (job_Spec job) rtype = Some spec → role_ReplicaSpec spec = Some rs →
  index_labelled idx (FilterAlivePods pods) → is_open c →
  let key := NamespacedNameToKey (meta_Namespace (job_meta job)) (meta_Name (job_meta job)) in
  ∃ c' ips, OnRolePhaseChanged job rtype phase (inr pods) (Some c) = (Done tt, Some c') ∧ is_open c' ∧
    lists_addresses idx rtype (Template rs) pods ips ∧
    ∀ j r, entry c' j r = if decide (j = key ∧ r = rtype)
                          then Some (mkRoleCache phase (bool_decide (phase = RolePhaseRunning)) ips) else entry c j r.
Proof.
  intros Hspec Hrs Hidx Hopen key.
  destruct (BuildRoleCache_ips idx job rtype phase pods spec rs Hspec Hrs Hidx) as (ips & Hbuild & Hips).
  destruct (set_role_law c key rtype (mkRoleCache phase (bool_decide (phase = RolePhaseRunning)) ips) Hopen) as (c' & Hset & Hopen' & Hent).
  exists c', ips. split_and!; [|done..]. unfold OnRolePhaseChanged. rewrite Hbuild. fold key. by rewrite Hset.
Qed.
End entry.

Section handle.
Context `{MapOrder, Kubeflow, SortSlice, TerminatedText}.
Context {C : Type} `{InterfaceLaws C}.
Context (frameworks : string → option (Framework C)).

(** The phase of a role has to be published: it has changed since the job was
    read, or the role is running. *)
Definition to_publish (old : AresJob) (role : string) (rs : RoleStatus) : Prop :=
  RolePhase (job_Status old) role ≠ Done (role_Phase rs) ∨ role_Phase rs = RolePhaseRunning.
#[export] Instance to_publish_dec old role rs : Decision (to_publish old role rs).
Proof.
  unfold to_publish. destruct (RolePhase (job_Status old) role) as [phase|e|p];
    [|left; by left|left; by left].
  destruct (decide (phase = role_Phase rs)) as [->|Hne]; [|left; left; congruence].
  destruct (decide (role_Phase rs = RolePhaseRunning)); [left; by right|right; naive_solver].
Defined.

(** The framework publishes the roles of the job as [OnRolePhaseChanged] does,
    with the pods of the role that [getPods] lists; each of them is labelled
    with its index. *)
Definition publishes (f : Framework C) (job : AresJob) (getPods : string → list Pod) (idx : Pod → Z) : Prop :=
  (∀ rtype phase, F_OnRolePhaseChanged f job rtype phase = OnRolePhaseChanged job rtype phase (inr (getPods rtype))) ∧
  (∀ rtype, index_labelled idx (FilterAlivePods (getPods rtype))).

Definition job_key (job : AresJob) : string :=
  NamespacedNameToKey (meta_Namespace (job_meta job)) (meta_Name (job_meta job)).

(** The cache holds the entry of the role in its present phase. *)
Definition published (job : AresJob) (getPods : string → list Pod) (idx : Pod → Z) (c : C) (role : string) (rs : RoleStatus) : Prop :=
  ∃ spec rspec ips, role_spec (job_Spec job) role = Some spec ∧ role_ReplicaSpec spec = Some rspec ∧
    lists_addresses idx role (Template rspec) (getPods role) ips ∧
    entry c (job_key job) role = Some (mkRoleCache (role_Phase rs) (bool_decide (role_Phase rs = RolePhaseRunning)) ips).

(** The role and its statuses are there. *)
Definition role_ready (old job : AresJob) (role : string) (status : option RoleStatus) : Prop :=
  is_Some status ∧ status_RoleStatuses (job_Status old) !? role ≠ Some None ∧
  ∃ spec rs, role_spec (job_Spec job) role = Some spec ∧ role_ReplicaSpec spec = Some rs.

Section loop.
Context (f : Framework C) (getPods : string → list Pod) (idx : Pod → Z) (old job : AresJob) (w : world)
  (queue : list (string * string * Z)).
Hypothesis Hpub : publishes f job getPods idx.

(** The body of the loop. *)
Definition handle_role (p : string * option RoleStatus) : cop C unit :=
  let '(roleName, roleStatus) := p in
  oldPhase ← lift (match status_RoleStatuses (job_Status old) !? roleName with
                   | Some status => status ← deref status; Done (role_Phase status)
                   | None => Done RolePhasePending
                   end);
  rs ← lift (deref roleStatus);
  if decide (oldPhase = role_Phase rs ∧ role_Phase rs ≠ RolePhaseRunning) then mret tt
  else on_cache (F_OnRolePhaseChanged f job roleName (role_Phase rs)).

Lemma handle_role_run role rs c :
  is_open c → role_ready old job role (Some rs) →
  ∃ c', handle_role (role, Some rs) (mkCState w (Some c) queue) = (Done tt, mkCState w (Some c') queue) ∧ is_open c' ∧
    (to_publish old role rs → published job getPods idx c' role rs) ∧
    (∀ j r, ¬ (j = job_key job ∧ r = role ∧ to_publish old role rs) → entry c' j r = entry c j r).
Proof.
  intros Hopen (_ & Hold & spec & rspec & Hspec & Hrspec). unfold handle_role.
  assert (∃ phase, RolePhase (job_Status old) role = Done phase) as [phase Hphase].
  { unfold RolePhase. destruct (status_RoleStatuses (job_Status old) !? role) as [[s|]|]; [by eexists|done|by eexists]. }
  unfold to_publish. fold (RolePhase (job_Status old) role). rewrite Hphase.
  rewrite (eff_bind_Done _ _ _ phase (mkCState w (Some c) queue)) by done.
  rewrite (eff_bind_Done _ _ _ rs (mkCState w (Some c) queue)) by done.
  case_decide as Hskip.
  - exists c. split_and!; [done|done| |done]. destruct Hskip as [-> Hrun]. intros [Hne|]; [by destruct Hne|done].
  - destruct Hpub as [Hf Hidx].
    destruct (OnRolePhaseChanged_publishes idx job role (role_Phase rs) (getPods role) spec rspec c Hspec Hrspec (Hidx role) Hopen)
      as (c' & ips & Hrun & Hopen' & Hips & Hent).
    exists c'. split_and!; [|done| |].
    + unfold on_cache. simpl. by rewrite Hf, Hrun.
    + intros _. exists spec, rspec, ips. split_and!; [done..|]. unfold job_key. rewrite Hent. by rewrite decide_True.
    + intros j r Hno. rewrite Hent, decide_False; [done|]. intros [-> ->]. apply Hno. split_and!; [done..|].
      destruct (decide (phase = role_Phase rs)) as [Heq|]; [|left; congruence]. right.
      destruct (decide (role_Phase rs = RolePhaseRunning)); [done|]. by destruct Hskip.
Qed.

Lemma handle_roles_run l c :
  NoDup l.*1 → is_open c → (∀ role status, (role, status) ∈ l → role_ready old job role status) →
  ∃ c', for_each l handle_role (mkCState w (Some c) queue) = (Done tt, mkCState w (Some c') queue) ∧ is_open c' ∧
    (∀ role rs, (role, Some rs) ∈ l → to_publish old role rs → published job getPods idx c' role rs) ∧
    (∀ j r, ¬ (j = job_key job ∧ ∃ rs, (r, Some rs) ∈ l ∧ to_publish old r rs) → entry c' j r = entry c j r).
Proof.
  unfold for_each. revert c. induction l as [|[role [rs|]] l IH]; intros c Hnd Hopen Hready; simpl.
  - exists c. split_and!; [done|done|by intros role rs ?%not_elem_of_nil|done].
  - apply NoDup_cons in Hnd as [Hnotin Hnd].
    destruct (handle_role_run role rs c Hopen) as (c1 & Hrun1 & Hopen1 & Hpub1 & Hkeep1); [by apply Hready; left|].
    destruct (IH c1 Hnd Hopen1) as (c2 & Hrun2 & Hopen2 & Hpub2 & Hkeep2); [by intros; apply Hready; right|].
    exists c2. split_and!; [|done| |].
    + rewrite (eff_bind_Done _ _ _ tt (mkCState w (Some c1) queue)); done.
    + intros role' rs' [[= -> ->]|Hin]%elem_of_cons Hto; [|by apply Hpub2].
      destruct (Hpub1 Hto) as (spec & rspec & ips & ? & ? & ? & Hent). exists spec, rspec, ips. split_and!; [done..|].
      rewrite Hkeep2; [done|]. intros (_ & rs' & Hin & _). apply Hnotin, list_elem_of_fmap. by exists (role, Some rs').
    + intros j r Hno. rewrite Hkeep2, Hkeep1; [done|..].
      * intros (-> & -> & Hto). apply Hno. split; [done|]. exists rs. split; [by left|done].
      * intros (-> & rs' & Hin & Hto). apply Hno. split; [done|]. exists rs'. split; [by right|done].
  - destruct (Hready role None) as [[x Hx] _]; [by left|done].
Qed.

(** Without a role cache, or when no role has to be published, the loop does
    nothing. *)
Lemma handle_roles_idle l (c : option C) :
  (∀ role status, (role, status) ∈ l → role_ready old job role status) →
  c = None ∨ (∀ role rs, (role, Some rs) ∈ l → ¬ to_publish old role rs) →
  for_each l handle_role (mkCState w c queue) = (Done tt, mkCState w c queue).
Proof.
  unfold for_each. induction l as [|[role status] l IH]; intros Hready Hidle; simpl; [done|].
  destruct (Hready role status) as ([rs ->] & Hold & _); [by left|].
  rewrite (eff_bind_Done _ _ _ tt (mkCState w c queue)).
  { apply IH; [intros; apply Hready; by right|]. destruct Hidle as [|Hidle]; [by left|right]. intros. apply Hidle. by right. }
  assert (∃ phase, RolePhase (job_Status old) role = Done phase) as [phase Hphase].
  { unfold RolePhase. destruct (status_RoleStatuses (job_Status old) !? role) as [[s|]|]; [by eexists|done|by eexists]. }
  unfold handle_role. fold (RolePhase (job_Status old) role). rewrite Hphase.
  rewrite (eff_bind_Done _ _ _ phase (mkCState w c queue)) by done.
  rewrite (eff_bind_Done _ _ _ rs (mkCState w c queue)) by done.
  case_decide as Hskip; [done|]. destruct Hidle as [->|Hidle].
  - unfold on_cache. simpl. by rewrite (proj1 Hpub).
  - exfalso. apply (Hidle role rs); [by left|]. unfold to_publish. rewrite Hphase.
    destruct (decide (role_Phase rs = RolePhaseRunning)); [by right|left; naive_solver].
Qed.
End loop.

(** What the handler leaves in the role cache: every role that has to be
    published is, if there is a cache and the job has dependences. *)
Definition cache_updated (hasDependence : bool) (getPods : string → list Pod) (idx : Pod → Z) (old job : AresJob) (c c' : option C) : Prop :=
  match c, c' with
  | Some c, Some c' => is_open c' ∧
      (hasDependence = true → ∀ role rs, status_RoleStatuses (job_Status job) !? role = Some (Some rs) → to_publish old role rs →
         published job getPods idx c' role rs) ∧
      (∀ j r, ¬ (j = job_key job ∧ hasDependence = true ∧
         ∃ rs, status_RoleStatuses (job_Status job) !? r = Some (Some rs) ∧ to_publish old r rs) → entry c' j r = entry c j r)
  | None, None => True
  | _, _ => False
  end.

Lemma HandleRolePhases_run f getPods idx old job (b : bool) (c : option C) w queue :
  HasDependence (job_Spec job) = Done b → frameworks (spec_FrameworkType (job_Spec job)) = Some f →
  publishes f job getPods idx → from_option is_open True c →
  (∀ role status, status_RoleStatuses (job_Status job) !? role = Some status → role_ready old job role status) →
  ∃ c', HandleRolePhases frameworks old job (mkCState w c queue) = (Done tt, mkCState w c' queue) ∧
    cache_updated b getPods idx old job c c' ∧
    (b = false ∨ (∀ role rs, status_RoleStatuses (job_Status job) !? role = Some (Some rs) → ¬ to_publish old role rs) → c' = c).
Proof.
  intros Hdep Hf Hpub Hopen Hready. unfold HandleRolePhases.
  rewrite (eff_bind_Done _ _ _ b (mkCState w c queue)) by (unfold lift; by rewrite Hdep).
  destruct b; simpl; [|exists c; split_and!; [done| |done]; destruct c; by simpl].
  unfold getFramework. rewrite Hf. fold (handle_role f old job). set (l := range 0 _).
  assert (∀ role status, (role, status) ∈ l ↔ status_RoleStatuses (job_Status job) !? role = Some status) as Hin.
  { intros role status. unfold l. by rewrite elem_of_range, mlookup_contents. }
  assert (∀ role status, (role, status) ∈ l → role_ready old job role status) as Hready' by (intros role status Hrole%Hin; by apply Hready).
  assert (c = None ∨ (∀ role rs, status_RoleStatuses (job_Status job) !? role = Some (Some rs) → ¬ to_publish old role rs) →
    for_each l (handle_role f old job) (mkCState w c queue) = (Done tt, mkCState w c queue)) as Hidle.
  { intros Hidle. apply (handle_roles_idle f getPods idx old job w queue Hpub); [done|]. destruct Hidle as [|Hidle]; [by left|right].
    intros role rs Hrs%Hin. by apply Hidle. }
  destruct c as [c|]; [|exists None; split_and!; [by apply Hidle; left|done|done]].
  destruct (handle_roles_run f getPods idx old job w queue Hpub l c) as (c' & Hrun & Hopen' & Hp & Hkeep); [apply NoDup_range_keys|done|done|].
  exists (Some c'). split_and!; [exact Hrun| |].
  - simpl. split_and!; [done|intros _ role rs Hrs%Hin; by apply Hp|]. intros j r Hno. apply Hkeep.
    intros (-> & rs & Hrs%Hin & Hto). apply Hno. split_and!; [done..|]. by exists rs.
  - intros [|Hno]; [done|]. rewrite Hidle in Hrun by (by right). congruence.
Qed.

(** C29: a role others may depend on is published.  When some role of the job
    has a dependence, no status is nil and every role with a status has a spec,
    the handler returns, and for every role whose phase has changed since the
    job was read, or that is running, the role cache holds the entry of its
    present phase with the addresses of its live pods by index; every other
    entry, of this job or another, is unchanged. *)
Theorem HandleRolePhases_publishes f getPods idx old job c w queue :
  HasDependence (job_Spec job) = Done true → frameworks (spec_FrameworkType (job_Spec job)) = Some f →
  publishes f job getPods idx → is_open c →
  (∀ role status, status_RoleStatuses (job_Status job) !? role = Some status → role_ready old job role status) →
  ∃ c', HandleRolePhases frameworks old job (mkCState w (Some c) queue) = (Done tt, mkCState w (Some c') queue) ∧ is_open c' ∧
    (∀ role rs, status_RoleStatuses (job_Status job) !? role = Some (Some rs) → to_publish old role rs →
       published job getPods idx c' role rs) ∧
    (∀ j r, ¬ (j = job_key job ∧ ∃ rs, status_RoleStatuses (job_Status job) !? r = Some (Some rs) ∧ to_publish old r rs) →
       entry c' j r = entry c j r).
Proof.
  intros Hdep Hf Hpub Hopen Hready.
  destruct (HandleRolePhases_run f getPods idx old job true (Some c) w queue) as ([c'|] & Hrun & Hupd & _); [done..| |done].
  destruct Hupd as (Hopen' & Hp & Hkeep). exists c'. split_and!; [done|done|by apply Hp|].
  intros j r Hno. apply Hkeep. naive_solver.
Qed.
End handle.

(** ** Witness *)

#[local] Existing Instances canonical_order ex_kubeflow canonical_sort ex_text.

Definition ex_publisher : Framework MemoryCache.t :=
  mkFramework Done (λ _, Done tt) (λ _ _ _, mret tt) (λ _ _, mret tt) (λ _ _, mret tt)
    (λ job rtype phase, OnRolePhaseChanged job rtype phase (inr [ex_pod "worker" 0 PodRunning "n"])) (mret tt).

Definition ex_publish_job : AresJob :=
  ex_job "demo" [("worker", ex_role 1 "" <| role_Dependence := Some (mkDependenceSpec ["worker"] "" None) |>)]
    <| job_Status ::= λ s, s <| status_RoleStatuses :=
         Some {["worker" := Some (mkRoleStatus RolePhaseRunning "" "" None zero_ReplicaStatus)]} |> |>.

Lemma HandleRolePhases_publishes_witness :
  let getPods := λ _ : string, [ex_pod "worker" 0 PodRunning "n"] in
  ∃ c', (HandleRolePhases (λ _, Some ex_publisher) ex_publish_job ex_publish_job
           (mkCState (mkWorld ex_publish_job []) (Some MemoryCache.NewMemoryCache) [])).1 = Done tt ∧
    published ex_publish_job getPods (λ _, 0) (c' : MemoryCache.t) "worker"
      (mkRoleStatus RolePhaseRunning "" "" None zero_ReplicaStatus).
Proof.
  intros getPods.
  destruct (HandleRolePhases_publishes (λ _, Some ex_publisher) ex_publisher getPods (λ _, 0) ex_publish_job ex_publish_job
    MemoryCache.NewMemoryCache (mkWorld ex_publish_job []) []) as (c' & Hrun & _ & Hpub & _).
  - vm_compute. reflexivity.
  - reflexivity.
  - split; [reflexivity|]. intros rtype p Hp. apply elem_of_FilterAlivePods in Hp as [_ Hp].
    apply list_elem_of_singleton in Hp as ->. split; [lia|reflexivity].
  - by eexists.
  - intros role status Hrole. rewrite mlookup_contents in Hrole. simpl in Hrole.
    apply lookup_singleton_Some in Hrole as [<- <-].
    split; [by eexists|]. split; [vm_compute; discriminate|]. do 2 eexists. split; vm_compute; reflexivity.
  - exists c'. rewrite Hrun. split; [reflexivity|]. apply Hpub; [reflexivity|]. right. reflexivity.
Defined.
