(* ===== verification/Finish.v ===== *)
(** * After a job has finished

    When its clean-up is scheduled, and when it is given up. *)

From S2P Require Import Prelude GoStd Errors Regex Kube Api World ReconcilerUtils Examples Webhook Metadata Expectation.
From S2P Require Import Cache Conf Dependence NodeManager Phase Pod PodCreate PodGroup PodGroupSync Job JobSync.
From S2P Require Import Controller.

Section finish.
Context {C : Type} `{Interface C}.
Context `{MapOrder, Kubeflow, ApiServer, ControllerUtil, Templates}.
Context (frameworks : string → option (Framework C)) (config : Configuration) (now : Z).
Implicit Types (s : cstate C).

(** The seconds a finished job is kept. *)
Definition kept_seconds (job : AresJob) : option Z :=
  if decide (status_Phase (job_Status job) = JobPhaseFailed) then spec_TTLSecondsAfterFailed (job_Spec job)
  else op_TTLSecondsAfterSucceeded (conf_Operator config).

(** Whether it has finished, and when it ended: at the time that the first
    condition for its kind of end carries, or now if there is no such condition
    or it carries no time. *)
Definition finished (job : AresJob) : Prop :=
  status_Phase (job_Status job) = JobPhaseSucceeded ∨ status_Phase (job_Status job) = JobPhaseFailed.
Definition end_type (job : AresJob) : string :=
  if decide (status_Phase (job_Status job) = JobPhaseFailed) then JobFailed else JobSucceeded.
Definition conditions (job : AresJob) : list JobCondition := from_option Conditions [] (status_JobStatus (job_Status job)).

Inductive ended_at (job : AresJob) : Z → Prop :=
| ended_recorded before cond after t :
    conditions job = before ++ cond :: after → Forall (λ c, jcond_Type c ≠ end_type job) before →
    jcond_Type cond = end_type job → jcond_LastTransitionTime cond = Some t → ended_at job t
| ended_without_time before cond after :
    conditions job = before ++ cond :: after → Forall (λ c, jcond_Type c ≠ end_type job) before →
    jcond_Type cond = end_type job → jcond_LastTransitionTime cond = None → ended_at job now
| ended_unrecorded : Forall (λ c, jcond_Type c ≠ end_type job) (conditions job) → ended_at job now.

(** There is one such time, and it is the one the code reads. *)
Lemma GetCondition_find status type :
  GetCondition status type = head (filter (λ c, jcond_Type c = type) (from_option Conditions [] (status_JobStatus status))).
Proof.
  unfold GetCondition. destruct (status_JobStatus status) as [js|]; simpl; [|done].
  induction (Conditions js) as [|c l IH]; [done|]. rewrite filter_cons. simpl. case_decide; [done|].
  rewrite <- IH. by destruct (list_find _ l) as [[]|].
Qed.

Lemma first_condition job before cond after :
  conditions job = before ++ cond :: after → Forall (λ c, jcond_Type c ≠ end_type job) before → jcond_Type cond = end_type job →
  GetCondition (job_Status job) (end_type job) = Some cond.
Proof.
  intros Hl Hbefore Hcond. rewrite GetCondition_find. fold (conditions job). rewrite Hl, filter_app, filter_cons_True by done.
  assert (filter (λ c, jcond_Type c = end_type job) before = []) as ->; [|done].
  apply filter_nil_iff. rewrite Forall_forall in Hbefore. exact Hbefore.
Qed.

Lemma first_or_none type l : Forall (λ c, jcond_Type c ≠ type) l ∨
  ∃ before cond after, l = before ++ cond :: after ∧ Forall (λ c, jcond_Type c ≠ type) before ∧ jcond_Type cond = type.
Proof.
  induction l as [|c l IH]; [by left|]. destruct (decide (jcond_Type c = type)) as [Hc|Hc].
  - right. by exists [], c, l.
  - destruct IH as [Hno|(before & cond & after & -> & Hb & ?)]; [left; by constructor|right].
    exists (c :: before), cond, after. split_and!; [done|by constructor|done].
Qed.

Lemma ended_at_last job t : ended_at job t ↔ t = last_transition now (job_Status job) (end_type job).
Proof.
  unfold last_transition. split.
  - intros [before cond after t' Hl Hb Hc Ht|before cond after Hl Hb Hc Ht|Hnone].
    + by rewrite (first_condition _ _ _ _ Hl Hb Hc), Ht.
    + by rewrite (first_condition _ _ _ _ Hl Hb Hc), Ht.
    + rewrite GetCondition_find. fold (conditions job). rewrite (proj2 (filter_nil_iff _ _)); [done|].
      rewrite Forall_forall in Hnone. exact Hnone.
  - intros ->. destruct (first_or_none (end_type job) (conditions job)) as [Hnone|(before & cond & after & Hl & Hb & Hc)].
    + rewrite GetCondition_find. fold (conditions job). rewrite (proj2 (filter_nil_iff _ _)); [by constructor|].
      rewrite Forall_forall in Hnone. exact Hnone.
    + rewrite (first_condition _ _ _ _ Hl Hb Hc). destruct (jcond_LastTransitionTime cond) eqn:Ht; simpl.
      * by eapply ended_recorded.
      * by eapply ended_without_time.
Qed.

Lemma delay_exact seconds t :
  0 ≤ seconds < 2 ^ 31 → 0 ≤ now - t < 2 ^ 62 →
  Z.max 0 (wrap64 (wrap64 (seconds * Second) - time_Sub now t)) = Z.max 0 (seconds * Second - (now - t)).
Proof.
  intros Hs Ht. unfold time_Sub. rewrite (wrap64_id (seconds * Second)) by (unfold int64_range, Second; lia).
  replace (Z.max (- 2 ^ 63) (Z.min (2 ^ 63 - 1) (now - t))) with (now - t) by lia. by rewrite wrap64_id by (unfold int64_range, Second; lia).
Qed.

(** C37: a finished job is cleaned up on time.  Nothing is queued for a job that
    has not finished, or whose kind of end has no time to live.  Otherwise its
    end has one time: what the first condition of its kind of end records, or
    now when there is none or it has no time; and the job is queued once, with a
    delay that is not negative and ends when the time to live has passed since
    then (at once when it has passed already); with seconds of 32 bits and less
    than a century since the end, no step of the computation overflows. *)
Theorem OnJobFinished_deadline job s :
  (¬ finished job ∨ kept_seconds job = None →
     OnJobFinished config now job s = (Done tt, s)) ∧
  (∀ seconds, finished job → kept_seconds job = Some seconds → 0 ≤ seconds < 2 ^ 31 →
     ∃ ended, (∀ t, ended_at job t ↔ t = ended) ∧
       (0 ≤ now - ended < 2 ^ 62 → ∃ delay, OnJobFinished config now job s =
           (Done tt, mkCState (c_world s) (c_cache s)
                       (c_queue s ++ [(meta_Namespace (job_meta job), meta_Name (job_meta job), delay)])) ∧
         0 ≤ delay ∧ now + delay = Z.max now (ended + seconds * 1000000000))).
Proof.
  pose proof (ended_at_last job) as Hended. revert Hended. generalize (ended_at job) as ended. intros ended Hended. revert Hended.
  unfold kept_seconds, end_type, OnJobFinished, cleanup_delay, TTLSecondsAfterSucceeded.
  assert (IsFinished (status_Phase (job_Status job)) = true ↔ finished job) as Hfin.
  { unfold IsFinished, finished. rewrite orb_true_iff, !bool_decide_eq_true. tauto. }
  destruct (IsFinished _); simpl; [|intros _; split; [done|naive_solver]].
  case_decide as Hphase; intros Hended; (split; [intros [?| ->]; [naive_solver|done]|]).
  all: intros seconds _ -> Hs; eexists; split; [exact Hended|]; intros Ht; simpl; rewrite delay_exact by done;
    eexists; split; [done|]; change 1000000000 with Second; lia.
Qed.

(** The clean-up queue.  The worker stops when the queue is shut down.  An
    item whose job or framework is gone is given up with nothing sent, and one
    whose job cannot be read is tried again.  Otherwise the resources of the
    job are cleaned up by its framework, and the item is given up exactly when
    that succeeds: it is tried again as long as a request of the clean-up is
    refused. *)
Theorem cleanupNextItem_outcome item get s :
  let run := cleanupNextItem frameworks item get s in
  (item = None → run = (Done QueueShutdown, s)) ∧
  (∀ ns name, item = Some (ns, name) →
     (∀ err, get ns name = inl err → run = (Done (if IsNotFound err then QueueForget else QueueRateLimited), s)) ∧
     (∀ job, get ns name = inr job → frameworks (spec_FrameworkType (job_Spec job)) = None → run = (Done QueueForget, s)) ∧
     (∀ job f getPods getServices, get ns name = inr job → frameworks (spec_FrameworkType (job_Spec job)) = Some f →
        F_CleanUpResources f = CleanUpResources getPods getServices →
        let plan := cleanup_plan getPods getServices job in
        let w := mkWorld job (the_log (c_world s)) in
        ∃ r, sends plan.1 plan.2 w r ∧
          run = (Done (match r.1 with Done _ => QueueForget | _ => QueueRateLimited end),
                 mkCState r.2 (c_cache s) (c_queue s)))).
Proof.
  cbv zeta. split; [by intros ->|]. intros ns name ->. unfold cleanupNextItem, GetJobFromInformerCache, getFramework.
  split_and!.
  - by intros err ->.
  - by intros job -> ->.
  - intros job f getPods getServices -> -> Hclean.
    set (plan := cleanup_plan getPods getServices job). set (w := mkWorld job (the_log (c_world s))).
    exists (send plan.1 plan.2 w). split; [apply send_sends|].
    rewrite (eff_bind_Done _ _ s tt (mkCState w (c_cache s) (c_queue s))) by done.
    unfold mbind, eff_bind, attempt, on_world. simpl. rewrite Hclean, CleanUpResources_send.
    change (the_job w) with job. fold plan. pose proof (send_no_panic plan.1 plan.2 w) as Hp.
    destruct (send plan.1 plan.2 w) as [[[]|err|p] w']; [done..|]. by destruct (Hp p).
Qed.
End finish.

(** ** Witness *)

#[local] Existing Instances ex_templates.

(** A job that failed at second 100, after it had run since second 5: with 60
    seconds to live, it is cleaned up at second 160, 20 seconds from now. *)
Definition ex_failed_job : AresJob :=
  let condition type t := mkJobCondition type ConditionTrue "" "" (Some (t * 1000000000)) in
  let js := mkJobStatus [condition "Running" 5; condition JobFailed 100; condition JobFailed 120] None None in
  mkAresJob (ex_meta "job") (mkAresJobSpec (Some 60) (mkRunPolicy None None) [] "demo" (mkFrameworkSpec None None None) ∅ None)
    (mkAresJobStatus (Some js) None JobPhaseFailed None).

Lemma OnJobFinished_deadline_witness :
  let now := 140 * 1000000000 in
  ended_at now ex_failed_job (100 * 1000000000) ∧
  ∃ s, OnJobFinished (C := MemoryCache.t) ex_config now ex_failed_job (mkCState (mkWorld ex_failed_job []) None []) = (Done tt, s) ∧
    c_queue s = [("", "job", 20 * 1000000000)].
Proof.
  intros now. assert (ended_at now ex_failed_job (100 * 1000000000)) as Hend.
  { refine (ended_recorded now ex_failed_job [_] _ [_] _ eq_refl _ eq_refl eq_refl). repeat constructor. discriminate. }
  split; [exact Hend|].
  destruct (OnJobFinished_deadline (C := MemoryCache.t) ex_config now ex_failed_job (mkCState (mkWorld ex_failed_job []) None [])) as [_ Hq].
  destruct (Hq 60) as (ended & Hended & Hrun).
  - right. reflexivity.
  - reflexivity.
  - split; [discriminate|reflexivity].
  - apply Hended in Hend. rewrite <- Hend in Hrun. destruct Hrun as (delay & Hrun & _ & Hdelay); [unfold now; lia|].
    eexists. split; [exact Hrun|]. simpl. assert (delay = 20 * 1000000000) as -> by (unfold now in Hdelay; lia). reflexivity.
Defined.
