(* ===== verification/Events.v ===== *)
(** * Events ([controllers/event_handler.go], [controllers/index.go])

    The handlers of the events of the objects a job owns and of the nodes,
    which feed the expectations and the work queue, and the indices by which
    the pods of a job, of a role and of a node are listed. *)

From S2P Require Import Prelude GoStd Errors Regex Kube Api World ReconcilerUtils Examples Webhook Metadata Expectation.
From S2P Require Import Cache Conf Dependence NodeManager Phase Pod PodCreate PodGroup Job Controller.

(** ** Handlers of owned objects *)

Section objects.
Context {C : Type} (frameworks : string → option (Framework C)).
(* the informer cache of jobs *)
Context (get : string → string → error + AresJob).

(** The two handlers differ in the framework's method. *)
Definition object_event (method : Framework C → AresJob → Object → op unit) (obj : Object) : cop C bool :=
  match meta_Controller (object_meta obj) with
  | None => mret true
  | Some ref =>
      match ResolveOwner get (meta_Namespace (object_meta obj)) ref with
      | None => mret true
      | Some job =>
          match getFramework frameworks (spec_FrameworkType (job_Spec job)) with
          | None => mret false
          | Some f => _ ← on_world (method f job obj); mret true
          end
      end
  end.

Definition handler_AddObject : Object → cop C bool := object_event F_AddObject.
Definition handler_DeleteObject : Object → cop C bool := object_event F_DeleteObject.
End objects.

(** Whether an update is of interest. *)
Definition handler_UpdateObject (obj : Object) : bool :=
  match obj with
  | PodObject pod =>
      match pstatus_Conditions (pod_Status pod) with
      | [cond] => negb (bool_decide (cond_Type cond = PodScheduled) && bool_decide (cond_Status cond = ConditionFalse))
      | _ => true
      end
  | PodGroupObject pg =>
      match pg_Conditions pg with
      | [cond] => negb (bool_decide (cond_Type cond = PodGroupUnschedulableType) && bool_decide (cond_Status cond = ConditionTrue))
      | _ => true
      end
  | _ => true
  end.

(** ** Handlers of nodes

    The state is the node manager and the requests added to the queue. *)

Record NodeEventHandler := mkNodeEventHandler {
  handler_manager : Manager;
  handler_queue : list (string * string);
}.

Section nodes.
Context (GetPodsForNode : string → error + list Pod).

Definition handlePods (node : Node) (q : list (string * string)) : list (string * string) :=
  let pods := match GetPodsForNode (node_Name node) with inr pods => pods | inl _ => [] end in
  q ++ omap (λ pod,
    match meta_Controller (pod_meta pod) with
    | Some owner => if IsAresJob (Some owner) then Some (meta_Namespace (pod_meta pod), owner_Name owner) else None
    | None => None
    end) pods.

Definition node_Create (node : Node) (h : NodeEventHandler) : NodeEventHandler :=
  mkNodeEventHandler (RemoveNode (handler_manager h) (node_Name node)).2 (handler_queue h).

Definition node_Update (old node : Node) (h : NodeEventHandler) : NodeEventHandler :=
  let '(nodeDown, m) := HandleUpdate (handler_manager h) old node in
  mkNodeEventHandler m (if negb nodeDown then handler_queue h else handlePods node (handler_queue h)).

Definition node_Delete (node : Node) (h : NodeEventHandler) : NodeEventHandler :=
  mkNodeEventHandler (RemoveNode (handler_manager h) (node_Name node)).2 (handler_queue h).

Definition node_Generic (node : Node) (h : NodeEventHandler) : NodeEventHandler :=
  let '(nodeDown, m) := HandleGeneric (handler_manager h) node in
  mkNodeEventHandler m (if negb nodeDown then handler_queue h else handlePods node (handler_queue h)).
End nodes.

(** ** Indices *)

Section indices.
Context `{Kubeflow}.

Definition IndexObjectOwner (obj : ObjectMeta) : list string :=
  match meta_Controller obj with
  | Some owner => if IsAresJob (Some owner) then [owner_Name owner] else []
  | None => []
  end.

Definition IndexReplicaOwner (obj : ObjectMeta) : list string :=
  match meta_Controller obj with
  | Some owner =>
      if negb (IsAresJob (Some owner)) then []
      else let rtype := GetReplicaType (meta_Labels obj) in
           if decide (0 < String.length rtype)%nat then [MetaReplicaKeyFormat (owner_Name owner) rtype] else []
  | None => []
  end.

(** The closure of [setupIndexer]. *)
Definition IndexNodeName (pod : Pod) : list string :=
  if negb (IsAresJob (meta_Controller (pod_meta pod))) then []
  else if decide (0 < String.length (pod_NodeName (pod_Spec pod)))%nat then [pod_NodeName (pod_Spec pod)] else [].
End indices.

(** [client.List] of controller-runtime on the informer cache: the objects of
    the namespace, or of all of them, whose index holds the value. *)
Class PodLister := {
  ListPods : option string → (Pod → list string) → string → error + list Pod;
}.

Class ServiceLister := {
  ListServices : option string → (Service → list string) → string → error + list Service;
}.

(** The services of a job; a job is always an object of the API, so that
    [meta.Accessor] does not fail. *)
Definition GetServicesForJob `{Kubeflow, ServiceLister} (job : ObjectMeta) : error + list Service :=
  ListServices (Some (meta_Namespace job)) (λ service, IndexObjectOwner (service_meta service)) (meta_Name job).

Section list.
Context `{Kubeflow, PodLister}.

Definition GetPodsForJob (job : ObjectMeta) : error + list Pod :=
  ListPods (Some (meta_Namespace job)) (λ pod, IndexObjectOwner (pod_meta pod)) (meta_Name job).

Definition GetPodsForReplica (job : ObjectMeta) (rtype : string) : error + list Pod :=
  ListPods (Some (meta_Namespace job)) (λ pod, IndexReplicaOwner (pod_meta pod)) (MetaReplicaKeyFormat (meta_Name job) rtype).

Definition GetPodsForNode (name : string) : error + list Pod := ListPods None IndexNodeName name.
End list.

(** What listing by an index returns (controller-runtime). *)
Class PodListerLaws `{PodLister} := {
  cluster : list Pod;
  list_law : ∀ ns index value pods, ListPods ns index value = inr pods →
    ∀ p, p ∈ pods ↔ p ∈ cluster ∧ (∀ n, ns = Some n → meta_Namespace (pod_meta p) = n) ∧ value ∈ index p;
}.

(** ** Listing *)

(** The pod is controlled by the AresJob of the given name. *)
Definition controlled_by (name : string) (p : Pod) : Prop :=
  ∃ owner, meta_Controller (pod_meta p) = Some owner ∧ IsAresJob (Some owner) = true ∧ owner_Name owner = name.

Lemma elem_of_IndexObjectOwner name p : name ∈ IndexObjectOwner (pod_meta p) ↔ controlled_by name p.
Proof.
  unfold IndexObjectOwner, controlled_by. destruct (meta_Controller (pod_meta p)) as [owner|].
  - destruct (IsAresJob (Some owner)) eqn:His; rewrite ?list_elem_of_singleton.
    + split; [intros ->; eauto|]. intros (o & [= <-] & _ & <-). done.
    + split; [by intros ?%not_elem_of_nil|]. intros (o & [= <-] & Ht & _). congruence.
  - split; [by intros ?%not_elem_of_nil|]. by intros (o & ? & _).
Qed.

Lemma MetaReplicaKeyFormat_inj n1 n2 r1 r2 :
  ContainsByte "/"%char n1 = false → ContainsByte "/"%char n2 = false →
  MetaReplicaKeyFormat n1 r1 = MetaReplicaKeyFormat n2 r2 → n1 = n2 ∧ ToLower r1 = ToLower r2.
Proof.
  intros H1 H2 Heq.
  assert (Hsplit : ∀ n r, ContainsByte "/"%char n = false → SplitN2 (MetaReplicaKeyFormat n r) "/"%char = [n; ToLower r]).
  { intros n r Hn. unfold MetaReplicaKeyFormat.
    change (n +:+ "/" +:+ ToLower r) with (n +:+ String "/"%char (ToLower r)). by apply SplitN2_app. }
  pose proof (Hsplit n1 r1 H1) as Hs. rewrite Heq, Hsplit in Hs by done. by simplify_eq.
Qed.

Lemma elem_of_IndexReplicaOwner `{Kubeflow} name rtype p :
  (∀ owner, meta_Controller (pod_meta p) = Some owner → ContainsByte "/"%char (owner_Name owner) = false) →
  ContainsByte "/"%char name = false →
  MetaReplicaKeyFormat name rtype ∈ IndexReplicaOwner (pod_meta p) ↔
  controlled_by name p ∧ pod_type p ≠ "" ∧ ToLower (pod_type p) = ToLower rtype.
Proof.
  intros Howner Hname. unfold IndexReplicaOwner, controlled_by, pod_type.
  destruct (meta_Controller (pod_meta p)) as [owner|]; [|split; [by intros ?%not_elem_of_nil|by intros [(o & ? & _) _]]].
  destruct (IsAresJob (Some owner)) eqn:His; cbn [negb];
    [|split; [by intros ?%not_elem_of_nil|intros [(o & [= <-] & Ht & _) _]; congruence]].
  case_decide as Hlen.
  - rewrite list_elem_of_singleton. split.
    + intros [-> Hl]%MetaReplicaKeyFormat_inj; [|done|by apply Howner]. split; [by eauto|]. split; [|done].
      intros Hnil. rewrite Hnil in Hlen. simpl in Hlen. lia.
    + intros [(o & [= <-] & _ & <-) [_ Hl]]. unfold MetaReplicaKeyFormat. by rewrite Hl.
  - split; [by intros ?%not_elem_of_nil|]. intros [_ [Hne _]]. destruct (GetReplicaType _); [done|]. simpl in Hlen. lia.
Qed.

(** ** Properties *)

(** C39: the indices find the objects.  Listing the pods of a job gives exactly
    the pods of its namespace that an AresJob of its name controls; listing
    the pods of a role gives exactly those of them whose type is the role, up
    to case, and listing the pods of a node exactly the pods on it that some
    AresJob controls. *)
Theorem indices_find_pods `{Kubeflow, PodListerLaws} (job : ObjectMeta) rtype node jobPods rolePods nodePods :
  (∀ p owner, p ∈ cluster → meta_Controller (pod_meta p) = Some owner → ContainsByte "/"%char (owner_Name owner) = false) →
  ContainsByte "/"%char (meta_Name job) = false → node ≠ "" →
  GetPodsForJob job = inr jobPods → GetPodsForReplica job rtype = inr rolePods → GetPodsForNode node = inr nodePods →
  ∀ p, p ∈ cluster →
  (p ∈ jobPods ↔ meta_Namespace (pod_meta p) = meta_Namespace job ∧ controlled_by (meta_Name job) p) ∧
  (p ∈ rolePods ↔ p ∈ jobPods ∧ pod_type p ≠ "" ∧ ToLower (pod_type p) = ToLower rtype) ∧
  (p ∈ nodePods ↔ pod_NodeName (pod_Spec p) = node ∧ IsAresJob (meta_Controller (pod_meta p)) = true).
Proof.
  intros Howner Hname Hnode Hjob Hrole Hnodes p Hp.
  assert (Hj : p ∈ jobPods ↔ meta_Namespace (pod_meta p) = meta_Namespace job ∧ controlled_by (meta_Name job) p).
  { rewrite (list_law _ _ _ _ Hjob p), elem_of_IndexObjectOwner. naive_solver. }
  split; [done|]. split.
  - rewrite Hj, (list_law _ _ _ _ Hrole p), elem_of_IndexReplicaOwner by eauto. naive_solver.
  - rewrite (list_law _ _ _ _ Hnodes p). unfold IndexNodeName. destruct (IsAresJob _); simpl.
    + case_decide as Hlen; rewrite ?list_elem_of_singleton; [naive_solver|].
      split; [by intros (_ & _ & ?%not_elem_of_nil)|]. intros [Hn _]. destruct (pod_NodeName _); [by destruct Hnode|simpl in Hlen; lia].
    + split; [by intros (_ & _ & ?%not_elem_of_nil)|by intros [_ ?]].
Qed.

(** A node going down wakes up its jobs.  An update that finds the node
    unhealthy when it was not known to be down adds a request for the job of
    every pod on the node that an AresJob controls, and no other; any other
    update adds nothing.  In both cases the node is then known to be down
    exactly when the update found it unhealthy, and no other node changes. *)
Theorem node_down_requeues `{Kubeflow, PodListerLaws} old node h pods :
  manager_inv (handler_manager h) → node_Name node ≠ "" → GetPodsForNode (node_Name node) = inr pods →
  let h' := node_Update GetPodsForNode old node h in
  let added := omap (λ pod, owner ← meta_Controller (pod_meta pod); Some (meta_Namespace (pod_meta pod), owner_Name owner)) pods in
  handler_queue h' = handler_queue h ++
    (if decide (unhealthy node ∧ node_Name node ∉ down_set (handler_manager h)) then added else []) ∧
  (∀ p owner, p ∈ cluster → pod_NodeName (pod_Spec p) = node_Name node → meta_Controller (pod_meta p) = Some owner →
     IsAresJob (Some owner) = true → (meta_Namespace (pod_meta p), owner_Name owner) ∈ added) ∧
  manager_inv (handler_manager h') ∧
  down_set (handler_manager h') =
    (if decide (unhealthy node) then {[node_Name node]} ∪ down_set (handler_manager h)
     else down_set (handler_manager h) ∖ {[node_Name node]}).
Proof.
  intros Hinv Hname Hpods. cbv zeta.
  pose proof (manager_step_spec (handler_manager h) (Observed node)) as Hstep.
  pose proof (manager_step_inv _ (Observed node) Hinv) as Hinv'. simpl in Hstep, Hinv'.
  unfold node_Update, HandleUpdate. destruct (HandleGeneric (handler_manager h) node) as [b m].
  simpl in Hstep, Hinv'. cbn [handler_manager handler_queue].
  assert (Hb : b = true ↔ unhealthy node ∧ node_Name node ∉ down_set (handler_manager h)).
  { case_decide; injection Hstep as -> _; rewrite ?bool_decide_eq_true; naive_solver. }
  assert (Hon : ∀ p, p ∈ pods ↔ p ∈ cluster ∧ node_Name node ∈ IndexNodeName p).
  { intros p. rewrite (list_law _ _ _ _ Hpods p). naive_solver. }
  split_and!; [| |done|by case_decide; injection Hstep].
  - destruct b; simpl; [rewrite decide_True by by apply Hb|rewrite decide_False by (intros Hx%Hb; done); by rewrite app_nil_r].
    unfold handlePods. rewrite Hpods. f_equal. apply list_omap_ext, Forall_Forall2_diag, Forall_forall. intros p Hp. apply Hon in Hp as [_ Hp].
    unfold IndexNodeName in Hp. destruct (meta_Controller (pod_meta p)) as [owner|]; [|done].
    destruct (IsAresJob (Some owner)); [done|]. by apply not_elem_of_nil in Hp.
  - intros p owner Hp Hnode Howner His. apply list_elem_of_omap. exists p. rewrite Howner. split; [|done].
    apply Hon. split; [done|]. unfold IndexNodeName. rewrite Howner, His. simpl. rewrite decide_True, Hnode; [by left|].
    rewrite Hnode. destruct (node_Name node); [done|simpl; lia].
Qed.

Section watched.
Context `{MapOrder, Kubeflow, Templates, Controller, !ControllerLaws, ApiServer}.
Context {C : Type} (frameworks : string → option (Framework C)) (get : string → string → error + AresJob).

(** The pod belongs to the job, which the informer cache knows. *)
Definition belongs_to (p : Pod) (job : AresJob) : Prop :=
  ∃ ref, meta_Controller (pod_meta p) = Some ref ∧ owner_Kind ref = AresJobKind ∧ owner_UID ref = meta_UID (job_meta job) ∧
    get (meta_Namespace (pod_meta p)) (owner_Name ref) = inr job.

Lemma object_event_run method p job f s :
  belongs_to p job → frameworks (spec_FrameworkType (job_Spec job)) = Some f →
  object_event frameworks get method (PodObject p) s = (_ ← on_world (method f job (PodObject p)); mret true) s.
Proof.
  intros (ref & Href & Hkind & Huid & Hget) Hf. unfold object_event. simpl. rewrite Href. unfold ResolveOwner.
  rewrite decide_False by (intros Hne; by apply Hne). unfold GetJobFromInformerCache. rewrite Hget.
  rewrite decide_False by (intros Hne; by apply Hne). unfold getFramework. by rewrite Hf.
Qed.

Lemma observe_pod_run job key p role observed w :
  KeyFunc (job_meta job) = Done key → pod_type p = role → role ≠ "" →
  observe job (PodObject p) observed w = emit (observed (GenExpectationPodsKey key role)) w.
Proof.
  intros Hkey Htype Hne. unfold observe. rewrite Hkey. cbn [object_meta expect_key]. fold (pod_type p). rewrite Htype.
  rewrite decide_False; [done|]. by destruct role.
Qed.

(** C10: an expectation is met by the pod it was raised for.  For a role whose
    name is valid, the key under which [CreateNewPod] raises the expectation of
    a pod is one of the keys the controller waits for before it reconciles the
    job again; and when the pod, with the labels it was created with, is seen
    appearing or disappearing, the handlers observe its creation or deletion
    under the same key, whatever the state, and let the event through. *)
Theorem created_pod_watched config hosts job role i spec masterRole t p f key s w :
  MatchDNS1123 role = Done tt →
  final_template config hosts job (ToLower role) (Itoa i) spec masterRole = Done t →
  meta_Labels (pod_meta p) = meta_Labels (template_meta t) →
  belongs_to p job → frameworks (spec_FrameworkType (job_Spec job)) = Some f →
  F_AddObject f = AddObject → F_DeleteObject f = DeleteObject →
  KeyFunc (job_meta job) = Done key → the_job w = job →
  let ekey := GenExpectationPodsKey key role in
  let seen a := (Done true, mkCState (c_world s <| the_log ::= λ l, l ++ [a] |>) (c_cache s) (c_queue s)) in
  RaiseExpectations ekey 1 0 ∈ the_log (CreateNewPod config hosts (ToLower role) (Itoa i) spec masterRole w).2 ∧
  ekey ∈ role_keys key role ∧
  handler_AddObject frameworks get (PodObject p) s = seen (CreationObserved ekey) ∧
  handler_DeleteObject frameworks get (PodObject p) s = seen (DeletionObserved ekey).
Proof.
  intros Hrole Ht Hlabels Hbelongs Hf Hadd Hdel Hkey Hjob ekey seen.
  assert (role ≠ "") as Hne by (intros ->; vm_compute in Hrole; discriminate).
  rewrite (MatchDNS1123_lower _ Hrole) in Ht |- *.
  destruct (created_labels config hosts _ _ _ _ _ _ Ht) as (_ & Htype & _). rewrite <- Hlabels in Htype.
  apply labelled_pod_type in Htype. subst job.
  split_and!; [|by left| |].
  - destruct (CreateNewPod_eq config hosts role (Itoa i) spec masterRole w key t Hkey Ht) as (events & _ & Heq).
    cbv zeta in Heq. rewrite Heq. set (log1 := the_log w ++ _).
    assert (RaiseExpectations ekey 1 0 ∈ log1) by (apply elem_of_app; right; apply elem_of_app; right; by left).
    repeat case_match; simpl; apply elem_of_app; by left.
  - unfold handler_AddObject. rewrite (object_event_run _ p (the_job w) f) by done. unfold mbind, eff_bind, on_world.
    rewrite Hadd. unfold AddObject. by rewrite (observe_pod_run _ key p role).
  - unfold handler_DeleteObject. rewrite (object_event_run _ p (the_job w) f) by done. unfold mbind, eff_bind, on_world.
    rewrite Hdel. unfold DeleteObject. by rewrite (observe_pod_run _ key p role).
Qed.
End watched.

(** ** Witnesses *)

Definition ex_ref : OwnerReference := mkOwnerReference AresJobAPIVersion AresJobKind "job" "uid".
Definition ex_owned_job : AresJob :=
  mkAresJob (mkObjectMeta "job" "" "" "uid" None None None [] None) (job_Spec (ex_job "demo" [("worker", ex_role 1 "")]))
    (job_Status (ex_job "demo" [])).
Definition ex_owned_pod : Pod :=
  mkPod (mkObjectMeta "job-worker-0" "" "" "" (Some (<[ReplicaTypeLabel := "worker"]> {[ReplicaIndexLabel := "0"]})) None None [] (Some ex_ref))
    (mkPodSpec [] [] [] false "node-1" "" "" "" "") zero_PodStatus.

Definition ex_lister : PodLister := {|
  ListPods ns index value := 
    inr (filter (λ p, default (meta_Namespace (pod_meta p)) ns = meta_Namespace (pod_meta p) ∧ value ∈ index p) [ex_owned_pod]);
|}.

#[local] Existing Instances canonical_order ex_kubeflow ex_templates base_controller accepting ex_lister.

#[local] Instance ex_lister_laws : PodListerLaws.
Proof.
  refine {| cluster := [ex_owned_pod] |}. intros ns index value pods [= <-] p. rewrite list_elem_of_filter.
  destruct ns; simpl; naive_solver.
Defined.

Lemma indices_find_pods_witness :
  ∃ rolePods, GetPodsForReplica (job_meta ex_owned_job) "worker" = inr rolePods ∧ ex_owned_pod ∈ rolePods.
Proof.
  eexists. split; [reflexivity|].
  assert (Hslash : ∀ p owner, p ∈ cluster → meta_Controller (pod_meta p) = Some owner → ContainsByte "/"%char (owner_Name owner) = false).
  { intros p owner Hp Ho. apply list_elem_of_singleton in Hp. rewrite Hp in Ho. injection Ho as <-. reflexivity. }
  assert (Hin : ex_owned_pod ∈ cluster) by by left.
  destruct (indices_find_pods (job_meta ex_owned_job) "worker" "node-1" _ _ _ Hslash eq_refl ltac:(discriminate) eq_refl eq_refl eq_refl
    ex_owned_pod Hin) as (Hjob & Hrole & _).
  apply Hrole. split; [|split; [discriminate|reflexivity]]. apply Hjob. split; [reflexivity|].
  exists ex_ref. repeat split; reflexivity.
Defined.

Lemma node_down_requeues_witness :
  let down := mkNode "node-1" [mkCondition NodeReady ConditionUnknown "" ""] in
  let h' := node_Update GetPodsForNode down down (mkNodeEventHandler NewManager []) in
  ("", "job") ∈ handler_queue h' ∧ down_set (handler_manager h') = {["node-1"]}.
Proof.
  intros down h'.
  destruct (node_down_requeues down down (mkNodeEventHandler NewManager []) _ ltac:(apply map_Forall_empty) ltac:(discriminate) eq_refl)
    as (Hq & Hall & _ & Hdown).
  assert (Hun : unhealthy down) by (left; reflexivity).
  split.
  - subst h'. rewrite Hq. rewrite decide_True by (split; [exact Hun|apply not_elem_of_empty]).
    apply (Hall ex_owned_pod ex_ref); [by left|reflexivity..].
  - subst h'. rewrite Hdown, decide_True by exact Hun. change (down_set (handler_manager (mkNodeEventHandler NewManager []))) with (∅ : gset string). set_solver.
Defined.

Definition ex_demo_framework : Framework MemoryCache.t :=
  mkFramework Done (λ _, Done tt) (λ _ _ _, mret tt) AddObject DeleteObject (λ _ _ _, mret tt) (mret tt).

Lemma created_pod_watched_witness :
  ∃ t, final_template ex_config (inr []) ex_owned_job (ToLower "worker") (Itoa 0) (ex_replicas 1 "") false = Done t ∧
    let p := mkPod (mkObjectMeta "job-worker-0" "" "" "" (meta_Labels (template_meta t)) None None [] (Some ex_ref))
               (template_Spec t) zero_PodStatus in
    (handler_AddObject (λ _, Some ex_demo_framework) (λ _ _, inr ex_owned_job) (PodObject p)
      (mkCState (mkWorld ex_owned_job []) None [])).1 = Done true.
Proof.
  assert (Hbuilds : ∃ t, final_template ex_config (inr []) ex_owned_job (ToLower "worker") (Itoa 0) (ex_replicas 1 "") false = Done t)
    by (eexists; vm_compute; reflexivity).
  destruct Hbuilds as [t Ht]. exists t. split; [exact Ht|]. intros p.
  destruct (created_pod_watched (λ _, Some ex_demo_framework) (λ _ _, inr ex_owned_job) ex_config (inr []) ex_owned_job "worker" 0
    (ex_replicas 1 "") false t p ex_demo_framework "/job" (mkCState (mkWorld ex_owned_job []) None []) (mkWorld ex_owned_job []))
    as (_ & _ & Hadd & _).
  - vm_compute. reflexivity.
  - exact Ht.
  - reflexivity.
  - exists ex_ref. repeat split; reflexivity.
  - reflexivity.
  - reflexivity.
  - reflexivity.
  - reflexivity.
  - reflexivity.
  - rewrite Hadd. reflexivity.
Defined.
