(* ===== verification/Service.v ===== *)
(** * The service of a role ([reconciler/service.go])

    One headless service per role, over its pods. *)

From S2P Require Import Prelude GoStd Errors Kube Api World ReconcilerUtils Examples Metadata Conf Dependence.
From S2P Require Import NodeManager Cache Phase Pod PodCreate.

(** [common.JobController.GetPortsFromJob] of kubeflow. *)
Class JobControllerPorts := { JobController_GetPortsFromJob : ReplicaSpec → go (gomap Z) }.

Section service.
Context `{MapOrder, Kubeflow, Selectors, ApiServer, Controller, JobControllerPorts}.

Definition FilterServicesForReplicaType (services : list Service) (replicaType : string) : list Service :=
  filter (λ svc, SelectorMatches Common_ReplicaTypeLabel replicaType (meta_Labels (service_meta svc)) = true ∨
                 SelectorMatches ReplicaTypeLabel replicaType (meta_Labels (service_meta svc)) = true) services.

Definition GetPortsFromJob (spec : ReplicaSpec) : go (gomap Z) :=
  if decide (GetDefaultContainerName ≠ "") then JobController_GetPortsFromJob spec
  else
    container ← slice_get (pod_Containers (template_Spec (Template spec))) 0;
    match default [] (container_Ports container) with
    | [] => Done None
    | containerPorts =>
        Done (Some (foldl (λ ports port, <[port_Name port := port_ContainerPort port]> ports) ∅ containerPorts))
    end.

Definition service_ports (ports : gomap Z) : list ServicePort :=
  match (λ '(name, port), mkServicePort name port None) <$> range 0 (contents ports) with
  | [] => [mkServicePort "" 80 (Some 80)]
  | sports => sports
  end.

Definition new_service (job : AresJob) (rt : string) (ports : gomap Z) : Service :=
  let labels := <[ReplicaTypeLabel := rt]> (GenLabels (meta_Name (job_meta job))) in
  mkService (zero_ObjectMeta <| meta_Name := GenerateServiceName (meta_Name (job_meta job)) rt |>
                             <| meta_Labels := Some labels |>)
    "None" labels (service_ports ports).

Definition CreateNewSharedService (rtype : string) (spec : ReplicaSpec) : op unit :=
  job ← get_job;
  jobKey ← lift (KeyFunc (job_meta job));
  let rt := ToLower rtype in
  ports ← lift (GetPortsFromJob spec);
  let service := new_service job rt ports in
  let expectationServicesKey := GenExpectationServicesKey jobKey rt in
  _ ← emit (RaiseExpectations expectationServicesKey 1 0);
  result ← attempt (request (CreateServiceWithControllerRef (meta_Namespace (job_meta job)) service (job_meta job)));
  match result with
  | inr _ => mret tt
  | inl err =>
      if IsTimeout err then mret tt
      else _ ← emit (CreationObserved expectationServicesKey); throw err
  end.

Definition ReconcileServices (services : list Service) (rtype : string) (spec : ReplicaSpec) : op unit :=
  let rt := ToLower rtype in
  match FilterServicesForReplicaType services rt with
  | [] => CreateNewSharedService rtype spec
  | _ => mret tt
  end.
End service.

(** ** Properties *)

(** The full name under which a pod with a host name and a subdomain is
    reached in a namespace. *)
Definition pod_fqdn (t : PodTemplateSpec) (ns : string) : string :=
  pod_Hostname (template_Spec t) +:+ "." +:+ pod_Subdomain (template_Spec t) +:+ "." +:+ ns +:+ ".svc.cluster.local".

(** C33: the addresses the operator hands out reach the pods it creates: for a
    framework that keeps the default names and a job whose labels are not
    overridden, the template of the pod of a role and index has the full
    domain name that [GetPodDomainName] computes for it, its subdomain is the
    name of the role's service, and every label the service selects on is a
    label of the pod. *)
Theorem pod_addresses_agree
    `{MapOrder, Kubeflow, Templates, Controller, !ControllerLaws, JobControllerPorts}
    config hosts job rt i spec masterRole t ports :
  (∀ name role index, GeneratePodName name role index = GenGeneralName name role index) →
  (∀ name role, GenerateServiceName name role = GetGeneralSharedName name role) →
  final_template config hosts job rt (Itoa i) spec masterRole = Done t →
  pod_fqdn t (meta_Namespace (job_meta job)) =
    GetPodDomainName (meta_Name (job_meta job)) (meta_Namespace (job_meta job)) rt i ∧
  pod_Subdomain (template_Spec t) = meta_Name (service_meta (new_service job rt ports)) ∧
  ∀ key v, service_Selector (new_service job rt ports) !! key = Some v →
    meta_Labels (template_meta t) !? key = Some v.
Proof.
  intros Hpod Hsvc Ht.
  destruct (final_template_names _ _ _ _ _ _ _ _ Ht) as [Hhost Hsub].
  split_and!.
  - unfold pod_fqdn, GetPodDomainName, GetServiceDomainName. by rewrite Hhost, Hsub, Hpod.
  - simpl. by rewrite Hsub, Hsvc.
  - simpl. intros key v Hv. rewrite (final_template_labels _ _ _ _ _ _ _ _ Ht), new_pod_template_labels.
    assert (pod_labels job rt (Itoa i) masterRole !! key = Some v ∧ IsJobLevelKey key = false) as [-> ->];
      [|by destruct (contents _ !! key)].
    unfold pod_labels, GenLabels in *.
    apply lookup_insert_Some in Hv as [[<- <-]|[Hk Hv]];
      [|apply lookup_insert_Some in Hv as [[<- <-]|[Hk' [<- <-]%lookup_singleton_Some]]].
    all: split; [|reflexivity]; destruct masterRole; simpl;
      rewrite ?(lookup_insert_ne _ JobRoleLabel) by done; rewrite ?(lookup_insert_ne _ ReplicaIndexLabel) by done;
      rewrite ?lookup_insert_eq; try done; rewrite ?(lookup_insert_ne _ ReplicaTypeLabel) by done;
      rewrite ?lookup_insert_eq; try done; rewrite ?lookup_insert_ne by done; by rewrite ?lookup_singleton_eq.
Qed.

(** A role has one service: with a service of the role at hand the
    reconciliation does nothing; without one, and when its ports can be read,
    it raises one expectation and requests one headless service, which the
    next reconciliation recognises as the role's, and an error other than a
    timeout takes the expectation back. *)
Theorem ReconcileServices_once
    `{MapOrder, Kubeflow, Selectors, ApiServer, Controller, JobControllerPorts} services rtype spec w key ports :
  (∀ key value labels, SelectorMatches key value labels = true ↔ labels !? key = Some value) →
  KeyFunc (job_meta (the_job w)) = Done key → GetPortsFromJob spec = Done ports →
  let rt := ToLower rtype in
  let svc := new_service (the_job w) rt ports in
  let ekey := GenExpectationServicesKey key rt in
  let create := CreateServiceWithControllerRef (meta_Namespace (job_meta (the_job w))) svc (job_meta (the_job w)) in
  let raised := w <| the_log ::= λ l, l ++ [RaiseExpectations ekey 1 0] |> in
  (FilterServicesForReplicaType services rt ≠ [] → ReconcileServices services rtype spec w = (Done tt, w)) ∧
  (FilterServicesForReplicaType services rt = [] →
     ReconcileServices services rtype spec w =
       match answer (the_log raised) create with
       | Some e => if IsTimeout e then (Done tt, raised <| the_log ::= λ l, l ++ [create] |>)
                   else (Fail e, raised <| the_log ::= λ l, l ++ [create; CreationObserved ekey] |>)
       | None => (Done tt, raised <| the_log ::= λ l, l ++ [create] |>)
       end) ∧
  (∀ w', ReconcileServices (svc :: services) rtype spec w' = (Done tt, w')) ∧
  service_ClusterIP svc = "None" ∧ service_Ports svc ≠ [].
Proof.
  intros Hsel Hkey Hports. destruct w as [job log]. simpl in *.
  split_and!.
  - unfold ReconcileServices. by destruct (FilterServicesForReplicaType services (ToLower rtype)).
  - unfold ReconcileServices. intros ->. unfold CreateNewSharedService, set_field, set_the_log.
    rewrite (eff_bind_Done _ _ _ job (mkWorld job log)) by done.
    rewrite (eff_bind_Done _ _ _ key (mkWorld job log)) by (unfold lift; by rewrite Hkey).
    rewrite (eff_bind_Done _ _ _ ports (mkWorld job log)) by (unfold lift; by rewrite Hports).
    unfold mbind, eff_bind, emit, modify, attempt, request, throw, mret, eff_ret, set_field, set_the_log. simpl.
    destruct (answer _ _) as [e|]; simpl; [|done]. destruct (IsTimeout e); simpl; by rewrite <- ?app_assoc.
  - intros w'. unfold ReconcileServices, FilterServicesForReplicaType. rewrite filter_cons.
    rewrite decide_True; [done|]. right. apply Hsel. simpl. rewrite mlookup_Some. apply lookup_insert_eq.
  - done.
  - simpl. unfold service_ports. by destruct ((λ '(name, port), _) <$> _).
Qed.

#[local] Existing Instances canonical_order canonical_sort ex_kubeflow ex_text ex_selectors ex_templates
  base_controller accepting.
#[local] Instance ex_ports : JobControllerPorts := {| JobController_GetPortsFromJob _ := Done None |}.

Lemma pod_addresses_agree_witness :
  let job := ex_job "demo" [("worker", ex_role 2 "")] in
  ∃ t, final_template ex_config (inr []) job "worker" "1" (ex_replicas 2 "") false = Done t ∧
    pod_fqdn t "" = "job-worker-1.job-worker..svc.cluster.local".
Proof.
  intros job. eexists. split; [vm_compute; reflexivity|].
  match goal with |- pod_fqdn ?t "" = _ =>
    destruct (pod_addresses_agree ex_config (inr []) job "worker" 1 (ex_replicas 2 "") false t None) as (Hf & _ & _)
  end; [reflexivity|reflexivity|vm_compute; reflexivity|].
  exact Hf.
Defined.

Lemma ReconcileServices_once_witness :
  let w := mkWorld (ex_job "demo" [("worker", ex_role 2 "")]) [] in
  ∃ svc, ReconcileServices [] "worker" (ex_replicas 2 "") w =
    (Done tt, w <| the_log := [RaiseExpectations "/job/worker/services" 1 0;
                              CreateServiceWithControllerRef "" svc (job_meta (the_job w))] |>).
Proof.
  intros w. eexists.
  destruct (ReconcileServices_once [] "worker" (ex_replicas 2 "") w "/job" (Some {["port" := 2222]})) as (_ & Hno & _).
  - intros key value labels. simpl. by rewrite bool_decide_eq_true.
  - reflexivity.
  - vm_compute. reflexivity.
  - apply Hno. reflexivity.
Defined.
