(* ===== verification/RolePhase.v ===== *)
(** * The phase of a role, from its pods

    The rules that [GetRolePhase] implements, stated on counts of pods, and
    the transition system they generate; a reconcile round is
    [UpdateRoleReplicas] followed by [UpdateRolePhase]. *)

From S2P Require Import Prelude GoStd Errors Kube Api World ReconcilerUtils Examples NodeManager Cache Phase PhaseCount.

(** ** The rules *)

(** The counter meets the policy, of which the default is to never. *)
Definition threshold (policy : option string) (counter replicas : Z) : Prop :=
  (policy = Some RolePhaseConditionAnyPod ∧ 0 < counter) ∨
  (policy = Some RolePhaseConditionAllPods ∧ replicas ≤ counter).
#[export] Instance threshold_dec policy counter replicas : Decision (threshold policy counter replicas).
Proof. unfold threshold. apply _. Defined.

(** Pods the operator still knows of: neither gone nor terminating. *)
Definition known (f : pod_class → Z) : Z := f CActive + f CSucceeded + f CFailed + f CUnknown + f CPending.

(** The phase a role of [replicas] replicas moves to from [last], when [f]
    counts its pods. *)
Inductive role_rule (spec : RoleSpec) (policy : string) (replicas : Z) (last : string)
    (f : pod_class → Z) : string → Prop :=
| rule_failed :
    threshold (rpolicy_Failed (role_RolePhasePolicy spec)) (f CFailed) replicas →
    role_rule spec policy replicas last f RolePhaseFailed
| rule_succeeded :
    ¬ threshold (rpolicy_Failed (role_RolePhasePolicy spec)) (f CFailed) replicas →
    threshold (rpolicy_Succeeded (role_RolePhasePolicy spec)) (f CSucceeded) replicas →
    role_rule spec policy replicas last f RolePhaseSucceeded
| rule_running :
    ¬ threshold (rpolicy_Failed (role_RolePhasePolicy spec)) (f CFailed) replicas →
    ¬ threshold (rpolicy_Succeeded (role_RolePhasePolicy spec)) (f CSucceeded) replicas →
    replicas ≤ f CActive →
    role_rule spec policy replicas last f RolePhaseRunning
| rule_starting :
    ¬ threshold (rpolicy_Failed (role_RolePhasePolicy spec)) (f CFailed) replicas →
    ¬ threshold (rpolicy_Succeeded (role_RolePhasePolicy spec)) (f CSucceeded) replicas →
    f CActive < replicas → last = RolePhasePending →
    role_rule spec policy replicas last f RolePhaseStarting
| rule_lost :
    ¬ threshold (rpolicy_Failed (role_RolePhasePolicy spec)) (f CFailed) replicas →
    ¬ threshold (rpolicy_Succeeded (role_RolePhasePolicy spec)) (f CSucceeded) replicas →
    f CActive < replicas → last = RolePhaseRunning →
    policy = RestartPolicyNever → known f < replicas →
    role_rule spec policy replicas last f RolePhaseFailed
| rule_stay :
    ¬ threshold (rpolicy_Failed (role_RolePhasePolicy spec)) (f CFailed) replicas →
    ¬ threshold (rpolicy_Succeeded (role_RolePhasePolicy spec)) (f CSucceeded) replicas →
    f CActive < replicas → last ≠ RolePhasePending →
    ¬ (policy = RestartPolicyNever ∧ last = RolePhaseRunning ∧ known f < replicas) →
    role_rule spec policy replicas last f last.

(** The transitions the rules allow, whatever the pods are. *)
Inductive role_step : string → string → Prop :=
| step_start : role_step RolePhasePending RolePhaseStarting
| step_to last phase :
    phase ∈ [RolePhaseRunning; RolePhaseFailed; RolePhaseSucceeded] → role_step last phase
| step_stay last : last ≠ RolePhasePending → role_step last last.

(** A role that has started never reads as not started again. *)
Definition role_started (phase : string) : Prop := phase ≠ RolePhasePending ∧ phase ≠ RolePhaseStarting.

(** One reconcile round that neither creates nor deletes a pod. *)
Definition sync_role `{MapOrder, Kubeflow, SortSlice, TerminatedText} (now : Z) (nm : Manager)
    (job : AresJob) (role : string) (pods : list Pod) : go (AresJob * list Event) :=
  job ← UpdateRoleReplicas nm job role pods;
  UpdateRolePhase now nm job role pods.

(** Rounds, each with the state of the nodes and of the pods it saw. *)
Fixpoint sync_rounds `{MapOrder, Kubeflow, SortSlice, TerminatedText} (job : AresJob) (role : string)
    (rounds : list (Z * Manager * list Pod)) : go (list string * AresJob) :=
  match rounds with
  | [] => Done ([], job)
  | (now, nm, pods) :: rounds =>
      '(job, _) ← sync_role now nm job role pods;
      '(phases, job') ← sync_rounds job role rounds;
      Done (default "" (role_Phase <$> role_status (job_Status job) role) :: phases, job')
  end.

(** ** Lemmas *)

Lemma policy_holds_threshold policy n replicas :
  policy_holds policy (Done n) replicas = Done (bool_decide (threshold policy n replicas)).
Proof.
  unfold policy_holds. destruct policy as [cond|].
  2:{ by rewrite bool_decide_false by (unfold threshold; naive_solver). }
  case_decide as Hany; [|case_decide as Hall]; simpl.
  - f_equal. apply bool_decide_ext. unfold threshold. subst. naive_solver.
  - f_equal. apply bool_decide_ext. unfold threshold. subst. naive_solver.
  - by rewrite bool_decide_false by (unfold threshold; naive_solver).
Qed.

Lemma role_rule_step spec policy replicas last f phase :
  role_rule spec policy replicas last f phase → role_step last phase.
Proof.
  destruct 1; subst; try by constructor.
  all: apply step_to; rewrite !elem_of_cons; naive_solver.
Qed.

Lemma role_step_started last phase : role_step last phase → role_started last → role_started phase.
Proof.
  destruct 1 as [|last phase Hin|]; [by intros []| |done]. intros _.
  repeat (apply elem_of_cons in Hin as [->|Hin]; [done|]). by apply elem_of_nil in Hin.
Qed.

Section role_phase.
Context `{MapOrder}.

Lemma count_nonneg nm spec pods c : 0 ≤ count nm spec pods c.
Proof. unfold count. lia. Qed.

Lemma count_bound nm spec pods c : count nm spec pods c ≤ Z.of_nat (length pods).
Proof.
  unfold count. pose proof (length_filter (λ pod, classify nm spec pod = Some c) pods). lia.
Qed.

(** Distinct classes count distinct pods. *)
Lemma count_sum nm spec pods (cs : list pod_class) : NoDup cs →
  foldr Z.add 0 (count nm spec pods <$> cs) ≤ Z.of_nat (length pods).
Proof.
  intros Hcs. unfold count. induction pods as [|pod pods IH]; simpl.
  - clear Hcs. induction cs; csimpl; lia.
  - transitivity (foldr Z.add 0 (count nm spec pods <$> cs) + 1); [|unfold count; lia].
    clear IH. induction Hcs as [|c cs Hc Hcs IH]; csimpl; [lia|].
    rewrite filter_cons. case_decide as Hcl; unfold count in *; simpl in *; [|lia].
    replace ((λ c, Z.of_nat (length (filter (λ pod, classify nm spec pod = Some c) (pod :: pods)))) <$> cs)
      with ((λ c, Z.of_nat (length (filter (λ pod, classify nm spec pod = Some c) pods))) <$> cs); [lia|].
    apply list_fmap_ext. intros i c' Hi. rewrite filter_cons, decide_False; [done|].
    rewrite Hcl. intros [= ->]. apply Hc. by apply list_elem_of_lookup_2 in Hi.
Qed.

Lemma known_bound nm spec pods : 0 ≤ known (count nm spec pods) ≤ Z.of_nat (length pods).
Proof.
  pose proof (count_sum nm spec pods [CActive; CSucceeded; CFailed; CUnknown; CPending]) as Hsum.
  csimpl in Hsum. unfold known.
  pose proof (count_nonneg nm spec pods). pose proof (H0 CActive). pose proof (H0 CSucceeded).
  pose proof (H0 CFailed). pose proof (H0 CUnknown). pose proof (H0 CPending).
  split; [lia|]. rewrite <- Hsum; [lia|].
  repeat (apply NoDup_cons; split; [set_solver|]). apply NoDup_nil_2.
Qed.
End role_phase.

(** [GetRolePhase] follows the rules when the counters are the counts of a
    list of pods. *)
Lemma GetRolePhase_rule `{MapOrder, Kubeflow, SortSlice, TerminatedText} nm role spec rs n status last pods :
  role_ReplicaSpec spec = Some rs → Replicas rs = Some n →
  Z.of_nat (length pods) < 2 ^ 31 →
  role_status status role = Some (last <| role_ReplicaStatus := mk_counts (count nm spec pods) |>) →
  ∃ phase, GetRolePhase role spec status = Done phase ∧
    role_rule spec (RestartPolicy rs) n (role_Phase last) (count nm spec pods) phase.
Proof.
  intros Hrs Hn Hlen Hst. unfold GetRolePhase, spec_Replicas, spec_RestartPolicy.
  rewrite Hrs. simpl. rewrite Hn. simpl. rewrite Hst. simpl.
  unfold status_Failed, status_Succeeded, status_Active. simpl.
  pose proof (known_bound nm spec pods) as Hknown. unfold known in Hknown.
  rewrite (wrap32_id (_ + _)) by (unfold int32_range; lia).
  rewrite !policy_holds_threshold. simpl.
  destruct (bool_decide_reflect (threshold (rpolicy_Failed (role_RolePhasePolicy spec))
    (count nm spec pods CFailed) n)); [eexists; split; [done|by apply rule_failed]|].
  destruct (bool_decide_reflect (threshold (rpolicy_Succeeded (role_RolePhasePolicy spec))
    (count nm spec pods CSucceeded) n)); [eexists; split; [done|by apply rule_succeeded]|].
  repeat case_decide; (eexists; split; [done|]);
    [apply rule_running|apply rule_starting|apply rule_lost|apply rule_stay]; unfold known; try lia; naive_solver.
Qed.

(** The whole round: counting, then the phase. *)
Lemma sync_role_rule `{MapOrder, Kubeflow, SortSlice, TerminatedText} now nm job role pods spec rs n js :
  role_spec (job_Spec job) role = Some spec → role_ReplicaSpec spec = Some rs → Replicas rs = Some n →
  status_JobStatus (job_Status job) = Some js → Z.of_nat (length pods) < 2 ^ 31 →
  ∃ job' events st' js',
    sync_role now nm job role pods = Done (job', events) ∧
    job_Spec job' = job_Spec job ∧ job_meta job' = job_meta job ∧
    status_JobStatus (job_Status job') = Some js' ∧
    role_status (job_Status job') role = Some st' ∧
    role_ReplicaStatus st' = mk_counts (count nm spec pods) ∧
    (∀ role', role' ≠ role → role_status (job_Status job') role' = role_status (job_Status job) role') ∧
    role_rule spec (RestartPolicy rs) n (role_Phase (role_status_or_new (job_Status job) role))
      (count nm spec pods) (role_Phase st') ∧
    (events = [] ↔ role_Phase st' = role_Phase (role_status_or_new (job_Status job) role)) ∧
    (role_Phase st' = RolePhaseFailed →
     role_Phase (role_status_or_new (job_Status job) role) ≠ RolePhaseFailed →
     (role_Reason st', role_Message st') = extractFailedReason nm pods n).
Proof.
  intros Hspec Hrs Hn Hjs Hlen. unfold sync_role.
  rewrite (UpdateRoleReplicas_eq _ _ _ _ spec js) by done. simpl.
  unfold UpdateRolePhase. simpl. rewrite Hspec. simpl.
  set (last := role_status_or_new (job_Status job) role).
  edestruct (GetRolePhase_rule nm role spec rs n) as (phase & Hphase & Hrule);
    [done|done|exact Hlen| |].
  2:{ rewrite Hphase. simpl. unfold role_status at 1. simpl. rewrite mlookup_Some, lookup_insert_eq. simpl.
      assert (∀ role' m v, role' ≠ role → mjoin (<[role := v]> (contents m) !! role') =
        (mjoin (m !? role') : option RoleStatus)) as Hother.
      { intros role' m v Hne. rewrite lookup_insert_ne by done. by rewrite mlookup_contents. }
      case_decide as Heq.
      - do 4 eexists. split_and!; [done..| | | | | |]; unfold role_status; simpl.
        + by rewrite mlookup_Some, lookup_insert_eq.
        + done.
        + intros. rewrite mlookup_Some. by apply Hother.
        + simpl. by rewrite <- Heq at 2.
        + done.
        + simpl. by intros ? [].
      - unfold spec_Replicas. rewrite Hrs. simpl. rewrite Hn. simpl.
        unfold update_role_status, role_status. simpl. rewrite mlookup_Some, lookup_insert_eq. simpl.
        assert (∀ m (v : option RoleStatus), (<[role:=v]> m : gmap string _) !! role = Some v) as Hl
          by (intros; apply lookup_insert_eq).
        case_decide as Hf; [destruct (extractFailedReason nm pods n)|]; simpl;
          (do 4 eexists; split_and!; [done..| | | | | |]; simpl; rewrite ?mlookup_Some, ?Hl; try done;
           intros role' Hne; rewrite mlookup_Some, !lookup_insert_ne by done; by rewrite mlookup_contents). }
  unfold role_status. simpl. by rewrite mlookup_Some, lookup_insert_eq.
Qed.

(** A run of rounds walks along the transition system. *)
Lemma sync_rounds_path `{MapOrder, Kubeflow, SortSlice, TerminatedText} role spec rs n rounds :
  role_ReplicaSpec spec = Some rs → Replicas rs = Some n →
  Forall (λ r : Z * Manager * list Pod, Z.of_nat (length r.2) < 2 ^ 31) rounds →
  ∀ job, role_spec (job_Spec job) role = Some spec → is_Some (status_JobStatus (job_Status job)) →
  ∃ phases job', sync_rounds job role rounds = Done (phases, job') ∧
    length phases = length rounds ∧
    ∀ i p q, (role_Phase (role_status_or_new (job_Status job) role) :: phases) !! i = Some p →
      phases !! i = Some q → role_step p q.
Proof.
  intros Hrs Hn Hrounds. induction Hrounds as [|[[now nm] pods] rounds Hlen Hrounds IH]; intros job Hspec [js Hjs]; simpl.
  { do 2 eexists. split_and!; done. }
  destruct (sync_role_rule now nm job role pods spec rs n js) as
    (job1 & ev & st & js1 & Hd & Hs1 & _ & Hj1 & Hst & _ & _ & Hrule & _ & _); [done..|].
  rewrite Hd. simpl.
  destruct (IH job1) as (phases & job' & Hrun & Hl & Hpath); [by rewrite Hs1|by eexists|].
  rewrite Hrun. simpl. rewrite Hst. simpl. do 2 eexists. split_and!; [done|simpl; by rewrite Hl|].
  assert (role_status_or_new (job_Status job1) role = st) as Hst'.
  { unfold role_status_or_new. unfold role_status in Hst. rewrite mlookup_contents in Hst. by rewrite Hst. }
  rewrite Hst' in Hpath.
  intros [|i] p q Hp Hq; simpl in *; simplify_eq.
  - by eapply role_rule_step.
  - by eapply Hpath.
Qed.

Lemma role_path_started last phases i j p q :
  (∀ i p q, (last :: phases) !! i = Some p → phases !! i = Some q → role_step p q) →
  (i ≤ j)%nat → (last :: phases) !! i = Some p → (last :: phases) !! j = Some q →
  role_started p → role_started q.
Proof.
  intros Hpath Hij. revert q. induction Hij as [|j Hij IH]; intros q Hi Hj Hp; [by simplify_eq|].
  assert (is_Some ((last :: phases) !! j)) as [q' Hq'].
  { apply lookup_lt_is_Some. apply lookup_lt_Some in Hj. lia. }
  eapply role_step_started; [by eapply Hpath|]. by apply IH.
Qed.

(** ** Properties *)

(** C1: a reconcile round of a role (counting its pods, then updating its
    phase) always returns, leaves the other roles, the spec and the metadata
    alone, and moves the role's phase exactly by the rules: Failed when the
    failure policy is met by the failed pods, else Succeeded when the success
    policy is, else Running when at least as many pods are active as there
    are replicas, else Starting if the role was Pending, else Failed if it
    was Running, its pods are never restarted and some of them are gone, else
    unchanged; a transition event is emitted exactly when the phase changes. *)
Theorem sync_role_phase `{MapOrder, Kubeflow, SortSlice, TerminatedText} now nm job role pods spec rs n js :
  role_spec (job_Spec job) role = Some spec → role_ReplicaSpec spec = Some rs → Replicas rs = Some n →
  status_JobStatus (job_Status job) = Some js → Z.of_nat (length pods) < 2 ^ 31 →
  ∃ job' events st',
    sync_role now nm job role pods = Done (job', events) ∧
    job_Spec job' = job_Spec job ∧ job_meta job' = job_meta job ∧
    role_status (job_Status job') role = Some st' ∧
    (∀ role', role' ≠ role → role_status (job_Status job') role' = role_status (job_Status job) role') ∧
    role_rule spec (RestartPolicy rs) n (role_Phase (role_status_or_new (job_Status job) role))
      (count nm spec pods) (role_Phase st') ∧
    (events = [] ↔ role_Phase st' = role_Phase (role_status_or_new (job_Status job) role)).
Proof.
  intros Hspec Hrs Hn Hjs Hlen.
  destruct (sync_role_rule now nm job role pods spec rs n js) as
    (job' & ev & st & js1 & ? & ? & ? & ? & ? & ? & ? & ? & ? & _); [done..|].
  by exists job', ev, st.
Qed.

(** C2: over any run of reconcile rounds of a role, with any pods and nodes
    seen in each, every round returns, no round ends in Pending, each phase
    follows from the one before by a transition of [role_step], and once the
    role has left Pending and Starting it never returns to either. *)
Theorem role_phase_never_restarts `{MapOrder, Kubeflow, SortSlice, TerminatedText} job role spec rs n rounds :
  role_spec (job_Spec job) role = Some spec → role_ReplicaSpec spec = Some rs → Replicas rs = Some n →
  is_Some (status_JobStatus (job_Status job)) →
  Forall (λ r : Z * Manager * list Pod, Z.of_nat (length r.2) < 2 ^ 31) rounds →
  ∃ phases job', sync_rounds job role rounds = Done (phases, job') ∧
    length phases = length rounds ∧
    let path := role_Phase (role_status_or_new (job_Status job) role) :: phases in
    (∀ i p q, path !! i = Some p → path !! S i = Some q → role_step p q ∧ q ≠ RolePhasePending) ∧
    (∀ i j p q, (i ≤ j)%nat → path !! i = Some p → path !! j = Some q →
       role_started p → role_started q).
Proof.
  intros Hspec Hrs Hn Hjs Hrounds.
  destruct (sync_rounds_path role spec rs n rounds) with (job := job) as (phases & job' & Hrun & Hl & Hpath);
    [done..|].
  exists phases, job'. split_and!; [done..|]. split.
  - intros i p q Hp Hq. pose proof (Hpath _ _ _ Hp Hq) as Hstep. split; [done|].
    destruct Hstep as [|last phase Hin|]; [done| |done].
    intros ->. by repeat (apply elem_of_cons in Hin as [Hin|Hin]; [done|]); apply elem_of_nil in Hin.
  - intros i j p q Hij Hp Hq. by eapply role_path_started.
Qed.

#[local] Existing Instances canonical_order canonical_sort ex_kubeflow ex_text.

Lemma sync_role_phase_witness :
  let job := ex_job "demo" [("worker", ex_role 2 RestartPolicyNever)] in
  let pods := [ex_pod "worker" 0 PodRunning "a"; ex_pod "worker" 1 PodFailed "b"] in
  ∃ job' events, sync_role 0 NewManager job "worker" pods = Done (job', events) ∧
    role_Phase <$> role_status (job_Status job') "worker" = Some RolePhaseFailed ∧ events ≠ [].
Proof.
  intros job pods.
  destruct (sync_role_phase 0 NewManager job "worker" pods (ex_role 2 RestartPolicyNever)
    (ex_replicas 2 RestartPolicyNever) 2 zero_JobStatus) as (job' & events & st & Hd & _ & _ & Hst & _ & Hr & Hev);
    [reflexivity..|].
  exists job', events. split; [exact Hd|]. rewrite Hst. simpl.
  assert (role_Phase st = RolePhaseFailed) as Hp.
  { inversion Hr; try done; exfalso;
      match goal with H : ¬ threshold (rpolicy_Failed _) _ _ |- _ => apply H end; left; vm_compute; done. }
  split; [by rewrite Hp|]. rewrite Hev, Hp. vm_compute. done.
Defined.

Lemma role_phase_never_restarts_witness :
  let job := ex_job "demo" [("worker", ex_role 1 "")] in
  let rounds := [(0, NewManager, []); (1, NewManager, [ex_pod "worker" 0 PodRunning "a"]); (2, NewManager, [])] in
  ∃ job', sync_rounds job "worker" rounds =
    Done ([RolePhaseStarting; RolePhaseRunning; RolePhaseRunning], job') ∧
    role_started RolePhaseRunning.
Proof.
  intros job rounds.
  destruct (role_phase_never_restarts job "worker" (ex_role 1 "") (ex_replicas 1 "") 1 rounds)
    as (phases & job' & Hrun & _ & _ & Hst); [reflexivity..|by eexists|by repeat constructor|].
  exists job'.
  assert (phases = [RolePhaseStarting; RolePhaseRunning; RolePhaseRunning]) as Hp.
  { vm_compute in Hrun. by simplify_eq. }
  subst phases. split; [exact Hrun|].
  cbv zeta in Hst.
  apply (Hst 2%nat 3%nat RolePhaseRunning RolePhaseRunning); [lia|reflexivity|reflexivity|split; discriminate].
Defined.
