(* ===== verification/PodReconcile.v ===== *)
(** * Reconciling the pods of a role

    What [ReconcilePods] does: the pods it creates and deletes, the
    expectations it leaves, and the pods the status is computed from. *)

From S2P Require Import Prelude GoStd Errors Kube Api World ReconcilerUtils Examples Metadata Conf Dependence.
From S2P Require Import NodeManager Cache Phase Pod PodSlices PodCreate PhaseCount RolePhase.

(** ** Expectations, whatever the API server answers *)

Section balance.
Context `{MapOrder, Kubeflow, Selectors, SortSlice, TerminatedText, Templates, ApiServer, Controller}.
Context (config : Configuration) (hosts : error + list Pod) (now : Z) (nm : Manager).

Lemma balances_request_pod key ns t owner :
  balances (_ ← emit (RaiseExpectations key 1 0);
            result ← attempt (request (CreatePodWithControllerRef ns t owner));
            match result with
            | inr _ => mret tt
            | inl err => if IsTimeout err then mret tt
                         else _ ← emit (CreationObserved key); throw err
            end).
Proof.
  intros [job log]. unfold mbind, eff_bind, emit, modify, attempt, request, throw, mret, eff_ret, set_field, set_the_log.
  simpl. set (create := CreatePodWithControllerRef _ _ _).
  assert (∀ l, the_log (mkWorld job l) = l) as Hlog by done.
  destruct (answer (log ++ [RaiseExpectations key 1 0]) create) as [e|] eqn:Ha; simpl.
  - destruct (IsTimeout e) eqn:He; simpl.
    + exists [RaiseExpectations key 1 0; create]. rewrite <- app_assoc. split; [done|].
      unfold balanced. simpl. by rewrite decide_True by by (unfold may_create; simpl; rewrite Ha).
    + exists [RaiseExpectations key 1 0; create; CreationObserved key]. rewrite <- !app_assoc. split; [done|].
      unfold balanced. simpl. by rewrite decide_False by (unfold may_create; simpl; rewrite Ha, He; done).
  - exists [RaiseExpectations key 1 0; create]. rewrite <- app_assoc. split; [done|].
    unfold balanced. simpl. by rewrite decide_True by (unfold may_create; simpl; rewrite Ha; done).
Qed.

Lemma balances_create rt index spec masterRole : balances (CreateNewPod config hosts rt index spec masterRole).
Proof.
  unfold CreateNewPod. apply balances_bind; [apply balances_get_job|intros job].
  apply balances_bind; [apply balances_lift|intros key].
  apply balances_bind; [apply balances_lift|intros t].
  apply balances_bind; [|intros t'].
  - unfold setRestartPolicy. apply balances_bind; [|intros; apply balances_ret].
    case_decide; [apply balances_event|apply balances_ret].
  - apply balances_bind; [apply balances_lift|intros t'']. apply balances_request_pod.
Qed.

Lemma balances_slice rtype rt key spec n replicas acc slice :
  balances (reconcile_slice config hosts rtype rt key spec n replicas acc slice).
Proof.
  unfold reconcile_slice. destruct acc as [[v c] d], slice as [i [|pod [|pod' l]]].
  - apply balances_bind; [apply balances_get_job|intros job].
    apply balances_bind; [apply balances_lift|intros phase].
    case_decide; [apply balances_ret|]. apply balances_bind; [apply balances_create|intros; apply balances_ret].
  - apply balances_bind; [|intros d'].
    { case_decide; [|apply balances_ret]. apply balances_bind; [apply balances_delete|intros; apply balances_ret]. }
    case_decide; [|apply balances_ret]. apply balances_bind; [apply balances_event|intros _].
    destruct (restarts _ _); [|apply balances_ret].
    apply balances_bind; [apply balances_delete|intros; apply balances_ret].
  - apply balances_ret.
Qed.

Lemma balances_ReconcilePods js pods rtype spec replicas :
  balances (ReconcilePods config hosts now nm js pods rtype spec replicas).
Proof.
  unfold ReconcilePods. apply balances_bind; [apply balances_get_job|intros job].
  apply balances_bind; [apply balances_lift|intros key].
  apply balances_bind; [apply balances_lift|intros n].
  destruct (if decide _ then _ else _) as [reconciling validated].
  apply balances_bind; [apply balances_lift|intros slices].
  apply balances_bind; [apply balances_fold; intros; apply balances_slice|intros [[v c] d]].
  apply balances_bind; [apply balances_get_job|intros job1].
  apply balances_bind; [apply balances_lift|intros job2].
  apply balances_bind; [apply balances_set_job|intros _].
  case_decide; [|apply balances_ret].
  apply balances_bind; [apply balances_lift|intros [job3 events]].
  apply balances_bind; [apply balances_set_job|intros _].
  apply balances_fold. intros _ e. apply balances_event.
Qed.
End balance.

(** ** What is created and deleted, when the requests are accepted *)

Definition created_index (a : action) : option string :=
  match a with
  | CreatePodWithControllerRef _ t _ => meta_Labels (template_meta t) !? ReplicaIndexLabel
  | _ => None
  end.
Definition deleted_pod (a : action) : option (string * string) :=
  match a with DeletePod ns name => Some (ns, name) | _ => None end.

(** The labels of a pod of the role, as far as they are looked at. *)
Definition of_role `{Kubeflow} (rt : string) (a : action) : Prop :=
  match a with
  | CreatePodWithControllerRef _ t _ =>
      meta_Labels (template_meta t) !? ReplicaTypeLabel = Some rt ∧
      is_Some (meta_Labels (template_meta t) !? ReplicaIndexLabel)
  | _ => True
  end.

(** A pod that is created is built for the role: of its spec, for some index. *)
Definition built `{MapOrder, Kubeflow, Templates, Controller} (config : Configuration) (hosts : error + list Pod)
    (job : AresJob) (rt : string) (spec : ReplicaSpec) (a : action) : Prop :=
  match a with
  | CreatePodWithControllerRef _ t _ => ∃ index masterRole, final_template config hosts job rt index spec masterRole = Done t
  | _ => True
  end.

Section built.
Context `{MapOrder, Kubeflow, Templates, Controller, !ControllerLaws}.
Context (config : Configuration) (hosts : error + list Pod).

Lemma local_built job rt spec events : Forall is_local events → Forall (built config hosts job rt spec) events.
Proof. induction 1 as [|e events He _ IH]; constructor; [by destruct e|done]. Qed.

Lemma built_of_role job rt spec new : Forall (built config hosts job rt spec) new → Forall (of_role rt) new.
Proof.
  intros Hnew. eapply Forall_impl; [exact Hnew|]. intros a Ha. destruct a; try done. destruct Ha as (index & masterRole & Ht).
  destruct (created_labels _ _ _ _ _ _ _ _ Ht) as (Hidx & Htype & _). split; [done|]. by rewrite Hidx.
Qed.
End built.

Section actions.
Context `{MapOrder, Kubeflow, Selectors, SortSlice, TerminatedText, Templates, ApiServer, Controller, !ControllerLaws}.
Context (config : Configuration) (hosts : error + list Pod) (now : Z) (nm : Manager).
Context (rtype rt ekey key phase : string) (spec : ReplicaSpec) (n : Z) (replicas : gmap string (option ReplicaSpec)).
Hypothesis accepts : ∀ log a, answer log a = None.

(** A role that has started and whose pods are never restarted gets no new
    pods. *)
Definition creates : bool :=
  negb (bool_decide (RestartPolicy spec = RestartPolicyNever) && IsRoleStarted phase).

Definition out_of_range (i : Z) : bool := bool_decide (i < 0 ∨ n ≤ i).
Definition failed_pod (pod : Pod) : bool := bool_decide (pstatus_Phase (pod_Status pod) = PodFailed).

(** The effect of one slot: indices created, pods deleted, pods kept. *)
Definition slot_creates (slice : Z * list Pod) : list Z :=
  match slice with (i, []) => if creates then [i] else [] | _ => [] end.
Definition slot_deletes (slice : Z * list Pod) : list Pod :=
  match slice with
  | (i, [pod]) => (if out_of_range i then [pod] else []) ++
                  (if failed_pod pod && restarts spec pod then [pod] else [])
  | _ => []
  end.
Definition slot_keeps (slice : Z * list Pod) : list Pod :=
  match slice with
  | (i, [pod]) => if failed_pod pod && restarts spec pod then [] else [pod]
  | _ => []
  end.

Definition pod_key (pod : Pod) : string * string := (meta_Namespace (pod_meta pod), meta_Name (pod_meta pod)).

(** The state the loop works in. *)
Definition loop_ready (job : AresJob) : Prop :=
  KeyFunc (job_meta job) = Done key ∧ RolePhase (job_Status job) rtype = Done phase ∧
  ∀ i masterRole, ∃ t, final_template config hosts job rt (Itoa i) spec masterRole = Done t.

Lemma request_accepted a w : request a w = (Done tt, w <| the_log ::= λ l, l ++ [a] |>).
Proof. unfold request. by rewrite accepts. Qed.

Lemma local_actions events :
  Forall is_local events → omap created_index events = [] ∧ omap deleted_pod events = [].
Proof. induction 1 as [|e events He _ IH]; [done|]. by destruct e. Qed.

Lemma reconcile_slice_spec v c d slice w :
  loop_ready (the_job w) →
  ∃ new, reconcile_slice config hosts rtype rt ekey spec n replicas (v, c, d) slice w =
      (Done (v ++ slot_keeps slice, c + Z.of_nat (length (slot_creates slice)),
             d + Z.of_nat (length (slot_deletes slice))), w <| the_log ::= λ l, l ++ new |>) ∧
    omap created_index new = Itoa <$> slot_creates slice ∧
    omap deleted_pod new = pod_key <$> slot_deletes slice ∧ Forall (built config hosts (the_job w) rt spec) new.
Proof.
  destruct w as [job log]. intros (Hkey & Hphase & Hbuild). simpl in Hkey, Hphase, Hbuild.
  unfold set_field, set_the_log. simpl.
  destruct slice as [i [|pod [|pod' l]]]; simpl.
  - unfold mbind, eff_bind, get_job, gets, lift. simpl. rewrite Hphase. unfold creates.
    case_decide as Hc; [destruct Hc as [Hn Hs]; rewrite (bool_decide_true _ Hn), Hs; simpl|].
    { exists []. simpl. by rewrite !app_nil_r, !Z.add_0_r, Forall_nil. }
    assert (bool_decide (RestartPolicy spec = RestartPolicyNever) && IsRoleStarted phase = false) as ->.
    { destruct (bool_decide_reflect (RestartPolicy spec = RestartPolicyNever)), (IsRoleStarted phase); naive_solver. }
    simpl. set (master := IsMasterRole replicas rtype i).
    destruct (Hbuild i master) as [t Ht].
    destruct (CreateNewPod_eq config hosts rt (Itoa i) spec master (mkWorld job log) key t Hkey Ht)
      as (events & Hev & Heq).
    rewrite Heq, accepts. simpl. destruct (local_actions events Hev) as [He1 He2].
    destruct (created_labels _ _ _ _ _ _ _ _ Ht) as (Hidx & Htype & _).
    exists (events ++ [RaiseExpectations (GenExpectationPodsKey key rt) 1 0;
      CreatePodWithControllerRef (meta_Namespace (job_meta job)) t (job_meta job)]).
    split_and!.
    + rewrite app_nil_r, Z.add_0_r. unfold set_field, set_the_log. simpl. by rewrite <- !app_assoc.
    + rewrite omap_app, He1. simpl. by rewrite Hidx.
    + rewrite omap_app, He2. done.
    + apply Forall_app. split; [by apply local_built|]. repeat constructor. by exists (Itoa i), master.
  - unfold out_of_range, failed_pod.
    set (del := DeletePod (meta_Namespace (pod_meta pod)) (meta_Name (pod_meta pod))).
    set (raise := RaiseExpectations ekey 0 1).
    set (ev := Recorded (mkEvent EventTypeNormal podFailedReason
                 ("Pod " +:+ pod_name pod +:+ " is failed: " +:+ GetPodFailedInfo pod))).
    exists ((if decide (i < 0 ∨ n ≤ i) then [del; raise] else []) ++
            (if decide (pstatus_Phase (pod_Status pod) = PodFailed)
             then ev :: (if restarts spec pod then [del; raise] else []) else [])).
    unfold delete_pod, request, mbind, eff_bind, emit, modify, mret, eff_ret, set_field, set_the_log.
    destruct (decide (i < 0 ∨ n ≤ i)) as [Ho|Ho]; [rewrite (bool_decide_true _ Ho)|rewrite (bool_decide_false _ Ho)];
      destruct (decide (pstatus_Phase (pod_Status pod) = PodFailed)) as [Hf|Hf];
      [rewrite (bool_decide_true _ Hf)|rewrite (bool_decide_false _ Hf)|
       rewrite (bool_decide_true _ Hf)|rewrite (bool_decide_false _ Hf)];
      destruct (restarts spec pod); cbn -[Z.add Z.of_nat]; repeat (rewrite accepts; cbn -[Z.add Z.of_nat]);
      rewrite ?app_nil_r, <- ?app_assoc; (split_and!; [|done..|by repeat constructor]); simpl; repeat first [lia|f_equal].
  - exists []. simpl. by rewrite !app_nil_r, !Z.add_0_r, Forall_nil.
Qed.

Lemma reconcile_slices_spec slices v c d w :
  loop_ready (the_job w) →
  ∃ new, fold_eff (reconcile_slice config hosts rtype rt ekey spec n replicas) (v, c, d) slices w =
      (Done (v ++ (slices ≫= slot_keeps), c + Z.of_nat (length (slices ≫= slot_creates)),
             d + Z.of_nat (length (slices ≫= slot_deletes))), w <| the_log ::= λ l, l ++ new |>) ∧
    omap created_index new = Itoa <$> (slices ≫= slot_creates) ∧
    omap deleted_pod new = pod_key <$> (slices ≫= slot_deletes) ∧ Forall (built config hosts (the_job w) rt spec) new.
Proof.
  revert v c d w. induction slices as [|slice slices IH]; intros v c d w Hw; csimpl.
  { exists []. destruct w as [job log]. unfold set_field, set_the_log. simpl. by rewrite !app_nil_r, !Z.add_0_r, Forall_nil. }
  destruct (reconcile_slice_spec v c d slice w Hw) as (new1 & Heq & Hc1 & Hd1 & Ht1).
  rewrite (eff_bind_Done _ _ _ _ _ Heq).
  destruct (IH (v ++ slot_keeps slice) (c + Z.of_nat (length (slot_creates slice)))
    (d + Z.of_nat (length (slot_deletes slice))) (w <| the_log ::= λ l, l ++ new1 |>))
    as (new2 & -> & Hc2 & Hd2 & Ht2); [by destruct w|].
  exists (new1 ++ new2). destruct w as [job log]. unfold set_field, set_the_log. simpl.
  rewrite !omap_app, Hc1, Hd1, Hc2, Hd2, !length_app, !fmap_app, <- !app_assoc.
  split_and!; [|done..|by apply Forall_app]. rewrite !Nat2Z.inj_add, !Z.add_assoc. done.
Qed.
End actions.

(** ** The plan *)

Section plan.
Context `{Kubeflow, Selectors}.

(** The pods that are grouped, and those that only count in the status. *)
Definition reconciling_pods (spec : ReplicaSpec) (mine : list Pod) : list Pod :=
  if decide (RestartPolicy spec = RestartPolicyNever) then mine else FilterAlivePods mine.
Definition set_aside_pods (spec : ReplicaSpec) (mine : list Pod) : list Pod :=
  if decide (RestartPolicy spec = RestartPolicyNever) then [] else FilterTerminatingPods mine.

(** One slot for every replica and for every index up to the highest. *)
Definition slots (spec : ReplicaSpec) (n : Z) (mine : list Pod) : list (Z * list Pod) :=
  (λ i, (i, slot (reconciling_pods spec mine) i)) <$>
    seqZ 0 (Z.max (max_index (reconciling_pods spec mine) + 1) n).

Definition planned_creations (phase : string) (spec : ReplicaSpec) (n : Z) (mine : list Pod) : list Z :=
  slots spec n mine ≫= slot_creates phase spec.
Definition planned_deletions (spec : ReplicaSpec) (n : Z) (mine : list Pod) : list Pod :=
  slots spec n mine ≫= slot_deletes spec n.
(** The pods the status is computed from. *)
Definition validated_pods (spec : ReplicaSpec) (n : Z) (mine : list Pod) : list Pod :=
  set_aside_pods spec mine ++ (slots spec n mine ≫= slot_keeps spec).

Lemma indexed_grouped pods slices :
  grouped pods slices → indexed slices = (λ i, (i, slot pods i)) <$> seqZ 0 (Z.of_nat (length slices)).
Proof.
  intros Hg. apply list_eq. intros i. unfold indexed. rewrite list_lookup_imap, list_lookup_fmap.
  destruct (slices !! i) as [s|] eqn:Hs.
  - rewrite lookup_seqZ_lt by (apply lookup_lt_Some in Hs; lia). rewrite Z.add_0_l. simpl. by rewrite (Hg _ _ Hs).
  - rewrite lookup_seqZ_ge; [done|]. apply lookup_ge_None in Hs. lia.
Qed.

Lemma indices_in_filter {P : Pod → Prop} `{∀ p, Decision (P p)} pods lo hi :
  indices_in pods lo hi → indices_in (filter P pods) lo hi.
Proof. unfold indices_in. rewrite !Forall_forall. intros Hin p [_ Hp]%list_elem_of_filter. by apply Hin. Qed.

Lemma slot_nil pods i : slot pods i = [] ↔ ∀ pod, pod ∈ pods → parsed_index pod ≠ Some i.
Proof. unfold slot. by rewrite filter_nil_iff. Qed.

Lemma elem_of_planned_creations phase spec n mine i :
  i ∈ planned_creations phase spec n mine ↔
    creates phase spec = true ∧ 0 ≤ i < Z.max (max_index (reconciling_pods spec mine) + 1) n ∧
    ∀ pod, pod ∈ reconciling_pods spec mine → parsed_index pod ≠ Some i.
Proof.
  unfold planned_creations, slots. rewrite list_elem_of_bind. setoid_rewrite list_elem_of_fmap.
  setoid_rewrite elem_of_seqZ. split.
  - intros ([j s] & Hi & j' & [= -> ->] & Hj). simpl in Hi.
    destruct (slot _ j') as [|p l] eqn:Hs; [|by destruct l; apply elem_of_nil in Hi].
    destruct (creates phase spec); [|by apply elem_of_nil in Hi].
    apply list_elem_of_singleton in Hi as ->. split_and!; [done|lia..|]. by apply slot_nil.
  - intros (Hc & Hi & Hno). exists (i, slot (reconciling_pods spec mine) i). split.
    + assert (slot (reconciling_pods spec mine) i = []) as Hs by by apply slot_nil.
      simpl. rewrite Hs, Hc. left.
    + exists i. split; [done|lia].
Qed.

Lemma elem_of_planned_deletions spec n mine pod :
  0 ≤ n → indices_in (reconciling_pods spec mine) 0 (max_index (reconciling_pods spec mine) + 1) →
  pod ∈ planned_deletions spec n mine ↔
    ∃ i, slot (reconciling_pods spec mine) i = [pod] ∧ parsed_index pod = Some i ∧
         (n ≤ i ∨ (failed_pod pod = true ∧ restarts spec pod = true)).
Proof.
  intros Hn Hin. unfold planned_deletions, slots. rewrite list_elem_of_bind. setoid_rewrite list_elem_of_fmap.
  setoid_rewrite elem_of_seqZ.
  assert (∀ i p, slot (reconciling_pods spec mine) i = [p] →
    p ∈ reconciling_pods spec mine ∧ parsed_index p = Some i) as Hslot.
  { intros i p Hs. assert (p ∈ slot (reconciling_pods spec mine) i) as Hp by (rewrite Hs; left).
    by apply list_elem_of_filter in Hp as [? ?]. }
  split.
  - intros ([j s] & Hp & i & [= -> ->] & Hi). simpl in Hp.
    destruct (slot _ i) as [|p l] eqn:Hs; [by apply elem_of_nil in Hp|].
    destruct l as [|p' l]; [|by apply elem_of_nil in Hp].
    destruct (Hslot _ _ Hs) as [_ Hpi]. unfold out_of_range in Hp.
    apply elem_of_app in Hp as [Hp|Hp].
    + case_bool_decide as Ho; [|by apply elem_of_nil in Hp]. apply list_elem_of_singleton in Hp as ->.
      exists i. split_and!; [done..|]. left. lia.
    + destruct (failed_pod p && restarts spec p) eqn:Hf; [|by apply elem_of_nil in Hp].
      apply list_elem_of_singleton in Hp as ->. apply andb_true_iff in Hf.
      exists i. split_and!; [done..|]. by right.
  - intros (i & Hs & Hpi & Hd). exists (i, [pod]). split.
    + simpl. apply elem_of_app. destruct Hd as [Hd|[-> ->]]; [left|right; left].
      unfold out_of_range. rewrite bool_decide_true by lia. left.
    + exists i. rewrite Hs. split; [done|]. destruct (Hslot _ _ Hs) as [Hp _].
      unfold indices_in in Hin. rewrite Forall_forall in Hin. specialize (Hin _ Hp _ Hpi). lia.
Qed.

Lemma slot_length pods i : (length (slot pods i) ≤ length pods)%nat.
Proof. apply length_filter. Qed.
End plan.

(** ** The whole reconciliation *)

Lemma reconciling_pods_indices `{Kubeflow} spec mine lo hi :
  indices_in mine lo hi → indices_in (reconciling_pods spec mine) lo hi.
Proof.
  unfold reconciling_pods. case_decide; [done|]. unfold FilterAlivePods. rewrite FilterPods_filter.
  apply indices_in_filter.
Qed.

Lemma events_are_local events :
  omap created_index (Recorded <$> events) = [] ∧ omap deleted_pod (Recorded <$> events) = [].
Proof. by induction events as [|e events [IH1 IH2]]; simpl. Qed.

Section whole.
Context `{MapOrder, Kubeflow, Selectors, SortSlice, TerminatedText, Templates, ApiServer, Controller, !ControllerLaws}.
Context (config : Configuration) (hosts : error + list Pod) (now : Z) (nm : Manager).

Lemma ReconcilePods_spec js pods rtype spec replicas w key phase rspec n :
  (∀ log a, answer log a = None) →
  loop_ready config hosts rtype (ToLower rtype) key phase spec (the_job w) →
  role_spec (job_Spec (the_job w)) rtype = Some rspec →
  role_ReplicaSpec rspec = Some spec → Replicas spec = Some n → 0 ≤ n < 2 ^ 31 →
  let mine := FilterPodsForReplicaType pods (ToLower rtype) in
  indices_in mine 0 (2 ^ 63 - 1) → Z.of_nat (length (validated_pods spec n mine)) < 2 ^ 31 →
  let job0 := the_job w <| job_Status ::= λ s, s <| status_JobStatus := Some js |> |> in
  ∃ new job', ReconcilePods config hosts now nm (Some js) pods rtype spec replicas w =
      (Done tt, mkWorld job' (the_log w ++ new)) ∧
    omap created_index new = Itoa <$> planned_creations phase spec n mine ∧
    omap deleted_pod new = pod_key <$> planned_deletions spec n mine ∧
    Forall (built config hosts (the_job w) (ToLower rtype) spec) new ∧
    if decide (planned_creations phase spec n mine = [] ∧ planned_deletions spec n mine = [])
    then ∃ events, sync_role now nm job0 rtype (validated_pods spec n mine) = Done (job', events)
    else UpdateRoleReplicas nm job0 rtype (validated_pods spec n mine) = Done job'.
Proof.
  intros Haccept Hready Hrole Hspec Hn Hrange mine Hin Hlen job0.
  destruct w as [job log]. simpl in Hready, Hrole, job0. unfold ReconcilePods.
  rewrite (eff_bind_Done _ _ _ job (mkWorld job log)) by done.
  rewrite (eff_bind_Done _ _ _ key (mkWorld job log)) by (unfold lift; by rewrite (proj1 Hready)).
  rewrite (eff_bind_Done _ _ _ n (mkWorld job log)) by (unfold lift; by rewrite Hn).
  fold mine.
  replace (if decide (RestartPolicy spec = RestartPolicyNever) then (mine, [])
           else (FilterAlivePods mine, FilterTerminatingPods mine))
    with (reconciling_pods spec mine, set_aside_pods spec mine)
    by (unfold reconciling_pods, set_aside_pods; by case_decide).
  destruct (GetPodSlices_spec (reconciling_pods spec mine) n) as (slices & Hs & Hl & Hg & _);
    [lia|by apply reconciling_pods_indices|].
  rewrite (eff_bind_Done _ _ _ slices (mkWorld job log)) by (unfold lift; by rewrite Hs).
  rewrite (indexed_grouped _ _ Hg), Hl. fold (slots spec n mine).
  destruct (reconcile_slices_spec config hosts rtype (ToLower rtype) (GenExpectationPodsKey key rtype) key phase
    spec n replicas Haccept (slots spec n mine) (set_aside_pods spec mine) 0 0 (mkWorld job log) Hready)
    as (new & Heq & Hc & Hd & Htypes).
  rewrite (eff_bind_Done _ _ _ _ _ Heq). simpl. fold (validated_pods spec n mine).
  fold (planned_creations phase spec n mine) in Hc |- *. fold (planned_deletions spec n mine) in Hd |- *.
  rewrite (eff_bind_Done _ _ _ job (mkWorld job (log ++ new))) by done. fold job0.
  destruct (sync_role_rule now nm job0 rtype (validated_pods spec n mine) rspec spec n js)
    as (job2 & events & _ & _ & Hsync & _); [done..|].
  pose proof Hsync as Hsync'. unfold sync_role in Hsync'. apply res_bind_Done in Hsync' as (job1 & Hreps & Hphase).
  rewrite (eff_bind_Done _ _ _ job1 (mkWorld job (log ++ new))) by (unfold lift; by rewrite Hreps).
  rewrite (eff_bind_Done _ _ _ tt (mkWorld job1 (log ++ new))) by done.
  rewrite !Z.add_0_l. case_decide as Hzero.
  - rewrite (eff_bind_Done _ _ _ (job2, events) (mkWorld job1 (log ++ new))) by (unfold lift; by rewrite Hphase).
    rewrite (eff_bind_Done _ _ _ tt (mkWorld job2 (log ++ new))) by done.
    rewrite emit_events. exists (new ++ (Recorded <$> events)), job2.
    destruct (events_are_local events) as [He1 He2]. rewrite !omap_app, He1, He2, !app_nil_r.
    split_and!; [unfold set_field, set_the_log; simpl; by rewrite <- app_assoc|done..| |].
    { apply Forall_app. split; [done|]. apply local_built. by apply Forall_fmap, Forall_true. }
    rewrite decide_True; [by eexists|]. destruct Hzero as [Hz1 Hz2].
    split; apply nil_length_inv; lia.
  - exists new, job1. split_and!; [done..|]. rewrite decide_False; [done|].
    intros [Hz1 Hz2]. rewrite Hz1, Hz2 in Hzero. naive_solver.
Qed.
End whole.

(** ** Properties *)

(** C4: whatever the API server answers and however it ends, reconciling the
    pods of a role leaves the expectations in step with the requests: the
    creations expected are as many as the pod creations that were accepted or
    timed out, and the deletions expected as many as the accepted deletions. *)
Theorem ReconcilePods_expectations
    `{MapOrder, Kubeflow, Selectors, SortSlice, TerminatedText, Templates, ApiServer, Controller}
    config hosts now nm js pods rtype spec replicas w :
  ∃ new, the_log (ReconcilePods config hosts now nm js pods rtype spec replicas w).2 = the_log w ++ new ∧
    total expect_add new = tally may_create (the_log w) new ∧
    total expect_del new = tally accepted_delete (the_log w) new.
Proof. apply balances_ReconcilePods. Qed.

(** C3: when the API server accepts every request and the templates of the
    role can be built, reconciling the pods of a role returns, and:
    - it creates one pod for each index up to the number of replicas, or up to
      the highest index in use when that is larger, that no pod under
      consideration has, in increasing order; and none when the role has
      started and its pods are never restarted;
    - it deletes, of the pods alone in their slot, those whose index is out of
      range and those that failed and are to be restarted;
    - it counts the remaining pods into the status of the role, and updates
      the phase of the role exactly when it created and deleted nothing. *)
Theorem ReconcilePods_plan
    `{MapOrder, Kubeflow, Selectors, SortSlice, TerminatedText, Templates, ApiServer, Controller, !ControllerLaws}
    config hosts now nm js pods rtype spec replicas w key phase rspec n :
  (∀ log a, answer log a = None) →
  KeyFunc (job_meta (the_job w)) = Done key →
  RolePhase (job_Status (the_job w)) rtype = Done phase →
  (∀ i masterRole, ∃ t, final_template config hosts (the_job w) (ToLower rtype) (Itoa i) spec masterRole = Done t) →
  role_spec (job_Spec (the_job w)) rtype = Some rspec →
  role_ReplicaSpec rspec = Some spec → Replicas spec = Some n → 0 ≤ n < 2 ^ 31 →
  let mine := FilterPodsForReplicaType pods (ToLower rtype) in
  let considered := reconciling_pods spec mine in
  indices_in mine 0 (2 ^ 63 - 1) → Z.of_nat (length (validated_pods spec n mine)) < 2 ^ 31 →
  let job0 := the_job w <| job_Status ::= λ s, s <| status_JobStatus := Some js |> |> in
  let created := planned_creations phase spec n mine in
  let deleted := planned_deletions spec n mine in
  (∃ new job', ReconcilePods config hosts now nm (Some js) pods rtype spec replicas w =
      (Done tt, mkWorld job' (the_log w ++ new)) ∧
    omap created_index new = Itoa <$> created ∧
    omap deleted_pod new = pod_key <$> deleted ∧
    if decide (created = [] ∧ deleted = [])
    then ∃ events, sync_role now nm job0 rtype (validated_pods spec n mine) = Done (job', events)
    else UpdateRoleReplicas nm job0 rtype (validated_pods spec n mine) = Done job') ∧
  (∀ i, i ∈ created ↔ ¬ (RestartPolicy spec = RestartPolicyNever ∧ IsRoleStarted phase = true) ∧
     0 ≤ i < Z.max (max_index considered + 1) n ∧ ∀ pod, pod ∈ considered → parsed_index pod ≠ Some i) ∧
  (∀ pod, pod ∈ deleted ↔ ∃ i, slot considered i = [pod] ∧ parsed_index pod = Some i ∧
     (n ≤ i ∨ (failed_pod pod = true ∧ restarts spec pod = true))).
Proof.
  intros Haccept Hkey Hphase Hbuild Hrole Hspec Hn Hrange mine considered Hin Hlen job0 created deleted.
  split_and!.
  - destruct (ReconcilePods_spec config hosts now nm js pods rtype spec replicas w key phase rspec n)
      as (new & job' & ? & ? & ? & _ & ?); [done..|]. by exists new, job'.
  - intros i. unfold created. rewrite elem_of_planned_creations.
    assert (creates phase spec = true ↔ ¬ (RestartPolicy spec = RestartPolicyNever ∧ IsRoleStarted phase = true)) as ->; [|done].
    unfold creates. destruct (bool_decide_reflect (RestartPolicy spec = RestartPolicyNever)), (IsRoleStarted phase); naive_solver.
  - intros pod. apply elem_of_planned_deletions; [lia|].
    apply (max_index_spec _ (2 ^ 63 - 1)); [lia|]. by apply reconciling_pods_indices.
Qed.

#[local] Existing Instances canonical_order canonical_sort ex_kubeflow ex_text ex_selectors ex_templates
  base_controller accepting.

Lemma ReconcilePods_plan_witness :
  let spec := ex_replicas 3 RestartPolicyOnFailure in
  let job := ex_job "demo" [("worker", ex_role 3 RestartPolicyOnFailure)] in
  let pods := [ex_pod "worker" 0 PodRunning "a"; ex_pod "worker" 1 PodFailed "a"; ex_pod "worker" 3 PodRunning "b"] in
  ∃ new job', ReconcilePods ex_config (inr []) 0 NewManager (Some zero_JobStatus) pods "worker" spec ∅ (mkWorld job []) =
      (Done tt, mkWorld job' new) ∧
    omap created_index new = ["2"] ∧ omap deleted_pod new = [("", "worker-1"); ("", "worker-3")] ∧
    option_map role_ReplicaStatus (role_status (job_Status job') "worker") =
      Some (mkReplicaStatus (Some (mkCommonReplicaStatus 2 0 0)) 0 0 0).
Proof.
  intros spec job pods.
  destruct (ReconcilePods_plan ex_config (inr []) 0 NewManager zero_JobStatus pods "worker" spec ∅ (mkWorld job [])
    "/job" RolePhasePending (ex_role 3 RestartPolicyOnFailure) 3) as ((new & job' & Hr & Hc & Hd & Hjob) & _ & _).
  - done.
  - reflexivity.
  - reflexivity.
  - intros i m. eexists. reflexivity.
  - reflexivity.
  - reflexivity.
  - reflexivity.
  - lia.
  - repeat (apply Forall_cons; split; [intros i Hi; vm_compute in Hi; injection Hi as <-; lia|]). constructor.
  - vm_compute. reflexivity.
  - exists new, job'. split; [exact Hr|]. split; [rewrite Hc; vm_compute; reflexivity|].
    split; [rewrite Hd; vm_compute; reflexivity|]. vm_compute in Hjob. injection Hjob as <-. reflexivity.
Defined.
