(* ===== verification/Converge.v ===== *)
(** * The pods of a role converge

    Round after round, with the pods created and deleted by one round seen by
    the next, [ReconcilePods] reaches a state in which it has nothing left to
    do. *)

From S2P Require Import Prelude GoStd Errors Kube Api World ReconcilerUtils Examples Metadata Conf Dependence.
From S2P Require Import NodeManager Cache Phase Pod PodSlices PodCreate PhaseCount RolePhase PodReconcile.

(** ** The cluster

    The API server makes a pod of each template: with the template's labels, a
    name of its own, and pending. *)
Class Admission := spawn : list Pod → string → PodTemplateSpec → Pod.
Class AdmissionLaws `{Admission} : Prop := {
  spawn_labels : ∀ pods ns t, meta_Labels (pod_meta (spawn pods ns t)) = meta_Labels (template_meta t);
  spawn_pending : ∀ pods ns t, pstatus_Phase (pod_Status (spawn pods ns t)) = PodPending;
  spawn_alive : ∀ pods ns t, is_terminating (spawn pods ns t) = false;
  spawn_fresh : ∀ pods ns t, pod_key (spawn pods ns t) ∉ pod_key <$> pods;
}.

Definition spawn_all `{Admission} (pods : list Pod) (new : list action) : list Pod :=
  foldl (λ pods a, match a with CreatePodWithControllerRef ns t _ => pods ++ [spawn pods ns t] | _ => pods end) pods new.

Definition survivors (new : list action) (pods : list Pod) : list Pod :=
  filter (λ p, pod_key p ∉ omap deleted_pod new) pods.

(** The pods after the actions. *)
Definition after `{Admission} (pods : list Pod) (new : list action) : list Pod := spawn_all (survivors new pods) new.

(** ** New pods *)

(** What the API server makes of a template. *)
Definition made_of (t : PodTemplateSpec) (p : Pod) : Prop :=
  meta_Labels (pod_meta p) = meta_Labels (template_meta t) ∧ pstatus_Phase (pod_Status p) = PodPending ∧ is_terminating p = false.

Definition created_template (a : action) : option PodTemplateSpec :=
  match a with CreatePodWithControllerRef _ t _ => Some t | _ => None end.

Lemma spawn_all_spec `{AdmissionLaws} pods new : NoDup (pod_key <$> pods) →
  ∃ created, spawn_all pods new = pods ++ created ∧ Forall2 made_of (omap created_template new) created ∧
    NoDup (pod_key <$> pods ++ created).
Proof.
  revert pods. unfold spawn_all. induction new as [|a new IH]; intros pods Hnd.
  { exists []. rewrite app_nil_r. by repeat constructor. }
  destruct a; try (by apply IH). csimpl. set (p := spawn pods ns template).
  destruct (IH (pods ++ [p])) as (created & Heq & Hall & Hnd').
  { rewrite fmap_app. apply NoDup_app. split_and!; [done| |apply NoDup_singleton].
    intros k Hk ->%list_elem_of_singleton. by apply (spawn_fresh pods ns template). }
  exists (p :: created). rewrite <- app_assoc in Heq, Hnd'. split_and!; [exact Heq| |exact Hnd'].
  constructor; [|exact Hall]. split_and!; [apply spawn_labels|apply spawn_pending|apply spawn_alive].
Qed.

Section visible.
Context `{Kubeflow, Selectors}.

(** The labels by which a pod counts as one of the role. *)
Definition visible (rt : string) (labels : gomap string) : Prop :=
  SelectorMatches Common_ReplicaTypeLabel rt labels = true ∨ SelectorMatches ReplicaTypeLabel rt labels = true.
#[export] Instance visible_dec rt labels : Decision (visible rt labels).
Proof. unfold visible. apply _. Defined.

Definition of_type (rt : string) (p : Pod) : Prop := visible rt (meta_Labels (pod_meta p)).
#[export] Instance of_type_dec rt p : Decision (of_type rt p).
Proof. unfold of_type. apply _. Defined.

(** The index a creation is for, if its pod will be one of the role. *)
Definition created_for (rt : string) (a : action) : option string :=
  match a with
  | CreatePodWithControllerRef _ t _ =>
      if decide (visible rt (meta_Labels (template_meta t))) then meta_Labels (template_meta t) !? ReplicaIndexLabel else None
  | _ => None
  end.
Definition indexed_for (rt : string) (a : action) : Prop :=
  match a with
  | CreatePodWithControllerRef _ t _ =>
      visible rt (meta_Labels (template_meta t)) → is_Some (meta_Labels (template_meta t) !? ReplicaIndexLabel)
  | _ => True
  end.

(** A pod that was just created for an index of a role. *)
Definition new_pod (rt : string) (i : Z) (p : Pod) : Prop :=
  parsed_index p = Some i ∧ of_type rt p ∧ is_terminating p = false ∧ failed_pod p = false.

Lemma created_new_pods rt new created ids :
  Forall2 made_of (omap created_template new) created → Forall (indexed_for rt) new →
  omap (created_for rt) new = Itoa <$> ids → Forall int64_range ids → Forall2 (new_pod rt) ids (filter (of_type rt) created).
Proof.
  revert created ids. induction new as [|a new IH]; intros created ids Hmade Hindexed Hids Hint.
  { inversion Hmade. destruct ids; [constructor|done]. }
  apply Forall_cons in Hindexed as [Ha Hindexed]. destruct a; try (by apply IH).
  csimpl in *. apply Forall2_cons_inv_l in Hmade as (p & created' & (Hlabels & Hpending & Halive) & Hmade & ->).
  assert (of_type rt p ↔ visible rt (meta_Labels (template_meta template))) as Htype by (unfold of_type; by rewrite Hlabels).
  case_decide as Hvis.
  - destruct (Ha Hvis) as [index Hindex]. rewrite Hindex in Hids. csimpl in Hids.
    destruct ids as [|i ids]; [done|]. csimpl in Hids. injection Hids as -> Hids. apply Forall_cons in Hint as [Hi Hint].
    rewrite filter_cons_True by tauto. constructor; [|by apply IH].
    split_and!; [|tauto|done|unfold failed_pod; by rewrite Hpending]. apply labelled_pod_index; [by rewrite Hlabels|done].
  - rewrite filter_cons_False by tauto. by apply IH.
Qed.

(** Of the pods created for different indices, at most one has a given index. *)
Lemma created_slot rt ids created i : Forall2 (new_pod rt) ids created → NoDup ids →
  (i ∉ ids → slot created i = []) ∧ (i ∈ ids → ∃ p, slot created i = [p] ∧ new_pod rt i p).
Proof.
  unfold slot. induction 1 as [|j p ids created Hp _ IH]; intros Hnd; [split; [done|by intros ?%elem_of_nil]|].
  apply NoDup_cons in Hnd as [Hj Hnd]. destruct (IH Hnd) as [IH1 IH2]. rewrite filter_cons, (proj1 Hp). split.
  - intros [Hne Hi]%not_elem_of_cons. rewrite decide_False by congruence. by apply IH1.
  - intros [->|Hi]%elem_of_cons.
    + rewrite decide_True by done. exists p. split; [|done]. by rewrite IH1.
    + rewrite decide_False by (intros [= ->]; done). by apply IH2.
Qed.
End visible.

(** ** The pods that are grouped *)

Section considered.
Context `{Kubeflow, Selectors}.

Definition considered (spec : ReplicaSpec) (rt : string) (pods : list Pod) : list Pod :=
  reconciling_pods spec (FilterPodsForReplicaType pods rt).

Definition is_considered (spec : ReplicaSpec) (rt : string) (p : Pod) : Prop :=
  of_type rt p ∧ (RestartPolicy spec = RestartPolicyNever ∨ is_terminating p = false).

Lemma considered_filter spec rt pods : considered spec rt pods = filter (is_considered spec rt) pods.
Proof.
  unfold considered, reconciling_pods, FilterPodsForReplicaType, is_considered, of_type, visible, FilterAlivePods. case_decide as Hp.
  - apply list_filter_iff. naive_solver.
  - rewrite FilterPods_filter, list_filter_filter. apply list_filter_iff. intros p. destruct (is_terminating p); naive_solver.
Qed.

Lemma slot_app pods pods' i : slot (pods ++ pods') i = slot pods i ++ slot pods' i.
Proof. apply filter_app. Qed.

Lemma considered_app spec rt pods pods' : considered spec rt (pods ++ pods') = considered spec rt pods ++ considered spec rt pods'.
Proof. rewrite !considered_filter. apply filter_app. Qed.

Lemma considered_created spec rt ids created : Forall2 (new_pod rt) ids (filter (of_type rt) created) →
  considered spec rt created = filter (of_type rt) created.
Proof.
  intros Hall. rewrite considered_filter.
  rewrite (list_filter_iff _ (λ p, (RestartPolicy spec = RestartPolicyNever ∨ is_terminating p = false) ∧ of_type rt p))
    by (unfold is_considered; tauto).
  rewrite <- list_filter_filter. apply list_filter_all. intros p Hp. right. apply list_elem_of_lookup in Hp as [j Hj].
  by destruct (Forall2_lookup_r _ _ _ _ _ Hall Hj) as (i & _ & _ & _ & Halive & _).
Qed.

Lemma considered_survivors spec rt new pods :
  considered spec rt (survivors new pods) = survivors new (considered spec rt pods).
Proof. rewrite !considered_filter. unfold survivors. rewrite !list_filter_filter. apply list_filter_iff. naive_solver. Qed.

Lemma slot_survivors new pods i : slot (survivors new pods) i = survivors new (slot pods i).
Proof. unfold slot, survivors. rewrite !list_filter_filter. apply list_filter_iff. naive_solver. Qed.

Lemma survivors_all new pods : omap deleted_pod new = [] → survivors new pods = pods.
Proof.
  intros Hdel. unfold survivors. rewrite Hdel. induction pods as [|p pods IH]; [done|].
  rewrite filter_cons, IH, decide_True by apply not_elem_of_nil. done.
Qed.

(** The created indices are different. *)
Lemma planned_creations_NoDup phase spec n mine : NoDup (planned_creations phase spec n mine).
Proof.
  unfold planned_creations, slots. set (l := seqZ 0 _). assert (NoDup l) as Hnd by apply NoDup_seqZ. clearbody l.
  induction Hnd as [|i l Hi _ IH]; csimpl; [constructor|]. apply NoDup_app. split_and!.
  - destruct (slot _ i) as [|]; [|constructor]. destruct (creates phase spec); [apply NoDup_singleton|constructor].
  - intros j Hj Hin. apply list_elem_of_bind in Hin as ([k s] & Hk & (k' & [= -> ->] & Hkl)%list_elem_of_fmap). simpl in Hk.
    assert (∀ x, j ∈ slot_creates phase spec (x, slot (reconciling_pods spec mine) x) → j = x) as Hslot.
    { intros x. simpl. destruct (slot _ x) as [|]; [|by intros ?%elem_of_nil]. destruct (creates phase spec); [|by intros ?%elem_of_nil].
      by intros ?%list_elem_of_singleton. }
    apply Hi. by rewrite <- (Hslot i), (Hslot k').
  - exact IH.
Qed.

(** ** The highest index *)

Lemma max_index_attained pods : 0 < max_index pods → slot pods (max_index pods) ≠ [].
Proof.
  unfold max_index. enough (∀ acc, 0 ≤ acc → let m := foldl (λ size pod, match parsed_index pod with
    | Some index => Z.max size index | None => size end) acc pods in m = acc ∨ slot pods m ≠ []) as Hgen.
  { intros Hpos. destruct (Hgen 0 ltac:(lia)) as [Heq|]; [|done]. simpl in Heq. lia. }
  induction pods as [|p pods IH]; intros acc Hacc; simpl; [by left|].
  assert (∀ m, slot pods m ≠ [] → slot (p :: pods) m ≠ []) as Hcons.
  { intros m. unfold slot. rewrite filter_cons. by case_decide. }
  destruct (parsed_index p) as [i|] eqn:Hp.
  - destruct (IH (Z.max acc i) ltac:(lia)) as [Heq|]; [|right; by apply Hcons].
    simpl in Heq. rewrite Heq. destruct (Z.max_spec acc i) as [[_ ->]|[_ ->]]; [|by left].
    right. unfold slot. rewrite filter_cons. by rewrite Hp, decide_True.
  - destruct (IH acc Hacc) as [|]; [by left|right; by apply Hcons].
Qed.

Lemma max_index_le pods b : 0 ≤ b → (∀ i, slot pods i ≠ [] → i ≤ b) → max_index pods ≤ b.
Proof.
  intros Hb Hall. destruct (decide (0 < max_index pods)) as [Hpos|]; [|lia]. by apply Hall, max_index_attained.
Qed.

Lemma max_index_nonneg pods : 0 ≤ max_index pods.
Proof.
  unfold max_index. enough (∀ acc, 0 ≤ acc → 0 ≤ foldl (λ size pod, match parsed_index pod with
    | Some index => Z.max size index | None => size end) acc pods) as Hgen by by apply Hgen.
  induction pods as [|p pods IH]; intros acc Hacc; simpl; [done|]. apply IH. case_match; lia.
Qed.

(** By evaluation, on concrete pods. *)
Lemma slot_unique pods : NoDup (omap parsed_index pods) → ∀ i, (length (slot pods i) ≤ 1)%nat.
Proof.
  intros Hnd i. induction pods as [|p pods IH]; simpl; [lia|]. unfold slot in *. rewrite filter_cons. simpl in Hnd.
  destruct (parsed_index p) as [j|] eqn:Hp; [|rewrite decide_False by done; by apply IH].
  apply NoDup_cons in Hnd as [Hj Hnd]. case_decide as Heq; [|by apply IH]. injection Heq as ->.
  assert (filter (λ pod, parsed_index pod = Some i) pods = []) as ->; [|simpl; lia].
  apply filter_nil_iff. intros q Hq Hqi. apply Hj. apply list_elem_of_omap. by exists q.
Qed.

Lemma slot_indices pods lo hi i : indices_in pods lo hi → slot pods i ≠ [] → lo ≤ i < hi.
Proof.
  unfold indices_in, slot. rewrite Forall_forall. intros Hin Hs. destruct (filter _ _) as [|p l] eqn:Hf; [done|].
  assert (p ∈ filter (λ pod, parsed_index pod = Some i) pods) as [Hp Hpp]%list_elem_of_filter by (rewrite Hf; left).
  by apply (Hin p Hpp).
Qed.
End considered.

(** ** One round *)

Section round.
Context `{Kubeflow, Selectors, AdmissionLaws}.
Context (phase : string) (spec : ReplicaSpec) (n : Z) (rt : string).

(** No two pods share a name, no two considered pods an index, and indices are
    small. *)
Record distinct (pods : list Pod) : Prop := {
  distinct_names : NoDup (pod_key <$> pods);
  distinct_indices : ∀ i, (length (slot (considered spec rt pods) i) ≤ 1)%nat;
  distinct_range : indices_in (FilterPodsForReplicaType pods rt) 0 (2 ^ 63 - 1);
}.

(** The number of slots. *)
Definition size (pods : list Pod) : Z := Z.max (max_index (considered spec rt pods) + 1) n.

Definition discarded (i : Z) (p : Pod) : Prop := n ≤ i ∨ (failed_pod p = true ∧ restarts spec p = true).
#[export] Instance discarded_dec i p : Decision (discarded i p).
Proof. unfold discarded. apply _. Defined.

(** The requests carry out the plan of the role, and may do more to other pods. *)
Record does_plan (pods : list Pod) (new : list action) : Prop := {
  plan_created : omap (created_for rt) new = Itoa <$> planned_creations phase spec n (FilterPodsForReplicaType pods rt);
  plan_indexed : Forall (indexed_for rt) new;
  plan_deleted : ∀ p, p ∈ pods → of_type rt p →
    pod_key p ∈ omap deleted_pod new ↔ p ∈ planned_deletions spec n (FilterPodsForReplicaType pods rt);
}.

Hypothesis creates_pods : creates phase spec = true.
Hypothesis positive : 0 < n.

Lemma considered_range pods : distinct pods → indices_in (considered spec rt pods) 0 (max_index (considered spec rt pods) + 1) ∧
  0 ≤ max_index (considered spec rt pods) < 2 ^ 63 - 1.
Proof.
  intros Hd. destruct (max_index_spec (considered spec rt pods) (2 ^ 63 - 1)) as [Hm Hin]; [lia| |done].
  apply reconciling_pods_indices, Hd.
Qed.

Lemma considered_subset pods p : p ∈ considered spec rt pods → p ∈ pods.
Proof. rewrite considered_filter. by intros [_ ?]%list_elem_of_filter. Qed.

(** The pods after the round: those that were there and not discarded, and the
    created ones. *)
Lemma after_plan pods new : distinct pods → size pods < 2 ^ 63 → does_plan pods new →
  ∃ created, after pods new = survivors new pods ++ created ∧
    Forall2 (new_pod rt) (planned_creations phase spec n (FilterPodsForReplicaType pods rt)) (filter (of_type rt) created) ∧
    NoDup (pod_key <$> after pods new).
Proof.
  intros Hd Hsize [Hc Hi _].
  destruct (spawn_all_spec (survivors new pods) new) as (created & Heq & Hall & Hnd).
  - eapply sublist_NoDup; [apply (distinct_names _ Hd)|]. apply (fmap_sublist pod_key), sublist_filter.
  - exists created. unfold after. rewrite Heq. split_and!; [done| |done]. eapply created_new_pods; [done..|].
    apply Forall_forall. intros i (_ & Hr & _)%elem_of_planned_creations.
    fold (considered spec rt pods) in Hr. fold (size pods) in Hr. unfold int64_range. lia.
Qed.

Lemma round_slots pods new i : distinct pods → size pods < 2 ^ 63 → does_plan pods new →
  let C := considered spec rt pods in
  let C' := considered spec rt (after pods new) in
  match slot C i with
  | [] => if decide (0 ≤ i < size pods) then ∃ p, slot C' i = [p] ∧ failed_pod p = false else slot C' i = []
  | p :: _ => slot C' i = if decide (discarded i p) then [] else [p]
  end.
Proof.
  intros Hd Hsize Hplan C C'. destruct (after_plan pods new Hd Hsize Hplan) as (created & Heq & Hall & _).
  destruct Hplan as [_ _ Hdel]. unfold C'.
  rewrite Heq, considered_app, considered_survivors, slot_app, slot_survivors, (considered_created _ _ _ _ Hall).
  destruct (created_slot rt _ _ i Hall (planned_creations_NoDup _ _ _ _)) as [Hno Hyes].
  rewrite elem_of_planned_creations in Hno, Hyes. fold (considered spec rt pods) in Hno, Hyes. fold C in Hno, Hyes |- *.
  destruct (considered_range pods Hd) as [Hrange _]. fold C in Hrange.
  destruct (slot C i) as [|p l] eqn:Hs.
  - assert (∀ pod, pod ∈ C → parsed_index pod ≠ Some i) as Hnone by by apply slot_nil. case_decide as Hi.
    + destruct Hyes as (p & -> & _ & _ & _ & Hf); [done|]. by exists p.
    + rewrite Hno; [done|]. intros (_ & Hi' & _). by apply Hi.
  - assert (l = []) as ->.
    { pose proof (distinct_indices pods Hd i) as Hlen. fold C in Hlen. rewrite Hs in Hlen. destruct l; [done|simpl in Hlen; lia]. }
    assert (p ∈ slot C i) as Hp by (rewrite Hs; left). apply list_elem_of_filter in Hp as [Hpi Hp].
    rewrite Hno, app_nil_r by (intros (_ & _ & Hnone); by apply (Hnone p)).
    unfold survivors. rewrite filter_cons, filter_nil.
    assert (pod_key p ∈ omap deleted_pod new ↔ discarded i p) as Hiff.
    { assert (p ∈ pods ∧ of_type rt p) as [Hpp Hpt].
      { unfold C in Hp. rewrite considered_filter in Hp. by apply list_elem_of_filter in Hp as [[? _] ?]. }
      rewrite (Hdel p Hpp Hpt). split.
      - intros (j & Hj & Hqj & Hdisc)%elem_of_planned_deletions; [|lia|done]. assert (i = j) as -> by congruence. exact Hdisc.
      - intros Hdisc. apply elem_of_planned_deletions; [lia|done|]. exists i. by split_and!. }
    case_decide as Hin; case_decide as Hdisc; try done; exfalso; tauto.
Qed.

(** ** Progress of a round *)

(** The pods whose slot is of a later replica. *)
Definition top (pods : list Pod) : Z := max_index (considered spec rt pods).

(** No pod is waiting to be replaced. *)
Definition no_restart (pods : list Pod) : Prop :=
  ∀ i p, slot (considered spec rt pods) i = [p] → ¬ (failed_pod p = true ∧ restarts spec p = true).

(** One pod per replica, and none else. *)
Definition settled (pods : list Pod) : Prop :=
  ∀ i, match slot (considered spec rt pods) i with
       | [] => ¬ 0 ≤ i < n
       | [p] => 0 ≤ i < n ∧ ¬ discarded i p
       | _ => False
       end.

Lemma slot_below_top pods i : distinct pods → slot (considered spec rt pods) i ≠ [] → 0 ≤ i ≤ top pods.
Proof.
  intros Hd Hs. destruct (considered_range pods Hd) as [Hin _]. pose proof (slot_indices _ _ _ _ Hin Hs). unfold top. lia.
Qed.

Lemma settled_iff pods : distinct pods →
  settled pods ↔ planned_creations phase spec n (FilterPodsForReplicaType pods rt) = [] ∧
                 planned_deletions spec n (FilterPodsForReplicaType pods rt) = [].
Proof.
  intros Hd. destruct (considered_range pods Hd) as [Hin _]. split.
  - intros Hsettled. split; apply elem_of_nil_inv.
    + intros i (_ & Hi & Hno)%elem_of_planned_creations. apply slot_nil in Hno.
      fold (considered spec rt pods) in Hi, Hno. assert (top pods < n) as Htop.
      { unfold top. destruct (decide (0 < max_index (considered spec rt pods))) as [Hpos|]; [|lia].
        pose proof (max_index_attained _ Hpos) as Hs. specialize (Hsettled (max_index (considered spec rt pods))).
        destruct (slot _ _) as [|p [|q l]]; [done|lia|done]. }
      specialize (Hsettled i). rewrite Hno in Hsettled. unfold top in Htop. lia.
    + intros p (i & Hs & _ & Hdisc)%elem_of_planned_deletions; [|lia|done].
      fold (considered spec rt pods) in Hs. specialize (Hsettled i). rewrite Hs in Hsettled. by destruct Hsettled.
  - intros [Hc Hdel] i. destruct (slot (considered spec rt pods) i) as [|p [|q l]] eqn:Hs.
    + intros Hi. assert (i ∈ planned_creations phase spec n (FilterPodsForReplicaType pods rt)) as Hin'.
      { apply elem_of_planned_creations. fold (considered spec rt pods). split_and!; [done|lia..|]. by apply slot_nil. }
      rewrite Hc in Hin'. by apply elem_of_nil in Hin'.
    + destruct (slot_below_top pods i Hd) as [Hi _]; [by rewrite Hs|].
      assert (¬ discarded i p) as Hnd.
      { intros Hdisc. assert (p ∈ planned_deletions spec n (FilterPodsForReplicaType pods rt)) as Hp; [|rewrite Hdel in Hp; by apply elem_of_nil in Hp].
        apply elem_of_planned_deletions; [lia|done|]. exists i. fold (considered spec rt pods). split_and!; [done| |done].
        assert (p ∈ slot (considered spec rt pods) i) as [? _]%list_elem_of_filter by (rewrite Hs; left). done. }
      split; [|done]. unfold discarded in Hnd. lia.
    + pose proof (distinct_indices pods Hd i) as Hlen. rewrite Hs in Hlen. simpl in Hlen. lia.
Qed.

(** The index of the last pod sinks to the last replica's. *)
Lemma round_top pods new : distinct pods → size pods < 2 ^ 63 → does_plan pods new →
  top (after pods new) ≤ Z.max (top pods - 1) (n - 1).
Proof.
  intros Hd Hsize Hplan. apply max_index_le; [lia|]. intros i Hi.
  pose proof (round_slots pods new i Hd Hsize Hplan) as Hround. simpl in Hround.
  destruct (slot (considered spec rt pods) i) as [|p l] eqn:Hs.
  - case_decide as Hr; [|done]. unfold size in Hr. fold (top pods) in Hr.
    destruct (decide (i = top pods)) as [->|]; [|lia]. destruct (decide (0 < top pods)) as [Hpos|]; [|lia].
    by apply max_index_attained in Hpos.
  - destruct (slot_below_top pods i Hd) as [_ Hle]; [by rewrite Hs|].
    case_decide as Hdisc; [done|]. unfold discarded in Hdisc. lia.
Qed.

Lemma round_no_restart pods new : distinct pods → size pods < 2 ^ 63 → does_plan pods new → no_restart (after pods new).
Proof.
  intros Hd Hsize Hplan i p Hp [Hf Hr]. pose proof (round_slots pods new i Hd Hsize Hplan) as Hround. simpl in Hround.
  destruct (slot (considered spec rt pods) i) as [|q l].
  - case_decide; [destruct Hround as (q & Hq & Hqf)|]; congruence.
  - case_decide as Hdisc; [congruence|]. rewrite Hround in Hp. injection Hp as ->. apply Hdisc. by right.
Qed.

(** Without surplus pods nor pods to replace, one round is enough. *)
Lemma round_fills pods new : distinct pods → size pods < 2 ^ 63 → does_plan pods new →
  top pods < n → no_restart pods → settled (after pods new).
Proof.
  intros Hd Hsize Hplan Htop Hok i. pose proof (round_slots pods new i Hd Hsize Hplan) as Hround. simpl in Hround.
  assert (size pods = n) as Hn by (unfold size; fold (top pods); lia). rewrite Hn in Hround.
  destruct (slot (considered spec rt pods) i) as [|p l] eqn:Hs.
  - case_decide as Hi; [|by rewrite Hround]. destruct Hround as (p & -> & Hf). split; [done|].
    unfold discarded. rewrite Hf. intros [|[]]; [lia|done].
  - destruct (slot_below_top pods i Hd) as [Hi Hle]; [by rewrite Hs|].
    assert (l = []) as ->.
    { pose proof (distinct_indices pods Hd i) as Hlen. rewrite Hs in Hlen. destruct l; [done|simpl in Hlen; lia]. }
    assert (¬ discarded i p) as Hdisc.
    { intros [|Hf]; [lia|]. by apply (Hok i p). }
    rewrite decide_False in Hround by done. rewrite Hround. split; [lia|done].
Qed.

Lemma round_distinct pods new : distinct pods → size pods < 2 ^ 63 → does_plan pods new → distinct (after pods new).
Proof.
  intros Hd Hsize Hplan. destruct (after_plan pods new Hd Hsize Hplan) as (created & Heq & Hall & Hnd). split; [done| |].
  - intros i. pose proof (round_slots pods new i Hd Hsize Hplan) as Hround. simpl in Hround.
    destruct (slot (considered spec rt pods) i); case_decide; try (rewrite Hround; simpl; lia).
    destruct Hround as (p & -> & _). done.
  - rewrite Heq. unfold FilterPodsForReplicaType, survivors. rewrite filter_app. apply Forall_app. split.
    + rewrite list_filter_filter, (list_filter_iff _ (λ p, pod_key p ∉ omap deleted_pod new ∧
        (SelectorMatches Common_ReplicaTypeLabel rt (meta_Labels (pod_meta p)) = true ∨
         SelectorMatches ReplicaTypeLabel rt (meta_Labels (pod_meta p)) = true))) by naive_solver.
      rewrite <- list_filter_filter. apply indices_in_filter, Hd.
    + change (indices_in (filter (of_type rt) created) 0 (2 ^ 63 - 1)). clear Heq Hnd.
      assert (Forall (λ i, 0 ≤ i < 2 ^ 63 - 1) (planned_creations phase spec n (FilterPodsForReplicaType pods rt))) as Hr.
      { apply Forall_forall. intros i (_ & Hi & _)%elem_of_planned_creations.
        fold (considered spec rt pods) in Hi. fold (size pods) in Hi. lia. }
      revert Hr. induction Hall as [|i p is' created' (Hi & _) _ IH]; [constructor|]. intros [Hr1 Hr2]%Forall_cons.
      constructor; [|by apply IH]. intros j Hj. rewrite Hi in Hj. by injection Hj as <-.
Qed.
Lemma validated_length pods : distinct pods →
  Z.of_nat (length (validated_pods spec n (FilterPodsForReplicaType pods rt))) ≤
  Z.of_nat (length (set_aside_pods spec (FilterPodsForReplicaType pods rt))) + size pods.
Proof.
  intros Hd. unfold validated_pods. rewrite length_app, Nat2Z.inj_add.
  enough (Z.of_nat (length (slots spec n (FilterPodsForReplicaType pods rt) ≫= slot_keeps spec)) ≤
    Z.of_nat (length (slots spec n (FilterPodsForReplicaType pods rt)))) as Hle.
  { unfold slots in Hle at 2. rewrite length_fmap, length_seqZ in Hle. unfold size. fold (considered spec rt pods) in Hle. lia. }
  induction (slots spec n _) as [|[i [|p [|q l]]] l' IH]; csimpl; [done|lia| |lia].
  rewrite length_app, Nat2Z.inj_add. destruct (failed_pod p && restarts spec p); simpl; lia.
Qed.

Lemma set_aside_after pods new created ids : after pods new = survivors new pods ++ created → Forall2 (new_pod rt) ids (filter (of_type rt) created) →
  (length (set_aside_pods spec (FilterPodsForReplicaType (after pods new) rt)) ≤
   length (set_aside_pods spec (FilterPodsForReplicaType pods rt)))%nat.
Proof.
  intros -> Hall. unfold set_aside_pods. case_decide; [done|]. unfold FilterTerminatingPods, FilterPodsForReplicaType.
  rewrite !FilterPods_filter, !list_filter_filter, filter_app, length_app.
  rewrite (proj2 (filter_nil_iff _ created)).
  2: { intros p Hp [Ht Htype]. assert (p ∈ filter (of_type rt) created) as [i Hi]%list_elem_of_lookup by by apply list_elem_of_filter.
    destruct (Forall2_lookup_r _ _ _ _ _ Hall Hi) as (j & _ & _ & _ & Halive & _). congruence. }
  simpl. rewrite Nat.add_0_r. apply sublist_length. unfold survivors. rewrite list_filter_filter.
  rewrite (list_filter_iff _ (λ p, pod_key p ∉ omap deleted_pod new ∧ (is_terminating p = true ∧
    (SelectorMatches Common_ReplicaTypeLabel rt (meta_Labels (pod_meta p)) = true ∨
     SelectorMatches ReplicaTypeLabel rt (meta_Labels (pod_meta p)) = true)))) by naive_solver.
  rewrite <- list_filter_filter. apply sublist_filter.
Qed.

(** The number of pods that are counted does not grow. *)
Definition few (pods : list Pod) : Prop :=
  Z.of_nat (length (set_aside_pods spec (FilterPodsForReplicaType pods rt))) + size pods < 2 ^ 31.

Lemma few_size pods : few pods → size pods < 2 ^ 63.
Proof. unfold few. lia. Qed.

Lemma few_validated pods : distinct pods → few pods →
  Z.of_nat (length (validated_pods spec n (FilterPodsForReplicaType pods rt))) < 2 ^ 31 ∧ n < 2 ^ 31.
Proof. intros Hd Hfew. pose proof (validated_length pods Hd). unfold few, size in *. lia. Qed.

Lemma few_after pods new : distinct pods → few pods → does_plan pods new → few (after pods new).
Proof.
  intros Hd Hfew Hplan. pose proof (few_size pods Hfew) as Hsize. destruct (after_plan pods new Hd Hsize Hplan) as (created & Heq & Hall & _).
  pose proof (set_aside_after pods new created _ Heq Hall) as Haside. pose proof (round_top pods new Hd Hsize Hplan) as Htop.
  unfold few, size, top in *. lia.
Qed.
End round.

(** ** The rounds *)

(** The requests of one role carry out its plan. *)
Lemma of_role_visible `{Kubeflow, Selectors} rt a :
  (∀ key value labels, SelectorMatches key value labels = true ↔ labels !? key = Some value) →
  of_role rt a → created_for rt a = created_index a ∧ indexed_for rt a.
Proof.
  intros Hsel Ha. destruct a; try done. destruct Ha as [Htype Hindex]. split; [|by intros _]. simpl.
  rewrite decide_True; [done|]. right. by apply Hsel.
Qed.

Lemma deletes_exactly (pods : list Pod) (new : list action) (planned : list Pod) : NoDup (pod_key <$> pods) → (∀ q, q ∈ planned → q ∈ pods) →
  omap deleted_pod new = pod_key <$> planned → ∀ p, p ∈ pods → pod_key p ∈ omap deleted_pod new ↔ p ∈ planned.
Proof.
  intros Hnd Hsub -> p Hp. split; [|apply list_elem_of_fmap_2]. intros (q & Hkey & Hq)%list_elem_of_fmap.
  assert (p = q) as ->; [|done]. apply Hsub in Hq as Hq'. apply list_elem_of_lookup in Hp as [a Ha], Hq' as [b Hb].
  assert (a = b) as ->; [|congruence].
  eapply NoDup_lookup; [exact Hnd|by rewrite list_lookup_fmap, Ha|by rewrite list_lookup_fmap, Hb, Hkey].
Qed.

(** Without creations and deletions the pods stay as they are. *)
Lemma after_idle `{Admission} pods new : omap created_template new = [] → omap deleted_pod new = [] → after pods new = pods.
Proof.
  intros Hc Hd. unfold after, spawn_all. rewrite survivors_all by done. clear Hd. revert pods.
  induction new as [|a new IH]; intros pods; [done|]. destruct a; csimpl in *; try done; by apply IH.
Qed.

Lemma nothing_created `{Kubeflow} rt new : Forall (of_role rt) new → omap created_index new = [] → omap created_template new = [].
Proof.
  induction 1 as [|a new Ha _ IH]; [done|]. destruct a; csimpl; try done. destruct Ha as [_ [i Hi]]. by rewrite Hi.
Qed.

Lemma planned_in_pods `{Kubeflow, Selectors} spec n rt pods q : 0 ≤ n → distinct spec rt pods →
  q ∈ planned_deletions spec n (FilterPodsForReplicaType pods rt) → q ∈ pods ∧ of_type rt q.
Proof.
  intros Hn Hd Hq. apply elem_of_planned_deletions in Hq as (i & Hi & _); [|done|].
  - assert (q ∈ slot (considered spec rt pods) i) as [_ Hin]%list_elem_of_filter by (unfold considered; rewrite Hi; left).
    rewrite considered_filter in Hin. by apply list_elem_of_filter in Hin as [[? _] ?].
  - destruct (max_index_spec (considered spec rt pods) (2 ^ 63 - 1)) as [_ Hin]; [lia|apply reconciling_pods_indices, Hd|done].
Qed.

Lemma own_plan `{Kubeflow, Selectors} phase spec n rt pods new :
  (∀ key value labels, SelectorMatches key value labels = true ↔ labels !? key = Some value) → 0 ≤ n → distinct spec rt pods →
  omap created_index new = Itoa <$> planned_creations phase spec n (FilterPodsForReplicaType pods rt) →
  omap deleted_pod new = pod_key <$> planned_deletions spec n (FilterPodsForReplicaType pods rt) →
  Forall (of_role rt) new → does_plan phase spec n rt pods new.
Proof.
  intros Hsel Hn Hd Hc Hdel Hall. split.
  - rewrite <- Hc. clear Hc Hdel. induction Hall as [|a new Ha _ IH]; [done|]. csimpl.
    by rewrite IH, (proj1 (of_role_visible rt a Hsel Ha)).
  - eapply Forall_impl; [exact Hall|]. intros a Ha. by apply of_role_visible.
  - intros p Hp _. eapply deletes_exactly; [apply Hd| |done|done]. intros q Hq. by eapply planned_in_pods.
Qed.

Lemma UpdateRoleReplicas_phase `{MapOrder} nm job role pods spec js job' phase :
  role_spec (job_Spec job) role = Some spec → status_JobStatus (job_Status job) = Some js →
  Z.of_nat (length pods) < 2 ^ 31 → RolePhase (job_Status job) role = Done phase →
  UpdateRoleReplicas nm job role pods = Done job' →
  RolePhase (job_Status job') role = Done phase ∧ job_meta job' = job_meta job ∧ job_Spec job' = job_Spec job.
Proof.
  intros Hspec Hjs Hlen Hphase. rewrite (UpdateRoleReplicas_eq _ _ _ _ spec js) by done. intros [= <-]. split; [|done].
  unfold RolePhase. simpl. rewrite mlookup_Some, lookup_insert_eq. simpl. unfold role_status_or_new.
  unfold RolePhase in Hphase. rewrite mlookup_contents in Hphase.
  destruct (contents _ !! role) as [[rs|]|]; simpl in *; congruence.
Qed.

Section rounds.
Context `{MapOrder, Kubeflow, Selectors, SortSlice, TerminatedText, Templates, ApiServer, Controller, !ControllerLaws, AdmissionLaws}.
Context (config : Configuration) (hosts : error + list Pod) (now : Z) (nm : Manager).
Context (js : JobStatus) (rtype : string) (spec : ReplicaSpec) (replicas : gmap string (option ReplicaSpec)).

(** One round: the pods are reconciled, and the cluster does what was asked. *)
Definition round (w : world) (pods : list Pod) : option (world * list Pod) :=
  match ReconcilePods config hosts now nm (Some js) pods rtype spec replicas w with
  | (Done tt, w') => Some (w', after pods (drop (length (the_log w)) (the_log w')))
  | _ => None
  end.

Fixpoint rounds (k : nat) (w : world) (pods : list Pod) : option (world * list Pod) :=
  match k with
  | O => Some (w, pods)
  | S k => match round w pods with Some (w', pods') => rounds k w' pods' | None => None end
  end.

Hypothesis accepts : ∀ log a, answer log a = None.
Hypothesis selects : ∀ key value labels, SelectorMatches key value labels = true ↔ labels !? key = Some value.
Context (job0 : AresJob) (key phase : string) (rspec : RoleSpec) (n : Z).
Hypothesis named : KeyFunc (job_meta job0) = Done key.
Hypothesis builds : ∀ job, job_meta job = job_meta job0 → job_Spec job = job_Spec job0 →
  ∀ i masterRole, ∃ t, final_template config hosts job (ToLower rtype) (Itoa i) spec masterRole = Done t.
Hypothesis has_spec : role_spec (job_Spec job0) rtype = Some rspec ∧ role_ReplicaSpec rspec = Some spec ∧ Replicas spec = Some n.
Hypothesis positive : 0 < n.
Hypothesis creates_pods : creates phase spec = true.

Let rt := ToLower rtype.

(** What every round finds. *)
Record round_ready (w : world) (pods : list Pod) : Prop := {
  ready_job : job_meta (the_job w) = job_meta job0 ∧ job_Spec (the_job w) = job_Spec job0;
  ready_phase : RolePhase (job_Status (the_job w)) rtype = Done phase;
  ready_distinct : distinct spec rt pods;
  ready_bound : few spec n rt pods;
}.

Lemma round_run w pods : round_ready w pods →
  let mine := FilterPodsForReplicaType pods rt in
  ¬ (planned_creations phase spec n mine = [] ∧ planned_deletions spec n mine = []) →
  ∃ w' new, round w pods = Some (w', after pods new) ∧ does_plan phase spec n rt pods new ∧ round_ready w' (after pods new).
Proof.
  intros [[Hmeta Hspec] Hphase Hd Hbound] mine Hplan. destruct has_spec as (Hrole & Hrs & Hn).
  pose proof (few_size spec n rt pods Hbound) as Hsize.
  destruct (few_validated spec n rt positive pods Hd Hbound) as [Hlen Hsmall]. fold mine in Hlen.
  destruct (ReconcilePods_spec config hosts now nm js pods rtype spec replicas w key phase rspec n) as
    (new & job' & Hrun & Hc & Hdel & Htypes & Hjob); [done| |by rewrite Hspec|done|done|lia|apply Hd|done|].
  { split; [by rewrite Hmeta|]. split; [done|]. by apply builds. }
  fold rt mine in Hc, Hdel, Htypes, Hjob. rewrite decide_False in Hjob by done.
  assert (does_plan phase spec n rt pods new) as Hdoes by (eapply own_plan; try done; [lia|by eapply built_of_role]).
  exists (mkWorld job' (the_log w ++ new)), new. split_and!; [|done|].
  - unfold round. rewrite Hrun. simpl. by rewrite drop_app_length.
  - destruct (UpdateRoleReplicas_phase nm (the_job w <| job_Status ::= λ s, s <| status_JobStatus := Some js |> |>) rtype
      (validated_pods spec n mine) rspec js job' phase) as (Hp' & Hm' & Hs');
      [simpl; by rewrite Hspec|done|lia|exact Hphase|exact Hjob|].
    split.
    + simpl. by rewrite Hm', Hs'.
    + exact Hp'.
    + by apply (round_distinct phase spec n rt).
    + by apply (few_after phase spec n rt creates_pods positive).
Qed.

Lemma rounds_settle bound w pods : round_ready w pods → no_restart spec rt pods →
  (Z.to_nat (top spec rt pods - n + 1) ≤ bound)%nat →
  ∃ k w' pods', (k ≤ bound + 1)%nat ∧ rounds k w pods = Some (w', pods') ∧ round_ready w' pods' ∧ settled spec n rt pods'.
Proof.
  revert w pods. induction bound as [|bound IH]; intros w pods Hready Hok Hbound.
  all: destruct (decide (planned_creations phase spec n (FilterPodsForReplicaType pods rt) = [] ∧
    planned_deletions spec n (FilterPodsForReplicaType pods rt) = [])) as [Hplan|Hplan];
    [exists 0%nat, w, pods; split_and!; [lia|done|done|by apply (settled_iff phase), Hplan; destruct Hready]|].
  all: destruct (round_run w pods Hready Hplan) as (w' & new & Hround & Hdoes & Hready').
  all: destruct Hready as [_ _ Hd Hb]; pose proof (few_size spec n rt pods Hb) as Hsize.
  - exists 1%nat, w', (after pods new). split_and!; [done|simpl; by rewrite Hround|done|].
    apply (round_fills phase); [done..|lia|done].
  - pose proof (round_top phase spec n rt creates_pods positive pods new Hd Hsize Hdoes) as Htop.
    destruct (IH w' (after pods new) Hready') as (k & w2 & pods2 & Hk & Hrun & ?).
    + by apply (round_no_restart phase spec n rt).
    + lia.
    + exists (S k), w2, pods2. split_and!; [lia|simpl; by rewrite Hround|tauto..].
Qed.

(** A settled state stays as it is. *)
Lemma settled_round w pods : round_ready w pods → settled spec n rt pods → ∃ w', round w pods = Some (w', pods).
Proof.
  intros [[Hmeta Hspec] Hphase Hd Hbound] Hsettled. destruct has_spec as (Hrole & Hrs & Hn).
  apply (settled_iff phase spec n rt creates_pods positive pods Hd) in Hsettled as [Hc0 Hd0].
  set (mine := FilterPodsForReplicaType pods rt) in *.
  destruct (few_validated spec n rt positive pods Hd Hbound) as [Hlen Hsmall]. fold mine in Hlen.
  destruct (ReconcilePods_spec config hosts now nm js pods rtype spec replicas w key phase rspec n) as
    (new & job' & Hrun & Hc & Hdel & Htypes & _); [done| |by rewrite Hspec|done|done|lia|apply Hd|done|].
  { split; [by rewrite Hmeta|]. split; [done|]. by apply builds. }
  fold rt mine in Hc, Hdel. rewrite Hc0 in Hc. rewrite Hd0 in Hdel. exists (mkWorld job' (the_log w ++ new)).
  unfold round. rewrite Hrun. simpl. rewrite drop_app_length. do 2 f_equal. apply after_idle; [|by rewrite Hdel].
  eapply nothing_created; [by eapply built_of_role|done].
Qed.

Lemma rounds_converge w pods : round_ready w pods →
  ∃ k w' pods', (k ≤ Z.to_nat (top spec rt pods - n + 1) + 2)%nat ∧ rounds k w pods = Some (w', pods') ∧
    round_ready w' pods' ∧ settled spec n rt pods'.
Proof.
  intros Hready.
  destruct (decide (planned_creations phase spec n (FilterPodsForReplicaType pods rt) = [] ∧
    planned_deletions spec n (FilterPodsForReplicaType pods rt) = [])) as [Hplan|Hplan].
  { exists 0%nat, w, pods. split_and!; [lia|done|done|]. by apply (settled_iff phase), Hplan; destruct Hready. }
  destruct (round_run w pods Hready Hplan) as (w' & new & Hround & Hdoes & Hready').
  destruct Hready as [_ _ Hd Hb]. pose proof (few_size spec n rt pods Hb) as Hsize.
  pose proof (round_top phase spec n rt creates_pods positive pods new Hd Hsize Hdoes) as Htop.
  destruct (rounds_settle (Z.to_nat (top spec rt pods - n)) w' (after pods new) Hready') as (k & w2 & pods2 & Hk & Hrun & ?).
  - by apply (round_no_restart phase spec n rt).
  - lia.
  - exists (S k), w2, pods2. split_and!; [lia|simpl; by rewrite Hround|tauto..].
Qed.
End rounds.

(** ** Property *)

(** Reconciling the pods of a role terminates.  Let the API server accept
    every request and every pod requested appear, with the labels of its
    template, before the next round; let the templates of the role be
    buildable, its pods have different names, those not being deleted
    different indices, and the role still create pods (it has not started, or
    its pods are restarted).  Then after finitely many rounds, at most two
    more than the number of indices from the number of replicas up to the
    highest in use, every replica has exactly one pod, none of them failed
    with a restart due, no other index has a pod, and the next round asks for
    nothing: it leaves the pods as they are. *)
Theorem role_pods_converge
    `{MapOrder, Kubeflow, Selectors, SortSlice, TerminatedText, Templates, ApiServer, Controller, !ControllerLaws, AdmissionLaws}
    config hosts now nm js rtype spec replicas w pods key phase rspec n :
  (∀ log a, answer log a = None) →
  (∀ key value labels, SelectorMatches key value labels = true ↔ labels !? key = Some value) →
  KeyFunc (job_meta (the_job w)) = Done key →
  RolePhase (job_Status (the_job w)) rtype = Done phase →
  (∀ job, job_meta job = job_meta (the_job w) → job_Spec job = job_Spec (the_job w) →
    ∀ i masterRole, ∃ t, final_template config hosts job (ToLower rtype) (Itoa i) spec masterRole = Done t) →
  role_spec (job_Spec (the_job w)) rtype = Some rspec ∧ role_ReplicaSpec rspec = Some spec ∧ Replicas spec = Some n → 0 < n →
  ¬ (RestartPolicy spec = RestartPolicyNever ∧ IsRoleStarted phase = true) →
  let rt := ToLower rtype in
  distinct spec rt pods →
  Z.of_nat (length (set_aside_pods spec (FilterPodsForReplicaType pods rt))) + size spec n rt pods < 2 ^ 31 →
  ∃ k w' pods', (k ≤ Z.to_nat (max_index (considered spec rt pods) - n + 1) + 2)%nat ∧
    rounds config hosts now nm js rtype spec replicas k w pods = Some (w', pods') ∧
    (∀ i, match slot (considered spec rt pods') i with
          | [p] => 0 ≤ i < n ∧ ¬ (failed_pod p = true ∧ restarts spec p = true)
          | [] => ¬ 0 ≤ i < n
          | _ => False
          end) ∧
    ∃ w'', round config hosts now nm js rtype spec replicas w' pods' = Some (w'', pods').
Proof.
  intros Haccept Hsel Hkey Hphase Hbuild Hspec Hpos Hcreates rt Hd Hbound.
  assert (creates phase spec = true) as Hc.
  { unfold creates. destruct (bool_decide_reflect (RestartPolicy spec = RestartPolicyNever)), (IsRoleStarted phase); naive_solver. }
  assert (round_ready rtype spec (the_job w) phase n w pods) as Hready by by split.
  destruct (rounds_converge config hosts now nm js rtype spec replicas Haccept Hsel (the_job w) key phase rspec n
    Hkey Hbuild Hspec Hpos Hc w pods Hready) as (k & w' & pods' & Hk & Hrun & Hready' & Hsettled).
  exists k, w', pods'. split_and!; [exact Hk|exact Hrun| |].
  - intros i. specialize (Hsettled i). destruct (slot _ i) as [|p [|q l]]; [done| |done].
    destruct Hsettled as [? Hdisc]. split; [done|]. intros Hf. apply Hdisc. by right.
  - by eapply (settled_round config hosts now nm js rtype spec replicas Haccept (the_job w) key phase rspec n).
Qed.

(** ** Witness *)

#[local] Existing Instances canonical_order canonical_sort ex_kubeflow ex_text ex_selectors ex_templates
  base_controller accepting.

#[local] Instance ex_admission : Admission := λ pods ns t,
  mkPod (mkObjectMeta (infinite_fresh (snd ∘ pod_key <$> pods)) "" ns "" (meta_Labels (template_meta t))
           (meta_Annotations (template_meta t)) None [] None)
    (template_Spec t) (mkPodStatus PodPending [] "" "" "" "" []).

#[local] Instance ex_admission_laws : AdmissionLaws.
Proof.
  split; try done. intros pods ns t (p & Hp & Hin)%list_elem_of_fmap.
  apply (infinite_is_fresh (snd ∘ pod_key <$> pods)). apply list_elem_of_fmap. exists p. split; [|done].
  change (infinite_fresh (snd ∘ pod_key <$> pods) = (pod_key p).2). by rewrite <- Hp.
Qed.

(** One replica, and a pod left over from a larger job. *)
Lemma role_pods_converge_witness :
  let spec := ex_replicas 1 RestartPolicyOnFailure in
  let job := ex_job "demo" [("worker", ex_role 1 RestartPolicyOnFailure)] in
  let pods := [ex_pod "worker" 0 PodRunning "a"; ex_pod "worker" 3 PodRunning "b"] in
  ∃ k w' pods', (k ≤ 5)%nat ∧
    rounds ex_config (inr []) 0 NewManager zero_JobStatus "worker" spec ∅ k (mkWorld job []) pods = Some (w', pods') ∧
    ∃ p, slot (considered spec "worker" pods') 0 = [p].
Proof.
  intros spec job pods.
  destruct (role_pods_converge ex_config (inr []) 0 NewManager zero_JobStatus "worker" spec ∅ (mkWorld job []) pods
    "/job" RolePhasePending (ex_role 1 RestartPolicyOnFailure) 1) as (k & w' & pods' & Hk & Hrun & Hslots & _).
  - reflexivity.
  - intros key value labels. simpl. by rewrite bool_decide_eq_true.
  - reflexivity.
  - reflexivity.
  - intros j Hm Hs i m. unfold final_template, new_pod_template, SetScheduler, SetDependence. rewrite Hm, Hs.
    eexists. reflexivity.
  - repeat split.
  - reflexivity.
  - intros [Hp _]. vm_compute in Hp. discriminate Hp.
  - split.
    + vm_compute. repeat constructor; set_solver.
    + apply slot_unique. vm_compute. repeat constructor; set_solver.
    + repeat (apply Forall_cons; split; [intros i Hi; vm_compute in Hi; injection Hi as <-; lia|]). constructor.
  - vm_compute. reflexivity.
  - exists k, w', pods'. split; [vm_compute in Hk; exact Hk|]. split; [exact Hrun|].
    specialize (Hslots 0). simpl in Hslots. destruct (slot _ 0) as [|p [|q l]] eqn:Hs; [exfalso; lia|by exists p|done].
Defined.
