(* ===== verification/FailedReason.v ===== *)
(** * Why a role failed

    [extractFailedReason] looks for a failed pod, then for a pod on a node
    that is down, then for a terminating or a missing pod; a role that fails
    always gets a reason. *)

From S2P Require Import Prelude GoStd Errors Kube Api World ReconcilerUtils Examples NodeManager Cache Phase PhaseCount RolePhase.

Section reason.
Context `{MapOrder, Kubeflow, SortSlice, TerminatedText}.

(** ** What the reasons stand for *)

Definition alive_failed (pod : Pod) : Prop :=
  is_terminating pod = false ∧ pstatus_Phase (pod_Status pod) = PodFailed.
Definition alive_on_down_node (nm : Manager) (pod : Pod) : Prop :=
  is_terminating pod = false ∧ pod_NodeName (pod_Spec pod) ≠ "" ∧
  (IsNodeDown nm (pod_NodeName (pod_Spec pod))).1 = true.
(** Some index below [expected] labels no pod. *)
Definition index_missing (pods : list Pod) (expected : Z) : Prop :=
  ∃ i, 0 ≤ i < expected ∧ ∀ pod, pod ∈ pods → pod_index pod ≠ Itoa i.

(** ** Lemmas *)

Lemma elem_of_missing_indices present expected s :
  s ∈ missing_indices present expected ↔ s ∉ present ∧ ∃ i, s = Itoa i ∧ 0 ≤ i < expected.
Proof.
  unfold missing_indices. rewrite list_elem_of_filter, list_elem_of_fmap.
  by setoid_rewrite elem_of_seqZ.
Qed.

Lemma missing_indices_nil pods expected :
  missing_indices (list_to_set (pod_index <$> pods)) expected ≠ [] ↔ index_missing pods expected.
Proof.
  split.
  - destruct (missing_indices _ _) as [|s l] eqn:Hm; [done|]. intros _.
    assert (s ∈ missing_indices (list_to_set (pod_index <$> pods)) expected) as Hs by (rewrite Hm; left).
    apply elem_of_missing_indices in Hs as (Hs & i & -> & Hi).
    exists i. split; [done|]. intros pod Hpod Heq. apply Hs.
    apply elem_of_list_to_set, list_elem_of_fmap. by exists pod.
  - intros (i & Hi & Hno) Hnil. apply (not_elem_of_nil (Itoa i)). rewrite <- Hnil.
    apply elem_of_missing_indices. split; [|by exists i].
    rewrite elem_of_list_to_set, list_elem_of_fmap. intros (pod & Heq & Hpod). by eapply Hno.
Qed.

(** Fewer pods than indices leave an index without a pod. *)
Lemma index_missing_pigeonhole pods expected :
  Z.of_nat (length pods) < expected < 2 ^ 63 → index_missing pods expected.
Proof.
  intros Hlen. apply missing_indices_nil. intros Hnil.
  assert (Itoa <$> seqZ 0 expected ⊆ pod_index <$> pods) as Hsub.
  { intros s Hs. destruct (decide (s ∈ (list_to_set (pod_index <$> pods) : gset string))) as [Hin|Hin].
    - by apply elem_of_list_to_set in Hin.
    - exfalso. apply (not_elem_of_nil s). rewrite <- Hnil. apply list_elem_of_filter. by split. }
  apply NoDup_submseteq, submseteq_length in Hsub; [rewrite !length_fmap, length_seqZ in Hsub; lia|].
  apply NoDup_fmap_2_strong; [|apply NoDup_seqZ].
  intros a b Ha%elem_of_seqZ Hb%elem_of_seqZ. apply Itoa_inj; unfold int64_range; lia.
Qed.

(** The reason, by cases on the pods. *)
Lemma extractFailedReason_cases nm pods expected reason msg :
  extractFailedReason nm pods expected = (reason, msg) →
  (reason = podFailedReason ∧ ∃ pod, pod ∈ pods ∧ alive_failed pod ∧
     msg = "pod=" +:+ pod_name pod +:+ "; " +:+ GetPodFailedInfo pod) ∨
  (∀ pod, pod ∈ pods → ¬ alive_failed pod) ∧
  ((reason = nodeDownReason ∧ ∃ pod, pod ∈ pods ∧ alive_on_down_node nm pod) ∨
   (∀ pod, pod ∈ pods → ¬ alive_on_down_node nm pod) ∧
   (if decide (reason = podMissingReason)
    then (∃ pod, pod ∈ pods ∧ is_terminating pod = true) ∨ index_missing pods expected
    else reason = "" ∧ (∀ pod, pod ∈ pods → is_terminating pod = false) ∧ ¬ index_missing pods expected)).
Proof.
  unfold extractFailedReason.
  destruct (filter (λ pod, pstatus_Phase (pod_Status pod) = PodFailed) _) as [|pod l] eqn:Hf.
  2:{ apply filter_cons_elem in Hf as [Hp [Ht Hin]%elem_of_FilterAlivePods].
      intros [= <- <-]. left. split; [done|]. by exists pod. }
  assert (∀ pod, pod ∈ pods → ¬ alive_failed pod) as Hnf.
  { intros pod Hin [Ht Hp]. rewrite filter_nil_iff in Hf. apply (Hf pod); [|done].
    by apply elem_of_FilterAlivePods. }
  intros Heq. right. split; [done|]. revert Heq.
  destruct (filter (λ pod, pod_NodeName _ ≠ "" ∧ _) _) as [|pod l] eqn:Hd.
  2:{ apply filter_cons_elem in Hd as [[Hn Hd] [Ht Hin]%elem_of_FilterAlivePods].
      intros [= <- <-]. left. split; [done|]. by exists pod. }
  intros Heq. right. split.
  { intros pod Hin (Ht & Hn & Hdn). rewrite filter_nil_iff in Hd. apply (Hd pod); [|done].
    by apply elem_of_FilterAlivePods. }
  revert Heq. case_decide as Hterm.
  { intros [= <- <-]. rewrite decide_True by done. left.
    destruct (filter (λ pod, is_terminating pod = true) pods) as [|pod l] eqn:Hgone; [done|].
    apply filter_cons_elem in Hgone as [??]. by exists pod. }
  assert (∀ pod, pod ∈ pods → is_terminating pod = false) as Hnt.
  { pose proof (merge_sort_Permutation String.le
      (pod_index <$> filter (λ pod, is_terminating pod = true) pods)) as Hperm.
    rewrite Hterm in Hperm. symmetry in Hperm. apply Permutation_nil_r, fmap_nil_inv in Hperm.
    rewrite filter_nil_iff in Hperm. intros pod Hin%Hperm. by destruct (is_terminating pod). }
  case_decide as Hmiss; intros [= <- <-].
  - rewrite decide_True by done. right. by apply missing_indices_nil.
  - rewrite decide_False by done. split_and!; [done..|]. rewrite <- missing_indices_nil. by intros [].
Qed.

Lemma extractFailedReason_nonempty nm pods expected :
  ((∃ pod, pod ∈ pods ∧ (alive_failed pod ∨ alive_on_down_node nm pod ∨ is_terminating pod = true)) ∨
   index_missing pods expected) →
  (extractFailedReason nm pods expected).1 ≠ "".
Proof.
  intros Hex. destruct (extractFailedReason nm pods expected) as [reason msg] eqn:Heq. simpl.
  apply extractFailedReason_cases in Heq as [[-> _]|[Hnf [[-> _]|[Hnd Hr]]]]; [done..|].
  case_decide as Hm; [by rewrite Hm|]. destruct Hr as (_ & Hnt & Hni).
  exfalso. destruct Hex as [(pod & Hin & [Hf|[Hd|Ht]])|Hex]; [by eapply Hnf|by eapply Hnd| |done].
  by rewrite Hnt in Ht.
Qed.

(** A pod counted as failed is a failed pod or a pod on a node that is down. *)
Lemma count_failed_pod nm spec pods :
  0 < count nm spec pods CFailed → ∃ pod, pod ∈ pods ∧ (alive_failed pod ∨ alive_on_down_node nm pod).
Proof.
  unfold count. destruct (filter _ pods) as [|pod l] eqn:Hf; simpl; [lia|]. intros _.
  apply filter_cons_elem in Hf as [Hc Hin]. exists pod. split; [done|].
  unfold classify, phase_class in Hc. destruct (is_terminating pod) eqn:Ht; [done|].
  case_decide as Hd; [destruct Hd as (? & _ & ?); by right|]. left. split; [done|].
  by repeat case_decide.
Qed.

(** All pods are terminating or known. *)
Lemma known_all nm spec pods :
  Forall (λ pod, is_terminating pod = false ∧ is_Some (classify nm spec pod)) pods →
  known (count nm spec pods) = Z.of_nat (length pods).
Proof.
  induction 1 as [|pod pods [Ht [c Hc]] _ IH]; [done|].
  rewrite length_cons, Nat2Z.inj_succ, <- IH. unfold known, count.
  rewrite !filter_cons, Hc. unfold classify in Hc. rewrite Ht in Hc.
  destruct c; simpl; [|lia..]. unfold phase_class in Hc. by repeat case_decide.
Qed.
End reason.

(** ** Properties *)

(** The reason given for a failure names the first cause that applies:
    PodFailed exactly when a live pod has failed, else PossibleNodeDown
    exactly when a live pod runs on a node that is down, else PodMissing
    exactly when a pod is terminating or some index below the number of
    replicas labels no pod, and no reason otherwise; and when there are fewer
    pods than replicas there always is a reason. *)
Theorem extractFailedReason_precedence `{MapOrder, Kubeflow, SortSlice, TerminatedText} nm pods expected :
  let reason := (extractFailedReason nm pods expected).1 in
  let failed := ∃ pod, pod ∈ pods ∧ alive_failed pod in
  let down := ∃ pod, pod ∈ pods ∧ alive_on_down_node nm pod in
  let missing := (∃ pod, pod ∈ pods ∧ is_terminating pod = true) ∨ index_missing pods expected in
  (reason = podFailedReason ↔ failed) ∧
  (reason = nodeDownReason ↔ ¬ failed ∧ down) ∧
  (reason = podMissingReason ↔ ¬ failed ∧ ¬ down ∧ missing) ∧
  (reason = "" ↔ ¬ failed ∧ ¬ down ∧ ¬ missing) ∧
  (Z.of_nat (length pods) < expected < 2 ^ 63 → reason ≠ "").
Proof.
  intros reason failed down missing.
  assert (Z.of_nat (length pods) < expected < 2 ^ 63 → reason ≠ "") as Hpigeon.
  { intros Hlen. apply extractFailedReason_nonempty. right. by apply index_missing_pigeonhole. }
  destruct (extractFailedReason nm pods expected) as [r msg] eqn:Heq. subst reason. simpl in *.
  assert (podFailedReason ≠ nodeDownReason ∧ podFailedReason ≠ podMissingReason ∧
    nodeDownReason ≠ podMissingReason ∧ podFailedReason ≠ "" ∧ nodeDownReason ≠ "" ∧
    podMissingReason ≠ "") as (? & ? & ? & ? & ? & ?) by done.
  apply extractFailedReason_cases in Heq as [[-> (pod & Hp & Hf & _)]|[Hnf [[-> Hd]|[Hnd Hr]]]].
  - assert failed by by exists pod. naive_solver.
  - assert (¬ failed) by (intros (pod & ? & ?); by eapply Hnf). assert down by done. naive_solver.
  - assert (¬ failed) by (intros (pod & ? & ?); by eapply Hnf).
    assert (¬ down) by (intros (pod & ? & ?); by eapply Hnd).
    case_decide; [subst r; assert missing by done; naive_solver|].
    destruct Hr as (-> & Hnt & Hni).
    assert (¬ missing) by (intros [(pod & Hin & Ht)|Hi]; [by rewrite Hnt in Ht|done]). naive_solver.
Qed.

(** C25: whenever a reconcile round moves a role with at least one replica to
    Failed, whatever rule fired and provided every pod reports one of
    Kubernetes' phases, the status of the role says why: its reason is not
    empty. *)
Theorem failed_role_has_reason `{MapOrder, Kubeflow, SortSlice, TerminatedText} now nm job role pods spec rs n js job' events st' :
  role_spec (job_Spec job) role = Some spec → role_ReplicaSpec spec = Some rs → Replicas rs = Some n →
  status_JobStatus (job_Status job) = Some js → Z.of_nat (length pods) < 2 ^ 31 → 0 < n < 2 ^ 31 →
  Forall (λ pod, is_Some (classify nm spec pod)) pods →
  sync_role now nm job role pods = Done (job', events) →
  role_status (job_Status job') role = Some st' →
  role_Phase st' = RolePhaseFailed →
  role_Phase (role_status_or_new (job_Status job) role) ≠ RolePhaseFailed →
  role_Reason st' ≠ "".
Proof.
  intros Hspec Hrs Hn Hjs Hlen Hpos Hknown Hsync Hst Hfailed Hlast.
  destruct (sync_role_rule now nm job role pods spec rs n js) as
    (job1 & ev & st & js1 & Hd & _ & _ & _ & Hst1 & _ & _ & Hrule & _ & Hreason); [done..|].
  rewrite Hd in Hsync. simplify_eq.
  specialize (Hreason Hfailed Hlast). apply (f_equal fst) in Hreason. simpl in Hreason.
  rewrite Hreason. apply extractFailedReason_nonempty. rewrite Hfailed in Hrule.
  inversion Hrule as [Hth| | | |_ _ _ _ _ Hgone|]; try done.
  - left. destruct (count_failed_pod nm spec pods) as (pod & ? & Hp).
    + by destruct Hth as [[_ ?]|[_ ?]]; lia.
    + exists pod. naive_solver.
  - destruct (decide (Exists (λ pod, is_terminating pod = true) pods)) as [Hex|Hnex].
    + left. apply Exists_exists in Hex as (pod & ? & ?). exists pod. naive_solver.
    + right. apply index_missing_pigeonhole. split; [|lia].
      rewrite <- (known_all nm spec pods); [done|].
      rewrite Forall_forall in Hknown |- *. intros pod Hin. split; [|by apply Hknown].
      destruct (is_terminating pod) eqn:Ht; [|done]. exfalso. apply Hnex, Exists_exists. by exists pod.
Qed.

#[local] Existing Instances canonical_order canonical_sort ex_kubeflow ex_text.

Lemma extractFailedReason_precedence_witness :
  (extractFailedReason NewManager [ex_pod "worker" 0 PodRunning "a"] 2).1 ≠ "".
Proof.
  destruct (extractFailedReason_precedence NewManager [ex_pod "worker" 0 PodRunning "a"] 2)
    as (_ & _ & _ & _ & Hlen). apply Hlen. simpl. lia.
Defined.

Lemma failed_role_has_reason_witness :
  let job := ex_job "demo" [("worker", ex_role 2 "")] in
  let pods := [ex_pod "worker" 0 PodRunning "a"; ex_pod "worker" 1 PodFailed "b"] in
  ∃ job' events st, sync_role 0 NewManager job "worker" pods = Done (job', events) ∧
    role_status (job_Status job') "worker" = Some st ∧ role_Reason st ≠ "".
Proof.
  intros job pods.
  assert (∃ r, sync_role 0 NewManager job "worker" pods = Done r ∧ ∃ st,
    role_status (job_Status r.1) "worker" = Some st ∧ role_Phase st = RolePhaseFailed)
    as ([job' events] & Hr & st & Hst & Hp).
  { eexists. split; [vm_compute; reflexivity|]. eexists. split; vm_compute; reflexivity. }
  exists job', events, st. split; [exact Hr|]. split; [exact Hst|].
  apply (failed_role_has_reason 0 NewManager job "worker" pods (ex_role 2 "") (ex_replicas 2 "") 2
    zero_JobStatus job' events st); [reflexivity..|lia| |exact Hr|exact Hst|exact Hp|vm_compute; discriminate].
  repeat constructor; vm_compute; by eexists.
Defined.
