(* ===== verification/JobPhase.v ===== *)
(** * The phase of the job, from its roles

    [GetJobPhase] as the policy it evaluates, and the bookkeeping of
    [UpdatePhases]: conditions, times and events. *)

From S2P Require Import Prelude GoStd Errors Kube Api World ReconcilerUtils Examples NodeManager Cache Phase.

(** ** The policy *)

Definition in_phase (roles : gmap string (option RoleStatus)) (phase role : string) : Prop :=
  ∃ rs, roles !! role = Some (Some rs) ∧ role_Phase rs = phase.

(** A disjunction of conjunctions of roles in a phase. *)
Definition clause_holds (roles : gmap string (option RoleStatus)) (phase : string) (clause : list string) : Prop :=
  Forall (in_phase roles phase) clause.
Definition policy_met (roles : gmap string (option RoleStatus)) (phase : string) (clauses : list (list string)) : Prop :=
  Exists (clause_holds roles phase) clauses.

(** Every role a policy names has a status. *)
Definition roles_known (roles : gmap string (option RoleStatus)) (clauses : list (list string)) : Prop :=
  Forall (Forall (λ role, ∃ rs, roles !! role = Some (Some rs))) clauses.
Definition no_nil_status (roles : gmap string (option RoleStatus)) : Prop :=
  map_Forall (λ _ rs, is_Some rs) roles.

#[export] Instance in_phase_dec roles phase role : Decision (in_phase roles phase role).
Proof.
  refine (match roles !! role as o return (roles !! role = o → _) with
  | Some (Some rs) => λ Hr, cast_if (decide (role_Phase rs = phase))
  | _ => λ Hr, right _
  end eq_refl); unfold in_phase; rewrite Hr; naive_solver.
Defined.

(** The phase of a job whose roles are in the given phases. *)
Inductive job_rule (roles : gmap string (option RoleStatus)) (policy : JobPhasePolicy) (last : string) : string → Prop :=
| job_failed : policy_met roles RolePhaseFailed (policy_Failed policy) →
    job_rule roles policy last JobPhaseFailed
| job_succeeded : ¬ policy_met roles RolePhaseFailed (policy_Failed policy) →
    policy_met roles RolePhaseSucceeded (policy_Succeeded policy) →
    job_rule roles policy last JobPhaseSucceeded
| job_running : ¬ policy_met roles RolePhaseFailed (policy_Failed policy) →
    ¬ policy_met roles RolePhaseSucceeded (policy_Succeeded policy) →
    (∀ role, is_Some (roles !! role) → in_phase roles RolePhaseRunning role) →
    job_rule roles policy last JobPhaseRunning
| job_waiting role : ¬ policy_met roles RolePhaseFailed (policy_Failed policy) →
    ¬ policy_met roles RolePhaseSucceeded (policy_Succeeded policy) →
    is_Some (roles !! role) → ¬ in_phase roles RolePhaseRunning role →
    job_rule roles policy last (if decide (last = JobPhasePending) then JobPhaseStarting else last).

(** ** Lemmas *)

Lemma all_in_phase_known roles phase clause :
  Forall (λ role, ∃ rs, roles !! role = Some (Some rs)) clause →
  all_in_phase roles clause phase = Done (bool_decide (clause_holds roles phase clause)).
Proof.
  unfold clause_holds. induction 1 as [|role clause [rs Hrs] Hc IH]; simpl.
  { done. }
  rewrite Hrs. simpl. case_decide as Hp.
  - rewrite IH. f_equal. apply bool_decide_ext. rewrite Forall_cons. split; [|naive_solver].
    intros ?. split; [|done]. by exists rs.
  - rewrite bool_decide_false; [done|]. rewrite Forall_cons. intros [(rs' & Hr & Hp') _]. by simplify_eq.
Qed.

Lemma satisfyPolicy_known roles phase clauses :
  roles_known roles clauses →
  satisfyPolicy roles clauses phase = Done (bool_decide (policy_met roles phase clauses)).
Proof.
  unfold policy_met. induction 1 as [|clause clauses Hc Hcs IH]; simpl.
  { done. }
  rewrite all_in_phase_known by done. simpl.
  destruct (bool_decide_reflect (clause_holds roles phase clause)).
  - rewrite bool_decide_true; [done|]. by constructor.
  - rewrite IH. f_equal. apply bool_decide_ext. rewrite Exists_cons. naive_solver.
Qed.

(** Evaluating a policy ends with an answer or a nil dereference. *)
Lemma satisfyPolicy_no_error roles phase clauses e : satisfyPolicy roles clauses phase ≠ Fail e.
Proof.
  assert (∀ clause, all_in_phase roles clause phase ≠ Fail e) as Hall.
  { induction clause as [|role clause IH]; simpl; [done|].
    destruct (mjoin (roles !! role)); simpl; [|done]. by case_decide. }
  induction clauses as [|clause clauses IH]; simpl; [done|].
  specialize (Hall clause). destruct (all_in_phase roles clause phase) as [[]| |]; simpl; congruence.
Qed.

(** The phase before an update: a job without one is Pending. *)
Definition last_phase (job : AresJob) : string :=
  if decide (status_Phase (job_Status job) = "") then JobPhasePending else status_Phase (job_Status job).
Definition completion_time (job : AresJob) : option Z :=
  js ← status_JobStatus (job_Status job); CompletionTime js.

(** [UpdatePhases], with the defaults it starts from made explicit. *)
Lemma UpdatePhases_eq `{MapOrder, Kubeflow} now job :
  let policy := default (mkJobPhasePolicy [] []) (spec_JobPhasePolicy (job_Spec job)) in
  UpdatePhases now job =
    let job1 := job <| job_Status ::= λ s, s <| status_Phase := last_phase job |> |>
                    <| job_Spec ::= λ s, s <| spec_JobPhasePolicy := Some policy |> |> in
    phase ← GetJobPhase (last_phase job) policy (contents (status_RoleStatuses (job_Status job)));
    if decide (phase = last_phase job) then Done (job1, [])
    else
      js ← deref (status_JobStatus (job_Status job));
      SetJobPhase now (job1 <| job_Status ::= λ s, s <| status_JobStatus :=
        Some (UpdateJobConditions now js (JobPhaseToCondition phase) phase
                ("AresJob " +:+ meta_Name (job_meta job) +:+ " is " +:+ phase +:+ ".")) |> |>) phase.
Proof.
  destruct job as [m sp [st rs ph rt]]. unfold UpdatePhases, last_phase, set_field, set_job_Status, set_job_Spec. simpl.
  destruct (decide (ph = "")) as [->|]; done.
Qed.

Lemma SetJobPhase_spec now job phase js :
  status_JobStatus (job_Status job) = Some js →
  ∃ job' prefix,
    SetJobPhase now job phase = Done (job', [mkEvent EventTypeNormal JobPhaseTransitionReason
      (prefix +:+ " has changed: " +:+ phase +:+ " -> " +:+ phase)]) ∧
    status_Phase (job_Status job') = phase ∧
    status_RoleStatuses (job_Status job') = status_RoleStatuses (job_Status job) ∧
    job_Spec job' = job_Spec job ∧ job_meta job' = job_meta job ∧
    completion_time job' =
      (if decide (IsFinished phase = true ∧ completion_time job = None) then Some now else completion_time job) ∧
    status_RunningTime (job_Status job') =
      (if decide (phase = JobPhaseRunning ∧ status_RunningTime (job_Status job) = None)
       then Some now else status_RunningTime (job_Status job)) ∧
    is_Some (status_JobStatus (job_Status job')).
Proof.
  destruct job as [m sp [st rs ph rt]], js as [conds reps ct]. simpl. intros [= ->].
  unfold SetJobPhase, completion_time. simpl.
  exists (mkAresJob m sp (mkAresJobStatus (Some (mkJobStatus conds reps
    (if decide (IsFinished phase = true ∧ ct = None) then Some now else ct))) rs phase
    (if decide (phase = JobPhaseRunning ∧ rt = None) then Some now else rt))),
    ("Phase of AresJob(" +:+ spec_FrameworkType sp +:+ ") " +:+ meta_Name m).
  split_and!; [|done..|by eexists].
  rewrite !string_app_assoc.
  destruct (IsFinished phase), ct, rt; simpl; repeat (case_decide; simpl); first [reflexivity|exfalso; naive_solver].
Qed.

Section job_phase.
Context `{MapOrder}.

Lemma range_known roles : no_nil_status roles → roles_known roles [range_keys 0 roles].
Proof.
  intros Hnil. apply Forall_singleton, Forall_forall. intros role [rs Hr]%elem_of_range_keys.
  destruct (Hnil _ _ Hr) as [rs' ->]. by eexists.
Qed.

Lemma GetJobPhase_rule last policy roles :
  roles_known roles (policy_Failed policy) → roles_known roles (policy_Succeeded policy) →
  no_nil_status roles →
  ∃ phase, GetJobPhase last policy roles = Done phase ∧ job_rule roles policy last phase.
Proof.
  intros Hf Hs Hnil. unfold GetJobPhase. rewrite !satisfyPolicy_known by (done || by apply range_known).
  simpl. destruct (bool_decide_reflect (policy_met roles RolePhaseFailed (policy_Failed policy)));
    [eexists; split; [done|by apply job_failed]|].
  destruct (bool_decide_reflect (policy_met roles RolePhaseSucceeded (policy_Succeeded policy)));
    [eexists; split; [done|by apply job_succeeded]|].
  destruct (bool_decide_reflect (policy_met roles RolePhaseRunning [range_keys 0 roles])) as [Hr|Hr].
  - eexists. split; [done|]. apply job_running; [done..|]. intros role Hrole.
    apply Exists_cons in Hr as [Hr|[]%Exists_nil]. unfold clause_holds in Hr.
    rewrite Forall_forall in Hr. by apply Hr, elem_of_range_keys.
  - assert (∃ role, role ∈ range_keys 0 roles ∧ ¬ in_phase roles RolePhaseRunning role) as (role & Hin & Hno).
    { apply Exists_exists, not_Forall_Exists; [apply _|]. intros Hall. apply Hr. by constructor. }
    apply elem_of_range_keys in Hin. case_decide as Hp; eexists; (split; [done|]);
      pose proof (job_waiting roles policy last role) as Hw; rewrite ?decide_True, ?decide_False in Hw by done; auto.
Qed.

(** What the phases of the roles make of the job. *)
Lemma UpdatePhases_rule `{Kubeflow} now job :
  let policy := default (mkJobPhasePolicy [] []) (spec_JobPhasePolicy (job_Spec job)) in
  let roles := contents (status_RoleStatuses (job_Status job)) in
  is_Some (status_JobStatus (job_Status job)) →
  roles_known roles (policy_Failed policy) → roles_known roles (policy_Succeeded policy) → no_nil_status roles →
  ∃ job' events, UpdatePhases now job = Done (job', events) ∧
    job_rule roles policy (last_phase job) (status_Phase (job_Status job')) ∧
    status_RoleStatuses (job_Status job') = status_RoleStatuses (job_Status job) ∧
    job_meta job' = job_meta job ∧ job_Spec job' = job_Spec job <| spec_JobPhasePolicy := Some policy |> ∧
    (status_Phase (job_Status job') ≠ last_phase job → IsFinished (status_Phase (job_Status job')) = true →
     is_Some (completion_time job')) ∧
    is_Some (status_JobStatus (job_Status job')) ∧
    (status_Phase (job_Status job') ≠ last_phase job → status_Phase (job_Status job') = JobPhaseRunning →
     is_Some (status_RunningTime (job_Status job'))).
Proof.
  intros policy roles [js Hjs] Hf Hs Hnil. rewrite UpdatePhases_eq. fold policy roles.
  destruct (GetJobPhase_rule (last_phase job) policy roles) as (phase & -> & Hrule); [done..|]. simpl.
  case_decide as Heq; [subst phase; do 2 eexists; split_and!; try done; by rewrite Hjs|]. rewrite Hjs. simpl.
  match goal with |- context [SetJobPhase now ?j phase] =>
    destruct (SetJobPhase_spec now j phase _ eq_refl) as (job' & prefix & -> & Hp & Hroles & Hspec & Hmeta & Hct & Hrt & Hjs') end.
  do 2 eexists. split; [done|]. rewrite Hp. split_and!; try done; intros _ Hfin; [rewrite Hct|rewrite Hrt];
    match goal with |- is_Some (if ?d then _ else _) => destruct d; [by eexists|] end; apply not_eq_None_Some; naive_solver.
Qed.
End job_phase.

(** ** Properties *)

(** C13: when every role a policy names has a status, the job's phase is
    decided as the policy says, whatever the order in which the roles are
    visited: Failed when some failure clause has all its roles Failed, else
    Succeeded when some success clause has all its roles Succeeded, else
    Running when every role is, else Starting from Pending, else unchanged;
    and the evaluation never returns a Go error. *)
Theorem GetJobPhase_policy `{MapOrder} last policy roles :
  roles_known roles (policy_Failed policy) → roles_known roles (policy_Succeeded policy) →
  no_nil_status roles →
  (∃ phase, GetJobPhase last policy roles = Done phase ∧ job_rule roles policy last phase) ∧
  (∀ phase phase', job_rule roles policy last phase → job_rule roles policy last phase' → phase = phase').
Proof.
  intros Hf Hs Hnil. split; [by apply GetJobPhase_rule|].
  intros phase phase' H1 H2. destruct H1; destruct H2; try done; naive_solver.
Qed.

(** A policy is not checked against the roles: if the first clause of the
    failure policy, after roles that are Failed, names a role without status,
    computing the phase of the job panics. *)
Theorem GetJobPhase_unknown_role_panics `{MapOrder} last roles failed role rest clauses succeeded :
  clause_holds roles RolePhaseFailed failed → roles !! role = None →
  GetJobPhase last (mkJobPhasePolicy ((failed ++ role :: rest) :: clauses) succeeded) roles = Crash NilDereference.
Proof.
  intros Hfailed Hrole. unfold GetJobPhase. simpl.
  assert (all_in_phase roles (failed ++ role :: rest) RolePhaseFailed = Crash NilDereference) as ->; [|done].
  induction Hfailed as [|r failed (rs & Hr & Hp) _ IH]; simpl; [by rewrite Hrole|].
  rewrite Hr. simpl. by rewrite decide_True.
Qed.

(** C14: when the policies name known roles, updating the phase of a job
    returns; the new phase follows the policy and is neither empty nor
    Pending; the roles' statuses, the role specs and the metadata are
    untouched; an event is emitted exactly when the phase changes, and it
    names the new phase on both sides of its arrow; the completion time is set
    exactly when the job finishes and has none, and never moves once set; the
    running time likewise at the first transition to Running. *)
Theorem UpdatePhases_bookkeeping `{MapOrder, Kubeflow} now job js :
  (∀ now js type reason msg,
     CompletionTime (UpdateJobConditions now js type reason msg) = CompletionTime js) →
  let policy := default (mkJobPhasePolicy [] []) (spec_JobPhasePolicy (job_Spec job)) in
  let roles := contents (status_RoleStatuses (job_Status job)) in
  status_JobStatus (job_Status job) = Some js →
  roles_known roles (policy_Failed policy) → roles_known roles (policy_Succeeded policy) →
  no_nil_status roles →
  ∃ job' events,
    UpdatePhases now job = Done (job', events) ∧
    let phase := status_Phase (job_Status job') in
    job_rule roles policy (last_phase job) phase ∧
    (phase ≠ "" ∧ phase ≠ JobPhasePending) ∧
    (status_RoleStatuses (job_Status job') = status_RoleStatuses (job_Status job) ∧
     spec_RoleSpecs (job_Spec job') = spec_RoleSpecs (job_Spec job) ∧ job_meta job' = job_meta job) ∧
    (if decide (phase = last_phase job) then events = []
     else ∃ prefix, events = [mkEvent EventTypeNormal JobPhaseTransitionReason
            (prefix +:+ " has changed: " +:+ phase +:+ " -> " +:+ phase)]) ∧
    completion_time job' =
      (if decide (phase ≠ last_phase job ∧ IsFinished phase = true ∧ completion_time job = None)
       then Some now else completion_time job) ∧
    status_RunningTime (job_Status job') =
      (if decide (phase ≠ last_phase job ∧ phase = JobPhaseRunning ∧ status_RunningTime (job_Status job) = None)
       then Some now else status_RunningTime (job_Status job)).
Proof.
  intros Hkeep policy roles Hjs Hf Hs Hnil.
  destruct (GetJobPhase_rule (last_phase job) policy roles) as (phase & Hphase & Hrule); [done..|].
  assert (phase ≠ "" ∧ phase ≠ JobPhasePending) as Hne.
  { destruct Hrule; try done. unfold last_phase. by repeat case_decide. }
  rewrite UpdatePhases_eq. fold policy roles. rewrite Hphase. simpl.
  case_decide as Heq.
  { do 2 eexists. split; [done|]. simpl. rewrite decide_True by done.
    rewrite !decide_False by naive_solver. unfold completion_time. simpl. by subst phase. }
  rewrite Hjs. simpl.
  match goal with |- context [SetJobPhase now ?j phase] =>
    edestruct (SetJobPhase_spec now j phase) as (job' & prefix & -> & Hp & Hroles & Hspec & Hmeta & Hct & Hrt & _);
      [done|]
  end.
  exists job'. eexists. split; [done|].
  simpl. rewrite Hp, Hroles, Hspec, Hmeta, Hct, Hrt. unfold completion_time. simpl.
  rewrite Hjs, Hkeep, decide_False by done. simpl.
  split_and!; first [done|by eexists|by repeat case_decide; naive_solver].
Qed.

#[local] Existing Instances canonical_order canonical_sort ex_kubeflow ex_text.

Definition ex_roles (l : list (string * string)) : gmap string (option RoleStatus) :=
  list_to_map (prod_map id (λ phase, Some (mkRoleStatus phase "" "" None zero_ReplicaStatus)) <$> l).

Lemma GetJobPhase_policy_witness :
  let roles := ex_roles [("ps", RolePhaseRunning); ("worker", RolePhaseSucceeded)] in
  let policy := mkJobPhasePolicy [["ps"]; ["worker"]] [["worker"]] in
  ∃ phase, GetJobPhase JobPhaseRunning policy roles = Done phase ∧ job_rule roles policy JobPhaseRunning phase.
Proof.
  intros roles policy. apply (GetJobPhase_policy JobPhaseRunning policy roles).
  - repeat constructor; eexists; vm_compute; reflexivity.
  - repeat constructor; eexists; vm_compute; reflexivity.
  - apply map_Forall_to_list. vm_compute. repeat constructor; by eexists.
Defined.

Lemma GetJobPhase_unknown_role_panics_witness :
  GetJobPhase JobPhaseRunning (mkJobPhasePolicy [["ps"; "typo"]] []) (ex_roles [("ps", RolePhaseFailed)])
    = Crash NilDereference.
Proof.
  apply (GetJobPhase_unknown_role_panics JobPhaseRunning (ex_roles [("ps", RolePhaseFailed)]) ["ps"] "typo" [] [] []).
  - repeat constructor. eexists. split; vm_compute; reflexivity.
  - reflexivity.
Defined.

Lemma UpdatePhases_bookkeeping_witness :
  let job := ex_job "demo" [("worker", ex_role 1 "")]
    <| job_Status ::= λ s, s <| status_RoleStatuses := Some (ex_roles [("worker", RolePhaseFailed)]) |> |>
    <| job_Spec ::= λ s, s <| spec_JobPhasePolicy := Some (mkJobPhasePolicy [["worker"]] [["worker"]]) |> |> in
  ∃ job' events, UpdatePhases 7 job = Done (job', events) ∧ completion_time job' = Some 7.
Proof.
  intros job.
  destruct (UpdatePhases_bookkeeping 7 job zero_JobStatus) as (job' & events & Hu & _ & _ & _ & _ & Hct & _).
  - reflexivity.
  - reflexivity.
  - repeat constructor; eexists; vm_compute; reflexivity.
  - repeat constructor; eexists; vm_compute; reflexivity.
  - apply map_Forall_to_list. vm_compute. repeat constructor; by eexists.
  - exists job', events. split; [exact Hu|]. rewrite Hct.
    assert (status_Phase (job_Status job') = JobPhaseFailed) as ->; [|reflexivity].
    vm_compute in Hu. injection Hu as <- _. reflexivity.
Defined.
