(* ===== verification/FrameworkBase.v ===== *)
(** * What the frameworks share ([frameworks/common/interface.go])

    A framework embeds the reconciler and overrides some of its methods.  The
    operations that the defaulting and the cluster specs of the frameworks are
    made of, and the laws they obey. *)

From S2P Require Import Prelude GoStd Errors Kube Api World ReconcilerUtils Examples Webhook Metadata Conf Dependence.
From S2P Require Import NodeManager Cache Phase Pod PodCreate Service.

(** ** Methods *)

(** The methods of [fcommon.Framework] that the frameworks override; the
    others are the reconciler's. *)
Record Methods := mkMethods {
  GetName : string;
  SetDefault : AresJob → go AresJob;
  Validate : AresJob → go unit;
  controller : Controller;
  Framework_ReconcileServices : list Service → string → ReplicaSpec → op unit;
  Framework_ReconcileJobs : gmap string (option ReplicaSpec) → JobStatus → RunPolicy → op unit;
}.

(** The reconciler's methods, but for the names of the container and of its
    port and for the cluster spec. *)
Definition overriding `{Kubeflow} (container port : string)
    (set : AresJob → PodTemplateSpec → string → string → go PodTemplateSpec) : Controller := {|
  SetClusterSpec := set;
  GetDefaultContainerName := container;
  GetDefaultContainerPortName := port;
  IsMasterRole := @IsMasterRole base_controller;
  GeneratePodName := @GeneratePodName base_controller;
  GenerateServiceName := @GenerateServiceName base_controller;
  GetGroupNameLabelValue := @GetGroupNameLabelValue base_controller;
|}.

(** The names alone, for the methods that call [GetPort]. *)
Definition naming `{Kubeflow} (container port : string) : Controller :=
  overriding container port (@SetClusterSpec base_controller).

(** ** Defaulting *)

(** [if spec, ok := job.Spec.RoleSpecs[role]; ok { ... }] and
    [spec := job.Spec.RoleSpecs[role]; ...], whose bodies update the spec
    through its pointer; a missing key reads as the nil pointer. *)
Inductive role_step :=
| if_role (role : string) (body : RoleSpec → go RoleSpec)
| the_role (role : string) (body : RoleSpec → go RoleSpec).

Definition step_role (s : role_step) : string := match s with if_role r _ | the_role r _ => r end.
Definition step_body (s : role_step) : RoleSpec → go RoleSpec := match s with if_role _ f | the_role _ f => f end.

Definition has_role (job : AresJob) (role : string) : bool :=
  bool_decide (is_Some (spec_RoleSpecs (job_Spec job) !! role)).

Definition update_role (role : string) (body : RoleSpec → go RoleSpec) (job : AresJob) : go AresJob :=
  spec ← deref (role_spec (job_Spec job) role);
  spec ← body spec;
  Done (job <| job_Spec ::= λ s, s <| spec_RoleSpecs ::= λ m, <[role := Some spec]> m |> |>).

Definition run_step (job : AresJob) (s : role_step) : go AresJob :=
  match s with
  | if_role role body => if has_role job role then update_role role body job else Done job
  | the_role role body => update_role role body job
  end.

Definition run_steps (steps : list role_step) (job : AresJob) : go AresJob := fold_res run_step job steps.

(** [if spec.RolePhasePolicy.Succeeded == nil { ... = &all }] and the like. *)
Definition default_succeeded (spec : RoleSpec) : RoleSpec :=
  spec <| role_RolePhasePolicy ::= λ p,
    p <| rpolicy_Succeeded ::= λ c, Some (default RolePhaseConditionAllPods c) |> |>.
Definition default_failed (spec : RoleSpec) : RoleSpec :=
  spec <| role_RolePhasePolicy ::= λ p,
    p <| rpolicy_Failed ::= λ c, Some (default RolePhaseConditionAnyPod c) |> |>.

(** An assignment to a field of the embedded [*commonv1.ReplicaSpec]. *)
Definition update_replica_spec (f : ReplicaSpec → ReplicaSpec) (spec : RoleSpec) : go RoleSpec :=
  rs ← deref (role_ReplicaSpec spec);
  Done (spec <| role_ReplicaSpec := Some (f rs) |>).

(** The failure policy of a role whose pods are not restarted by themselves. *)
Definition default_failed_if_not_restarted (spec : RoleSpec) : go RoleSpec :=
  policy ← spec_RestartPolicy spec;
  Done (if decide (policy = RestartPolicyNever ∨ policy = RestartPolicyExitCode) then default_failed spec else spec).

(** [if spec.Dependence == nil { spec.Dependence = &DependenceSpec{...} }] *)
Definition default_dependence (d : DependenceSpec) (spec : RoleSpec) : RoleSpec :=
  spec <| role_Dependence ::= λ d0, Some (default d d0) |>.
Definition on_running (role : string) : DependenceSpec := mkDependenceSpec [role] RolePhaseRunning None.

(** [if job.Spec.JobPhasePolicy == nil { ... }] *)
Definition default_job_policy (policy : JobPhasePolicy) (job : AresJob) : AresJob :=
  job <| job_Spec ::= λ s, s <| spec_JobPhasePolicy ::= λ p, Some (default policy p) |> |>.

(** ** Cluster specs *)

(** [for i := range podTemplate.Spec.Containers { ... }]; the body may range
    over a map, so it knows which iteration it is. *)
Definition each_container (f : nat → Container → go Container) (t : PodTemplateSpec) : go PodTemplateSpec :=
  cs ← mapM (λ p : nat * Container, f p.1 p.2) (imap pair (pod_Containers (template_Spec t)));
  Done (update_pod_spec t (λ s, s <| pod_Containers := cs |>)).

Definition append_env (envs : list EnvVar) (c : Container) : Container :=
  c <| container_Env ::= λ l, l ++ envs |>.

Definition append_ports (ports : list ContainerPort) (c : Container) : Container :=
  c <| container_Ports ::= λ l, match ports with [] => l | _ => Some (default [] l ++ ports) end |>.

Definition env (name value : string) : EnvVar := mkEnvVar name value None.

(** The value of a variable in a container: the last one of that name wins. *)
Definition getenv (name : string) (c : Container) : option string :=
  env_Value <$> last (filter (λ e, env_Name e = name) (container_Env c)).

(** [utils.Int32SliceToStrSlice] *)
Definition Int32SliceToStrSlice (l : list Z) : list string := Itoa <$> l.

(** ** Lemmas on the steps *)

Lemma has_role_Some job role : has_role job role = true ↔ is_Some (spec_RoleSpecs (job_Spec job) !! role).
Proof. apply bool_decide_eq_true. Qed.

(** The bodies run on the spec of a role. *)
Definition run_bodies (steps : list role_step) (role : string) (spec : RoleSpec) : go RoleSpec :=
  fold_res (λ spec s, step_body s spec) spec (filter (λ s, step_role s = role) steps).

Definition optional (s : role_step) : bool := match s with if_role _ _ => true | the_role _ _ => false end.

(** The role is there, if it has to be. *)
Definition step_ready (roles : gmap string (option RoleSpec)) (s : role_step) : Prop :=
  match roles !! step_role s with
  | Some (Some _) => True
  | Some None => False
  | None => optional s = true
  end.

Definition with_roles (job : AresJob) (roles : gmap string (option RoleSpec)) : AresJob :=
  job <| job_Spec ::= λ s, s <| spec_RoleSpecs := roles |> |>.

Lemma with_roles_twice job m1 m2 : with_roles (with_roles job m1) m2 = with_roles job m2.
Proof. done. Qed.
Lemma with_roles_id job : with_roles job (spec_RoleSpecs (job_Spec job)) = job.
Proof. by destruct job as [? [] ?]. Qed.

Lemma run_step_spec s job job' : run_step job s = Done job' →
  step_ready (spec_RoleSpecs (job_Spec job)) s ∧
  ((spec_RoleSpecs (job_Spec job) !! step_role s = None ∧ job' = job) ∨
   ∃ spec spec', spec_RoleSpecs (job_Spec job) !! step_role s = Some (Some spec) ∧ step_body s spec = Done spec' ∧
     job' = with_roles job (<[step_role s := Some spec']> (spec_RoleSpecs (job_Spec job)))).
Proof.
  unfold run_step, step_ready, update_role, has_role, role_spec.
  destruct s as [role body|role body]; simpl;
    destruct (spec_RoleSpecs (job_Spec job) !! role) as [[spec|]|] eqn:Hr; simpl; try done.
  - intros (spec' & Hb & [= <-])%res_bind_Done. split; [done|]. right. by exists spec, spec'.
  - intros [= <-]. split; [done|]. by left.
  - intros (spec' & Hb & [= <-])%res_bind_Done. split; [done|]. right. by exists spec, spec'.
Qed.

(** The steps change the specs of the roles they name, by their bodies. *)
Lemma run_steps_spec steps job job' : run_steps steps job = Done job' →
  Forall (step_ready (spec_RoleSpecs (job_Spec job))) steps ∧
  job' = with_roles job (spec_RoleSpecs (job_Spec job')) ∧
  ∀ role, match spec_RoleSpecs (job_Spec job) !! role with
          | Some (Some spec) => ∃ spec', run_bodies steps role spec = Done spec' ∧
                                spec_RoleSpecs (job_Spec job') !! role = Some (Some spec')
          | s => spec_RoleSpecs (job_Spec job') !! role = s
          end.
Proof.
  unfold run_steps, run_bodies. revert job. induction steps as [|s steps IH]; intros job; simpl.
  { intros [= <-]. split_and!; [constructor|by rewrite with_roles_id|].
    intros role. destruct (_ !! role) as [[spec|]|]; [by exists spec|done..]. }
  intros (job1 & (Hready & Hs)%run_step_spec & Hrun)%res_bind_Done. destruct (IH _ Hrun) as (Hall & Hjob' & Hroles). clear IH.
  destruct Hs as [[Hnone ->]|(spec & spec1 & Hspec & Hbody & ->)].
  - split_and!; [by constructor|done|]. intros role. specialize (Hroles role). rewrite filter_cons.
    case_decide as Hrole; [|done]. subst role. by rewrite Hnone in *.
  - simpl in *. split_and!.
    + constructor; [done|]. eapply Forall_impl; [exact Hall|]. intros s'. unfold step_ready.
      rewrite lookup_insert. case_decide as Heq; [|done]. by rewrite <- Heq, Hspec.
    + by rewrite Hjob' at 1.
    + intros role. specialize (Hroles role). rewrite filter_cons. rewrite lookup_insert in Hroles.
      case_decide as Heq; [subst role|done]. rewrite Hspec.
      destruct Hroles as (spec' & Hb & ->). exists spec'. split; [|done]. simpl. by rewrite Hbody.
Qed.

(** Steps that change nothing. *)
Lemma run_steps_fixed steps job :
  Forall (λ s, step_ready (spec_RoleSpecs (job_Spec job)) s ∧
    ∀ spec, spec_RoleSpecs (job_Spec job) !! step_role s = Some (Some spec) → step_body s spec = Done spec) steps →
  run_steps steps job = Done job.
Proof.
  unfold run_steps. induction 1 as [|s steps [Hready Hbody] _ IH]; simpl; [done|].
  enough (run_step job s = Done job) as -> by exact IH.
  assert (∀ spec, spec_RoleSpecs (job_Spec job) !! step_role s = Some (Some spec) →
    update_role (step_role s) (step_body s) job = Done job) as Hupdate.
  { intros spec Hspec. unfold update_role, role_spec. rewrite Hspec. simpl. rewrite Hbody by done. simpl.
    f_equal. change (with_roles job (<[step_role s := Some spec]> (spec_RoleSpecs (job_Spec job))) = job).
    rewrite insert_id by done. apply with_roles_id. }
  unfold step_ready in Hready. unfold run_step, has_role.
  destruct (spec_RoleSpecs (job_Spec job) !! step_role s) as [[spec|]|] eqn:Hr; [|done|].
  - destruct s; simpl in *; rewrite ?Hr; simpl; by eapply Hupdate.
  - destruct s; simpl in *; by rewrite ?Hr.
Qed.

(** ** Settling

    Steps that, once they and the defaulting of the API have run, change
    nothing when they run again. *)

Definition settling (steps : list role_step) : Prop :=
  Forall (λ s, ∀ spec spec1 spec2, run_bodies steps (step_role s) spec = Done spec1 →
    default_role spec1 = Done spec2 → step_body s spec2 = Done spec2) steps.

Lemma has_role_Default `{MapOrder, ControllerUtil} r r' role : Default r = Done r' → has_role r' role = has_role r role.
Proof.
  intros (_ & Hroles & _)%Default_roles. specialize (Hroles role). unfold has_role. apply bool_decide_ext.
  destruct (spec_RoleSpecs (job_Spec r) !! role); [destruct Hroles as (? & ? & _ & _ & ->); naive_solver|by rewrite Hroles].
Qed.

Lemma has_role_run_steps steps job job' role : run_steps steps job = Done job' → has_role job' role = has_role job role.
Proof.
  intros (_ & _ & Hroles)%run_steps_spec. specialize (Hroles role). unfold has_role. apply bool_decide_ext.
  destruct (spec_RoleSpecs (job_Spec job) !! role) as [[spec|]|]; [|by rewrite Hroles..].
  destruct Hroles as (? & _ & ->). naive_solver.
Qed.

Lemma run_steps_settle `{MapOrder, ControllerUtil} steps job job1 job1' job2 :
  settling steps → run_steps steps job = Done job1 →
  spec_RoleSpecs (job_Spec job1') = spec_RoleSpecs (job_Spec job1) → Default job1' = Done job2 →
  run_steps steps job2 = Done job2.
Proof.
  intros Hsettle (Hready & _ & Hroles)%run_steps_spec Hsame (_ & Hdefault & _)%Default_roles. rewrite Hsame in Hdefault.
  apply run_steps_fixed. unfold settling in Hsettle. rewrite Forall_forall in *. intros s Hs.
  specialize (Hready s Hs). specialize (Hroles (step_role s)). specialize (Hdefault (step_role s)).
  unfold step_ready in *. destruct (spec_RoleSpecs (job_Spec job) !! step_role s) as [[spec|]|]; [|done|].
  - destruct Hroles as (spec1 & Hb & Hr1). rewrite Hr1 in Hdefault.
    destruct Hdefault as (? & spec2 & [= <-] & Hd & ->). split; [done|]. intros ? [= <-]. by eapply Hsettle.
  - rewrite Hroles in Hdefault. rewrite Hdefault. split; [done|]. intros ?. done.
Qed.

(** ** Lemmas on cluster specs *)

Lemma each_container_pure (f : nat → Container → go Container) (g : Container → Container) t :
  (∀ n c, f n c = Done (g c)) →
  each_container f t = Done (update_pod_spec t (λ s, s <| pod_Containers := g <$> pod_Containers (template_Spec t) |>)).
Proof.
  intros Hf. unfold each_container.
  assert (∀ l : list (nat * Container), mapM (λ p, f p.1 p.2) l = Done (g <$> l.*2)) as ->.
  { induction l as [|[n c] l IH]; simpl; [done|]. rewrite Hf. simpl. by rewrite IH. }
  simpl. assert ((imap pair (pod_Containers (template_Spec t))).*2 = pod_Containers (template_Spec t)) as ->; [|done].
  rewrite fmap_imap. apply list_eq. intros i. rewrite list_lookup_imap. by destruct (_ !! i).
Qed.

(** The variables added last win. *)
Lemma getenv_append name envs c v :
  env_Value <$> last (filter (λ e, env_Name e = name) envs) = Some v → getenv name (append_env envs c) = Some v.
Proof. unfold getenv. simpl. rewrite filter_app, last_app. by destruct (last (filter _ envs)). Qed.

(** ** Replicas of a valid job *)

(** The replicas of a role, none if it is not there. *)
Definition replicas_of (spec : AresJobSpec) (role : string) : Z :=
  match role_spec spec role with
  | Some s => match role_ReplicaSpec s with Some rs => default 0 (Replicas rs) | None => 0 end
  | None => 0
  end.

(** The pods of some roles of a job: a role and an index below its replicas. *)
Definition pods_of (spec : AresJobSpec) (roles : list string) : list (string * Z) :=
  roles ≫= λ role, (λ i, (role, i)) <$> indices (replicas_of spec role).

Definition int32_replicas (spec : AresJobSpec) : Prop := ∀ role, replicas_of spec role < 2 ^ 31.

Definition valid_roles (spec : AresJobSpec) : Prop :=
  map_Forall (λ role s, ∃ rspec, s = Some rspec ∧ role_valid role rspec) (spec_RoleSpecs spec).

(** By evaluation, on a concrete spec. *)
Lemma int32_replicas_intro spec :
  forallb (λ p, bool_decide (replicas_of spec p.1 < 2 ^ 31)) (map_to_list (spec_RoleSpecs spec)) = true → int32_replicas spec.
Proof.
  rewrite forallb_forall. intros Hall role. destruct (spec_RoleSpecs spec !! role) as [s|] eqn:Hs.
  - apply elem_of_map_to_list, list_elem_of_In, Hall, bool_decide_eq_true in Hs. exact Hs.
  - unfold replicas_of, role_spec. rewrite Hs. vm_compute. reflexivity.
Qed.

Lemma elem_of_pods_of spec roles role i :
  (role, i) ∈ pods_of spec roles ↔ role ∈ roles ∧ 0 ≤ i < replicas_of spec role.
Proof.
  unfold pods_of, indices. rewrite list_elem_of_bind. setoid_rewrite list_elem_of_fmap. setoid_rewrite elem_of_seqZ.
  split; [intros (? & (? & [= -> ->] & ?) & ?); split; [done|lia]|].
  intros [Hrole Hi]. exists role. split; [|done]. exists i. split; [done|lia].
Qed.

Section valid.
Context `{MapOrder} (spec : AresJobSpec) (Hvalid : valid_roles spec).

Lemma valid_role_spec role s : spec_RoleSpecs spec !! role = Some s →
  ∃ rspec rs, s = Some rspec ∧ role_spec spec role = Some rspec ∧ role_ReplicaSpec rspec = Some rs ∧
    Replicas rs = Some (replicas_of spec role) ∧ 0 < replicas_of spec role.
Proof.
  intros Hs. destruct (Hvalid _ _ Hs) as (rspec & -> & _ & rs & n & Hrs & Hn & Hpos & _).
  exists rspec, rs. unfold replicas_of, role_spec. rewrite Hs. simpl. rewrite Hrs, Hn. by split_and!.
Qed.

Lemma valid_absent role : spec_RoleSpecs spec !! role = None → replicas_of spec role = 0.
Proof. intros Hs. unfold replicas_of, role_spec. by rewrite Hs. Qed.

Lemma replicas_of_nonneg role : 0 ≤ replicas_of spec role.
Proof.
  destruct (spec_RoleSpecs spec !! role) as [s|] eqn:Hs; [|by rewrite valid_absent].
  destruct (valid_role_spec _ _ Hs) as (_ & _ & _ & _ & _ & _ & ?). lia.
Qed.

Lemma GetRoleReplicas_valid role : GetRoleReplicas spec role = Done (replicas_of spec role).
Proof.
  unfold GetRoleReplicas. destruct (spec_RoleSpecs spec !! role) as [s|] eqn:Hs.
  - destruct (valid_role_spec _ _ Hs) as (rspec & rs & -> & Hr & Hrs & Hn & _). rewrite Hr. unfold spec_Replicas.
    rewrite Hrs. simpl. by rewrite Hn.
  - rewrite valid_absent by done. unfold role_spec. by rewrite Hs.
Qed.

Lemma GetRolesDomainNames_valid `{Kubeflow} job roles : job_Spec job = spec →
  GetRolesDomainNames job roles = Done (roles ≫= λ role,
    (λ i, GetPodDomainName (meta_Name (job_meta job)) (meta_Namespace (job_meta job)) role i) <$> indices (replicas_of spec role)).
Proof.
  intros Hjob. unfold GetRolesDomainNames. rewrite Hjob.
  assert (∀ l acc, fold_res (λ res role, replicas ← GetRoleReplicas spec role;
      Done (res ++ ((λ i, GenGeneralName (meta_Name (job_meta job)) role (Itoa i) +:+ "." +:+
        GetServiceDomainName (meta_Name (job_meta job)) (meta_Namespace (job_meta job)) role) <$> indices replicas))) acc l =
    Done (acc ++ (l ≫= λ role, (λ i, GetPodDomainName (meta_Name (job_meta job)) (meta_Namespace (job_meta job)) role i) <$>
      indices (replicas_of spec role)))) as Hl; [|apply Hl].
  induction l as [|role l IH]; intros acc; simpl; [by rewrite app_nil_r|].
  rewrite GetRoleReplicas_valid. simpl. rewrite IH. by rewrite <- app_assoc.
Qed.
End valid.
