(* ===== verification/SimpleFrameworks.v ===== *)
(** * The standalone, custom, demo, MPI and PyTorch frameworks

    [frameworks/standalone/standalone.go], [frameworks/custom/custom.go],
    [frameworks/demo/demo.go], [frameworks/mpi/mpi.go] and
    [frameworks/pytorch/pytorch.go]. *)

From S2P Require Import Prelude GoStd Errors Kube Api World ReconcilerUtils Examples Webhook Metadata Conf Dependence.
From S2P Require Import NodeManager Cache Phase PodGroup Pod PodCreate Service Job FrameworkBase.

(** ** Standalone *)

Module Standalone.
Section standalone.
Context `{MapOrder, Kubeflow, Selectors, ApiServer, JobControllerPorts, JobController}.

Definition steps : list role_step :=
  [if_role RoleWorker (λ spec, default_failed_if_not_restarted (default_succeeded spec))].

Definition SetDefault (job : AresJob) : go AresJob :=
  run_steps steps (default_job_policy (mkJobPhasePolicy [[RoleWorker]] [[RoleWorker]]) job).

Definition Validate (job : AresJob) : go unit := Done tt.

Definition controller : Controller := naming FrameworkStandalone "".
#[local] Existing Instance controller.

Definition ReconcileServices (services : list Service) (rtype : string) (spec : ReplicaSpec) : op unit :=
  if decide (rtype = RoleWorker) then mret tt else Service.ReconcileServices services rtype spec.

Definition methods : Methods :=
  mkMethods FrameworkStandalone SetDefault Validate controller ReconcileServices ReconcileJobs.
End standalone.
End Standalone.

(** ** Custom *)

Module Custom.
Section custom.
Context `{MapOrder, Kubeflow, Selectors, ApiServer, JobControllerPorts, JobController}.

Definition setCommonJobPhasePolicy (job : AresJob) : AresJob :=
  match spec_JobPhasePolicy (job_Spec job) with
  | Some _ => job
  | None =>
      let roles := range_keys 0 (spec_RoleSpecs (job_Spec job)) in
      job <| job_Spec ::= λ s, s <| spec_JobPhasePolicy :=
        Some (mkJobPhasePolicy ((λ role, [role]) <$> roles) [roles]) |> |>
  end.

Definition setCommonRolePhasePolicy (job : AresJob) : go AresJob :=
  roles ← for_roles 1 (λ spec, default_failed_if_not_restarted (default_succeeded spec)) (spec_RoleSpecs (job_Spec job));
  Done (job <| job_Spec ::= λ s, s <| spec_RoleSpecs := roles |> |>).

Definition SetDefault (job : AresJob) : go AresJob := setCommonRolePhasePolicy (setCommonJobPhasePolicy job).

Definition Validate (job : AresJob) : go unit := Done tt.

(** [n] tells the loop over the roles of one container from those of the
    others. *)
Definition cluster_env (job : AresJob) (rtype index : string) (n : nat) : go (list EnvVar) :=
  fold_res (λ envs role,
      names ← GetRolesDomainNames job [role];
      Done (envs ++ [env role (Join names ",")]))
    [env "MODULE" rtype; env "INDEX" index] (range_keys n (spec_RoleSpecs (job_Spec job))).

Definition SetClusterSpec (job : AresJob) (podTemplate : PodTemplateSpec) (rtype index : string) : go PodTemplateSpec :=
  each_container (λ n c, envs ← cluster_env job rtype index n; Done (append_env envs c)) podTemplate.

Definition controller : Controller := overriding "" "" SetClusterSpec.
#[local] Existing Instance controller.

Definition methods : Methods :=
  mkMethods FrameworkCustom SetDefault Validate controller Service.ReconcileServices ReconcileJobs.
End custom.
End Custom.

(** ** Demo *)

Module Demo.
Section demo.
Context `{Kubeflow}.

Definition SetDefault (job : AresJob) : go AresJob := Done job.
Definition Validate (job : AresJob) : go unit := Done tt.

(** Called through [f.Controller], which is the framework. *)
Definition UpdateJobStatus (replicas : gmap string (option ReplicaSpec)) (jobStatus : JobStatus) : op unit := mret tt.
Definition ReconcileJobs (replicas : gmap string (option ReplicaSpec)) (jobStatus : JobStatus) (runPolicy : RunPolicy) : op unit :=
  UpdateJobStatus replicas jobStatus.
Definition ReconcileServices (services : list Service) (rtype : string) (spec : ReplicaSpec) : op unit := mret tt.

Definition methods : Methods :=
  mkMethods FrameworkDemo SetDefault Validate base_controller ReconcileServices ReconcileJobs.
End demo.
End Demo.

(** ** MPI *)

Module MPI.
Section mpi.
Context `{MapOrder, Kubeflow, Selectors, ApiServer, JobControllerPorts, JobController}.

(** [if spec.RolePhasePolicy.Failed == nil] sets two fields. *)
Definition default_failed_on_node_down (spec : RoleSpec) : RoleSpec :=
  match rpolicy_Failed (role_RolePhasePolicy spec) with
  | Some _ => spec
  | None => default_failed spec <| role_RolePhasePolicy ::= λ p, p <| rpolicy_NodeDownAsFailed := true |> |>
  end.

Definition hostfile_dependence : DependenceSpec :=
  mkDependenceSpec [RoleWorker] RolePhaseRunning (Some DefaultMPIHostFilePath).

Definition job_policy (job : AresJob) : JobPhasePolicy :=
  mkJobPhasePolicy ([RoleLauncher] :: if has_role job RoleWorker then [[RoleWorker]] else []) [[RoleLauncher]].

Definition steps (job : AresJob) : list role_step :=
  [if_role RoleWorker (λ spec, Done (default_failed_on_node_down spec));
   if_role RoleLauncher (λ spec, Done (default_failed_on_node_down (default_succeeded spec)));
   if_role RoleLauncher (λ spec, Done (if has_role job RoleWorker then default_dependence hostfile_dependence spec else spec))].

Definition SetDefault (job : AresJob) : go AresJob :=
  job ← run_steps (steps job) (default_job_policy (job_policy job) job);
  Done (job <| job_Spec ::= λ s, s <| spec_Framework ::= λ f, f <| fw_MPI ::= λ mpi, Some (default (mkMPISpec 1 OMPI) mpi) |> |> |>).

Definition Validate (job : AresJob) : go unit := MPISpec_Validate (fw_MPI (spec_Framework (job_Spec job))).

Definition controller : Controller := naming FrameworkMPI "".
#[local] Existing Instance controller.

Definition ReconcileServices (services : list Service) (rtype : string) (spec : ReplicaSpec) : op unit :=
  if decide (rtype = RoleLauncher ∨ rtype = RoleWorker) then mret tt else Service.ReconcileServices services rtype spec.

Definition methods : Methods := mkMethods FrameworkMPI SetDefault Validate controller ReconcileServices ReconcileJobs.
End mpi.
End MPI.

(** ** PyTorch *)

Module Pytorch.
Section pytorch.
Context `{MapOrder, Kubeflow, Selectors, ApiServer, JobControllerPorts, JobController}.

Definition job_policy (job : AresJob) : JobPhasePolicy :=
  if has_role job RoleWorker then mkJobPhasePolicy [[RoleMaster]; [RoleWorker]] [[RoleMaster; RoleWorker]]
  else mkJobPhasePolicy [[RoleMaster]] [[RoleMaster]].

Definition steps (job : AresJob) : list role_step :=
  [if_role RoleWorker (λ spec, Done (default_succeeded (default_failed spec)));
   if_role RoleMaster (λ spec, Done (default_succeeded (default_failed spec)));
   if_role RoleWorker (λ spec, Done (if has_role job RoleMaster then default_dependence (on_running RoleMaster) spec else spec))].

Definition SetDefault (job : AresJob) : go AresJob :=
  run_steps (steps job) (default_job_policy (job_policy job) job).

Definition Validate (job : AresJob) : go unit :=
  if has_role job RoleMaster then
    spec ← deref (role_spec (job_Spec job) RoleMaster);
    replicas ← spec_Replicas spec;
    replicas ← deref replicas;
    if decide (replicas ≠ 1)
    then Fail (Errorf ("replicas for role " +:+ RoleMaster +:+ " must be 1: " +:+ Itoa replicas))
    else Done tt
  else Fail (Errorf ("role " +:+ RoleMaster +:+ " is required for " +:+ FrameworkPytorch +:+ ": " +:+ meta_Name (job_meta job))).

Definition names : Controller := naming FrameworkPytorch FrameworkPytorch.

Definition cluster_env (job : AresJob) (masterAddr : string) (masterPort rank : Z) : go (list EnvVar) :=
  workers ← GetRoleReplicas (job_Spec job) RoleWorker;
  Done [env "MASTER_ADDR" masterAddr; env "MASTER_PORT" (Itoa masterPort);
        env "WORLD_SIZE" (Itoa (wrap64 (workers + 1))); env "RANK" (Itoa rank)].

Definition SetClusterSpec (job : AresJob) (podTemplate : PodTemplateSpec) (rtype index : string) : go PodTemplateSpec :=
  if decide (rtype ≠ RoleMaster ∧ rtype ≠ RoleWorker) then Done podTemplate
  else
    match Atoi index with
    | (_, Some err) =>
        Fail (Errorf ("failed to convert string(" +:+ index +:+ ") to int: " +:+ num_error_string "Atoi" index err))
    | (rank, None) =>
        let '(masterAddr, rank) :=
          if decide (rtype = RoleWorker)
          then (GetPodDomainName (meta_Name (job_meta job)) (meta_Namespace (job_meta job)) RoleMaster 0, wrap64 (rank + 1))
          else ("0.0.0.0", rank) in
        match @GetPort names job RoleMaster with
        | Fail err => Fail (Errorf ("failed to get pytorch master port: " +:+ error_string err))
        | Crash p => Crash p
        | Done masterPort =>
            each_container (λ _ c, envs ← cluster_env job masterAddr masterPort rank; Done (append_env envs c)) podTemplate
        end
    end.

Definition controller : Controller := overriding FrameworkPytorch FrameworkPytorch SetClusterSpec.
#[local] Existing Instance controller.

Definition ReconcileServices (services : list Service) (rtype : string) (spec : ReplicaSpec) : op unit :=
  if decide (rtype = RoleWorker) then mret tt else Service.ReconcileServices services rtype spec.

Definition methods : Methods := mkMethods FrameworkPytorch SetDefault Validate controller ReconcileServices ReconcileJobs.
End pytorch.
End Pytorch.
