(* ===== verification/Bagua.v ===== *)
(** * The Bagua framework ([frameworks/bagua/bagua.go])

    Static mode: a master and workers, numbered by rank.  Elastic mode: an
    etcd and workers, among which the available ports are divided. *)

From S2P Require Import Prelude GoStd Errors Kube Api World ReconcilerUtils Examples Webhook Metadata Conf Dependence.
From S2P Require Import NodeManager Cache Phase PodGroup Pod PodCreate Service Job FrameworkBase.

Module Bagua.
Section bagua.
Context `{MapOrder, Kubeflow, Selectors, ApiServer, JobControllerPorts, JobController}.

Definition enableElastic (job : AresJob) : go bool :=
  spec ← deref (fw_Bagua (spec_Framework (job_Spec job))); Done (EnableElastic spec).

(** ** Validation *)

Definition ports_text (ports : list Z) : string := "[" +:+ Join (Itoa <$> ports) " " +:+ "]".

Definition Validate (job : AresJob) : go unit :=
  let ports := spec_AvailablePorts (job_Spec job) in
  elastic ← enableElastic job;
  if negb elastic then
    _ ← CheckRolesExist (job_Spec job) [RoleMaster];
    masters ← GetRoleReplicas (job_Spec job) RoleMaster;
    if decide (masters ≠ 1) then Fail (Errorf "bagua master role replicas must be 1")
    else if decide (Z.of_nat (length ports) < 2)
    then Fail (Errorf ("insufficient ports(" +:+ ports_text ports +:+ "), 2 is needed at least under static mode"))
    else Done tt
  else
    _ ← CheckRolesExist (job_Spec job) [RoleWorker; RoleEtcd];
    etcds ← GetRoleReplicas (job_Spec job) RoleEtcd;
    if decide (etcds ≠ 1) then Fail (Errorf "bagua etcd role replicas must be 1")
    else
      workers ← GetRoleReplicas (job_Spec job) RoleWorker;
      let minPortsNum := wrap32 (2 + workers) in
      if decide (Z.of_nat (length ports) < minPortsNum)
      then Fail (Errorf ("insufficient ports(" +:+ ports_text ports +:+ "), " +:+ Itoa minPortsNum
                         +:+ " is needed at least under static mode"))
      else Done tt.

(** ** Defaulting *)

Definition static_policy (job : AresJob) : JobPhasePolicy :=
  if has_role job RoleWorker then mkJobPhasePolicy [[RoleWorker]; [RoleMaster]] [[RoleWorker; RoleMaster]]
  else mkJobPhasePolicy [[RoleMaster]] [[RoleMaster]].

Definition static_steps : list role_step :=
  [the_role RoleMaster (λ spec, Done (default_succeeded spec));
   the_role RoleMaster (λ spec, Done (default_failed spec));
   if_role RoleWorker (λ spec, Done (default_failed (default_succeeded spec)));
   if_role RoleWorker (λ spec, Done (default_dependence (on_running RoleMaster) spec))].

Definition elastic_policy : JobPhasePolicy := mkJobPhasePolicy [[RoleWorker]; [RoleEtcd]] [[RoleWorker]].

Definition elastic_steps : list role_step :=
  [the_role RoleWorker (λ spec, Done (default_succeeded spec));
   the_role RoleWorker (λ spec, Done (default_failed spec));
   the_role RoleEtcd (λ spec, Done (default_succeeded spec));
   the_role RoleEtcd (λ spec, Done (default_failed spec));
   the_role RoleWorker (λ spec, Done (default_dependence (on_running RoleEtcd) spec))].

(** In static mode the roles are defaulted only with the job's policy. *)
Definition SetDefault (job : AresJob) : go AresJob :=
  let job := job <| job_Spec ::= λ s, s <| spec_Framework ::= λ f,
    f <| fw_Bagua ::= λ b, Some (default (mkBaguaSpec false None None) b) |> |> |> in
  elastic ← enableElastic job;
  if negb elastic then
    match spec_JobPhasePolicy (job_Spec job) with
    | Some _ => Done job
    | None => run_steps static_steps (default_job_policy (static_policy job) job)
    end
  else run_steps elastic_steps (default_job_policy elastic_policy job).

(** ** Private ports *)

(** The ports but for etcd's, shared out among the workers by index. *)
Definition getPrivatePorts (portsExceptEtcd : list Z) (replicas : Z) (index : string) : go (list Z) :=
  if decide (replicas = 0) then Crash DivideByZero
  else
    let privatePortNumEach := Z.quot (Z.of_nat (length portsExceptEtcd)) replicas in
    let idx := (Atoi index).1 in
    if decide (idx < replicas ∧ 0 < privatePortNumEach)
    then slice_range portsExceptEtcd (wrap64 (privatePortNumEach * idx)) (wrap64 (privatePortNumEach * wrap64 (idx + 1)))
    else Done [].

(** ** Environment *)

Definition domain (job : AresJob) (role : string) : string :=
  GetServiceDomainName (meta_Name (job_meta job)) (meta_Namespace (job_meta job)) role.

(** [l[n:]] *)
Definition slice_from {A} (l : list A) (n : Z) : go (list A) := slice_range l n (Z.of_nat (length l)).

Definition static_rank (rtype index : string) : string :=
  if decide (rtype = RoleWorker) then Itoa (wrap64 ((Atoi index).1 + 1)) else "0".

Definition getEnvUnderStaticMode (job : AresJob) (rtype index : string) : go (list EnvVar) :=
  if decide (rtype ≠ RoleWorker ∧ rtype ≠ RoleMaster) then Done []
  else
    let portStrs := Int32SliceToStrSlice (spec_AvailablePorts (job_Spec job)) in
    port0 ← slice_get portStrs 0;
    workers ← GetRoleReplicas (job_Spec job) RoleWorker;
    port1 ← slice_get portStrs 1;
    names ← GetRolesDomainNames job [RoleMaster; RoleWorker];
    rest ← slice_from portStrs 2;
    Done [env "BAGUA_SSH_PORT" port0;
          env "SERVICE_DOMAIN_NAME" (Join [domain job RoleWorker; domain job RoleLauncher] " ");
          mkEnvVar "LOCAL_IP" "" (Some "status.hostIP");
          env "WORLD_SIZE" (Itoa (wrap32 (workers + 1)));
          env "MASTER_ADDR" (GetPodDomainName (meta_Name (job_meta job)) (meta_Namespace (job_meta job)) RoleMaster 0);
          env "MASTER_PORT" port1;
          env "RANK" (static_rank rtype index);
          env "BAGUA_NODE_DOMAIN_NAMES" (Join names ",");
          env "BAGUA_AVAILABLE_PORTS" (Join rest ",")].

Definition getEnvUnderElasticMode (job : AresJob) (rtype index : string) : go (list EnvVar) :=
  if decide (rtype ≠ RoleWorker ∧ rtype ≠ RoleEtcd) then Done []
  else
    let ports := spec_AvailablePorts (job_Spec job) in
    let portStrs := Int32SliceToStrSlice ports in
    port0 ← slice_get portStrs 0;
    port1 ← slice_get portStrs 1;
    let envs := [env "ETCD_CLIENT_PORT" port0; env "ETCD_SERVER_PORT" port1] in
    if decide (rtype = RoleEtcd) then Done envs
    else
      workerReplicas ← GetRoleReplicas (job_Spec job) RoleWorker;
      bagua ← deref (fw_Bagua (spec_Framework (job_Spec job)));
      let minsize := default workerReplicas (MinReplicas bagua) in
      let maxsize := default workerReplicas (MaxReplicas bagua) in
      let envs := envs ++
        [env "SERVICE_DOMAIN_NAME" (domain job RoleWorker);
         env "MIN_SIZE" (Itoa minsize);
         env "MAX_SIZE" (Itoa maxsize);
         env "JOB_ID" (meta_Name (job_meta job));
         env "ETCD_HOST" (GetPodDomainName (meta_Name (job_meta job)) (meta_Namespace (job_meta job)) RoleEtcd 0)] in
      rest ← slice_from ports 2;
      privatePorts ← getPrivatePorts rest workerReplicas index;
      match Int32SliceToStrSlice privatePorts with
      | [] => Done envs
      | port :: privatePorts =>
          Done (envs ++ [env "BAGUA_SSH_PORT" port; env "BAGUA_AVAILABLE_PORTS" (Join privatePorts ",")])
      end.

Definition addEnv (job : AresJob) (podTemplate : PodTemplateSpec) (rtype index : string) : go PodTemplateSpec :=
  elastic ← enableElastic job;
  envs ← (if elastic : bool then getEnvUnderElasticMode job rtype index else getEnvUnderStaticMode job rtype index);
  each_container (λ _ c, Done (append_env envs c)) podTemplate.

(** ** Container ports *)

Definition ports_to_add (job : AresJob) (rtype index : string) : go (list Z) :=
  let allPorts := spec_AvailablePorts (job_Spec job) in
  elastic ← enableElastic job;
  if negb elastic then Done allPorts
  else if decide (rtype = RoleEtcd) then slice_range allPorts 0 2
  else
    rest ← slice_from allPorts 2;
    workers ← GetRoleReplicas (job_Spec job) RoleWorker;
    getPrivatePorts rest workers index.

Definition addContainerPort (job : AresJob) (podTemplate : PodTemplateSpec) (rtype index : string) : go PodTemplateSpec :=
  addPorts ← ports_to_add job rtype index;
  match pod_Containers (template_Spec podTemplate) with
  | [] => Crash IndexOutOfRange
  | c :: cs =>
      Done (update_pod_spec podTemplate (λ s,
        s <| pod_Containers := append_ports (mkContainerPort "" <$> addPorts) c :: cs |>))
  end.

Definition SetClusterSpec (job : AresJob) (podTemplate : PodTemplateSpec) (rtype index : string) : go PodTemplateSpec :=
  podTemplate ← addEnv job podTemplate rtype index;
  addContainerPort job podTemplate rtype index.

Definition controller : Controller := overriding FrameworkBagua "" SetClusterSpec.
#[local] Existing Instance controller.

Definition methods : Methods :=
  mkMethods FrameworkBagua SetDefault Validate controller Service.ReconcileServices ReconcileJobs.
End bagua.
End Bagua.
