(* ===== verification/Dask.v ===== *)
(** * The Dask framework ([frameworks/dask/dask.go])

    A scheduler, a launcher, and possibly a lead worker with its workers. *)

From S2P Require Import Prelude GoStd Errors Kube Api World ReconcilerUtils Examples Webhook Metadata Conf Dependence.
From S2P Require Import NodeManager Cache Phase PodGroup Pod PodCreate Service Job FrameworkBase.

Module Dask.
Section dask.
Context `{MapOrder, Kubeflow, Selectors, ApiServer, JobControllerPorts, JobController}.

(** ** Ports *)

(** [container.Ports] of the framework's container, which may be nil. *)
Definition getPodDefaultContainerPorts (podTemplate : PodTemplateSpec) : option (list ContainerPort) :=
  match filter (λ c, container_Name c = FrameworkDask) (pod_Containers (template_Spec podTemplate)) with
  | container :: _ => container_Ports container
  | [] => None
  end.

Definition getRoleDefaultContainerPort (job : AresJob) (rtype : string) : go string :=
  if has_role job rtype then
    role ← deref (role_spec (job_Spec job) rtype);
    template ← spec_Template role;
    match getPodDefaultContainerPorts template with
    | Some ports => port ← slice_get ports 0; Done (Itoa (port_ContainerPort port))
    | None => Done ""
    end
  else Done "".

(** ** Environment *)

Definition counts_in_world (role : string) : Prop := role = RoleLeadWorker ∨ role = RoleLauncher ∨ role = RoleWorker.
#[export] Instance counts_in_world_dec role : Decision (counts_in_world role).
Proof. unfold counts_in_world. apply _. Defined.

Definition getWorldSize (job : AresJob) : go Z :=
  fold_res (λ worldSize '(key, role),
    if decide (counts_in_world key) then
      spec ← deref role;
      replicas ← spec_Replicas spec;
      n ← deref replicas;
      Done (wrap64 (worldSize + n))
    else Done worldSize) 0 (range 0 (spec_RoleSpecs (job_Spec job))).

Definition domain (job : AresJob) (role : string) : string :=
  GetServiceDomainName (meta_Name (job_meta job)) (meta_Namespace (job_meta job)) role.

Definition scheduler_address (job : AresJob) (port : string) : EnvVar :=
  env "SCHEDULER" ("tcp://" +:+ domain job RoleScheduler +:+ ":" +:+ port).

(** [masterAddr] and [rank] of a pod that is not the scheduler's. *)
Definition position (job : AresJob) (rtype index : string) (worldSize : Z) : string * Z :=
  if decide (rtype = RoleWorker) then (domain job RoleLeadWorker, wrap64 ((Atoi index).1 + 1))
  else if decide (rtype = RoleLauncher) then
    if has_role job RoleLeadWorker then (domain job RoleLeadWorker, wrap64 (worldSize - 1)) else ("0.0.0.0", 0)
  else ("0.0.0.0", 0).

Definition getEnvForDaskRole (job : AresJob) (rtype index : string) : go (list EnvVar) :=
  schedulerPort ← getRoleDefaultContainerPort job RoleScheduler;
  if decide (rtype = RoleScheduler) then
    Done [mkEnvVar "MY_IP" "" (Some "status.podIP"); scheduler_address job schedulerPort]
  else
    masterPort ← getRoleDefaultContainerPort job RoleLeadWorker;
    masterPort ← (if decide (masterPort = "") then getRoleDefaultContainerPort job RoleLauncher else Done masterPort);
    worldSize ← getWorldSize job;
    let '(masterAddr, rank) := position job rtype index worldSize in
    Done ((if decide (rtype = RoleLauncher) then [scheduler_address job schedulerPort] else []) ++
      [env "SchedulerAddress" (domain job RoleScheduler);
       env "SchedulerPort" schedulerPort;
       env "RANK" (Itoa rank);
       env "MASTER_ADDR" masterAddr;
       env "WORLD_SIZE" (Itoa worldSize);
       env "MASTER_PORT" masterPort]).

Definition addEnv (job : AresJob) (podTemplate : PodTemplateSpec) (rtype index : string) : go PodTemplateSpec :=
  envs ← getEnvForDaskRole job rtype index;
  each_container (λ _ c, Done (append_env envs c)) podTemplate.

Definition SetClusterSpec (job : AresJob) (podTemplate : PodTemplateSpec) (rtype index : string) : go PodTemplateSpec :=
  addEnv job podTemplate rtype index.

(** ** Defaulting *)

Definition job_policy (job : AresJob) : JobPhasePolicy :=
  mkJobPhasePolicy
    ([[RoleLauncher]; [RoleScheduler]] ++
     (if has_role job RoleLeadWorker then [[RoleLeadWorker]] else []) ++
     (if has_role job RoleWorker then [[RoleWorker]] else []))
    [[RoleLauncher]].

Definition default_policies (spec : RoleSpec) : RoleSpec := default_failed (default_succeeded spec).

Definition default_scheduler (spec : RoleSpec) : go RoleSpec :=
  update_replica_spec (λ rs,
      rs <| RestartPolicy := RestartPolicyOnFailure |>
         <| Template ::= λ t, update_pod_spec t (λ s, s <| pod_HostNetwork := true |>) |>)
    (default_policies spec <| role_Dependence := None |>).

Definition launcherDependenceRole (job : AresJob) : string :=
  if has_role job RoleWorker then RoleWorker
  else if has_role job RoleLeadWorker then RoleLeadWorker else RoleScheduler.

Definition steps (job : AresJob) : list role_step :=
  [the_role RoleScheduler default_scheduler;
   the_role RoleLauncher (λ spec, Done (default_policies spec));
   if_role RoleLeadWorker (λ spec, Done (default_dependence (on_running RoleScheduler) (default_policies spec)));
   if_role RoleWorker (λ spec, Done (default_dependence (on_running RoleLeadWorker) (default_policies spec)));
   the_role RoleLauncher (λ spec, Done (spec <| role_Dependence := Some (on_running (launcherDependenceRole job)) |>))].

Definition SetDefault (job : AresJob) : go AresJob :=
  run_steps (steps job) (default_job_policy (job_policy job) job).

(** ** Validation *)

(** [d.getPodDefaultContainerPorts(&job.Spec.RoleSpecs[role].Template)] *)
Definition role_ports (job : AresJob) (role : string) : go (list ContainerPort) :=
  spec ← deref (role_spec (job_Spec job) role);
  template ← spec_Template spec;
  Done (default [] (getPodDefaultContainerPorts template)).

Definition validate_master (job : AresJob) : go unit :=
  if has_role job RoleLeadWorker then
    spec ← deref (role_spec (job_Spec job) RoleLeadWorker);
    replicas ← spec_Replicas spec;
    n ← deref replicas;
    if decide (n ≠ 1) then Fail (Errorf "dask master role replicas must be 1")
    else
      ports ← role_ports job RoleLeadWorker;
      if decide (length ports ≠ 1%nat) then Fail (Errorf "dask master container port number must be 1") else Done tt
  else Done tt.

Definition Validate (job : AresJob) : go unit :=
  _ ← CheckRolesExist (job_Spec job) [RoleLauncher; RoleScheduler];
  launchers ← GetRoleReplicas (job_Spec job) RoleLauncher;
  if decide (launchers ≠ 1) then Fail (Errorf "dask launcher role replicas must be 1")
  else
    schedulers ← GetRoleReplicas (job_Spec job) RoleScheduler;
    if decide (schedulers ≠ 1) then Fail (Errorf "dask scheduler role replicas must be 1")
    else
      _ ← (if has_role job RoleWorker then
             match CheckRolesExist (job_Spec job) [RoleLeadWorker] with
             | Fail _ => Fail (Errorf "dask master role must exist on the cases of worker role provided")
             | r => r
             end
           else Done tt);
      _ ← validate_master job;
      schedulerPort ← role_ports job RoleScheduler;
      if decide (length schedulerPort ≠ 2%nat) then Fail (Errorf "dask scheduler container port number must be 2")
      else
        launcherPorts ← role_ports job RoleLauncher;
        if decide (length launcherPorts = 0%nat) then Fail (Errorf "dask launcher container port number can not be 0")
        else Done tt.

(** ** Services *)

Definition controller : Controller := overriding FrameworkDask "" SetClusterSpec.
#[local] Existing Instance controller.

Definition ReconcileServices (services : list Service) (rtype : string) (spec : ReplicaSpec) : op unit :=
  if decide (rtype = RoleLauncher ∨ rtype = RoleWorker) then mret tt else Service.ReconcileServices services rtype spec.

Definition methods : Methods := mkMethods FrameworkDask SetDefault Validate controller ReconcileServices ReconcileJobs.
End dask.
End Dask.
