(* ===== verification/Tensorflow.v ===== *)
(** * The TensorFlow framework ([frameworks/tensorflow/tensorflow.go, types.go])

    The cluster spec of a distributed job, passed to each pod in TF_CONFIG. *)

From S2P Require Import Prelude GoStd Errors Kube Api World ReconcilerUtils Examples Webhook Metadata Conf Dependence.
From S2P Require Import NodeManager Cache Phase PodGroup Pod PodCreate Service Job FrameworkBase.

(** ** Data ([types.go]) *)

Definition DefaultPortName : string := "tfjob-port".
Definition DefaultPort : Z := 2222.

Record TaskSpec := mkTaskSpec { Task_Type : string; Task_Index : Z }.

Definition ClusterSpec := gmap string (list string).

Record TFConfig := mkTFConfig {
  Cluster : ClusterSpec;
  Task : TaskSpec;
  Environment : string;
}.

Record SparseClusterSpec := mkSparseClusterSpec {
  Sparse_Worker : gmap Z string;
  Sparse_PS : list string;
}.

Record SparseTFConfig := mkSparseTFConfig {
  Sparse_Cluster : SparseClusterSpec;
  Sparse_Task : TaskSpec;
}.

(** [json.Marshal] of the two configurations. *)
Class TFConfigText := {
  json_TFConfig : TFConfig → go string;
  json_SparseTFConfig : SparseTFConfig → go string;
}.

(** [l[i]] of a slice in a map: a missing key has the empty slice. *)
Definition endpoint (cluster : ClusterSpec) (rtype : string) (index : Z) : go string :=
  slice_get (default [] (cluster !! rtype)) index.

Definition convertClusterSpecToSparseClusterSpec (clusterSpec : ClusterSpec) (rtype : string) (index : Z)
    : go SparseClusterSpec :=
  if decide (rtype = RolePS) then
    own ← endpoint clusterSpec rtype index;
    Done (mkSparseClusterSpec ∅ [own])
  else if decide (rtype = RoleWorker) then
    own ← endpoint clusterSpec rtype index;
    Done (mkSparseClusterSpec {[index := own]} (default [] (clusterSpec !! RolePS)))
  else Done (mkSparseClusterSpec ∅ []).

Module Tensorflow.
Section tensorflow.
Context `{MapOrder, Kubeflow, Selectors, ApiServer, JobControllerPorts, JobController, TFConfigText}.

Definition getSpecificRoles : list string := [RoleChief; RoleEvaluator; RoleMaster; RolePS; RoleWorker].

(** ** Defaulting *)

Definition job_policy (job : AresJob) : JobPhasePolicy :=
  let roleSpecs := spec_RoleSpecs (job_Spec job) in
  let hasChief := HasRoles (job_Spec job) [RoleChief] in
  let succeedAcquired := GetRolesIntersection roleSpecs [RoleMaster; RoleChief; RoleWorker] in
  mkJobPhasePolicy
    ((λ r, [r]) <$> filter (λ r, ¬ (hasChief = true ∧ r = RoleWorker)) (GetRolesIntersection roleSpecs getSpecificRoles))
    (match succeedAcquired with [] => [] | _ => [succeedAcquired] end).

(** The restart policy of the workers of a job with a chief. *)
Definition restart_workers (spec : RoleSpec) : go RoleSpec :=
  policy ← spec_RestartPolicy spec;
  if decide (policy = RestartPolicyAlways) then Done spec
  else update_replica_spec (λ rs, rs <| RestartPolicy := RestartPolicyOnFailure |>) spec.

Definition default_role_policy (hasChief : bool) (role : string) (spec : RoleSpec) : go RoleSpec :=
  let spec := default_succeeded spec in
  spec ← (if decide (hasChief = true ∧ role = RoleWorker) then restart_workers spec else Done spec);
  default_failed_if_not_restarted spec.

Definition has_port (c : Container) : bool :=
  existsb (λ port, bool_decide (port_Name port = DefaultPortName)) (default [] (container_Ports c)).

Definition with_default_port (c : Container) : Container :=
  if has_port c then c else append_ports [mkContainerPort DefaultPortName DefaultPort] c.

(** The first container of the framework's name is given the port. *)
Fixpoint setDefaultPort (containers : list Container) : list Container :=
  match containers with
  | [] => []
  | c :: cs =>
      if decide (container_Name c = FrameworkTensorflow) then with_default_port c :: cs
      else c :: setDefaultPort cs
  end.

Definition default_role_port (spec : RoleSpec) : go RoleSpec :=
  update_replica_spec (λ rs, rs <| Template ::= λ t, update_pod_spec t (λ s, s <| pod_Containers ::= setDefaultPort |>) |>) spec.

Definition steps (job : AresJob) : list role_step :=
  let hasChief := HasRoles (job_Spec job) [RoleChief] in
  ((λ role, if_role role (default_role_policy hasChief role)) <$> getSpecificRoles) ++
  ((λ role, if_role role default_role_port) <$> getSpecificRoles).

Definition SetDefault (job : AresJob) : go AresJob :=
  let job := job <| job_Spec ::= λ s, s <| spec_Framework ::= λ f,
    f <| fw_Tensorflow ::= λ t, Some (default (mkTensorflowSpec false) t) |> |> |> in
  run_steps (steps job) (default_job_policy (job_policy job) job).

(** ** Validation *)

Definition HasDefaultContainer (spec : PodSpec) : bool :=
  existsb (λ c, bool_decide (container_Name c = FrameworkTensorflow)) (pod_Containers spec).

Definition check_container (job : AresJob) (role : string) : go unit :=
  if has_role job role then
    spec ← deref (role_spec (job_Spec job) role);
    template ← spec_Template spec;
    if HasDefaultContainer (template_Spec template) then Done tt
    else Fail (Errorf ("role(" +:+ role +:+ ") must have container named " +:+ FrameworkTensorflow))
  else Done tt.

Definition check_replicas (job : AresJob) (role : string) : go unit :=
  if has_role job role then
    spec ← deref (role_spec (job_Spec job) role);
    replicas ← spec_Replicas spec;
    match replicas with
    | None => Done tt
    | Some n => if decide (1 < n) then Fail (Errorf ("replicas of " +:+ role +:+ " cannot be greater than 1")) else Done tt
    end
  else Done tt.

Definition Validate (job : AresJob) : go unit :=
  _ ← fold_res (λ _ role, check_container job role) tt getSpecificRoles;
  fold_res (λ _ role, check_replicas job role) tt [RoleMaster; RoleChief].

(** ** The cluster spec *)

Definition names : Controller := naming FrameworkTensorflow DefaultPortName.

Definition enableDynamicWorker (job : AresJob) : go bool :=
  spec ← deref (fw_Tensorflow (spec_Framework (job_Spec job))); Done (EnableDynamicWorker spec).

Definition isDistributed (job : AresJob) : go bool :=
  distributionCount ← GetRolesReplicas (job_Spec job) getSpecificRoles;
  Done (bool_decide (1 < distributionCount)).

Definition genClusterSpec (job : AresJob) : go ClusterSpec :=
  fold_res (λ (clusterSpec : ClusterSpec) role,
    if has_role job role then
      port ← @GetPort names job role;
      roleDomainNames ← GetRolesDomainNames job [role];
      let endPoints : list string := (λ dn, dn +:+ ":" +:+ Itoa port) <$> roleDomainNames in
      Done (<[role := endPoints]> clusterSpec : ClusterSpec)
    else Done clusterSpec) ∅ getSpecificRoles.

Definition genTFConfigJSONStr (job : AresJob) (rtype index : string) : go string :=
  match ParseInt index 32 with
  | inl err => Fail (Errorf (num_error_string "ParseInt" index err))
  | inr i =>
      cluster ← genClusterSpec job;
      dynamic ← enableDynamicWorker job;
      if dynamic : bool then
        sparse ← convertClusterSpecToSparseClusterSpec cluster (ToLower rtype) i;
        json_SparseTFConfig (mkSparseTFConfig sparse (mkTaskSpec (ToLower rtype) i))
      else json_TFConfig (mkTFConfig cluster (mkTaskSpec (ToLower rtype) i) "cloud")
  end.

(** The first container of the framework's name is given the variable. *)
Fixpoint add_config (config : string) (containers : list Container) : list Container :=
  match containers with
  | [] => []
  | c :: cs =>
      if decide (container_Name c = FrameworkTensorflow) then append_env [env "TF_CONFIG" config] c :: cs
      else c :: add_config config cs
  end.

Definition SetClusterSpec (job : AresJob) (podTemplate : PodTemplateSpec) (rtype index : string) : go PodTemplateSpec :=
  distributed ← isDistributed job;
  if negb distributed then Done podTemplate
  else
    config ← genTFConfigJSONStr job rtype index;
    if decide (config = "") then Done podTemplate
    else Done (update_pod_spec podTemplate (λ s, s <| pod_Containers ::= add_config config |>)).

Definition controller : Controller := overriding FrameworkTensorflow DefaultPortName SetClusterSpec.
#[local] Existing Instance controller.

Definition methods : Methods :=
  mkMethods FrameworkTensorflow SetDefault Validate controller Service.ReconcileServices ReconcileJobs.
End tensorflow.
End Tensorflow.
