(* ===== verification/Factory.v ===== *)
(** * The framework factory ([frameworks/factory.go]) and its use by the
    controller ([controllers/aresjob_controller.go], [setupFrameworks])

    The registered frameworks, and the methods each of them gives the
    controller: its own and those of the reconciler it embeds. *)

From S2P Require Import Prelude GoStd Errors Regex Kube Api World ReconcilerUtils Examples Webhook Metadata Expectation.
From S2P Require Import Cache Conf Dependence NodeManager Phase PodGroup Pod PodCreate Service Job Controller Events.
From S2P Require Import FrameworkBase SimpleFrameworks Bagua Dask Tensorflow.

Section factory.
Context `{MapOrder, Kubeflow, Selectors, ApiServer, JobControllerPorts, JobController, TFConfigText}.

(** ** Registration *)

Definition Register (name : string) (builder : Methods) (builders : gmap string Methods)
    : gmap string Methods := <[name := builder]> builders.

Definition Factory : gmap string Methods :=
  foldl (λ builders '(name, builder), Register name builder builders) ∅
    [(FrameworkBagua, Bagua.methods); (FrameworkCustom, Custom.methods); (FrameworkDask, Dask.methods);
     (FrameworkDemo, Demo.methods); (FrameworkMPI, MPI.methods); (FrameworkPytorch, Pytorch.methods);
     (FrameworkStandalone, Standalone.methods); (FrameworkTensorflow, Tensorflow.methods)].

(** ** What the controller calls *)

Section setup.
Context {C : Type} `{Interface C, SortSlice, PodLister}.
Context (GetServicesForJob : ObjectMeta → error + list Service).

(** The methods a framework does not override are the reconciler's. *)
Definition framework_of (m : Methods) : Framework C :=
  mkFramework (SetDefault m) (Validate m) (Framework_ReconcileJobs m) AddObject DeleteObject
    (λ job rtype phase, OnRolePhaseChanged job rtype phase (GetPodsForReplica (job_meta job) rtype))
    (job ← get_job; CleanUpResources (GetPodsForJob (job_meta job)) (GetServicesForJob (job_meta job))).

Definition setupFrameworks : gmap string (Framework C) :=
  foldl (λ fs '(_, m), <[GetName m := framework_of m]> fs) ∅ (range 0 Factory).

(** The framework registered under a name is found under its own. *)
Lemma Factory_cases (P : string → Methods → Prop) :
  P FrameworkBagua Bagua.methods → P FrameworkCustom Custom.methods → P FrameworkDask Dask.methods →
  P FrameworkDemo Demo.methods → P FrameworkMPI MPI.methods → P FrameworkPytorch Pytorch.methods →
  P FrameworkStandalone Standalone.methods → P FrameworkTensorflow Tensorflow.methods →
  ∀ name m, Factory !! name = Some m → P name m.
Proof.
  intros ???????? name m. unfold Factory, Register. simpl.
  rewrite !lookup_insert_Some, lookup_empty. intuition (subst; auto). discriminate.
Qed.

Lemma setupFrameworks_lookup name :
  setupFrameworks !! name = framework_of <$> (Factory !! name).
Proof.
  unfold setupFrameworks.
  assert (∀ k m, (k, m) ∈ range 0 Factory → GetName m = k) as Hname.
  { intros k m Hin%elem_of_range. revert k m Hin. by apply Factory_cases. }
  assert (∀ l acc, (∀ k m, (k, m) ∈ l → GetName m = k) →
    foldl (λ fs '(_, m), <[GetName m := framework_of m]> fs) acc l =
    foldl (λ fs '(k, m), <[k := framework_of m]> fs) acc l) as ->; [| |done].
  { induction l as [|[k m] l IH]; intros acc Hl; simpl; [done|]. rewrite (Hl k m) by by left. apply IH.
    intros ???. apply Hl. by right. }
  rewrite (foldl_range_lookup _ (λ _ m, Some (framework_of m))) by done.
  rewrite lookup_empty. by destruct (_ !! name).
Qed.
End setup.
End factory.

(** ** The law of the reconciler's clients

    Every framework keeps the metadata and the names of the pods it is given
    ([ControllerLaws]), which is what the identity of the created pods relies
    on. *)

Lemma each_container_keeps f t t' : each_container f t = Done t' →
  template_meta t' = template_meta t ∧ pod_Hostname (template_Spec t') = pod_Hostname (template_Spec t) ∧
  pod_Subdomain (template_Spec t') = pod_Subdomain (template_Spec t).
Proof. unfold each_container. intros (cs & _ & [= <-])%res_bind_Done. done. Qed.

Lemma cluster_spec_laws `{Kubeflow} container port set :
  (∀ job t rt index t', set job t rt index = Done t' →
     template_meta t' = template_meta t ∧ pod_Hostname (template_Spec t') = pod_Hostname (template_Spec t) ∧
     pod_Subdomain (template_Spec t') = pod_Subdomain (template_Spec t)) →
  @ControllerLaws (overriding container port set).
Proof. intros Hset. constructor; simpl; intros; by eapply Hset. Qed.

Section laws.
Context `{MapOrder, Kubeflow, Selectors, ApiServer, JobControllerPorts, JobController, TFConfigText}.

Lemma Factory_laws name m : Factory !! name = Some m → @ControllerLaws (controller m).
Proof.
  revert name m. apply Factory_cases; simpl; try apply base_controller_laws; apply cluster_spec_laws.
  - intros job t rt index t'. unfold Bagua.SetClusterSpec, Bagua.addEnv, Bagua.addContainerPort. intros Ht. res_inv.
    apply each_container_keeps in Hstep as (Hm & Hh & Hs). rewrite <- Hm, <- Hh, <- Hs.
    destruct (pod_Containers _); [done|]. by simplify_eq.
  - intros job t rt index t'. apply each_container_keeps.
  - intros job t rt index t'. unfold Dask.SetClusterSpec, Dask.addEnv. intros Ht. res_inv. by apply each_container_keeps in Ht.
  - intros job t rt index t' [= <-]. done.
  - intros job t rt index t'. unfold Pytorch.SetClusterSpec. intros Ht. split_cases; try done.
    all: by apply each_container_keeps in Ht.
  - intros job t rt index t' [= <-]. done.
  - intros job t rt index t'. unfold Tensorflow.SetClusterSpec. intros Ht. res_inv. split_cases; try done.
    res_inv. by split_cases.
Qed.
End laws.
