(* ===== verification/Defaulting.v ===== *)
(** * Defaulting settles

    The defaulting of every framework, followed by that of the API, changes
    nothing when it runs on its own result; so the controller, which writes
    the job back whenever defaulting changes its spec, does so at most once
    per change of the user's. *)

From S2P Require Import Prelude GoStd Errors Regex Kube Api World ReconcilerUtils Examples Webhook Metadata Expectation.
From S2P Require Import Cache Conf Dependence NodeManager Phase PodGroup Pod PodCreate Service Job Controller Events.
From S2P Require Import FrameworkBase SimpleFrameworks Bagua Dask Tensorflow Factory Reconcile.

(** ** The steps of the frameworks settle *)

(** The bodies that concern one role. *)
Ltac select_bodies H :=
  unfold run_bodies in H; rewrite ?filter_cons, ?filter_nil in H;
  repeat (rewrite decide_True in H by done || rewrite decide_False in H by done);
  cbn [fold_res step_body] in H.

(** Every step of a concrete list, on a spec given by its fields. *)
Ltac settle :=
  unfold settling; repeat (apply Forall_cons; split); [..|apply Forall_nil; exact I];
  intros [[[reps t policy]|] [fl su nd] ctl dep] spec1 spec2 Hb Hd;
  cbn [step_role] in Hb; select_bodies Hb; cbn [step_body];
  rewrite default_role_eq in Hd; injection Hd as <-;
  unfold default_failed_if_not_restarted, default_failed, default_succeeded, default_dependence, spec_RestartPolicy,
    update_replica_spec in *; simpl in Hb |- *;
  repeat (case_decide; simpl in * ); simplify_eq/=; try done.

Section settle.
Context `{MapOrder, Kubeflow, Selectors, ApiServer, JobControllerPorts, JobController, TFConfigText}.

Lemma Standalone_settles : settling Standalone.steps.
Proof. unfold Standalone.steps. settle. Qed.

Lemma MPI_settles job : settling (MPI.steps job).
Proof.
  unfold MPI.steps. destruct (has_role job RoleWorker);
    unfold MPI.default_failed_on_node_down; settle; by destruct fl; simplify_eq/=; repeat case_decide.
Qed.

Lemma Pytorch_settles job : settling (Pytorch.steps job).
Proof. unfold Pytorch.steps. destruct (has_role job RoleMaster); settle. Qed.

Lemma Bagua_elastic_settles : settling Bagua.elastic_steps.
Proof. unfold Bagua.elastic_steps. settle. Qed.

Lemma Dask_settles job : settling (Dask.steps job).
Proof. unfold Dask.steps, Dask.default_scheduler, Dask.default_policies. settle. Qed.

Lemma with_default_port_name c : container_Name (Tensorflow.with_default_port c) = container_Name c.
Proof. unfold Tensorflow.with_default_port. by case_match. Qed.

Lemma has_port_with_default_port c : Tensorflow.has_port (Tensorflow.with_default_port c) = true.
Proof.
  unfold Tensorflow.with_default_port. destruct (Tensorflow.has_port c) eqn:Hp; [done|].
  unfold Tensorflow.has_port. simpl. rewrite existsb_app. simpl. by rewrite orb_true_r.
Qed.

Lemma setDefaultPort_twice l : Tensorflow.setDefaultPort (Tensorflow.setDefaultPort l) = Tensorflow.setDefaultPort l.
Proof.
  induction l as [|c l IH]; simpl; [done|]. case_decide as Hn; simpl.
  - rewrite decide_True by by rewrite with_default_port_name. f_equal. unfold Tensorflow.with_default_port at 1.
    by rewrite has_port_with_default_port.
  - rewrite decide_False by done. by rewrite IH.
Qed.

(** The specs on which the defaulting of a role's policies does nothing. *)
Definition tf_policies_set (worker : bool) (spec : RoleSpec) : Prop :=
  ∃ rs, role_ReplicaSpec spec = Some rs ∧ is_Some (rpolicy_Succeeded (role_RolePhasePolicy spec)) ∧
    (worker = true → RestartPolicy rs = RestartPolicyAlways ∨ RestartPolicy rs = RestartPolicyOnFailure) ∧
    (RestartPolicy rs = RestartPolicyNever ∨ RestartPolicy rs = RestartPolicyExitCode →
     is_Some (rpolicy_Failed (role_RolePhasePolicy spec))).

Definition is_worker (hasChief : bool) (role : string) : bool := bool_decide (hasChief = true ∧ role = RoleWorker).

Lemma default_role_policy_sets hasChief role spec spec' :
  Tensorflow.default_role_policy hasChief role spec = Done spec' → tf_policies_set (is_worker hasChief role) spec'.
Proof.
  unfold Tensorflow.default_role_policy, tf_policies_set, is_worker.
  assert (is_Some (rpolicy_Succeeded (role_RolePhasePolicy (default_succeeded spec)))) as Hsu by by eexists.
  cbv zeta. generalize dependent (default_succeeded spec). intros spec0 Hsu.
  unfold Tensorflow.restart_workers, update_replica_spec, default_failed_if_not_restarted, spec_RestartPolicy.
  case_bool_decide as Hw; [rewrite decide_True by done|rewrite decide_False by done].
  - destruct (role_ReplicaSpec spec0) as [rs|] eqn:Hrs; simpl; [|done].
    case_decide as Ha; simpl; [rewrite Hrs|]; simpl.
    + rewrite decide_False by (rewrite Ha; by intros [|]). intros [= <-]. exists rs.
      split_and!; [done|done|by left|]. rewrite Ha. by intros [|].
    + intros [= <-]. eexists. split_and!; [done|done|by right|]. by intros [|].
  - destruct (role_ReplicaSpec spec0) as [rs|] eqn:Hrs; simpl; rewrite Hrs; simpl; [|done].
    intros [= <-]. exists rs. case_decide; (split_and!; [done|done|done|]); [intros _; by eexists|done].
Qed.

Lemma default_role_policy_fixed hasChief role spec :
  tf_policies_set (is_worker hasChief role) spec → Tensorflow.default_role_policy hasChief role spec = Done spec.
Proof.
  unfold tf_policies_set, is_worker. intros (rs & Hrs & [su Hsu] & Hw & Hf).
  assert (default_succeeded spec = spec) as Hs.
  { destruct spec as [r [f s nd] c d]. simpl in *. by subst. }
  unfold Tensorflow.default_role_policy. rewrite Hs.
  assert ((if decide (hasChief = true ∧ role = RoleWorker) then Tensorflow.restart_workers spec else Done spec) = Done spec) as ->.
  { destruct (decide (hasChief = true ∧ role = RoleWorker)) as [Hd|]; [|done]. specialize (Hw (bool_decide_eq_true_2 _ Hd)). unfold Tensorflow.restart_workers, spec_RestartPolicy.
    rewrite Hrs. simpl. case_decide; [done|]. destruct Hw as [|Hp]; [done|]. unfold update_replica_spec.
    rewrite Hrs. simpl. destruct spec, rs. simpl in *. by subst. }
  simpl. unfold default_failed_if_not_restarted, spec_RestartPolicy. rewrite Hrs. simpl.
  destruct (decide (RestartPolicy rs = RestartPolicyNever ∨ RestartPolicy rs = RestartPolicyExitCode)) as [Hd|]; [|done].
  destruct (Hf Hd) as [f Hfl]. destruct spec as [r [f' s nd] c d]. simpl in *. by subst.
Qed.

Lemma Tensorflow_role_settles hasChief role spec spec0 spec1 spec2 :
  Tensorflow.default_role_policy hasChief role spec = Done spec0 → Tensorflow.default_role_port spec0 = Done spec1 →
  default_role spec1 = Done spec2 →
  Tensorflow.default_role_policy hasChief role spec2 = Done spec2 ∧ Tensorflow.default_role_port spec2 = Done spec2.
Proof.
  intros (rs & Hrs & Hsu & Hw & Hf)%default_role_policy_sets Hport.
  unfold Tensorflow.default_role_port, update_replica_spec in Hport. rewrite Hrs in Hport. injection Hport as <-.
  rewrite default_role_eq. intros [= <-]. split.
  - apply default_role_policy_fixed. eexists. split; [done|]. simpl. split_and!.
    + destruct Hsu as [s ->]. case_decide; by eexists.
    + intros Ht. rewrite decide_False; [by apply Hw|]. by destruct (Hw Ht) as [-> | ->].
    + case_decide as Hp; [intros _; case_decide; [by eexists|done]|]. intros Hd. specialize (Hf Hd). destruct Hf as [f ->].
      case_decide; by eexists.
  - unfold Tensorflow.default_role_port, update_replica_spec, update_pod_spec, set_field, set_template_Spec,
      set_pod_Containers, set_role_ReplicaSpec, set_Template. simpl. by rewrite setDefaultPort_twice.
Qed.

Lemma Tensorflow_settles job : settling (Tensorflow.steps job).
Proof.
  unfold Tensorflow.steps, Tensorflow.getSpecificRoles. generalize (HasRoles (job_Spec job) [RoleChief]) as hasChief. intros hasChief.
  csimpl. unfold settling; repeat (apply Forall_cons; split); [..|apply Forall_nil; exact I];
    intros spec spec1 spec2 Hb Hd; cbn [step_role] in Hb; select_bodies Hb; cbn [step_body];
    apply res_bind_Done in Hb as (spec0 & Hs1 & Hb); apply res_bind_Done in Hb as (spec1' & Hs2 & [= ->]);
    by destruct (Tensorflow_role_settles _ _ _ _ _ _ Hs1 Hs2 Hd).
Qed.

(** ** The frameworks settle *)

Context `{ControllerUtil}.

Definition settles (m : Methods) : Prop :=
  ∀ job job1 job2, SetDefault m job = Done job1 → Default job1 = Done job2 → SetDefault m job2 = Done job2.

Lemma default_job_policy_set policy job p :
  spec_JobPhasePolicy (job_Spec job) = Some p → default_job_policy policy job = job.
Proof. destruct job as [m [] st]. simpl. by intros ->. Qed.

(** Frameworks that set the job's policy and run steps. *)
Lemma steps_settle policy (steps : AresJob → list role_step) job job1 job1' job2 :
  (∀ job1 job2, (∀ role, has_role job1 role = has_role job2 role) → steps job1 = steps job2) →
  (∀ job, settling (steps job)) →
  run_steps (steps job) (default_job_policy (policy job) job) = Done job1 →
  spec_RoleSpecs (job_Spec job1') = spec_RoleSpecs (job_Spec job1) →
  spec_JobPhasePolicy (job_Spec job1') = spec_JobPhasePolicy (job_Spec job1) → Default job1' = Done job2 →
  run_steps (steps job2) (default_job_policy (policy job2) job2) = Done job2.
Proof.
  intros Hsteps Hsettle Hrun Hroles Hpolicy1 Hdefault. pose proof (run_steps_spec _ _ _ Hrun) as (_ & Heq & _).
  pose proof (Default_roles _ _ Hdefault) as (_ & _ & Hpolicy & _).
  rewrite (default_job_policy_set _ job2 (default (policy job) (spec_JobPhasePolicy (job_Spec job)))).
  2:{ by rewrite Hpolicy, Hpolicy1, Heq. }
  rewrite (Hsteps job2 job); [by eapply run_steps_settle|].
  intros role. rewrite (has_role_Default _ _ _ Hdefault). unfold has_role at 1. rewrite Hroles.
  apply (has_role_run_steps _ _ _ role Hrun).
Qed.

(** A framework spec that is set is not set again. *)
Lemma with_framework_set (g : FrameworkSpec → FrameworkSpec) job :
  g (spec_Framework (job_Spec job)) = spec_Framework (job_Spec job) →
  job <| job_Spec ::= λ s, s <| spec_Framework ::= g |> |> = job.
Proof. destruct job as [m [] st]. unfold set_field, set_job_Spec, set_spec_Framework. simpl. by intros ->. Qed.

Lemma Standalone_settle : settles Standalone.methods.
Proof.
  unfold settles, Standalone.methods. cbn [SetDefault]. unfold Standalone.SetDefault. intros job job1 job2 Hrun Hdefault.
  apply (steps_settle (λ _, _) (λ _, Standalone.steps) job job1 job1); try done. intros _. apply Standalone_settles.
Qed.

Lemma Pytorch_settle : settles Pytorch.methods.
Proof.
  unfold settles, Pytorch.methods. cbn [SetDefault]. unfold Pytorch.SetDefault. intros job job1 job2 Hrun Hdefault.
  apply (steps_settle Pytorch.job_policy Pytorch.steps job job1 job1); try done; [|apply Pytorch_settles].
  intros j1 j2 Hroles. unfold Pytorch.steps. by rewrite Hroles.
Qed.

Lemma Dask_settle : settles Dask.methods.
Proof.
  unfold settles, Dask.methods. cbn [SetDefault]. unfold Dask.SetDefault. intros job job1 job2 Hrun Hdefault.
  apply (steps_settle Dask.job_policy Dask.steps job job1 job1); try done; [|apply Dask_settles].
  intros j1 j2 Hroles. unfold Dask.steps, Dask.launcherDependenceRole. by rewrite !Hroles.
Qed.

Lemma MPI_settle : settles MPI.methods.
Proof.
  unfold settles, MPI.methods. cbn [SetDefault]. unfold MPI.SetDefault.
  intros job job1 job2 (job0 & Hrun & [= <-])%res_bind_Done Hdefault.
  pose proof (Default_roles _ _ Hdefault) as (_ & _ & _ & Hfw & _).
  assert (run_steps (MPI.steps job2) (default_job_policy (MPI.job_policy job2) job2) = Done job2) as ->.
  { eapply (steps_settle MPI.job_policy MPI.steps job job0); [|apply MPI_settles|exact Hrun| | |exact Hdefault]; try done.
    intros j1 j2 Hroles. unfold MPI.steps. by rewrite Hroles. }
  simpl. f_equal. apply with_framework_set. by rewrite Hfw.
Qed.

Lemma Tensorflow_settle : settles Tensorflow.methods.
Proof.
  unfold settles, Tensorflow.methods. cbn [SetDefault]. unfold Tensorflow.SetDefault. cbv zeta.
  intros job job1 job2 Hrun Hdefault.
  pose proof (Default_roles _ _ Hdefault) as (_ & _ & _ & Hfw & _). pose proof (run_steps_spec _ _ _ Hrun) as (_ & Heq & _).
  rewrite (with_framework_set _ job2) by (by rewrite Hfw, Heq).
  apply (steps_settle Tensorflow.job_policy Tensorflow.steps _ job1 job1 job2) in Hrun; try done; [|apply Tensorflow_settles].
  intros j1 j2 Hroles. unfold Tensorflow.steps, HasRoles. simpl. fold (has_role j1 RoleChief) (has_role j2 RoleChief).
  by rewrite Hroles.
Qed.

Lemma Bagua_settle : settles Bagua.methods.
Proof.
  unfold settles, Bagua.methods. cbn [SetDefault]. unfold Bagua.SetDefault. cbv zeta.
  intros job job1 job2. set (g := λ f : FrameworkSpec, f <| fw_Bagua ::= λ b, Some (default (mkBaguaSpec false None None) b) |>).
  set (job0 := job <| job_Spec ::= λ s, s <| spec_Framework ::= g |> |>). intros Hset Hdefault.
  pose proof (Default_roles _ _ Hdefault) as (_ & _ & Hpolicy & Hfw & _).
  assert (spec_Framework (job_Spec job1) = g (spec_Framework (job_Spec job)) ∧
    is_Some (spec_JobPhasePolicy (job_Spec job1))) as [Hfw1 [p Hp]].
  { apply res_bind_Done in Hset as (elastic & _ & Hset). destruct elastic; simpl in Hset.
    - apply run_steps_spec in Hset as (_ & -> & _). by split; [|eexists].
    - destruct (spec_JobPhasePolicy _) eqn:Hp; [injection Hset as <-; by split; [|eexists]|].
      apply run_steps_spec in Hset as (_ & -> & _). by split; [|eexists]. }
  rewrite (with_framework_set g job2) by (by rewrite Hfw, Hfw1).
  assert (Bagua.enableElastic job2 = Bagua.enableElastic job0) as ->.
  { unfold Bagua.enableElastic. by rewrite Hfw, Hfw1. }
  destruct (Bagua.enableElastic job0) as [elastic|e|q]; [|done..]. simpl in *. rewrite Hpolicy, Hp.
  destruct elastic; simpl in *; [|done].
  apply (steps_settle (λ _, Bagua.elastic_policy) (λ _, Bagua.elastic_steps) job0 job1 job1 job2) in Hset; try done.
  intros _. apply Bagua_elastic_settles.
Qed.

Lemma default_failed_settles spec spec1 spec2 :
  default_failed_if_not_restarted (default_succeeded spec) = Done spec1 → default_role spec1 = Done spec2 →
  default_failed_if_not_restarted (default_succeeded spec2) = Done spec2.
Proof.
  intros Hf. pose proof Standalone_settles as Hs. unfold settling, Standalone.steps in Hs. apply Forall_cons in Hs as [Hs _].
  apply (Hs spec). cbn [step_role]. unfold run_bodies. simpl. by rewrite Hf.
Qed.

Lemma Custom_settle : settles Custom.methods.
Proof.
  unfold settles, Custom.methods. cbn [SetDefault]. unfold Custom.SetDefault, Custom.setCommonRolePhasePolicy.
  intros job job1 job2 (roles1 & Hroles1 & [= <-])%res_bind_Done Hdefault.
  pose proof (Default_roles _ _ Hdefault) as (_ & Hroles2 & Hpolicy & _). simpl in *.
  assert (Custom.setCommonJobPhasePolicy job2 = job2) as ->.
  { unfold Custom.setCommonJobPhasePolicy. rewrite Hpolicy. unfold Custom.setCommonJobPhasePolicy.
    by destruct (spec_JobPhasePolicy (job_Spec job)) eqn:Hp; simpl; rewrite ?Hp. }
  assert (for_roles 1 (λ spec, default_failed_if_not_restarted (default_succeeded spec)) (spec_RoleSpecs (job_Spec job2)) =
    Done (spec_RoleSpecs (job_Spec job2))) as ->; [|simpl; f_equal; apply with_roles_id].
  apply for_roles_Done. intros role. rewrite for_roles_Done in Hroles1. specialize (Hroles1 role). specialize (Hroles2 role).
  destruct (roles1 !! role) as [s1|]; [|by rewrite Hroles2].
  destruct Hroles2 as (spec1 & spec2 & -> & Hd & ->). exists spec2, spec2. split_and!; [done| |done].
  destruct (_ !! role); [|done]. destruct Hroles1 as (spec & ? & _ & Hf & [= <-]). by eapply default_failed_settles.
Qed.

Lemma Factory_settles name m : Factory !! name = Some m → settles m.
Proof.
  revert name m. apply Factory_cases; auto using Bagua_settle, Custom_settle, Dask_settle, MPI_settle, Pytorch_settle,
    Standalone_settle, Tensorflow_settle. by intros job job1 job2 [= <-] Hdefault.
Qed.

(** ** Properties *)

End settle.

#[local] Existing Instances canonical_order canonical_sort ex_kubeflow ex_selectors ex_controllerutil accepting ex_lister.
#[local] Instance ex_ports : JobControllerPorts := {| JobController_GetPortsFromJob _ := Done None |}.
#[local] Instance ex_jobs : JobController := {|
  JobController_ReconcileJobs _ _ _ := mret tt;
  JobController_SyncPodGroup job _ := mret (mkPodGroup (job_meta job) PodGroupScheduled []);
|}.
#[local] Instance ex_json : TFConfigText := {| json_TFConfig _ := Done ""; json_SparseTFConfig _ := Done "" |}.

