(* ===== verification/Ranks.v ===== *)
(** * Ranks

    PyTorch, Bagua in static mode and Dask number the pods of a job: each pod
    is told its rank and the number of pods. *)

From S2P Require Import Prelude GoStd Errors Regex Kube Api World ReconcilerUtils Examples Webhook Metadata Conf Dependence.
From S2P Require Import NodeManager Cache Phase PodGroup Pod PodCreate Service Job.
From S2P Require Import FrameworkBase SimpleFrameworks Bagua Dask.

(** The cluster spec numbers the pods of the roles, in their order, from zero:
    every container of a pod is told the pod's number and how many there
    are. *)
Definition numbers_pods (set : AresJob → PodTemplateSpec → string → string → go PodTemplateSpec) (job : AresJob)
    (roles : list string) (t : PodTemplateSpec) : Prop :=
  let pods := pods_of (job_Spec job) roles in
  ∃ rank : string → Z → Z,
    (λ p, rank p.1 p.2) <$> pods = seqZ 0 (Z.of_nat (length pods)) ∧
    ∀ role i, (role, i) ∈ pods → ∃ t', set job t role (Itoa i) = Done t' ∧
      length (pod_Containers (template_Spec t')) = length (pod_Containers (template_Spec t)) ∧
      ∀ c, c ∈ pod_Containers (template_Spec t') →
        getenv "RANK" c = Some (Itoa (rank role i)) ∧ getenv "WORLD_SIZE" c = Some (Itoa (Z.of_nat (length pods))).

(** ** Lemmas *)

Lemma pods_of_cons spec role roles :
  pods_of spec (role :: roles) = ((λ i, (role, i)) <$> indices (replicas_of spec role)) ++ pods_of spec roles.
Proof. done. Qed.

Lemma length_pods_of spec roles : (∀ role, 0 ≤ replicas_of spec role) →
  Z.of_nat (length (pods_of spec roles)) = foldr Z.add 0 (replicas_of spec <$> roles).
Proof.
  intros Hpos. induction roles as [|role roles IH]; [done|]. rewrite pods_of_cons, length_app, length_fmap.
  unfold indices. rewrite length_seqZ. csimpl. specialize (Hpos role). lia.
Qed.

Lemma seqZ_one : seqZ 0 1 = [0].
Proof. done. Qed.

Lemma seqZ_from_one n : 0 ≤ n → 0 :: (Z.add 1 <$> seqZ 0 n) = seqZ 0 (1 + n).
Proof. intros Hn. rewrite fmap_add_seqZ, (seqZ_cons 0 (1 + n)) by lia. f_equal. f_equal; lia. Qed.

(** One pod of the first role, then those of the second. *)
Definition rank_after (second : string) (role : string) (i : Z) : Z := if decide (role = second) then i + 1 else 0.

Lemma rank_after_numbers spec first second :
  replicas_of spec first = 1 → 0 ≤ replicas_of spec second → first ≠ second →
  (λ p, rank_after second p.1 p.2) <$> pods_of spec [first; second] =
    seqZ 0 (1 + replicas_of spec second).
Proof.
  intros Hfirst Hsecond Hne. rewrite !pods_of_cons, Hfirst. unfold indices. rewrite seqZ_one. csimpl. rewrite app_nil_r.
  rewrite <- seqZ_from_one by done. unfold rank_after at 1. rewrite decide_False by done. f_equal.
  rewrite <- list_fmap_compose. apply list_fmap_ext. intros ? i _. unfold rank_after. simpl. rewrite decide_True by done. lia.
Qed.

Lemma elem_of_appended (c : Container) (g : Container → Container) (t : PodTemplateSpec) :
  c ∈ pod_Containers (template_Spec (update_pod_spec t (λ s, s <| pod_Containers := g <$> pod_Containers (template_Spec t) |>))) →
  ∃ c0, c = g c0.
Proof. simpl. intros (c0 & -> & _)%list_elem_of_fmap. by exists c0. Qed.

Section ranks.
Context `{MapOrder, Kubeflow, Selectors, ApiServer, JobControllerPorts, JobController}.

(** ** PyTorch *)

Lemma pytorch_master job : Pytorch.Validate job = Done tt → replicas_of (job_Spec job) RoleMaster = 1.
Proof.
  unfold Pytorch.Validate, replicas_of, has_role. case_bool_decide; [|done]. destruct (role_spec _ _) as [spec|]; simpl; [|done].
  unfold spec_Replicas. destruct (role_ReplicaSpec spec) as [rs|]; simpl; [|done].
  destruct (Replicas rs) as [n|]; simpl; [|done]. case_decide; [done|]. lia.
Qed.

Lemma Pytorch_cluster_spec job t role i port :
  valid_roles (job_Spec job) → int32_replicas (job_Spec job) → @GetPort Pytorch.names job RoleMaster = Done port →
  role = RoleMaster ∨ role = RoleWorker → 0 ≤ i < 2 ^ 31 → (role = RoleMaster → i = 0) →
  let name := meta_Name (job_meta job) in
  let ns := meta_Namespace (job_meta job) in
  Pytorch.SetClusterSpec job t role (Itoa i) = Done (update_pod_spec t (λ s, s <| pod_Containers :=
    append_env
      [env "MASTER_ADDR" (if decide (role = RoleWorker) then GetPodDomainName name ns RoleMaster 0 else "0.0.0.0");
       env "MASTER_PORT" (Itoa port);
       env "WORLD_SIZE" (Itoa (1 + replicas_of (job_Spec job) RoleWorker));
       env "RANK" (Itoa (rank_after RoleWorker role i))] <$> pod_Containers (template_Spec t) |>)).
Proof.
  intros Hvalid Hint Hport Hrole Hi Hmaster name ns. unfold Pytorch.SetClusterSpec.
  rewrite decide_False by tauto. rewrite Atoi_Itoa by (unfold int64_range; lia). rewrite Hport.
  assert (wrap64 (replicas_of (job_Spec job) RoleWorker + 1) = 1 + replicas_of (job_Spec job) RoleWorker) as Hw.
  { rewrite wrap64_id; [lia|]. unfold int64_range. pose proof (replicas_of_nonneg _ Hvalid RoleWorker). specialize (Hint RoleWorker). lia. }
  unfold rank_after. fold name ns. case_decide as Hworker.
  - apply each_container_pure. intros n c. unfold Pytorch.cluster_env. rewrite GetRoleReplicas_valid by done. simpl.
    rewrite Hw. by rewrite wrap64_id by (unfold int64_range; lia).
  - apply each_container_pure. intros n c. unfold Pytorch.cluster_env. rewrite GetRoleReplicas_valid by done. simpl.
    rewrite Hw. rewrite Hmaster; [done|]. by destruct Hrole.
Qed.

(** C34: the pods of a PyTorch job form a process group.  For a job that the
    validations accept and whose master has the framework's port, the cluster
    spec of every pod can be built; the master's pod and then the workers' are
    numbered from zero without a gap or a repetition, every container of a pod
    is told its number and how many pods there are, and a worker is told the
    domain name and port of the master's pod. *)
Theorem pytorch_ranks job t port :
  ValidateCreate job = Done tt → Pytorch.Validate job = Done tt → int32_replicas (job_Spec job) →
  @GetPort Pytorch.names job RoleMaster = Done port →
  numbers_pods Pytorch.SetClusterSpec job [RoleMaster; RoleWorker] t ∧
  ∀ i, 0 ≤ i < replicas_of (job_Spec job) RoleWorker →
    ∃ t', Pytorch.SetClusterSpec job t RoleWorker (Itoa i) = Done t' ∧
    ∀ c, c ∈ pod_Containers (template_Spec t') →
      getenv "MASTER_ADDR" c = Some (GetPodDomainName (meta_Name (job_meta job)) (meta_Namespace (job_meta job)) RoleMaster 0) ∧
      getenv "MASTER_PORT" c = Some (Itoa port).
Proof.
  intros [_ Hvalid]%ValidateCreate_Done Hmaster%pytorch_master Hint Hport.
  change (valid_roles (job_Spec job)) in Hvalid.
  pose proof (replicas_of_nonneg _ Hvalid RoleWorker) as Hpos. pose proof (Hint RoleWorker) as Hw.
  assert (Z.of_nat (length (pods_of (job_Spec job) [RoleMaster; RoleWorker])) = 1 + replicas_of (job_Spec job) RoleWorker) as Hlen.
  { rewrite length_pods_of by (intros; by apply replicas_of_nonneg). csimpl. rewrite Hmaster. lia. }
  split.
  - exists (rank_after RoleWorker). rewrite Hlen. split; [by apply rank_after_numbers|].
    intros role i [Hrole Hi]%elem_of_pods_of. rewrite !elem_of_cons, elem_of_nil in Hrole.
    eexists. split; [apply (Pytorch_cluster_spec _ _ _ _ port); try done|].
    + naive_solver.
    + specialize (Hint role). lia.
    + intros ->. rewrite Hmaster in Hi. lia.
    + split; [simpl; apply length_fmap|]. intros c [c0 ->]%elem_of_appended. split; by apply getenv_append.
  - intros i Hi. eexists. split; [apply (Pytorch_cluster_spec _ _ _ _ port); try done; [by right|lia]|].
    intros c [c0 ->]%elem_of_appended. split; by apply getenv_append.
Qed.
(** ** Bagua *)

Lemma bagua_static_valid job : valid_roles (job_Spec job) → Bagua.enableElastic job = Done false → Bagua.Validate job = Done tt →
  replicas_of (job_Spec job) RoleMaster = 1 ∧ ∃ p0 p1 rest, spec_AvailablePorts (job_Spec job) = p0 :: p1 :: rest.
Proof.
  intros Hvalid Helastic. unfold Bagua.Validate. rewrite Helastic. simpl. intros ([] & _ & Hv)%res_bind_Done.
  rewrite GetRoleReplicas_valid in Hv by done. simpl in Hv. case_decide as Hm; [done|]. case_decide as Hp; [done|].
  split; [lia|]. destruct (spec_AvailablePorts (job_Spec job)) as [|p0 [|p1 rest]]; [simpl in Hp; lia..|by eexists _, _, _].
Qed.

Lemma Bagua_static_env job role i p0 p1 rest :
  valid_roles (job_Spec job) → replicas_of (job_Spec job) RoleWorker < 2 ^ 31 - 1 →
  spec_AvailablePorts (job_Spec job) = p0 :: p1 :: rest → role = RoleMaster ∨ role = RoleWorker → 0 ≤ i < 2 ^ 31 →
  ∃ envs, Bagua.getEnvUnderStaticMode job role (Itoa i) = Done envs ∧
    ∀ c, getenv "RANK" (append_env envs c) = Some (Itoa (rank_after RoleWorker role i)) ∧
         getenv "WORLD_SIZE" (append_env envs c) = Some (Itoa (1 + replicas_of (job_Spec job) RoleWorker)).
Proof.
  intros Hvalid Hworkers Hports Hrole Hi. unfold Bagua.getEnvUnderStaticMode. rewrite decide_False by tauto. rewrite Hports.
  rewrite GetRoleReplicas_valid, (GetRolesDomainNames_valid _ Hvalid) by done.
  unfold Int32SliceToStrSlice, Bagua.slice_from, slice_range, slice_get. csimpl. rewrite decide_True by (rewrite length_fmap; lia).
  simpl. eexists. split; [done|]. intros c. split; apply getenv_append; simpl.
  - unfold Bagua.static_rank, rank_after. f_equal. case_decide; [|done]. rewrite Atoi_Itoa by (unfold int64_range; lia).
    simpl. by rewrite wrap64_id by (unfold int64_range; lia).
  - pose proof (replicas_of_nonneg _ Hvalid RoleWorker). rewrite wrap32_id by (unfold int32_range; lia). do 2 f_equal. lia.
Qed.

Lemma getenv_append_ports name ports c : getenv name (append_ports ports c) = getenv name c.
Proof. done. Qed.

(** The pods of a Bagua job in static mode form a process group.  For a
    job that the validations accept, with fewer than 2^31 - 1 workers, and a
    template with a container, the cluster spec of every pod can be built; the
    master's pod and then the workers' are numbered from zero without a gap or
    a repetition, and every container of a pod is told its number and how many
    pods there are. *)
Theorem bagua_static_ranks job t :
  ValidateCreate job = Done tt → Bagua.enableElastic job = Done false → Bagua.Validate job = Done tt →
  replicas_of (job_Spec job) RoleWorker < 2 ^ 31 - 1 → pod_Containers (template_Spec t) ≠ [] →
  numbers_pods Bagua.SetClusterSpec job [RoleMaster; RoleWorker] t.
Proof.
  intros [_ Hvalid]%ValidateCreate_Done Helastic Hv Hworkers Hcontainers. change (valid_roles (job_Spec job)) in Hvalid.
  destruct (bagua_static_valid job Hvalid Helastic Hv) as (Hmaster & p0 & p1 & rest & Hports).
  pose proof (replicas_of_nonneg _ Hvalid RoleWorker) as Hpos.
  assert (Z.of_nat (length (pods_of (job_Spec job) [RoleMaster; RoleWorker])) = 1 + replicas_of (job_Spec job) RoleWorker) as Hlen.
  { rewrite length_pods_of by (intros; by apply replicas_of_nonneg). csimpl. rewrite Hmaster. lia. }
  exists (rank_after RoleWorker). rewrite Hlen. split; [by apply rank_after_numbers|].
  intros role i [Hrole Hi]%elem_of_pods_of. rewrite !elem_of_cons, elem_of_nil in Hrole.
  assert (replicas_of (job_Spec job) role < 2 ^ 31) by (destruct Hrole as [-> |[-> |[]]]; lia).
  destruct (Bagua_static_env job role i p0 p1 rest) as (envs & Henvs & Hget); [done|done|done|naive_solver|lia|].
  unfold Bagua.SetClusterSpec, Bagua.addEnv, Bagua.addContainerPort, Bagua.ports_to_add. rewrite Helastic. simpl. rewrite Henvs. simpl.
  rewrite (each_container_pure _ (append_env envs)) by done. simpl.
  destruct (pod_Containers (template_Spec t)) as [|c0 cs]; [done|]. simpl. eexists. split; [done|]. simpl.
  split; [by rewrite length_fmap|]. intros c [->|(c1 & -> & _)%list_elem_of_fmap]%elem_of_cons.
  - rewrite !getenv_append_ports. apply Hget.
  - apply Hget.
Qed.

(** ** Dask *)

(** The sum over the roles that count, whatever the order of the loop. *)
Definition spec_replicas (s : option RoleSpec) : Z :=
  match s with
  | Some spec => match role_ReplicaSpec spec with Some rs => default 0 (Replicas rs) | None => 0 end
  | None => 0
  end.
Definition world_sum (l : list (string * option RoleSpec)) : Z :=
  foldr (λ p n, (if decide (Dask.counts_in_world p.1) then spec_replicas p.2 else 0) + n) 0 l.

Lemma world_sum_perm l1 l2 : l1 ≡ₚ l2 → world_sum l1 = world_sum l2.
Proof. unfold world_sum. induction 1; simpl; lia. Qed.

Lemma world_sum_delete (m : gmap string (option RoleSpec)) k : Dask.counts_in_world k →
  world_sum (map_to_list m) = spec_replicas (mjoin (m !! k)) + world_sum (map_to_list (delete k m)).
Proof.
  intros Hk. destruct (m !! k) as [s|] eqn:Hs.
  - rewrite (world_sum_perm _ ((k, s) :: map_to_list (delete k m))) by (symmetry; by apply map_to_list_delete).
    unfold world_sum. simpl. by rewrite decide_True.
  - by rewrite delete_id.
Qed.

Lemma world_sum_zero l : (∀ p, p ∈ l → ¬ Dask.counts_in_world p.1) → world_sum l = 0.
Proof.
  intros Hl. induction l as [|p l IH]; [done|]. unfold world_sum in *. simpl. rewrite decide_False by (apply Hl; left).
  apply IH. intros q Hq. apply Hl. by right.
Qed.

Lemma world_sum_roles spec :
  world_sum (map_to_list (spec_RoleSpecs spec)) =
    replicas_of spec RoleLeadWorker + (replicas_of spec RoleWorker + replicas_of spec RoleLauncher).
Proof.
  rewrite (world_sum_delete _ RoleLeadWorker) by by left.
  rewrite (world_sum_delete _ RoleWorker) by by (right; right).
  rewrite (world_sum_delete _ RoleLauncher) by by (right; left).
  rewrite (world_sum_zero (map_to_list _)).
  - rewrite !lookup_delete_ne by done. unfold replicas_of, role_spec, spec_replicas. lia.
  - intros [k s] Hin%elem_of_map_to_list. simpl. rewrite !lookup_delete_Some in Hin.
    unfold Dask.counts_in_world. naive_solver.
Qed.

Lemma getWorldSize_valid job :
  valid_roles (job_Spec job) → int32_replicas (job_Spec job) →
  Dask.getWorldSize job = Done (replicas_of (job_Spec job) RoleLeadWorker +
    (replicas_of (job_Spec job) RoleWorker + replicas_of (job_Spec job) RoleLauncher)).
Proof.
  intros Hvalid Hint. rewrite <- world_sum_roles, <- (world_sum_perm _ _ (range_perm _ 0 _)). unfold Dask.getWorldSize.
  assert (∀ l acc, (∀ k s, (k, s) ∈ l → spec_RoleSpecs (job_Spec job) !! k = Some s) →
    fold_res (λ worldSize '(key, role),
      if decide (Dask.counts_in_world key) then
        spec ← deref role; replicas ← spec_Replicas spec; n ← deref replicas; Done (wrap64 (worldSize + n))
      else Done worldSize) (wrap64 acc) l = Done (wrap64 (acc + world_sum l))) as Hloop.
  { induction l as [|[k s] l IH]; intros acc Hl; simpl; [unfold world_sum; simpl; do 2 f_equal; lia|].
    destruct (valid_role_spec _ Hvalid k s) as (rspec & rs & -> & Hr & Hrs & Hn & _); [by apply Hl; left|].
    unfold world_sum. simpl. fold (world_sum l). unfold spec_Replicas. simpl. rewrite Hrs. simpl. rewrite Hn. simpl.
    case_decide; simpl.
    - rewrite wrap64_wrap64_add, IH by (intros; apply Hl; by right). do 2 f_equal. lia.
    - by rewrite IH by (intros; apply Hl; by right). }
  change 0 with (wrap64 0) at 1. rewrite Hloop by (intros k s; apply elem_of_range). f_equal. rewrite Z.add_0_l.
  apply wrap64_id. rewrite (world_sum_perm _ _ (range_perm _ 0 _)), world_sum_roles.
  pose proof (replicas_of_nonneg _ Hvalid) as Hpos. unfold int64_range, int32_replicas in *.
  pose proof (Hpos RoleLeadWorker). pose proof (Hpos RoleWorker). pose proof (Hpos RoleLauncher).
  pose proof (Hint RoleLeadWorker). pose proof (Hint RoleWorker). pose proof (Hint RoleLauncher). lia.
Qed.
(** What the validation of a Dask job establishes. *)
Record dask_valid (job : AresJob) : Prop := {
  dask_launcher : replicas_of (job_Spec job) RoleLauncher = 1;
  dask_master : has_role job RoleLeadWorker = true → replicas_of (job_Spec job) RoleLeadWorker = 1;
  dask_workers : has_role job RoleLeadWorker = false → has_role job RoleWorker = false;
  dask_ports : ∀ role, role = RoleScheduler ∨ role = RoleLeadWorker ∨ role = RoleLauncher →
    ∃ port, Dask.getRoleDefaultContainerPort job role = Done port;
}.

Lemma role_ports_port job role ports :
  Dask.role_ports job role = Done ports → ports ≠ [] → ∃ port, Dask.getRoleDefaultContainerPort job role = Done port.
Proof.
  unfold Dask.role_ports, Dask.getRoleDefaultContainerPort. intros Hports Hne. res_inv.
  case_match; [|by eexists]. rewrite Hstep. simpl. rewrite Hstep0. simpl.
  destruct (Dask.getPodDefaultContainerPorts _) as [l|]; [|by eexists]. simpl in Hne. destruct l; [done|]. by eexists.
Qed.

Lemma has_role_false job role : valid_roles (job_Spec job) → has_role job role = false → replicas_of (job_Spec job) role = 0.
Proof.
  intros Hvalid Hrole. apply valid_absent. unfold has_role in Hrole. apply bool_decide_eq_false in Hrole.
  by apply eq_None_not_Some.
Qed.

Lemma validate_master_Done job : Dask.validate_master job = Done tt → has_role job RoleLeadWorker = true →
  replicas_of (job_Spec job) RoleLeadWorker = 1 ∧ ∃ ports, Dask.role_ports job RoleLeadWorker = Done ports ∧ ports ≠ [].
Proof.
  unfold Dask.validate_master. intros Hv Hrole. rewrite Hrole in Hv. unfold replicas_of.
  destruct (role_spec (job_Spec job) RoleLeadWorker) as [spec|]; simpl in Hv; [|done]. unfold spec_Replicas in Hv.
  destruct (role_ReplicaSpec spec) as [rs|]; simpl in Hv; [|done]. destruct (Replicas rs) as [n|]; simpl in Hv; [|done].
  case_decide; [done|]. apply res_bind_Done in Hv as (ports & Hports & Hv). case_decide as Hlen; [done|].
  simpl. split; [lia|]. exists ports. split; [done|]. intros ->. simpl in Hlen. lia.
Qed.

Lemma dask_Validate job : valid_roles (job_Spec job) → Dask.Validate job = Done tt → dask_valid job.
Proof.
  intros Hvalid. unfold Dask.Validate. rewrite !GetRoleReplicas_valid by done. simpl. intros ([] & _ & Hv)%res_bind_Done.
  case_decide as Hlauncher; [done|]. case_decide as Hscheduler; [done|].
  apply res_bind_Done in Hv as ([] & Hworker & Hv). apply res_bind_Done in Hv as ([] & Hmaster & Hv).
  apply res_bind_Done in Hv as (sports & Hsports & Hv). case_decide as Hs; [done|].
  apply res_bind_Done in Hv as (lports & Hlports & Hv). case_decide as Hl; [done|].
  split.
  - lia.
  - intros Hrole. by apply validate_master_Done.
  - intros Hrole. destruct (has_role job RoleWorker); [|done]. unfold CheckRolesExist in Hworker. simpl in Hworker.
    unfold has_role in Hrole. apply bool_decide_eq_false in Hrole. rewrite bool_decide_false in Hworker; [done|].
    unfold role_spec. intros [spec Hspec]. apply Hrole. destruct (spec_RoleSpecs (job_Spec job) !! RoleLeadWorker); [by eexists|done].
  - intros role [-> |[-> | ->]].
    + apply (role_ports_port _ _ sports Hsports). intros ->. simpl in Hs. lia.
    + destruct (has_role job RoleLeadWorker) eqn:Hrole.
      * destruct (validate_master_Done job Hmaster Hrole) as (_ & ports & Hports & Hne). by apply (role_ports_port _ _ ports).
      * unfold Dask.getRoleDefaultContainerPort. rewrite Hrole. by eexists.
    + apply (role_ports_port _ _ lports Hlports). by intros ->.
Qed.

Definition dask_roles : list string := [RoleLeadWorker; RoleWorker; RoleLauncher].

(** The launcher comes last. *)
Definition dask_rank (world : Z) (role : string) (i : Z) : Z :=
  if decide (role = RoleLauncher) then world - 1 else rank_after RoleWorker role i.

Definition dask_world (job : AresJob) : Z :=
  replicas_of (job_Spec job) RoleLeadWorker + (replicas_of (job_Spec job) RoleWorker + replicas_of (job_Spec job) RoleLauncher).

Lemma dask_rank_numbers job : valid_roles (job_Spec job) → dask_valid job →
  (λ p, dask_rank (dask_world job) p.1 p.2) <$> pods_of (job_Spec job) dask_roles = seqZ 0 (dask_world job).
Proof.
  intros Hvalid [Hlauncher Hmaster Hworkers _]. unfold dask_world. pose proof (replicas_of_nonneg _ Hvalid RoleWorker) as Hpos.
  set (n := replicas_of (job_Spec job) RoleWorker) in *.
  change dask_roles with ([RoleLeadWorker; RoleWorker] ++ [RoleLauncher]). unfold pods_of. rewrite bind_app.
  fold (pods_of (job_Spec job) [RoleLeadWorker; RoleWorker]). rewrite fmap_app. simpl. rewrite Hlauncher.
  change (indices 1) with [0]. simpl. unfold dask_rank at 2. rewrite decide_True by done.
  assert (∀ w, (λ p, dask_rank w p.1 p.2) <$> pods_of (job_Spec job) [RoleLeadWorker; RoleWorker] =
    (λ p, rank_after RoleWorker p.1 p.2) <$> pods_of (job_Spec job) [RoleLeadWorker; RoleWorker]) as ->.
  { intros w. apply list_fmap_ext. intros ? [role i] Hin%list_elem_of_lookup_2. apply elem_of_pods_of in Hin as [Hrole _].
    simpl. unfold dask_rank. rewrite decide_False; [done|]. intros ->. by rewrite !elem_of_cons, elem_of_nil in Hrole; naive_solver. }
  destruct (has_role job RoleLeadWorker) eqn:Hrole.
  - rewrite rank_after_numbers by auto. rewrite Hmaster by done. fold n.
    replace (1 + (n + 1)) with ((1 + n) + 1) by lia. rewrite (seqZ_app 0 (1 + n) 1) by lia. f_equal.
    rewrite Z.add_0_l. replace (1 + n + 1 - 1) with (1 + n) by lia. done.
  - assert (n = 0) as Hn by (apply has_role_false; auto). rewrite Hn, (has_role_false job RoleLeadWorker) by done.
    unfold pods_of, indices. csimpl. fold n. rewrite Hn, (has_role_false job RoleLeadWorker) by done. done.
Qed.
Lemma Dask_env job role i :
  valid_roles (job_Spec job) → int32_replicas (job_Spec job) → dask_valid job → role ∈ dask_roles → 0 ≤ i < 2 ^ 31 →
  (role = RoleLeadWorker → i = 0) →
  ∃ envs, Dask.getEnvForDaskRole job role (Itoa i) = Done envs ∧
    ∀ c, getenv "RANK" (append_env envs c) = Some (Itoa (dask_rank (dask_world job) role i)) ∧
         getenv "WORLD_SIZE" (append_env envs c) = Some (Itoa (dask_world job)).
Proof.
  intros Hvalid Hint [Hlauncher Hmaster Hworkers Hports] Hrole Hi Hlead. unfold Dask.getEnvForDaskRole.
  destruct (Hports RoleScheduler) as [sport ->]; [auto|]. destruct (Hports RoleLeadWorker) as [mport Hm]; [auto|].
  destruct (Hports RoleLauncher) as [lport Hl]; [auto|]. rewrite Hm. simpl.
  assert (role ≠ RoleScheduler) as Hne by (intros ->; set_solver).
  rewrite decide_False by done.
  assert (∃ port, (if decide (mport = "") then Dask.getRoleDefaultContainerPort job RoleLauncher else Done mport) = Done port)
    as [port ->] by (case_decide; by eexists).
  rewrite getWorldSize_valid by done. fold (dask_world job). simpl.
  assert (∃ addr, Dask.position job role (Itoa i) (dask_world job) = (addr, dask_rank (dask_world job) role i)) as [addr ->].
  { unfold Dask.position, dask_rank, rank_after. case_decide as Hw.
    - subst role. simpl. rewrite Atoi_Itoa by (unfold int64_range; lia). simpl.
      rewrite wrap64_id by (unfold int64_range; lia). by eexists.
    - case_decide as Hlr; [|by eexists]. destruct (has_role job RoleLeadWorker) eqn:Hhas.
      + rewrite wrap64_id; [by eexists|]. unfold dask_world, int64_range.
        pose proof (replicas_of_nonneg _ Hvalid) as Hpos. unfold int32_replicas in Hint.
        pose proof (Hpos RoleWorker). pose proof (Hint RoleWorker). rewrite Hlauncher, (Hmaster eq_refl). lia.
      + eexists. unfold dask_world. rewrite Hlauncher, !(has_role_false job) by auto. done. }
  eexists. split; [done|]. intros c. split; apply getenv_append; rewrite filter_app, last_app; done.
Qed.

(** The pods of a Dask job, but for the scheduler's, form a process group.
    For a job that the validations accept, the cluster spec of every pod can be
    built; the lead worker's pod, the workers' and last the launcher's are
    numbered from zero without a gap or a repetition, whichever of them the
    job has, and every container of a pod is told its number and how many pods
    there are. *)
Theorem dask_ranks job t :
  ValidateCreate job = Done tt → Dask.Validate job = Done tt → int32_replicas (job_Spec job) →
  numbers_pods Dask.SetClusterSpec job dask_roles t.
Proof.
  intros [_ Hvalid]%ValidateCreate_Done Hv Hint. change (valid_roles (job_Spec job)) in Hvalid.
  pose proof (dask_Validate job Hvalid Hv) as Hdask.
  assert (Z.of_nat (length (pods_of (job_Spec job) dask_roles)) = dask_world job) as Hlen.
  { rewrite length_pods_of by (intros; by apply replicas_of_nonneg). csimpl. unfold dask_world. lia. }
  exists (dask_rank (dask_world job)). rewrite Hlen. split; [by apply dask_rank_numbers|].
  intros role i [Hrole Hi]%elem_of_pods_of. pose proof (Hint role) as Hr.
  destruct (Dask_env job role i) as (envs & Henvs & Hget); try done; [lia| |].
  { intros ->. destruct (has_role job RoleLeadWorker) eqn:Hhas.
    - rewrite (dask_master job Hdask Hhas) in Hi. lia.
    - rewrite has_role_false in Hi by done. lia. }
  unfold Dask.SetClusterSpec, Dask.addEnv. rewrite Henvs. simpl. rewrite (each_container_pure _ (append_env envs)) by done.
  eexists. split; [done|]. split; [simpl; apply length_fmap|]. by intros c [c0 ->]%elem_of_appended.
Qed.
End ranks.

(** ** Witnesses *)

#[local] Existing Instances canonical_order ex_kubeflow ex_selectors accepting.
#[local] Instance ex_rank_ports : JobControllerPorts := {| JobController_GetPortsFromJob _ := Done None |}.
#[local] Instance ex_rank_jobs : JobController := {|
  JobController_ReconcileJobs _ _ _ := mret tt;
  JobController_SyncPodGroup job _ := mret (mkPodGroup (job_meta job) PodGroupScheduled []);
|}.

(** A role whose container has the given name and ports. *)
Definition ex_named_role (n : Z) (container : string) (ports : list ContainerPort) : RoleSpec :=
  mkRoleSpec (Some (mkReplicaSpec (Some n)
      (zero_Template <| template_Spec ::= λ s, s <| pod_Containers := [mkContainer container "image" "" [] (Some ports) [] []] |> |>)
      RestartPolicyNever))
    zero_RolePhasePolicy ControllerPod None.

Ltac witness_replicas := apply int32_replicas_intro; vm_compute; reflexivity.

Lemma pytorch_ranks_witness :
  let job := ex_job "pytorch" [("master", ex_named_role 1 "pytorch" [mkContainerPort "pytorch" 23456]);
                               ("worker", ex_named_role 3 "pytorch" [])] in
  numbers_pods Pytorch.SetClusterSpec job [RoleMaster; RoleWorker] ex_template.
Proof.
  intros job. apply (pytorch_ranks job ex_template 23456); [vm_compute; reflexivity|vm_compute; reflexivity| |vm_compute; reflexivity].
  witness_replicas.
Defined.

Lemma bagua_static_ranks_witness :
  let job := ex_job "bagua" [("master", ex_named_role 1 "bagua" []); ("worker", ex_named_role 3 "bagua" [])]
    <| job_Spec ::= λ s, mkAresJobSpec None (mkRunPolicy None None) [2201; 2202] "bagua"
         (mkFrameworkSpec (Some (mkBaguaSpec false None None)) None None) (spec_RoleSpecs s) None |> in
  numbers_pods Bagua.SetClusterSpec job [RoleMaster; RoleWorker] ex_template.
Proof.
  intros job. apply (bagua_static_ranks job ex_template); vm_compute; first [reflexivity|discriminate].
Defined.

Lemma dask_ranks_witness :
  let port := mkContainerPort "" in
  let job := ex_job "dask" [("scheduler", ex_named_role 1 "dask" [port 8786; port 8787]);
    ("launcher", ex_named_role 1 "dask" [port 1]); ("leadworker", ex_named_role 1 "dask" [port 2]);
    ("worker", ex_named_role 3 "dask" [])] in
  numbers_pods Dask.SetClusterSpec job dask_roles ex_template.
Proof.
  intros port job. apply (dask_ranks job ex_template); [vm_compute; reflexivity|vm_compute; reflexivity|].
  witness_replicas.
Defined.
