(* ===== verification/DefaultPolicy.v ===== *)
(** * The phase policy the frameworks give a job

    A policy names roles, and computing the phase of a job fails on a role
    that has no status.  The policies the frameworks fill in name roles the
    job has, but for three of them; one of the three checks for the role it assumes. *)

From S2P Require Import Prelude GoStd Errors Regex Kube Api World ReconcilerUtils Examples Webhook Metadata Expectation.
From S2P Require Import Cache Conf Dependence NodeManager Phase PodGroup Pod PodCreate Service Job Controller Events.
From S2P Require Import JobPhase FrameworkBase SimpleFrameworks Bagua Dask Tensorflow Factory Reconcile.

(** ** What a policy relies on *)

Definition names_roles {V} (roles : gmap string V) (clauses : list (list string)) : Prop :=
  Forall (Forall (λ role, is_Some (roles !! role))) clauses.
Definition policy_names_roles {V} (roles : gmap string V) (policy : JobPhasePolicy) : Prop :=
  names_roles roles (policy_Failed policy) ∧ names_roles roles (policy_Succeeded policy).

(** Exactly the roles of the job have statuses. *)
Definition statuses_of (job : AresJob) (roles : gmap string (option RoleSpec)) : Prop :=
  is_Some (status_JobStatus (job_Status job)) ∧
  ∀ role, match contents (status_RoleStatuses (job_Status job)) !! role with
          | Some rs => is_Some rs ∧ is_Some (roles !! role)
          | None => roles !! role = None
          end.

(** The role that a framework's policy names whether the job has it or not. *)
Definition assumed_role (framework : string) : option string :=
  if decide (framework = FrameworkMPI) then Some RoleLauncher
  else if decide (framework = FrameworkStandalone) then Some RoleWorker
  else if decide (framework = FrameworkPytorch) then Some RoleMaster else None.

Definition has_assumed_role (framework : string) (job : AresJob) : Prop :=
  ∀ role, assumed_role framework = Some role → is_Some (spec_RoleSpecs (job_Spec job) !! role).

(** ** Lemmas *)

Lemma statuses_of_intro job (roles : gmap string (option RoleSpec)) :
  let statuses := contents (status_RoleStatuses (job_Status job)) in
  is_Some (status_JobStatus (job_Status job)) →
  Forall (λ p, is_Some p.2 ∧ is_Some (roles !! p.1)) (map_to_list statuses) →
  Forall (λ p, is_Some (statuses !! p.1)) (map_to_list roles) → statuses_of job roles.
Proof.
  intros statuses Hjs Hst Hroles. split; [done|]. intros role. fold statuses. destruct (statuses !! role) as [rs|] eqn:Hrs.
  - apply elem_of_map_to_list in Hrs. rewrite Forall_forall in Hst. by apply (Hst (role, rs)).
  - apply eq_None_not_Some. intros [s Hs%elem_of_map_to_list]. rewrite Forall_forall in Hroles.
    specialize (Hroles _ Hs). simpl in Hroles. rewrite Hrs in Hroles. by destruct Hroles.
Qed.

Lemma statuses_known job roles clauses : statuses_of job roles → names_roles roles clauses →
  roles_known (contents (status_RoleStatuses (job_Status job))) clauses.
Proof.
  intros [_ Hst] Hnames. eapply Forall_impl; [exact Hnames|]. intros clause Hclause. eapply Forall_impl; [exact Hclause|].
  intros role [s Hs]. simpl. specialize (Hst role). destruct (_ !! role) as [rs|]; [|congruence].
  destruct Hst as [[rs' ->] _]. by exists rs'.
Qed.

Lemma statuses_no_nil job roles : statuses_of job roles → no_nil_status (contents (status_RoleStatuses (job_Status job))).
Proof. intros [_ Hst] role rs Hrs. specialize (Hst role). rewrite Hrs in Hst. apply Hst. Qed.

Lemma names_singletons {V} (roles : gmap string V) l : (∀ role, role ∈ l → is_Some (roles !! role)) →
  names_roles roles ((λ role, [role]) <$> l).
Proof.
  intros Hl. apply Forall_forall. intros ? (role & -> & Hrole)%list_elem_of_fmap. apply Forall_singleton. by apply Hl.
Qed.

Section policy.
Context `{MapOrder, Kubeflow}.

(** With a policy that names roles of the job, updating its phase returns. *)
Lemma UpdatePhases_returns now job roles :
  statuses_of job roles → policy_names_roles roles (default (mkJobPhasePolicy [] []) (spec_JobPhasePolicy (job_Spec job))) →
  ∃ r, UpdatePhases now job = Done r.
Proof.
  intros Hst [Hf Hs]. rewrite UpdatePhases_eq. cbv zeta.
  set (policy := default (mkJobPhasePolicy [] []) (spec_JobPhasePolicy (job_Spec job))) in *.
  destruct (GetJobPhase_rule (last_phase job) policy (contents (status_RoleStatuses (job_Status job)))) as (phase & -> & _);
    eauto using statuses_known, statuses_no_nil.
  simpl. case_decide; [by eexists|]. destruct Hst as [[js Hjs] _]. rewrite Hjs. simpl.
  match goal with |- context [SetJobPhase now ?j phase] =>
    edestruct (SetJobPhase_spec now j phase) as (job' & prefix & -> & _); [done|] end. by eexists.
Qed.

(** A failure policy whose first clause names a role without status. *)
Lemma UpdatePhases_unknown now job roles role rest clauses succeeded :
  statuses_of job roles → roles !! role = None →
  spec_JobPhasePolicy (job_Spec job) = Some (mkJobPhasePolicy ((role :: rest) :: clauses) succeeded) →
  UpdatePhases now job = Crash NilDereference.
Proof.
  intros [_ Hst] Hrole Hpolicy. rewrite UpdatePhases_eq. cbv zeta. rewrite Hpolicy. simpl. unfold GetJobPhase. simpl.
  specialize (Hst role). destruct (_ !! role) as [rs|]; [|done]. destruct Hst as [_ [? ?]]. congruence.
Qed.
End policy.

Section frameworks.
Context `{MapOrder, Kubeflow, Selectors, ApiServer, JobControllerPorts, JobController, TFConfigText}.

(** The steps leave the policy and the set of roles as they are. *)
Lemma run_steps_policy steps job job1 : run_steps steps job = Done job1 →
  spec_JobPhasePolicy (job_Spec job1) = spec_JobPhasePolicy (job_Spec job) ∧
  Forall (step_ready (spec_RoleSpecs (job_Spec job))) steps ∧
  ∀ role, is_Some (spec_RoleSpecs (job_Spec job1) !! role) ↔ is_Some (spec_RoleSpecs (job_Spec job) !! role).
Proof.
  intros Hrun. pose proof (run_steps_spec _ _ _ Hrun) as (Hready & Heq & _). split_and!.
  - by rewrite Heq.
  - done.
  - intros role. rewrite <- !has_role_Some. by rewrite (has_role_run_steps _ _ _ role Hrun).
Qed.

(** A role that a step reads has to be there. *)
Lemma ready_role steps roles role body :
  Forall (step_ready roles) steps → the_role role body ∈ steps → is_Some (roles !! role).
Proof.
  rewrite Forall_forall. intros Hready Hin. specialize (Hready _ Hin). unfold step_ready in Hready. simpl in Hready.
  destruct (roles !! role) as [[]|]; [by eexists|done..].
Qed.

(** The result of a framework's defaulting: a policy for the roles of the job,
    if the assumed role is there, or a policy that starts with that role. *)
Definition good_policy (name : string) (job job1 : AresJob) : Prop :=
  (∀ role, is_Some (spec_RoleSpecs (job_Spec job1) !! role) ↔ is_Some (spec_RoleSpecs (job_Spec job) !! role)) ∧
  (has_assumed_role name job →
   policy_names_roles (spec_RoleSpecs (job_Spec job)) (default (mkJobPhasePolicy [] []) (spec_JobPhasePolicy (job_Spec job1)))) ∧
  (∀ role, assumed_role name = Some role →
   ∃ clauses succeeded, spec_JobPhasePolicy (job_Spec job1) = Some (mkJobPhasePolicy ([role] :: clauses) succeeded)).

Definition policy_good (name : string) (m : Methods) : Prop :=
  ∀ job job1, spec_JobPhasePolicy (job_Spec job) = None → SetDefault m job = Done job1 →
    good_policy name job job1.

(** Frameworks that set a policy and run steps. *)
Lemma steps_good name policy steps job job0 job1 :
  spec_RoleSpecs (job_Spec job0) = spec_RoleSpecs (job_Spec job) → spec_JobPhasePolicy (job_Spec job0) = None →
  run_steps steps (default_job_policy policy job0) = Done job1 →
  (Forall (step_ready (spec_RoleSpecs (job_Spec job))) steps → has_assumed_role name job →
   policy_names_roles (spec_RoleSpecs (job_Spec job)) policy) →
  (∀ role, assumed_role name = Some role → ∃ clauses, policy_Failed policy = [role] :: clauses) →
  good_policy name job job1.
Proof.
  intros Hsame Hnone (Hpolicy & Hready & Hroles)%run_steps_policy Hgood Hassumed. simpl in *.
  rewrite Hnone in Hpolicy. rewrite Hsame in *. unfold good_policy. rewrite Hpolicy. simpl.
  split_and!; [done|auto|].
  intros role Hrole. destruct (Hassumed role Hrole) as [clauses Hc]. exists clauses, (policy_Succeeded policy).
  by rewrite <- Hc; destruct policy.
Qed.

(** The clauses of a concrete policy, by the roles known to be there. *)
Ltac names_roles :=
  split; unfold names_roles; simpl; repeat first [apply Forall_nil; exact I | apply Forall_cons; split]; auto.

Lemma Standalone_policy : policy_good FrameworkStandalone Standalone.methods.
Proof.
  intros job job1 Hnone Hset. eapply steps_good; [|exact Hnone|exact Hset| |]; [done| |].
  - intros _ Hrole. specialize (Hrole _ eq_refl). names_roles.
  - intros role [= <-]. by eexists.
Qed.

Lemma MPI_policy : policy_good FrameworkMPI MPI.methods.
Proof.
  intros job job1 Hnone (job0 & Hset & [= <-])%res_bind_Done.
  change (good_policy FrameworkMPI job job0). eapply steps_good; [|exact Hnone|exact Hset| |]; [done| |].
  - intros _ Hrole. specialize (Hrole _ eq_refl). unfold MPI.job_policy.
    destruct (has_role job RoleWorker) eqn:Hw; [apply has_role_Some in Hw|]; names_roles.
  - intros role [= <-]. by eexists.
Qed.

Lemma Pytorch_policy : policy_good FrameworkPytorch Pytorch.methods.
Proof.
  intros job job1 Hnone Hset. eapply steps_good; [|exact Hnone|exact Hset| |]; [done| |].
  - intros _ Hrole. specialize (Hrole _ eq_refl). unfold Pytorch.job_policy.
    destruct (has_role job RoleWorker) eqn:Hw; [apply has_role_Some in Hw|]; names_roles.
  - intros role [= <-]. unfold Pytorch.job_policy. case_match; by eexists.
Qed.

Lemma Dask_policy : policy_good FrameworkDask Dask.methods.
Proof.
  intros job job1 Hnone Hset. eapply steps_good; [|exact Hnone|exact Hset| |]; [done| |done].
  intros Hready _. eapply ready_role in Hready as Hl; [|right; left]. eapply ready_role in Hready as Hs; [|left].
  unfold Dask.job_policy. destruct (has_role job RoleLeadWorker) eqn:Hm; [apply has_role_Some in Hm|];
    (destruct (has_role job RoleWorker) eqn:Hw; [apply has_role_Some in Hw|]); names_roles.
Qed.

Lemma Bagua_policy : policy_good FrameworkBagua Bagua.methods.
Proof.
  intros job job1 Hnone (elastic & _ & Hset)%res_bind_Done. destruct elastic; simpl in Hset.
  - eapply steps_good; [| |exact Hset| |]; try done. intros Hready _.
    eapply ready_role in Hready as Hw; [|left]. eapply ready_role in Hready as He; [|right; right; left]. names_roles.
  - rewrite Hnone in Hset. eapply steps_good; [| |exact Hset| |]; try done. intros Hready _.
    eapply ready_role in Hready as Hm; [|left]. unfold Bagua.static_policy.
    match goal with |- context [has_role ?j RoleWorker] => destruct (has_role j RoleWorker) eqn:Hw end;
      [apply has_role_Some in Hw|]; names_roles.
Qed.

Lemma Tensorflow_policy : policy_good FrameworkTensorflow Tensorflow.methods.
Proof.
  intros job job1 Hnone Hset. eapply steps_good; [| |exact Hset| |]; try done. intros _ _.
  assert (∀ l role, role ∈ GetRolesIntersection (spec_RoleSpecs (job_Spec job)) l → is_Some (spec_RoleSpecs (job_Spec job) !! role))
    as Hin by (intros l role [?%elem_of_dom _]%list_elem_of_filter; done).
  split; unfold names_roles; simpl.
  - apply names_singletons. intros role [_ Hrole]%list_elem_of_filter. by eapply Hin.
  - case_match eqn:Hl; [constructor|]. rewrite <- Hl. apply Forall_singleton, Forall_forall. intros role. apply Hin.
Qed.

Lemma Custom_policy : policy_good FrameworkCustom Custom.methods.
Proof.
  intros job job1 Hnone (roles & Hroles & [= <-])%res_bind_Done. unfold Custom.setCommonJobPhasePolicy in *.
  rewrite Hnone in *. simpl in *. rewrite for_roles_Done in Hroles. unfold good_policy. simpl. split_and!.
  - intros role. specialize (Hroles role). destruct (_ !! role) as [s|]; [|by rewrite Hroles].
    destruct Hroles as (? & ? & _ & _ & ->). by split; eexists.
  - intros _. split; unfold names_roles; simpl.
    + apply names_singletons. intros role. apply elem_of_range_keys.
    + apply Forall_singleton, Forall_forall. intros role. apply elem_of_range_keys.
  - done.
Qed.

Lemma Demo_policy : policy_good FrameworkDemo Demo.methods.
Proof.
  intros job job1 Hnone [= <-]. unfold good_policy. rewrite Hnone. split_and!; [done|intros _; by split; constructor|done].
Qed.

Lemma Factory_policy name m : Factory !! name = Some m → policy_good name m.
Proof.
  revert name m. apply Factory_cases; auto using Bagua_policy, Custom_policy, Dask_policy, Demo_policy, MPI_policy,
    Pytorch_policy, Standalone_policy, Tensorflow_policy.
Qed.
End frameworks.

(** ** Property *)

(** C16: the phase of a job with a default policy can be computed, unless its
    framework's policy assumes a role it does not have.  For every framework
    the controller sets up and a job whose user set no policy, let defaulting
    return a job whose roles, and no others, have statuses: if the job has the
    role that the framework's policy assumes (the launcher for MPI, the worker
    for standalone, the master for PyTorch; none for the others), updating its
    phase returns; if it does not, the update panics with a nil dereference.
    Validation rejects a PyTorch job without a master, so only MPI and
    standalone jobs reach that panic. *)
Theorem default_policy_evaluates `{MapOrder, Kubeflow, Selectors, ApiServer, JobControllerPorts, JobController, TFConfigText}
    `{ControllerUtil} {C : Type} `{Interface C, SortSlice, PodLister} (SchemeDefault : AresJob → AresJob)
    getServices name (f : Framework C) job job' now (status : AresJobStatus) :
  (∀ job, SchemeDefault job = job) →
  setupFrameworks getServices !! name = Some f → spec_JobPhasePolicy (job_Spec job) = None →
  defaulted SchemeDefault f job = Done job' →
  let job' := job' <| job_Status := status |> in
  statuses_of job' (spec_RoleSpecs (job_Spec job')) →
  (has_assumed_role name job' → ∃ r, UpdatePhases now job' = Done r) ∧
  (¬ has_assumed_role name job' → UpdatePhases now job' = Crash NilDereference) ∧
  (name = FrameworkPytorch → F_Validate f job' = Done tt → has_assumed_role name job').
Proof.
  intros Hscheme Hf Hnone Hdefaulted job'' Hst. rewrite setupFrameworks_lookup in Hf.
  apply fmap_Some in Hf as (m & Hm & ->). unfold defaulted in Hdefaulted. rewrite Hscheme in Hdefaulted. simpl in Hdefaulted.
  apply res_bind_Done in Hdefaulted as (job1 & Hset & Hdefault).
  destruct (Factory_policy _ _ Hm _ _ Hnone Hset) as (Hroles & Hgood & Hassumed).
  pose proof (Default_roles _ _ Hdefault) as (_ & _ & Hpolicy & _).
  assert (∀ role, is_Some (spec_RoleSpecs (job_Spec job'') !! role) ↔ is_Some (spec_RoleSpecs (job_Spec job) !! role)) as Hsame.
  { intros role. rewrite <- Hroles, <- !has_role_Some. simpl. by rewrite <- (has_role_Default _ _ role Hdefault). }
  assert (spec_JobPhasePolicy (job_Spec job'') = spec_JobPhasePolicy (job_Spec job1)) as Hpol by done.
  split_and!.
  - intros Hhas. apply (UpdatePhases_returns now job'' _ Hst). rewrite Hpol.
    destruct Hgood as [Hfa Hsu]; [intros role Hrole; by apply Hsame, Hhas|].
    split; (eapply Forall_impl; [eassumption|]); intros clause Hc; (eapply Forall_impl; [exact Hc|]); intros role; apply Hsame.
  - unfold has_assumed_role. destruct (assumed_role name) as [role|] eqn:Hrole.
    + intros Hno. destruct (Hassumed role eq_refl) as (clauses & succeeded & Hp). rewrite <- Hpol in Hp.
      eapply UpdatePhases_unknown; [exact Hst| |exact Hp]. apply eq_None_not_Some. intros Hs. apply Hno. by intros ? [= <-].
    + intros Hno. destruct Hno. done.
  - intros -> Hv role [= <-]. rewrite <- has_role_Some. revert Hm Hv. unfold Factory, Register. simpl.
    rewrite lookup_insert_ne by done. rewrite lookup_insert_ne by done. rewrite lookup_insert.
    rewrite decide_True by done. intros [= <-]. simpl. unfold Pytorch.Validate. by case_match.
Qed.

(** A job of one role, with its status. *)
#[local] Existing Instances canonical_order canonical_sort ex_kubeflow ex_selectors ex_controllerutil accepting ex_lister.
#[local] Instance ex_policy_ports : JobControllerPorts := {| JobController_GetPortsFromJob _ := Done None |}.
#[local] Instance ex_policy_jobs : JobController := {|
  JobController_ReconcileJobs _ _ _ := mret tt;
  JobController_SyncPodGroup job _ := mret (mkPodGroup (job_meta job) PodGroupScheduled []);
|}.
#[local] Instance ex_policy_json : TFConfigText := {| json_TFConfig _ := Done ""; json_SparseTFConfig _ := Done "" |}.

(** An MPI job with workers only. *)
Lemma default_policy_evaluates_witness :
  let job := ex_job "mpi" [("worker", ex_role 2 "")] in
  ∃ (f : Framework MemoryCache.t) job', setupFrameworks (λ _, inr []) !! "mpi" = Some f ∧
    defaulted id f job = Done job' ∧ UpdatePhases 7 job' = Crash NilDereference.
Proof.
  intros job.
  assert (Hf : setupFrameworks (C := MemoryCache.t) (λ _, inr []) !! "mpi" =
    Some (framework_of (λ _, inr []) MPI.methods)) by (rewrite setupFrameworks_lookup; reflexivity).
  destruct (defaulted id (framework_of (C := MemoryCache.t) (λ _, inr []) MPI.methods) job) as [job'| |] eqn:Hdef;
    [|vm_compute in Hdef; discriminate Hdef..].
  exists (framework_of (λ _, inr []) MPI.methods), job'. split; [exact Hf|]. split; [exact Hdef|].
  vm_compute in Hdef. injection Hdef as <-.
  match goal with |- UpdatePhases 7 ?j = _ =>
    destruct (default_policy_evaluates (C := MemoryCache.t) id (λ _, inr []) "mpi"
      (framework_of (λ _, inr []) MPI.methods) job j 7 (job_Status j)) as (_ & Hpanic & _) end.
  - reflexivity.
  - exact Hf.
  - reflexivity.
  - vm_compute. reflexivity.
  - apply statuses_of_intro; vm_compute; repeat constructor; by eexists.
  - apply Hpanic. intros Hhas. destruct (Hhas RoleLauncher eq_refl) as [s Hs]. vm_compute in Hs. discriminate Hs.
Defined.
