(* ===== verification/Startup.v ===== *)
(** * Start-up order of the roles

    The pods of a role with a dependence wait until the roles it names are in
    the phase it names.  The dependences that the frameworks fill in name roles
    of the job and are not circular, so no job waits for itself. *)

From S2P Require Import Prelude GoStd Errors Regex Kube Api World ReconcilerUtils Examples Webhook Metadata Expectation.
From S2P Require Import Cache Conf Dependence NodeManager Phase PodGroup Pod PodCreate Service Job Controller Events.
From S2P Require Import FrameworkBase SimpleFrameworks Bagua Dask Tensorflow Factory Reconcile DefaultPolicy.

(** A role waits for another. *)
Definition waits_for (job : AresJob) (before role : string) : Prop :=
  ∃ spec d, spec_RoleSpecs (job_Spec job) !! role = Some (Some spec) ∧ role_Dependence spec = Some d ∧ before ∈ dep_RoleNames d.

(** ** Dependences through the steps *)

Section steps.
Context (ok : string → DependenceSpec → Prop).

Definition dependence_ok (role : string) (spec : RoleSpec) : Prop :=
  ∀ d, role_Dependence spec = Some d → ok role d.
Definition all_ok (roles : gmap string (option RoleSpec)) : Prop :=
  ∀ role spec, roles !! role = Some (Some spec) → dependence_ok role spec.

Definition step_ok (s : role_step) : Prop :=
  ∀ spec spec', step_body s spec = Done spec' → dependence_ok (step_role s) spec → dependence_ok (step_role s) spec'.

Lemma run_steps_ok steps job job1 : run_steps steps job = Done job1 →
  Forall (λ s, is_Some (spec_RoleSpecs (job_Spec job) !! step_role s) → step_ok s) steps →
  all_ok (spec_RoleSpecs (job_Spec job)) → all_ok (spec_RoleSpecs (job_Spec job1)).
Proof.
  intros (_ & _ & Hroles)%run_steps_spec Hsteps Hok role spec' Hspec'. specialize (Hroles role).
  destruct (spec_RoleSpecs (job_Spec job) !! role) as [[spec|]|] eqn:Hspec; [|congruence..].
  destruct Hroles as (spec1 & Hrun & Hspec1). rewrite Hspec1 in Hspec'. injection Hspec' as ->.
  specialize (Hok _ _ Hspec). clear Hspec1. unfold run_bodies in Hrun.
  assert (Forall (λ s, step_ok s ∧ step_role s = role) (filter (λ s, step_role s = role) steps)) as Hmine.
  { apply Forall_forall. intros s [Hs Hin]%list_elem_of_filter. rewrite Forall_forall in Hsteps. split; [|done].
    apply Hsteps; [done|]. rewrite Hs, Hspec. by eexists. }
  clear Hspec. revert spec Hok Hrun. induction Hmine as [|s l [Hs <-] _ IH]; intros spec Hok; simpl; [by intros [= <-]|].
  intros (spec1 & Hb & Hrun)%res_bind_Done. eapply IH; [|exact Hrun]. by eapply Hs.
Qed.

Lemma Default_ok `{MapOrder, ControllerUtil} r r' : Default r = Done r' →
  all_ok (spec_RoleSpecs (job_Spec r)) → all_ok (spec_RoleSpecs (job_Spec r')).
Proof.
  intros (_ & Hroles & _)%Default_roles Hok role spec' Hspec'. specialize (Hroles role).
  destruct (spec_RoleSpecs (job_Spec r) !! role) as [s|] eqn:Hs; [|congruence].
  destruct Hroles as (spec & spec1 & -> & Hd & Hspec1). assert (spec1 = spec') as -> by congruence.
  rewrite default_role_eq in Hd. injection Hd as <-. apply (Hok _ _ Hs).
Qed.
End steps.

(** ** The order of the roles *)

(** Where a role stands in the order of start-up. *)
Definition rank (role : string) : nat :=
  if decide (role = RoleLauncher) then 3 else if decide (role = RoleWorker) then 2
  else if decide (role = RoleLeadWorker) then 1 else 0.

(** The dependence names roles that are there and come earlier. *)
Definition earlier (roles : gmap string (option RoleSpec)) (role : string) (d : DependenceSpec) : Prop :=
  Forall (λ r, is_Some (roles !! r) ∧ (rank r < rank role)%nat) (dep_RoleNames d).

Ltac solve_step :=
  let Hb := fresh "Hb" in let Hdep := fresh "Hdep" in let Hd := fresh "Hd" in let d := fresh "d" in
  let s' := fresh "s'" in intros [[[reps t policy]|] [fl su nd] ctl dep] s' Hb Hdep d Hd; specialize (Hdep d); simpl in Hb, Hdep, Hd;
  unfold Dask.default_scheduler, Dask.default_policies, MPI.default_failed_on_node_down, Tensorflow.default_role_policy,
    Tensorflow.restart_workers, Tensorflow.default_role_port in Hb;
  unfold default_failed_if_not_restarted, default_failed, default_succeeded, default_dependence, spec_RestartPolicy,
    update_replica_spec in Hb;
  simpl in Hb; repeat (case_decide || case_match; simpl in Hb); simplify_eq/=; auto;
  try (destruct dep; simplify_eq/=; auto);
  repeat (apply Forall_cons; split); try (split; [solve [auto]|vm_compute; lia]); auto.
Ltac steps_ok := repeat (apply Forall_cons; split); [..|apply Forall_nil; exact I];
  let Hhere := fresh "Hhere" in intros Hhere; simpl in Hhere; try congruence; solve_step.

Section frameworks.
Context `{MapOrder, Kubeflow, Selectors, ApiServer, JobControllerPorts, JobController, TFConfigText}.

(** What a framework's defaulting and validation make of a job whose user gave
    no dependence. *)
Definition starts (m : Methods) : Prop :=
  ∀ job job1, (∀ ok, all_ok ok (spec_RoleSpecs (job_Spec job))) → SetDefault m job = Done job1 →
    (∀ job2, Validate m job2 = Done tt → (∀ role, has_role job2 role = has_role job1 role) →
     all_ok (earlier (spec_RoleSpecs (job_Spec job1))) (spec_RoleSpecs (job_Spec job1))).

Lemma steps_start steps job job0 job1 policy :
  run_steps steps (default_job_policy policy job0) = Done job1 →
  spec_RoleSpecs (job_Spec job0) = spec_RoleSpecs (job_Spec job) →
  (∀ ok, all_ok ok (spec_RoleSpecs (job_Spec job))) →
  (Forall (step_ready (spec_RoleSpecs (job_Spec job))) steps →
   (∀ role, is_Some (spec_RoleSpecs (job_Spec job1) !! role) ↔ is_Some (spec_RoleSpecs (job_Spec job) !! role)) →
   Forall (λ s, has_role job (step_role s) = true → step_ok (earlier (spec_RoleSpecs (job_Spec job1))) s) steps) →
  all_ok (earlier (spec_RoleSpecs (job_Spec job1))) (spec_RoleSpecs (job_Spec job1)).
Proof.
  intros Hrun Hsame Hok Hsteps. destruct (run_steps_policy _ _ _ Hrun) as (_ & Hready & Hroles). simpl in *. rewrite Hsame in *.
  eapply run_steps_ok; [exact Hrun| |simpl; rewrite Hsame; apply Hok]. simpl. rewrite Hsame.
  eapply Forall_impl; [by apply Hsteps|]. intros s Hs Hrole. by apply Hs, has_role_Some.
Qed.

Lemma Standalone_starts : starts Standalone.methods.
Proof. intros job job1 Hok Hset _ _ _. eapply steps_start; [exact Hset|done|exact Hok|]. intros _ _. steps_ok. Qed.

Lemma MPI_starts : starts MPI.methods.
Proof.
  intros job job1 Hok (job0 & Hset & [= <-])%res_bind_Done _ _ _.
  eapply (steps_start (MPI.steps job) job job job0); [exact Hset|done|exact Hok|]. intros _ Hroles. unfold MPI.steps.
  destruct (has_role job RoleWorker) eqn:Hw; [apply has_role_Some, Hroles in Hw|]; steps_ok.
Qed.

Lemma Pytorch_starts : starts Pytorch.methods.
Proof.
  intros job job1 Hok Hset _ _ _. eapply steps_start; [exact Hset|done|exact Hok|]. intros _ Hroles. unfold Pytorch.steps.
  destruct (has_role job RoleMaster) eqn:Hm; [apply has_role_Some, Hroles in Hm|]; steps_ok.
Qed.

Lemma Bagua_starts : starts Bagua.methods.
Proof.
  intros job job1 Hok (elastic & _ & Hset)%res_bind_Done _ _ _. destruct elastic; simpl in Hset.
  - eapply (steps_start Bagua.elastic_steps job); [exact Hset|done|exact Hok|]. intros Hready Hroles.
    eapply ready_role in Hready as He; [|right; right; left]. apply Hroles in He. steps_ok.
  - destruct (spec_JobPhasePolicy (job_Spec job)); [injection Hset as <-; apply Hok|].
    eapply (steps_start Bagua.static_steps job); [exact Hset|done|exact Hok|]. intros Hready Hroles.
    eapply ready_role in Hready as Hm; [|left]. apply Hroles in Hm. steps_ok.
Qed.

(** Dask rejects workers without a lead worker. *)
Lemma Dask_validated_leadworker job : Dask.Validate job = Done tt → has_role job RoleWorker = true →
  has_role job RoleLeadWorker = true.
Proof.
  unfold Dask.Validate. intros (_ & _ & (? & _ & Hv)%res_bind_Done)%res_bind_Done Hw. case_decide; [done|].
  apply res_bind_Done in Hv as (? & _ & Hv). case_decide; [done|]. apply res_bind_Done in Hv as (? & Hcheck & _).
  rewrite Hw in Hcheck. unfold CheckRolesExist in Hcheck. destruct (forallb _ _) eqn:Hc; [|discriminate Hcheck].
  simpl in Hc. rewrite andb_true_r in Hc. apply bool_decide_eq_true in Hc as [spec Hspec]. apply has_role_Some.
  unfold role_spec in Hspec. destruct (_ !! RoleLeadWorker) as [s|]; [by eexists|done].
Qed.

Lemma Dask_starts : starts Dask.methods.
Proof.
  intros job job1 Hok Hset job2 Hvalid Hsame. eapply steps_start; [exact Hset|done|exact Hok|]. intros Hready Hroles.
  eapply ready_role in Hready as Hs; [|left]. apply Hroles in Hs.
  assert (∀ role, is_Some (spec_RoleSpecs (job_Spec job1) !! role) ↔ has_role job2 role = true) as Hhas.
  { intros role. by rewrite Hsame, has_role_Some. }
  assert (has_role job2 RoleWorker = true → is_Some (spec_RoleSpecs (job_Spec job1) !! RoleLeadWorker)) as Hlead.
  { intros Hw. apply Dask_validated_leadworker in Hvalid; [by apply Hhas|done]. }
  unfold Dask.steps, Dask.launcherDependenceRole. rewrite Hhas in Hlead.
  destruct (has_role job RoleWorker) eqn:Hw.
  - apply has_role_Some, Hroles in Hw. assert (is_Some (spec_RoleSpecs (job_Spec job1) !! RoleLeadWorker)) by (apply Hhas, Hlead, Hhas, Hw).
    steps_ok.
  - destruct (has_role job RoleLeadWorker) eqn:Hl; [apply has_role_Some, Hroles in Hl|].
    + steps_ok.
    + steps_ok.
Qed.

Lemma Custom_starts : starts Custom.methods.
Proof.
  intros job job1 Hok (roles & Hroles & [= <-])%res_bind_Done _ _ _. rewrite for_roles_Done in Hroles. simpl.
  intros role spec' Hspec'. specialize (Hroles role). unfold Custom.setCommonJobPhasePolicy in Hroles.
  assert (spec_RoleSpecs (job_Spec (Custom.setCommonJobPhasePolicy job)) = spec_RoleSpecs (job_Spec job)) as Hsame
    by (unfold Custom.setCommonJobPhasePolicy; destruct (spec_JobPhasePolicy (job_Spec job)); reflexivity).
  unfold Custom.setCommonJobPhasePolicy in Hsame. rewrite Hsame in Hroles.
  destruct (spec_RoleSpecs (job_Spec job) !! role) as [s|] eqn:Hs; [|congruence].
  destruct Hroles as (spec & spec1 & -> & Hb & Hspec1). assert (spec1 = spec') as -> by congruence.
  assert (step_ok (earlier roles) (if_role role (λ spec, default_failed_if_not_restarted (default_succeeded spec)))) as Hstep by solve_step.
  apply (Hstep _ _ Hb). by apply Hok.
Qed.

Lemma Demo_starts : starts Demo.methods.
Proof. intros job job1 Hok [= <-] _ _ _. apply Hok. Qed.

Lemma Tensorflow_starts : starts Tensorflow.methods.
Proof.
  intros job job1 Hok Hset _ _ _. eapply (steps_start _ job); [exact Hset|done|exact Hok|]. intros _ _.
  unfold Tensorflow.steps, Tensorflow.getSpecificRoles. simpl. steps_ok.
Qed.

Lemma Factory_starts name m : Factory !! name = Some m → starts m.
Proof.
  revert name m. apply (Factory_cases (λ _, starts)); auto using Bagua_starts, Custom_starts, Dask_starts, Demo_starts,
    MPI_starts, Pytorch_starts, Standalone_starts, Tensorflow_starts.
Qed.
End frameworks.

(** ** Property *)

(** C17: the dependences that a framework fills in cannot block a job: when the
    user gave no role a dependence, and defaulting and the framework's
    validation accept the job, every role that another waits for is a role of
    the job, and waiting is well-founded, so no role waits for itself through
    others. *)
Theorem default_dependences_start
    `{MapOrder, Kubeflow, Selectors, ApiServer, JobControllerPorts, JobController, TFConfigText}
    `{ControllerUtil} {C : Type} `{Interface C, SortSlice, PodLister} SchemeDefault getServices name (f : Framework C) job job1 :
  (∀ job, SchemeDefault job = job) → setupFrameworks getServices !! name = Some f →
  map_Forall (λ _ s, s ≫= role_Dependence = None) (spec_RoleSpecs (job_Spec job)) →
  defaulted SchemeDefault f job = Done job1 → F_Validate f job1 = Done tt →
  (∀ before role, waits_for job1 before role → is_Some (spec_RoleSpecs (job_Spec job1) !! before)) ∧
  well_founded (waits_for job1).
Proof.
  intros Hscheme Hf Hnone Hdefaulted Hvalid. rewrite setupFrameworks_lookup in Hf. apply fmap_Some in Hf as (m & Hm & ->).
  unfold defaulted in Hdefaulted. rewrite Hscheme in Hdefaulted. simpl in Hdefaulted, Hvalid.
  apply res_bind_Done in Hdefaulted as (job0 & Hset & Hdefault).
  assert (∀ ok, all_ok ok (spec_RoleSpecs (job_Spec job))) as Hok.
  { intros ok role spec Hspec d Hd. specialize (Hnone _ _ Hspec). simpl in Hnone. congruence. }
  pose proof (Factory_starts name m Hm job job0 Hok Hset job1 Hvalid (λ role, has_role_Default _ _ role Hdefault)) as Hall.
  apply (Default_ok _ _ _ Hdefault) in Hall.
  assert (∀ before role, waits_for job1 before role →
    is_Some (spec_RoleSpecs (job_Spec job0) !! before) ∧ (rank before < rank role)%nat) as Hwaits.
  { intros before role (spec & d & Hspec & Hd & Hin). specialize (Hall _ _ Hspec _ Hd). unfold earlier in Hall.
    rewrite Forall_forall in Hall. by apply Hall. }
  split.
  - intros before role [Hb _]%Hwaits. rewrite <- has_role_Some in *. by rewrite (has_role_Default _ _ before Hdefault).
  - apply (well_founded_lt_compat _ rank). intros before role Hw. by apply Hwaits.
Qed.

#[local] Existing Instances canonical_order canonical_sort ex_kubeflow ex_text ex_selectors ex_templates ex_controllerutil
  base_controller accepting ex_lister.
#[local] Instance ex_startup_ports : JobControllerPorts := {| JobController_GetPortsFromJob _ := Done None |}.
#[local] Instance ex_startup_jobs : JobController := {|
  JobController_ReconcileJobs _ _ _ := mret tt;
  JobController_SyncPodGroup job _ := mret (mkPodGroup (job_meta job) PodGroupScheduled []);
|}.
#[local] Instance ex_startup_json : TFConfigText := {| json_TFConfig _ := Done ""; json_SparseTFConfig _ := Done "" |}.

(** An MPI job: the launcher waits for the workers. *)
Lemma default_dependences_start_witness :
  let job := ex_job "mpi" [("launcher", ex_role 1 ""); ("worker", ex_role 2 "")] in
  ∃ (f : Framework MemoryCache.t) job1, setupFrameworks (λ _, inr []) !! "mpi" = Some f ∧
    defaulted id f job = Done job1 ∧ waits_for job1 "worker" "launcher" ∧ well_founded (waits_for job1).
Proof.
  intros job.
  assert (Hf : setupFrameworks (C := MemoryCache.t) (λ _, inr []) !! "mpi" =
    Some (framework_of (λ _, inr []) MPI.methods)) by (rewrite setupFrameworks_lookup; reflexivity).
  destruct (defaulted id (framework_of (C := MemoryCache.t) (λ _, inr []) MPI.methods) job) as [job1| |] eqn:Hdef;
    [|vm_compute in Hdef; discriminate Hdef..].
  exists (framework_of (λ _, inr []) MPI.methods), job1. split; [exact Hf|]. split; [exact Hdef|]. split.
  - vm_compute in Hdef. injection Hdef as <-. eexists _, _. split; [reflexivity|]. split; [reflexivity|]. apply list_elem_of_here.
  - destruct (default_dependences_start (C := MemoryCache.t) id (λ _, inr []) "mpi" (framework_of (λ _, inr []) MPI.methods)
      job job1) as [_ Hwf]; [reflexivity|exact Hf| |exact Hdef| |exact Hwf].
    + apply (@map_Forall_intro _ (λ _ (s : option RoleSpec), s ≫= role_Dependence = None) (λ _ s, option_eq_None_dec _)). vm_compute. reflexivity.
    + vm_compute in Hdef. injection Hdef as <-. vm_compute. reflexivity.
Defined.
