(* ===== verification/JobProgress.v ===== *)
(** * From pods to the phase of the job

    One round of a job whose pods are in place: kubeflow's loop calls
    [ReconcilePods] for each role and then [UpdateJobStatus].  The phases of the
    roles follow from their pods and the phase of the job from these, so a job
    whose pods have all succeeded has succeeded, whichever framework set its
    policies. *)

From S2P Require Import Prelude GoStd Errors Regex Kube Api World ReconcilerUtils Examples Webhook Metadata Expectation.
From S2P Require Import Cache Conf Dependence NodeManager PodOrder Phase PodGroup Pod PodSlices PodCreate Service Job Controller Events.
From S2P Require Import PhaseCount RolePhase PodReconcile JobPhase FrameworkBase SimpleFrameworks Bagua Dask Tensorflow Factory Reconcile.
From S2P Require Import DefaultPolicy.

(** The phase of a role before a round. *)
Definition last_role_phase (job : AresJob) (rtype : string) : string :=
  role_Phase (role_status_or_new (job_Status job) rtype).

Definition statuses (job : AresJob) : gmap string (option RoleStatus) := contents (status_RoleStatuses (job_Status job)).

Lemma RolePhase_last job rtype : no_nil_status (statuses job) → RolePhase (job_Status job) rtype = Done (last_role_phase job rtype).
Proof.
  unfold RolePhase, last_role_phase, role_status_or_new, statuses. intros Hnil.
  rewrite mlookup_contents. destruct (contents _ !! rtype) as [[rs|]|] eqn:Hrs; [done| |done].
  by destruct (Hnil _ _ Hrs).
Qed.

(** A pod creation, by the role and the index of its template. *)
Definition created_pod (a : action) : option (option string * option string) :=
  match a with
  | CreatePodWithControllerRef _ t _ =>
      Some (meta_Labels (template_meta t) !? ReplicaTypeLabel, meta_Labels (template_meta t) !? ReplicaIndexLabel)
  | _ => None
  end.

Lemma created_of_role `{Kubeflow} rt new : Forall (of_role rt) new →
  omap created_pod new = (λ i, (Some rt, Some i)) <$> omap created_index new.
Proof.
  induction 1 as [|a new Ha _ IH]; [done|]. destruct a; try done. destruct Ha as [Hrt [i Hi]].
  csimpl. rewrite Hrt, Hi. csimpl. by rewrite IH.
Qed.

(** Requests that neither create nor delete a pod, and leave the job alone. *)
Definition without_pods (new : list action) : Prop := omap created_pod new = [] ∧ omap deleted_pod new = [].
Definition quiet (m : op unit) (w : world) : Prop :=
  ∃ new, m w = (Done tt, mkWorld (the_job w) (the_log w ++ new)) ∧ without_pods new.

Lemma events_without_pods events : without_pods (Recorded <$> events).
Proof. unfold without_pods. by induction events as [|e events [IH1 IH2]]. Qed.

Section round.
Context `{MapOrder, Kubeflow, Selectors, SortSlice, TerminatedText, Templates, ApiServer, Controller, !ControllerLaws}.
Context (config : Configuration) (hosts : error + list Pod) (now : Z) (nm : Manager) (pods : list Pod)
  (services : string → ReplicaSpec → op unit) (replicas : gmap string (option ReplicaSpec)).

(** kubeflow passes the status it updates by reference. *)
Definition reconcile_role (role : string * ReplicaSpec) : op unit :=
  job ← get_job;
  _ ← ReconcilePods config hosts now nm (status_JobStatus (job_Status job)) pods role.1 role.2 replicas;
  services role.1 role.2.

Definition job_round (roles : list (string * ReplicaSpec)) : op unit :=
  _ ← for_each roles reconcile_role;
  job ← get_job;
  UpdateJobStatus now (status_JobStatus (job_Status job)).

(** ** One role *)

Definition mine (rtype : string) : list Pod := FilterPodsForReplicaType pods (ToLower rtype).
Definition replica_count (spec : ReplicaSpec) : Z := default 0 (Replicas spec).

(** What is planned for the pods of a role. *)
Definition creations (job : AresJob) (p : string * ReplicaSpec) : list (option string * option string) :=
  (λ i, (Some (ToLower p.1), Some (Itoa i))) <$>
    planned_creations (last_role_phase job p.1) p.2 (replica_count p.2) (mine p.1).
Definition deletions (p : string * ReplicaSpec) : list (string * string) :=
  pod_key <$> planned_deletions p.2 (replica_count p.2) (mine p.1).

(** Its pods can be built, whatever the status of the job. *)
Definition templates_built (job : AresJob) (rtype : string) (spec : ReplicaSpec) : Prop :=
  ∀ job', job_meta job' = job_meta job → job_Spec job' = job_Spec job →
    ∀ i masterRole, ∃ t, final_template config hosts job' (ToLower rtype) (Itoa i) spec masterRole = Done t.

(** The role can be reconciled: it is complete, its pods have indices and can
    be counted, and new ones can be built. *)
Record reconcilable (job : AresJob) (rtype : string) (rspec : RoleSpec) (spec : ReplicaSpec) (n : Z) : Prop := {
  place_role : role_spec (job_Spec job) rtype = Some rspec;
  place_spec : role_ReplicaSpec rspec = Some spec;
  place_replicas : Replicas spec = Some n;
  place_range : 0 ≤ n < 2 ^ 31;
  place_indices : indices_in (mine rtype) 0 (2 ^ 63 - 1);
  place_few : Z.of_nat (length (validated_pods spec n (mine rtype))) < 2 ^ 31;
  place_templates : templates_built job rtype spec;
}.

(** The pods of the role are in place: nothing is to be created or deleted. *)
Definition in_place (job : AresJob) (rtype : string) (rspec : RoleSpec) (spec : ReplicaSpec) (n : Z) : Prop :=
  reconcilable job rtype rspec spec n ∧ creations job (rtype, spec) = [] ∧ deletions (rtype, spec) = [].

(** The phase follows from the pods of the role and its phase so far, when its
    pods are in place, and is what it was otherwise. *)
Definition follows (job : AresJob) (rtype phase : string) : Prop :=
  ∃ rspec spec n, reconcilable job rtype rspec spec n ∧
    if decide (creations job (rtype, spec) = [] ∧ deletions (rtype, spec) = [])
    then role_rule rspec (RestartPolicy spec) n (last_role_phase job rtype)
           (count nm rspec (validated_pods spec n (mine rtype))) phase
    else phase = last_role_phase job rtype.

(** The pods created are built for the roles. *)
Definition built_by (job : AresJob) (roles : list (string * ReplicaSpec)) (a : action) : Prop :=
  ∃ p job', p ∈ roles ∧ job_meta job' = job_meta job ∧ job_Spec job' = job_Spec job ∧
    built config hosts job' (ToLower p.1) p.2 a.
Definition all_built (job : AresJob) (roles : list (string * ReplicaSpec)) (new : list action) : Prop :=
  ∀ a, a ∈ new → is_Some (created_pod a) → built_by job roles a.

Lemma all_built_app job job' roles1 roles2 new1 new2 : job_meta job' = job_meta job → job_Spec job' = job_Spec job →
  all_built job roles1 new1 → all_built job' roles2 new2 → all_built job (roles1 ++ roles2) (new1 ++ new2).
Proof.
  intros Hm Hs Hb1 Hb2 a [Ha|Ha]%elem_of_app Hc.
  - destruct (Hb1 a Ha Hc) as (p & j & ? & ? & ? & ?). exists p, j. split_and!; [set_solver|done..].
  - destruct (Hb2 a Ha Hc) as (p & j & ? & ? & ? & ?). exists p, j. split_and!; [set_solver|congruence..|done].
Qed.

Lemma all_built_none job roles new : omap created_pod new = [] → all_built job roles new.
Proof.
  intros Hnone a Ha [x Hx]. assert (x ∈ omap created_pod new) as Hin; [|rewrite Hnone in Hin; by apply elem_of_nil in Hin].
  apply list_elem_of_omap. by exists a.
Qed.

(** What a round of some roles leaves as it was. *)
Record kept (job job' : AresJob) (l : list string) : Prop := {
  kept_meta : job_meta job' = job_meta job;
  kept_spec : job_Spec job' = job_Spec job;
  kept_phase : status_Phase (job_Status job') = status_Phase (job_Status job);
  kept_status : is_Some (status_JobStatus (job_Status job'));
  kept_others : ∀ rtype, rtype ∉ l → statuses job' !! rtype = statuses job !! rtype;
}.

(** The round of a role touches its status only. *)
Lemma sync_role_statuses job rtype l job' events rspec js :
  role_spec (job_Spec job) rtype = Some rspec → status_JobStatus (job_Status job) = Some js → Z.of_nat (length l) < 2 ^ 31 →
  sync_role now nm job rtype l = Done (job', events) →
  ∃ st, statuses job' = <[rtype := Some st]> (statuses job) ∧ status_Phase (job_Status job') = status_Phase (job_Status job).
Proof.
  intros Hspec Hjs Hlen. unfold sync_role. rewrite (UpdateRoleReplicas_eq _ _ _ _ rspec js) by done. simpl.
  unfold UpdateRolePhase. simpl. rewrite Hspec. simpl. intros (phase & _ & Hrun)%res_bind_Done.
  unfold role_status in Hrun. simpl in Hrun. rewrite mlookup_Some, lookup_insert_eq in Hrun. simpl in Hrun.
  case_decide; [simplify_eq; by eexists|].
  apply res_bind_Done in Hrun as (p & _ & (n & _ & (st' & Hst & [= <- _])%res_bind_Done)%res_bind_Done).
  unfold update_role_status, role_status in Hst. simpl in Hst. rewrite mlookup_Some, lookup_insert_eq in Hst. simpl in Hst.
  apply res_bind_Done in Hst as (st & _ & [= <-]). exists st. unfold statuses. simpl. split; [|done]. apply insert_insert_eq.
Qed.

Lemma sync_role_outcome job rtype l job' events rspec spec n js :
  role_spec (job_Spec job) rtype = Some rspec → role_ReplicaSpec rspec = Some spec → Replicas spec = Some n →
  status_JobStatus (job_Status job) = Some js → no_nil_status (statuses job) → Z.of_nat (length l) < 2 ^ 31 →
  sync_role now nm job rtype l = Done (job', events) →
  ∃ st, kept job job' [rtype] ∧ statuses job' !! rtype = Some (Some st) ∧
    role_rule rspec (RestartPolicy spec) n (last_role_phase job rtype) (count nm rspec l) (role_Phase st).
Proof.
  intros Hrole Hspec Hn Hjs Hnil Hlen Hsync.
  destruct (sync_role_statuses _ _ _ _ _ _ _ Hrole Hjs Hlen Hsync) as (st & Hst & Hph).
  destruct (sync_role_rule now nm job rtype l rspec spec n js)
    as (job1 & ev1 & st1 & js1 & Hsync1 & Hsp & Hme & Hj1 & Hst1 & _ & _ & Hrule & _); [done..|].
  rewrite Hsync in Hsync1. simplify_eq.
  assert (st1 = st) as ->.
  { unfold role_status in Hst1. rewrite mlookup_contents in Hst1. fold (statuses job1) in Hst1.
    rewrite Hst, lookup_insert_eq in Hst1. by simplify_eq/=. }
  exists st. split_and!; [|by rewrite Hst, lookup_insert_eq|done].
  split; [done..|by eexists|]. intros r Hr. rewrite Hst. apply lookup_insert_ne. set_solver.
Qed.

Lemma UpdateRoleReplicas_outcome job rtype l job' rspec js :
  role_spec (job_Spec job) rtype = Some rspec → status_JobStatus (job_Status job) = Some js → Z.of_nat (length l) < 2 ^ 31 →
  UpdateRoleReplicas nm job rtype l = Done job' →
  ∃ st, kept job job' [rtype] ∧ statuses job' !! rtype = Some (Some st) ∧ role_Phase st = last_role_phase job rtype.
Proof.
  intros Hrole Hjs Hlen. rewrite (UpdateRoleReplicas_eq _ _ _ _ rspec js) by done. intros [= <-].
  eexists. unfold statuses. simpl. rewrite lookup_insert_eq. split_and!; [|done|done].
  split; [done..|by eexists|]. intros r Hr. unfold statuses. simpl. apply lookup_insert_ne. set_solver.
Qed.

Lemma role_round w rtype rspec spec n key :
  (∀ log a, answer log a = None) → KeyFunc (job_meta (the_job w)) = Done key →
  is_Some (status_JobStatus (job_Status (the_job w))) → no_nil_status (statuses (the_job w)) →
  reconcilable (the_job w) rtype rspec spec n →
  (∀ w', job_meta (the_job w') = job_meta (the_job w) → quiet (services rtype spec) w') →
  ∃ job' new st, reconcile_role (rtype, spec) w = (Done tt, mkWorld job' (the_log w ++ new)) ∧
    omap created_pod new = creations (the_job w) (rtype, spec) ∧ omap deleted_pod new = deletions (rtype, spec) ∧
    all_built (the_job w) [(rtype, spec)] new ∧
    kept (the_job w) job' [rtype] ∧ statuses job' !! rtype = Some (Some st) ∧ follows (the_job w) rtype (role_Phase st).
Proof.
  intros Haccept Hkey [js Hjs] Hnil Hrec Hquiet. pose proof Hrec as [Hrole Hspec Hn Hrange Hin Hlen Hbuild].
  unfold reconcile_role. rewrite (eff_bind_Done _ _ _ (the_job w) w) by done. simpl. rewrite Hjs.
  destruct (ReconcilePods_spec config hosts now nm js pods rtype spec replicas w key (last_role_phase (the_job w) rtype) rspec n)
    as (new & job' & Hrun & Hcreated & Hdeleted & Htypes & Hjob); try done.
  { split_and!; [done|by apply RolePhase_last|by apply Hbuild]. }
  rewrite (eff_bind_Done _ _ _ _ _ Hrun). fold (mine rtype) in Hcreated, Hdeleted, Hjob.
  assert (the_job w <| job_Status ::= λ s, s <| status_JobStatus := Some js |> |> = the_job w) as Hsame.
  { destruct w as [[? ? []] ?]. simpl in Hjs. by rewrite Hjs. }
  rewrite Hsame in Hjob.
  assert (∃ st, kept (the_job w) job' [rtype] ∧ statuses job' !! rtype = Some (Some st) ∧ follows (the_job w) rtype (role_Phase st))
    as (st & Hkept & Hst & Hfollow).
  { assert (replica_count spec = n) as Hcount by (unfold replica_count; by rewrite Hn).
    case_decide as Hplan.
    - destruct Hjob as [events Hsync]. edestruct sync_role_outcome as (st & ? & ? & ?); [done..|].
      exists st. split_and!; [done..|]. exists rspec, spec, n. split; [done|]. rewrite decide_True; [done|].
      unfold creations, deletions. simpl. rewrite Hcount. by destruct Hplan as [-> ->].
    - edestruct UpdateRoleReplicas_outcome as (st & ? & ? & ?); [done..|].
      exists st. split_and!; [done..|]. exists rspec, spec, n. split; [done|]. rewrite decide_False; [done|].
      unfold creations, deletions. simpl. rewrite Hcount. intros [?%fmap_nil_inv ?%fmap_nil_inv]. by apply Hplan. }
  destruct (Hquiet (mkWorld job' (the_log w ++ new))) as (new' & Hserv & Hc' & Hd'); [apply Hkept|].
  exists job', (new ++ new'), st. rewrite Hserv, !omap_app, Hc', Hd', !app_nil_r. simpl.
  split_and!; [by rewrite <- app_assoc| | | |done..].
  - rewrite (created_of_role (ToLower rtype)) by (by eapply built_of_role). rewrite Hcreated. unfold creations, replica_count. simpl. by rewrite Hn, <- list_fmap_compose.
  - unfold deletions, replica_count. simpl. by rewrite Hn.
  - rewrite <- (app_nil_r [(rtype, spec)]). eapply (all_built_app _ (the_job w)); [done|done| |by apply all_built_none].
    rewrite Forall_forall in Htypes. intros a Ha _. exists (rtype, spec), (the_job w). split_and!; [left|done|done|by apply Htypes].
Qed.

(** ** All the roles *)

Lemma last_role_phase_kept job job' l rtype : kept job job' l → rtype ∉ l → last_role_phase job' rtype = last_role_phase job rtype.
Proof. intros [_ _ _ _ Hothers] Hr. unfold last_role_phase, role_status_or_new. fold (statuses job') (statuses job). by rewrite Hothers. Qed.

Lemma creations_kept job job' l p : kept job job' l → p.1 ∉ l → creations job' p = creations job p.
Proof. intros Hkept Hr. unfold creations. by rewrite (last_role_phase_kept _ _ _ _ Hkept Hr). Qed.

Lemma reconcilable_kept job job' l rtype rspec spec n : kept job job' l →
  reconcilable job rtype rspec spec n ↔ reconcilable job' rtype rspec spec n.
Proof. intros [Hm Hs _ _ _]. unfold templates_built. split; intros []; split; unfold templates_built in *; rewrite ?Hs, ?Hm in *; done. Qed.

Lemma follows_kept job job' l rtype phase : kept job job' l → rtype ∉ l → follows job' rtype phase → follows job rtype phase.
Proof.
  intros Hkept Hr (rspec & spec & n & Hrec & Hrule). exists rspec, spec, n.
  rewrite (last_role_phase_kept _ _ _ _ Hkept Hr), (creations_kept _ _ _ (rtype, spec) Hkept Hr) in Hrule.
  split; [by apply (reconcilable_kept job job' l)|done].
Qed.

Lemma kept_trans job job1 job2 l1 l2 : kept job job1 l1 → kept job1 job2 l2 → kept job job2 (l1 ++ l2).
Proof.
  intros [] []. split; [congruence..|done|]. intros rtype Hr. rewrite not_elem_of_app in Hr.
  destruct Hr. rewrite kept_others1 by done. by apply kept_others0.
Qed.

(** Each role can be reconciled, and its services are looked after. *)
Definition roles_ready (job : AresJob) (roles : list (string * ReplicaSpec)) : Prop :=
  Forall (λ p, (∃ rspec n, reconcilable job p.1 rspec p.2 n) ∧
    ∀ w, job_meta (the_job w) = job_meta job → quiet (services p.1 p.2) w) roles.

Lemma roles_round roles w key :
  (∀ log a, answer log a = None) → KeyFunc (job_meta (the_job w)) = Done key →
  is_Some (status_JobStatus (job_Status (the_job w))) → no_nil_status (statuses (the_job w)) →
  NoDup roles.*1 → roles_ready (the_job w) roles →
  ∃ job' new, for_each roles reconcile_role w = (Done tt, mkWorld job' (the_log w ++ new)) ∧
    omap created_pod new = (roles ≫= creations (the_job w)) ∧ omap deleted_pod new = (roles ≫= deletions) ∧
    all_built (the_job w) roles new ∧ kept (the_job w) job' roles.*1 ∧ no_nil_status (statuses job') ∧
    Forall (λ p, ∃ st, statuses job' !! p.1 = Some (Some st) ∧ follows (the_job w) p.1 (role_Phase st)) roles.
Proof.
  intros Haccept. revert w. induction roles as [|[rtype spec] roles IH]; intros w Hkey Hjs Hnil Hnd Hready; csimpl.
  { exists (the_job w), []. rewrite app_nil_r. destruct w. split_and!; try done. by apply all_built_none. }
  csimpl in *. apply NoDup_cons in Hnd as [Hnew Hnd]. apply Forall_cons in Hready as [[(rspec & n & Hrole) Hquiet] Hroles].
  destruct (role_round w rtype rspec spec n key) as (job1 & new1 & st & Hrun1 & Hc1 & Hd1 & Hb1 & Hkept & Hst & Hfollows); [done..|].
  unfold for_each. simpl. rewrite (eff_bind_Done _ _ _ _ _ Hrun1).
  assert (∀ p, p ∈ roles → p.1 ∉ [rtype]) as Hother.
  { intros p Hp. apply (list_elem_of_fmap_2 fst) in Hp. set_solver. }
  destruct (IH (mkWorld job1 (the_log w ++ new1))) as (job2 & new2 & Hrun2 & Hc2 & Hd2 & Hb2 & Hkept2 & Hnil2 & Hall2); simpl.
  - by rewrite (kept_meta _ _ _ Hkept).
  - apply Hkept.
  - intros r s Hs. destruct (decide (r = rtype)) as [->|Hne]; [rewrite Hst in Hs; by simplify_eq|].
    rewrite (kept_others _ _ _ Hkept) in Hs by set_solver. by apply (Hnil r).
  - done.
  - eapply Forall_impl; [exact Hroles|]. intros p [(rspec' & n' & Hp) Hq]. split.
    + exists rspec', n'. by apply (reconcilable_kept (the_job w) job1 [rtype]).
    + by rewrite (kept_meta _ _ _ Hkept).
  - exists job2, (new1 ++ new2). unfold for_each in Hrun2. rewrite Hrun2. simpl in *.
    rewrite !omap_app, Hc1, Hd1, Hc2, Hd2, <- app_assoc. split_and!; [done| |done| | |done|].
    + f_equal. clear -Hother Hkept. induction roles as [|p roles IH]; [done|]. csimpl.
      rewrite (creations_kept _ _ _ p Hkept) by (apply Hother; left). f_equal. apply IH. intros q Hq. apply Hother. by right.
    + apply (all_built_app _ job1 [(rtype, spec)]); [apply Hkept|apply Hkept|done|done].
    + apply (kept_trans _ _ _ [rtype] roles.*1 Hkept Hkept2).
    + constructor.
      * exists st. split; [|done]. by rewrite (kept_others _ _ _ Hkept2).
      * rewrite Forall_forall in *. intros p Hp. destruct (Hall2 p Hp) as (st' & Hst' & Hf). exists st'. split; [done|].
        eapply follows_kept; [exact Hkept|by apply Hother|done].
Qed.
End round.

(** ** The job *)

(** The policy of a job that is not decided from the start: it names roles of the
    job and none of its clauses is empty. *)
Definition job_policy (job : AresJob) : JobPhasePolicy := default (mkJobPhasePolicy [] []) (spec_JobPhasePolicy (job_Spec job)).
Definition sound_clauses (specs : gmap string (option RoleSpec)) (clauses : list (list string)) : Prop :=
  names_roles specs clauses ∧ Forall (λ clause, clause ≠ []) clauses.
Definition sound_policy (job : AresJob) : Prop :=
  sound_clauses (spec_RoleSpecs (job_Spec job)) (policy_Failed (job_policy job)) ∧
  sound_clauses (spec_RoleSpecs (job_Spec job)) (policy_Succeeded (job_policy job)).

(** A policy is not met while no role is in the phase it asks for. *)
Lemma sound_unmet specs clauses roles phase : sound_clauses specs clauses →
  (∀ role, is_Some (specs !! role) → ¬ in_phase roles phase role) → ¬ policy_met roles phase clauses.
Proof.
  intros [Hnames Hne] Hno (clause & Hin & Hclause)%Exists_exists. unfold names_roles in Hnames. rewrite Forall_forall in Hnames, Hne.
  specialize (Hnames _ Hin). specialize (Hne _ Hin). destruct clause as [|role clause]; [done|].
  apply Forall_cons in Hnames as [Hrole _]. apply Forall_cons in Hclause as [Hph _]. by apply (Hno role).
Qed.

(** A round of a job: the pods of every role as planned, the phases of the roles
    and then of the job by their rules. *)
Lemma job_round_rule `{MapOrder, Kubeflow, Selectors, SortSlice, TerminatedText, Templates, ApiServer, Controller, !ControllerLaws}
    config hosts now nm pods services replicas roles w key :
  (∀ log a, answer log a = None) → KeyFunc (job_meta (the_job w)) = Done key →
  is_Some (status_JobStatus (job_Status (the_job w))) → no_nil_status (statuses (the_job w)) →
  NoDup roles.*1 → (∀ role, is_Some (spec_RoleSpecs (job_Spec (the_job w)) !! role) → role ∈ roles.*1) →
  let policy := default (mkJobPhasePolicy [] []) (spec_JobPhasePolicy (job_Spec (the_job w))) in
  policy_names_roles (spec_RoleSpecs (job_Spec (the_job w))) policy →
  roles_ready config hosts pods services (the_job w) roles →
  ∃ job' new, job_round config hosts now nm pods services replicas roles w = (Done tt, mkWorld job' (the_log w ++ new)) ∧
    omap created_pod new = (roles ≫= creations pods (the_job w)) ∧ omap deleted_pod new = (roles ≫= deletions pods) ∧
    (∀ role, role ∈ roles.*1 → ∃ st, statuses job' !! role = Some (Some st) ∧
       follows config hosts nm pods (the_job w) role (role_Phase st)) ∧
    (∀ role, role ∉ roles.*1 → statuses job' !! role = statuses (the_job w) !! role) ∧
    job_meta job' = job_meta (the_job w) ∧ job_Spec job' = job_Spec (the_job w) <| spec_JobPhasePolicy := Some policy |> ∧
    is_Some (status_JobStatus (job_Status job')) ∧ no_nil_status (statuses job') ∧
    job_rule (statuses job') policy (last_phase (the_job w)) (status_Phase (job_Status job')) ∧
    (status_Phase (job_Status job') ≠ last_phase (the_job w) → IsFinished (status_Phase (job_Status job')) = true →
     is_Some (completion_time job')) ∧
    (status_Phase (job_Status job') ≠ last_phase (the_job w) → status_Phase (job_Status job') = JobPhaseRunning →
     is_Some (status_RunningTime (job_Status job'))).
Proof.
  intros Haccept Hkey Hjs Hnil Hnd Hcover policy [Hfailed Hsucceeded] Hready.
  destruct (roles_round config hosts now nm pods services replicas roles w key)
    as (job1 & new & Hrun & Hc & Hd & _ & [Hmeta Hspec Hphase Hjs1 Hothers] & Hnil1 & Hall); [done..|].
  assert (∀ role, role ∈ roles.*1 → ∃ st, statuses job1 !! role = Some (Some st) ∧
    follows config hosts nm pods (the_job w) role (role_Phase st)) as Hroles.
  { intros role (p & -> & Hp)%list_elem_of_fmap. rewrite Forall_forall in Hall. by apply Hall. }
  assert (∀ clauses, names_roles (spec_RoleSpecs (job_Spec (the_job w))) clauses → roles_known (statuses job1) clauses) as Hknown.
  { intros clauses Hnames. eapply Forall_impl; [exact Hnames|]. intros clause Hclause. eapply Forall_impl; [exact Hclause|].
    intros role Hrole. destruct (Hroles role) as (st & Hst & _); [by apply Hcover|by exists st]. }
  destruct (UpdatePhases_rule now job1) as (job2 & events & Hupdate & Hrule & Hst & Hmeta2 & Hspec2 & Hct & Hjs2 & Hrt);
    [done|rewrite Hspec; by apply Hknown..|done|].
  assert (last_phase job1 = last_phase (the_job w)) as Hlast by (unfold last_phase; by rewrite Hphase).
  rewrite Hspec, Hlast in Hrule. rewrite Hlast in Hct, Hrt. destruct (events_without_pods events) as [Hce Hde].
  exists job2, (new ++ (Recorded <$> events)). unfold statuses in *. rewrite Hst. split_and!; try done.
  - unfold job_round. rewrite (eff_bind_Done _ _ _ _ _ Hrun). rewrite (eff_bind_Done _ _ _ job1 (mkWorld job1 (the_log w ++ new))) by done.
    unfold UpdateJobStatus. rewrite (eff_bind_Done _ _ _ job1 (mkWorld job1 (the_log w ++ new))) by done.
    assert (job1 <| job_Status ::= λ s, s <| status_JobStatus := status_JobStatus (job_Status job1) |> |> = job1) as ->
      by (by destruct job1 as [? ? []]).
    unfold lift, mbind, eff_bind. rewrite Hupdate. simpl. rewrite emit_events. unfold set_field, set_the_log. simpl.
    by rewrite <- app_assoc.
  - by rewrite omap_app, Hc, Hce, app_nil_r.
  - by rewrite omap_app, Hd, Hde, app_nil_r.
  - by rewrite Hmeta2.
  - by rewrite Hspec2, Hspec.
Qed.

(** Of a job whose pods are in place. *)
Lemma in_place_bind `{MapOrder, Kubeflow, Selectors, Templates, Controller} config hosts pods job roles :
  Forall (λ p, ∃ rspec n, in_place config hosts pods job p.1 rspec p.2 n) roles →
  (roles ≫= creations pods job) = [] ∧ (roles ≫= deletions pods) = [].
Proof.
  induction 1 as [|[role spec] roles (rspec & n & _ & Hc & Hd) _ [IH1 IH2]]; [done|]. csimpl in *. by rewrite Hc, Hd, IH1, IH2.
Qed.

(** The phase of a job of which no role has failed or succeeded. *)
Lemma job_rule_undecided job roles last phase : sound_policy job →
  (∀ role, is_Some (spec_RoleSpecs (job_Spec job) !! role) →
     ¬ in_phase roles RolePhaseFailed role ∧ ¬ in_phase roles RolePhaseSucceeded role) →
  job_rule roles (job_policy job) last phase →
  (phase = JobPhaseRunning ∧ ∀ role, is_Some (roles !! role) → in_phase roles RolePhaseRunning role) ∨
  (phase = (if decide (last = JobPhasePending) then JobPhaseStarting else last) ∧
   ∃ role, is_Some (roles !! role) ∧ ¬ in_phase roles RolePhaseRunning role).
Proof.
  intros [Hf Hs] Hno. assert (¬ policy_met roles RolePhaseFailed (policy_Failed (job_policy job)) ∧
    ¬ policy_met roles RolePhaseSucceeded (policy_Succeeded (job_policy job))) as [Hnf Hns].
  { split; (eapply sound_unmet; [done|]); intros role Hrole; by apply Hno. }
  intros [| |_ _ Hall|role _ _ Hrole Hnot]; [done|done|by left|right]. split; [done|by exists role].
Qed.
