(* ===== verification/RolePods.v ===== *)
(** * Roles that have the pods they are to have

    A role without pods, a role with one pod per replica that is kept as it is,
    and such a role whose pods are all of one class (pending, running or
    succeeded): what a round plans for them, and where the rules of the phases
    take the role. *)

From S2P Require Import Prelude GoStd Errors Regex Kube Api World ReconcilerUtils Examples Webhook Metadata Expectation.
From S2P Require Import Cache Conf Dependence NodeManager PodOrder Phase PodGroup Pod PodSlices PodCreate Service Job Controller Events.
From S2P Require Import PhaseCount RolePhase PodReconcile JobPhase FrameworkBase SimpleFrameworks Bagua Dask Tensorflow Factory.
From S2P Require Import Reconcile DefaultPolicy JobProgress.

(** ** One pod per replica *)

Section kept.
Context `{MapOrder, Kubeflow, Selectors}.
Context (spec : ReplicaSpec) (n : Z).

(** The pods of a role, in any order: one for each index, none being deleted,
    and none failed that is to be restarted. *)
Definition kept_pods (l : list Pod) : Prop :=
  ∃ pod_at : Z → Pod, l ≡ₚ pod_at <$> seqZ 0 n ∧
    ∀ i, 0 ≤ i < n → parsed_index (pod_at i) = Some i ∧ is_terminating (pod_at i) = false ∧
      (failed_pod (pod_at i) = true → restarts spec (pod_at i) = false).

Lemma slot_fmap (pod_at : Z → Pod) js i : Forall (λ j, parsed_index (pod_at j) = Some j) js →
  slot (pod_at <$> js) i = pod_at <$> filter (λ j, j = i) js.
Proof.
  unfold slot. induction 1 as [|j js Hj _ IH]; [done|]. csimpl. rewrite !filter_cons, Hj, IH.
  repeat case_decide; naive_solver.
Qed.

Lemma slot_at l pod_at i : l ≡ₚ pod_at <$> seqZ 0 n → (∀ j, 0 ≤ j < n → parsed_index (pod_at j) = Some j) →
  slot l i = if decide (0 ≤ i < n) then [pod_at i] else [].
Proof.
  intros Hl Hindex.
  assert (slot l i ≡ₚ pod_at <$> filter (λ j, j = i) (seqZ 0 n)) as Hperm.
  { rewrite <- slot_fmap; [unfold slot; by rewrite Hl|]. apply Forall_forall. intros j Hj%elem_of_seqZ. apply Hindex. lia. }
  case_decide as Hi.
  - apply Permutation_singleton_r. rewrite Hperm. change [pod_at i] with (pod_at <$> [i]). apply fmap_Permutation.
    apply NoDup_Permutation; [apply NoDup_filter, NoDup_seqZ|apply NoDup_singleton|].
    intros j. rewrite list_elem_of_filter, elem_of_seqZ, list_elem_of_singleton. naive_solver lia.
  - assert (filter (λ j, j = i) (seqZ 0 n) = []) as Hnil.
    { apply filter_nil_iff. intros j Hj%elem_of_seqZ ->. lia. }
    rewrite Hnil in Hperm. by apply Permutation_nil_r in Hperm.
Qed.

Context (l : list Pod) (Hl : kept_pods l) (Hpositive : 0 < n < 2 ^ 31).

Lemma kept_pod pod : pod ∈ l → is_terminating pod = false ∧ ∃ i, 0 ≤ i < n ∧ parsed_index pod = Some i.
Proof.
  destruct Hl as (pod_at & Hperm & Hat). rewrite Hperm. intros (i & -> & Hi%elem_of_seqZ)%list_elem_of_fmap.
  destruct (Hat i) as (? & ? & _); [lia|]. split; [done|]. exists i. split; [lia|done].
Qed.

Lemma kept_indices hi : n ≤ hi → indices_in l 0 hi.
Proof.
  intros Hhi. apply Forall_forall. intros pod Hpod i Hi. destruct (kept_pod pod Hpod) as (_ & j & ? & Hj).
  rewrite Hi in Hj. simplify_eq. lia.
Qed.

Lemma kept_reconciling : reconciling_pods spec l = l ∧ set_aside_pods spec l = [].
Proof.
  unfold reconciling_pods, set_aside_pods. case_decide; [done|]. unfold FilterAlivePods, FilterTerminatingPods.
  rewrite !FilterPods_filter. split.
  - apply list_filter_all. by intros pod [-> _]%kept_pod.
  - apply filter_nil_iff. by intros pod [-> _]%kept_pod.
Qed.

(** Nothing is to be done for them, and all of them count. *)
Lemma kept_plan phase :
  planned_creations phase spec n l = [] ∧ planned_deletions spec n l = [] ∧ validated_pods spec n l ≡ₚ l.
Proof.
  destruct (max_index_spec l n) as [Hmax _]; [lia|by apply kept_indices|]. destruct kept_reconciling as [Hrec Haside].
  destruct Hl as (pod_at & Hperm & Hat).
  assert (slots spec n l = (λ i, (i, [pod_at i])) <$> seqZ 0 n) as Hslots.
  { unfold slots. rewrite Hrec, Z.max_r by lia. apply list_fmap_ext. intros k i Hi%list_elem_of_lookup_2%elem_of_seqZ.
    rewrite (slot_at l pod_at) by (done || apply Hat). by rewrite decide_True by lia. }
  unfold planned_creations, planned_deletions, validated_pods. rewrite Hslots, Haside, Hperm. simpl.
  assert (∀ i, i ∈ seqZ 0 n → out_of_range n i = false ∧ failed_pod (pod_at i) && restarts spec (pod_at i) = false) as Hok.
  { intros i Hi%elem_of_seqZ. split; [apply bool_decide_false; lia|]. destruct (Hat i) as (_ & _ & Hf); [lia|].
    destruct (failed_pod _); [by apply Hf|done]. }
  clear -Hok. induction (seqZ 0 n) as [|i js IH]; csimpl; [by split_and!|].
  destruct (Hok i) as [-> ->]; [left|]. destruct IH as (-> & -> & IH); [intros; apply Hok; by right|].
  simpl. split_and!; [done..|by rewrite IH].
Qed.

Lemma kept_counts nm rspec c : count nm rspec (validated_pods spec n l) c = count nm rspec l c.
Proof. destruct (kept_plan "") as (_ & _ & Hperm). unfold count. by rewrite Hperm. Qed.

Lemma kept_length : Z.of_nat (length (validated_pods spec n l)) = n.
Proof.
  destruct (kept_plan "") as (_ & _ & Hperm). rewrite Hperm. destruct Hl as (pod_at & -> & _).
  rewrite length_fmap, length_seqZ. lia.
Qed.
End kept.

Lemma kept_in_place `{MapOrder, Kubeflow, Selectors, Templates, Controller} config hosts pods job rtype rspec spec n :
  role_spec (job_Spec job) rtype = Some rspec → role_ReplicaSpec rspec = Some spec → Replicas spec = Some n → 0 < n < 2 ^ 31 →
  kept_pods spec n (mine pods rtype) → templates_built config hosts job rtype spec →
  in_place config hosts pods job rtype rspec spec n.
Proof.
  intros Hr Hrs Hn Hpos Hall Hbuild. unfold in_place, creations, deletions, replica_count. simpl. rewrite Hn. simpl.
  destruct (kept_plan spec n (mine pods rtype) Hall Hpos (last_role_phase job rtype)) as (-> & -> & _).
  pose proof (kept_length spec n (mine pods rtype) Hall Hpos) as Hlen.
  split; [|done]. split; try done; [lia|apply (kept_indices spec n (mine pods rtype) Hall); lia|lia].
Qed.

(** ** Pods of one class *)

Section alike.
Context `{MapOrder, Kubeflow, Selectors}.
Context (nm : Manager) (rspec : RoleSpec) (c : pod_class) (spec : ReplicaSpec) (n : Z).

Definition all_pods (l : list Pod) : Prop :=
  ∃ pod_at : Z → Pod, l ≡ₚ pod_at <$> seqZ 0 n ∧
    ∀ i, 0 ≤ i < n → parsed_index (pod_at i) = Some i ∧ classify nm rspec (pod_at i) = Some c.

(** The class of a pod that is kept as it is. *)
Definition healthy : Prop := c ≠ CFailed ∧ c ≠ CTerminating.

Lemma classify_healthy pod : healthy → classify nm rspec pod = Some c → is_terminating pod = false ∧ failed_pod pod = false.
Proof.
  unfold classify, failed_pod. intros [Hf Ht] Hc. destruct (is_terminating pod); [congruence|]. split; [done|].
  case_decide; [congruence|]. apply bool_decide_false. intros Hphase. rewrite Hphase in Hc. vm_compute in Hc. congruence.
Qed.

Context (l : list Pod) (Hl : all_pods l) (Hc : healthy) (Hpositive : 0 < n < 2 ^ 31).

Lemma alike_kept : kept_pods spec n l.
Proof.
  destruct Hl as (pod_at & Hperm & Hat). exists pod_at. split; [done|]. intros i Hi. destruct (Hat i Hi) as [Hidx Hcl].
  destruct (classify_healthy _ Hc Hcl) as [Hterm Hfailed]. split_and!; [done..|congruence].
Qed.

Lemma alike_counts c' : count nm rspec (validated_pods spec n l) c' = if decide (c' = c) then n else 0.
Proof.
  rewrite (kept_counts spec n l alike_kept Hpositive). destruct Hl as (pod_at & Hperm & Hat). unfold count. rewrite Hperm.
  assert (∀ pod, pod ∈ pod_at <$> seqZ 0 n → classify nm rspec pod = Some c) as Hclass.
  { intros pod (i & -> & Hi%elem_of_seqZ)%list_elem_of_fmap. apply Hat. lia. }
  case_decide as Heq.
  - subst c'. rewrite list_filter_all by done. rewrite length_fmap, length_seqZ. lia.
  - assert (filter (λ pod, classify nm rspec pod = Some c') (pod_at <$> seqZ 0 n) = []) as ->; [|done].
    apply filter_nil_iff. intros pod Hp%Hclass. congruence.
Qed.

(** The rules for such a role: it does not fail; it succeeds if its pods have
    and it can, and it runs if they do. *)
Lemma alike_rule policy last phase : c = CPending ∨ c = CActive ∨ c = CSucceeded →
  role_rule rspec policy n last (count nm rspec (validated_pods spec n l)) phase →
  (last ≠ RolePhaseFailed → phase ≠ RolePhaseFailed) ∧
  (c = CSucceeded → threshold (rpolicy_Succeeded (role_RolePhasePolicy rspec)) n n → phase = RolePhaseSucceeded) ∧
  (c = CActive → phase = RolePhaseRunning) ∧
  (c = CPending → phase = if decide (last = RolePhasePending) then RolePhaseStarting else last).
Proof.
  intros Hclass. set (f := count _ _ _).
  assert (known f = n) as Hknown.
  { unfold known, f. rewrite !alike_counts. repeat case_decide; intuition congruence || lia. }
  assert (¬ threshold (rpolicy_Failed (role_RolePhasePolicy rspec)) (f CFailed) n) as Hno.
  { unfold threshold, f. rewrite alike_counts, decide_False; [lia|]. destruct Hc. congruence. }
  assert (c ≠ CSucceeded → ¬ threshold (rpolicy_Succeeded (role_RolePhasePolicy rspec)) (f CSucceeded) n) as Hnos.
  { intros Hne. unfold threshold, f. rewrite alike_counts, decide_False by congruence. lia. }
  assert (∀ c', c' = c → f c' = n) as Hown by (intros c' ->; unfold f; by rewrite alike_counts, decide_True).
  assert (c ≠ CActive → f CActive = 0) as Hactive by (intros; unfold f; rewrite alike_counts; by rewrite decide_False by congruence).
  clearbody f. intros Hrule. split_and!.
  - intros Hlast. destruct Hrule; try done. lia.
  - intros Hcc Ht. rewrite <- (Hown CSucceeded) in Ht at 1 by done. by destruct Hrule.
  - intros Hcc. specialize (Hown CActive ltac:(done)). assert (c ≠ CSucceeded) as Hne by congruence.
    destruct Hrule; try lia; tauto.
  - intros Hcc. specialize (Hactive ltac:(congruence)). assert (c ≠ CSucceeded) as Hne by congruence.
    destruct Hrule; try lia; try tauto; by case_decide.
Qed.
End alike.

(** A complete role with one pod per replica, all of one class, whose pods can be
    built. *)
Definition role_alike `{MapOrder, Kubeflow, Selectors, Templates, Controller} config hosts nm pods (c : pod_class)
    (job : AresJob) (role : string) (s : option RoleSpec) : Prop :=
  ∃ rspec spec n, s = Some rspec ∧ role_ReplicaSpec rspec = Some spec ∧ Replicas spec = Some n ∧ 0 < n < 2 ^ 31 ∧
    all_pods nm rspec c n (mine pods role) ∧ templates_built config hosts job role spec.

(** ** No pods yet *)

Section none.
Context `{Kubeflow, Selectors}.

(** One pod per replica is created, if the role may create pods. *)
Lemma no_pods_plan phase spec n : 0 < n → creates phase spec = true →
  planned_creations phase spec n [] = seqZ 0 n ∧ planned_deletions spec n [] = [] ∧ validated_pods spec n [] = [].
Proof.
  intros Hn Hc.
  assert (reconciling_pods spec [] = [] ∧ set_aside_pods spec [] = []) as [Hr Hs].
  { unfold reconciling_pods, set_aside_pods. by case_decide. }
  assert (slots spec n [] = (λ i, (i, [])) <$> seqZ 0 n) as Hslots.
  { unfold slots. rewrite Hr. do 2 f_equal. unfold max_index. simpl. lia. }
  unfold planned_creations, planned_deletions, validated_pods. rewrite Hs, Hslots. clear Hslots.
  induction (seqZ 0 n) as [|i l (IH1 & IH2 & IH3)]; [done|]. csimpl in *. rewrite Hc. simpl. by rewrite IH1, IH2, IH3.
Qed.
End none.
