(* ===== verification/Request.v ===== *)
(** * A request that reaches the framework

    What one reconcile request does with a job that is admitted (it passes the
    gates of the controller, is not scheduled as a gang, and can be read
    completely) when every request it makes is accepted: kubeflow's loop over
    the roles, the update of the status, the metadata, the role cache and the
    clean-up. *)

From S2P Require Import Prelude GoStd Errors Regex Kube Api World ReconcilerUtils Examples Webhook Metadata Expectation.
From S2P Require Import Cache Conf Dependence NodeManager PodOrder Phase PodGroup PodGroupSync Pod PodSlices PodCreate Service.
From S2P Require Import Job JobSync Controller Events Publish PhaseCount RolePhase PodReconcile JobPhase.
From S2P Require Import FrameworkBase SimpleFrameworks Bagua Dask Tensorflow Factory Reconcile DefaultPolicy JobProgress RolePods.

(** ** The loop of kubeflow's job controller

    What [JobController.ReconcileJobs] of kubeflow/common does with a job that
    has not finished and is within the limits of its run policy: it lists the
    pods and services of the job, has the controller reconcile each role, has
    it update the status, and sends the status when it has changed. *)
Section loop.
Context `{MapOrder, Kubeflow, Selectors, SortSlice, TerminatedText, Templates, ApiServer, Controller}.
Context (config : Configuration) (hosts : error + list Pod) (now : Z) (nm : Manager) (pods : list Pod)
  (services : string → ReplicaSpec → op unit) (status_eqb : JobStatus → JobStatus → bool).

Definition loop_role (replicas : gmap string (option ReplicaSpec)) (p : string * option ReplicaSpec) : op unit :=
  spec ← lift (deref p.2);
  reconcile_role config hosts now nm pods services replicas (p.1, spec).

Definition update_changed (js : JobStatus) : op unit :=
  job ← get_job;
  js' ← lift (deref (status_JobStatus (job_Status job)));
  if status_eqb js js' then mret tt else UpdateJobStatusInApiServer (Some js').

Definition reconcile_loop (replicas : gmap string (option ReplicaSpec)) (js : JobStatus) : op unit :=
  _ ← for_each (range 1 replicas) (loop_role replicas);
  job ← get_job;
  _ ← UpdateJobStatus now (status_JobStatus (job_Status job));
  update_changed js.

(** The loop is a round of the job and the update of its status. *)
Lemma reconcile_loop_round replicas js roles w :
  range 1 replicas = (λ p, (p.1, Some p.2)) <$> roles →
  reconcile_loop replicas js w = (_ ← job_round config hosts now nm pods services replicas roles; update_changed js) w.
Proof.
  intros Hrange. unfold reconcile_loop, job_round. rewrite Hrange. clear Hrange.
  assert (for_each ((λ p, (p.1, Some p.2)) <$> roles) (loop_role replicas) w =
    for_each roles (reconcile_role config hosts now nm pods services replicas) w) as Heq.
  { revert w. induction roles as [|[role spec] roles IH]; intros w; [done|]. unfold for_each in *. simpl.
    unfold mbind, eff_bind in *. unfold loop_role at 1. unfold mbind, eff_bind. simpl.
    by destruct (reconcile_role _ _ _ _ _ _ _ (role, spec) w) as [[[]|e|p] w1]. }
  unfold mbind, eff_bind. rewrite Heq. destruct (for_each roles _ w) as [[[]|e|p] w1]; [|done..]. simpl.
  by destruct (UpdateJobStatus now _ w1) as [[[]|e|p] w2].
Qed.

(** The status that has changed is sent as it is. *)
Definition status_update (js : JobStatus) (job : AresJob) : list action :=
  match status_JobStatus (job_Status job) with
  | Some js' => if status_eqb js js' then [] else [UpdateStatus job]
  | None => []
  end.

Lemma update_changed_run js w : (∀ log a, answer log a = None) →
  is_Some (status_JobStatus (job_Status (the_job w))) → no_nil_status (statuses (the_job w)) →
  update_changed js w = (Done tt, w <| the_log ::= λ l, l ++ status_update js (the_job w) |>).
Proof.
  intros Haccept [js' Hjs] Hnil. unfold update_changed, status_update. rewrite (eff_bind_Done _ _ w (the_job w) w) by done.
  rewrite (eff_bind_Done _ _ w js' w) by (unfold lift; by rewrite Hjs). rewrite Hjs.
  destruct (status_eqb js js'); [destruct w; unfold set_field, set_the_log; simpl; by rewrite app_nil_r|].
  rewrite <- Hjs, UpdateJobStatusInApiServer_run.
  - unfold answered. by rewrite Haccept.
  - intros role Hrole. rewrite mlookup_contents in Hrole. by destruct (Hnil _ _ Hrole).
Qed.

Lemma status_update_without_pods js job : without_pods (status_update js job).
Proof. unfold status_update. by repeat case_match. Qed.
End loop.

(** ** Requests that are all accepted *)

Section accepted.
Context `{MapOrder, Kubeflow, ApiServer}.
Hypothesis accept : ∀ log a, answer log a = None.

Lemma send_accepted plan w : send plan None w = (Done tt, w <| the_log ::= λ l, l ++ plan |>).
Proof using accept.
  revert w. induction plan as [|a plan IH]; intros [job log]; simpl.
  - unfold set_field, set_the_log. simpl. by rewrite app_nil_r.
  - rewrite (eff_bind_Done _ _ (mkWorld job log) tt (mkWorld job (log ++ [a]))) by (unfold request; by rewrite accept).
    rewrite IH. unfold set_field, set_the_log. simpl. by rewrite <- app_assoc.
Qed.

(** Without gang scheduling nothing stands before the loop. *)
Lemma ReconcileJobs_enters `{JobController} replicas js policy w key :
  EnableGangScheduling (job_Spec (the_job w)) = false → KeyFunc (job_meta (the_job w)) = Done key →
  ReconcileJobs replicas js policy w =
  JobController_ReconcileJobs replicas js policy (w <| the_log ::= λ l, l ++ reset_plan key (the_job w) |>).
Proof using accept.
  intros Hgang Hkey. unfold ReconcileJobs. rewrite (eff_bind_Done _ _ w (the_job w) w) by done.
  rewrite Hgang, andb_false_r. rewrite (eff_bind_Done _ _ w tt w) by done.
  rewrite (eff_bind_Done _ _ w (inr tt) (w <| the_log ::= λ l, l ++ reset_plan key (the_job w) |>)); [done|].
  unfold attempt. rewrite (ResetExpectations_run key) by done. by rewrite send_accepted.
Qed.

Lemma SyncFromJob_accepted getPodGroup pods w :
  EnableGangScheduling (job_Spec (the_job w)) = false →
  SyncFromJob getPodGroup (inr pods) w =
  (Done tt, w <| the_log ::= λ l, l ++ (pods ≫= λ pod, patch_plan (job_meta (the_job w)) (pod_meta pod)) |>).
Proof.
  intros Hgang. unfold SyncFromJob.
  rewrite (eff_bind_Done _ _ w tt w); [by rewrite SyncToPod_send, send_accepted|].
  unfold SyncToPodGroup. rewrite (eff_bind_Done _ _ w (the_job w) w) by done. by rewrite Hgang.
Qed.

(** The service of a role is requested, or already there. *)
Lemma ReconcileServices_quiet `{Selectors, Controller, JobControllerPorts} services rtype spec w key ports :
  KeyFunc (job_meta (the_job w)) = Done key → GetPortsFromJob spec = Done ports →
  quiet (ReconcileServices services rtype spec) w.
Proof.
  destruct w as [job log]. simpl. intros Hkey Hports. unfold quiet, ReconcileServices.
  destruct (FilterServicesForReplicaType _ _); [|exists []; by rewrite app_nil_r].
  unfold CreateNewSharedService. rewrite (eff_bind_Done _ _ _ job (mkWorld job log)) by done.
  rewrite (eff_bind_Done _ _ _ key (mkWorld job log)) by (unfold lift; by rewrite Hkey).
  rewrite (eff_bind_Done _ _ _ ports (mkWorld job log)) by (unfold lift; by rewrite Hports).
  unfold mbind, eff_bind, emit, modify, attempt, request, mret, eff_ret, set_field, set_the_log. simpl. rewrite accept.
  eexists. by rewrite <- app_assoc.
Qed.
End accepted.

(** Neither the reset of the expectations nor the patches of the metadata touch
    a pod's existence. *)
Lemma reset_plan_without_pods `{MapOrder, Kubeflow} key job : without_pods (reset_plan key job).
Proof. unfold without_pods, reset_plan. generalize (range_keys 0 (spec_RoleSpecs (job_Spec job)) ≫= role_keys key). by induction 0. Qed.

Lemma patches_without_pods `{MapOrder} expected pods : without_pods (pods ≫= λ pod, patch_plan expected (pod_meta pod)).
Proof.
  induction pods as [|pod pods [IH1 IH2]]; [done|]. unfold without_pods in *. rewrite bind_cons, !omap_app, IH1, IH2.
  unfold patch_plan. by repeat case_match.
Qed.

(** ** Replica specs *)

(** The replica specs of a job whose roles all have one, as the loop visits
    them. *)
Lemma GetReplicaSpecs_roles `{MapOrder} spec :
  map_Forall (λ _ s, is_Some (s ≫= role_ReplicaSpec)) (spec_RoleSpecs spec) →
  ∃ replicas roles, GetReplicaSpecs spec = Done replicas ∧ range 1 replicas = (λ p, (p.1, Some p.2)) <$> roles ∧ NoDup roles.*1 ∧
    (∀ role s, (role, s) ∈ roles ↔ ∃ rspec, spec_RoleSpecs spec !! role = Some (Some rspec) ∧ role_ReplicaSpec rspec = Some s).
Proof.
  intros Hall. set (insert_role := λ (m : gmap string (option ReplicaSpec)) '(role, s),
    match s with Some rs => <[role := role_ReplicaSpec rs]> m | None => m end).
  pose (replicas := foldl insert_role ∅ (range 0 (spec_RoleSpecs spec))).
  assert (GetReplicaSpecs spec = Done replicas) as Hget.
  { unfold GetReplicaSpecs. apply (fold_res_pure _ insert_role). intros m [role s] Hin%elem_of_range.
    destruct (Hall _ _ Hin) as [x Hx]. by destruct s. }
  assert (∀ role, replicas !! role = role_ReplicaSpec <$> (spec_RoleSpecs spec !! role ≫= id)) as Hlookup.
  { intros role. unfold replicas. rewrite (foldl_range_lookup insert_role (λ _ s, role_ReplicaSpec <$> s)).
    - rewrite lookup_empty. by destruct (spec_RoleSpecs spec !! role) as [[rs|]|].
    - by intros m k [rs|]. }
  pose (roles := omap (λ p : string * option ReplicaSpec, s ← p.2; Some (p.1, s)) (range 1 replicas)).
  assert (∀ p, p ∈ range 1 replicas → ∃ s, p.2 = Some s) as Hsome.
  { intros [role s] Hin%elem_of_range. simpl. rewrite Hlookup in Hin.
    destruct (spec_RoleSpecs spec !! role) as [[rs|]|] eqn:Hrs; simplify_eq/=. destruct (Hall _ _ Hrs) as [x Hx]. by exists x. }
  assert (range 1 replicas = (λ p, (p.1, Some p.2)) <$> roles) as Hrange.
  { unfold roles. clear -Hsome. induction (range 1 replicas) as [|[role s] l IH]; [done|].
    destruct (Hsome (role, s)) as [x Hx]; [by left|]. simpl in Hx. subst s. simpl. f_equal. apply IH. intros p Hp. apply Hsome. by right. }
  exists replicas, roles. split_and!; [done|done| |].
  - pose proof (NoDup_range_keys 1 replicas) as Hnd. unfold range_keys in Hnd. rewrite Hrange, <- list_fmap_compose in Hnd. exact Hnd.
  - intros role s. assert ((role, s) ∈ roles ↔ (role, Some s) ∈ range 1 replicas) as ->.
    { rewrite Hrange. split; [apply (list_elem_of_fmap_2 (λ p : string * ReplicaSpec, (p.1, Some p.2)))|].
      intros ([role' s'] & [= -> ->] & Hin)%list_elem_of_fmap. done. }
    rewrite elem_of_range, Hlookup. destruct (spec_RoleSpecs spec !! role) as [[rs|]|]; simpl; clear;
      split; [intros [= Hs]; by exists rs|by intros (? & [= <-] & ->)|done|by intros (? & ? & _)|done|by intros (? & ? & _)].
Qed.

(** ** The request *)

(** The clean-up that is scheduled for a job that has finished. *)
Definition scheduled `{Templates} (config : Configuration) (now : Z) (job : AresJob) : list (string * string * Z) :=
  match cleanup_delay config now job with
  | Some delay => [(meta_Namespace (job_meta job), meta_Name (job_meta job), delay)]
  | None => []
  end.

Section request.
Context `{MapOrder, Kubeflow, Selectors, ApiServer, JobControllerPorts, JobController, TFConfigText, SortSlice, TerminatedText, Templates}.
Context `{ControllerUtil} {C : Type} `{InterfaceLaws C, PodLister}.
Context (SchemeDefault : AresJob → AresJob) (getServices : ObjectMeta → error + list Service).
Context (spec_eqb : AresJobSpec → AresJobSpec → bool) (status_eqb : JobStatus → JobStatus → bool).
Context (config : Configuration) (hosts : error + list Pod) (now : Z) (nm : Manager) (pods : list Pod) (services : list Service).

Definition the_frameworks (name : string) : option (Framework C) := setupFrameworks getServices !! name.

(** Every framework but demo leaves the reconciliation to the reconciler. *)
Lemma Factory_reconciles name m : Factory !! name = Some m → name ≠ FrameworkDemo → Framework_ReconcileJobs m = ReconcileJobs.
Proof.
  revert name m. by apply (Factory_cases (λ name m, name ≠ FrameworkDemo → Framework_ReconcileJobs m = ReconcileJobs)).
Qed.

Lemma Factory_services_quiet name m rtype spec w key ports :
  (∀ log a, answer log a = None) → Factory !! name = Some m → KeyFunc (job_meta (the_job w)) = Done key →
  @GetPortsFromJob (controller m) _ spec = Done ports → quiet (Framework_ReconcileServices m services rtype spec) w.
Proof.
  intros Haccept Hm Hkey. revert name m Hm.
  assert (quiet (mret tt) w) as Hret by (exists []; destruct w; by rewrite app_nil_r).
  apply (Factory_cases (λ _ m, @GetPortsFromJob (controller m) _ spec = Done ports →
    quiet (Framework_ReconcileServices m services rtype spec) w)); intros Hports; simpl.
  all: try exact Hret; try (by eapply ReconcileServices_quiet).
  all: unfold Dask.ReconcileServices, MPI.ReconcileServices, Pytorch.ReconcileServices, Standalone.ReconcileServices;
    case_decide; [exact Hret|by eapply ReconcileServices_quiet].
Qed.

(** A job that is admitted to the reconciliation: it is of a framework other
    than demo, complete, with a status of its own and of its roles alone, is
    not scheduled as a gang, and passes the gates of the controller; the ports
    and the pods of its roles can be read, the role cache is open if there is
    one, and what the framework calls of kubeflow is its loop. *)
Record admitted (name : string) (m : Methods) (f : Framework C) (aresjob job : AresJob) (reads : Reads) (s : cstate C)
    (js : JobStatus) (key : string) (getPods : string → list Pod) (idx : Pod → Z) : Prop := {
  adm_method : Factory !! name = Some m;
  adm_framework : the_frameworks name = Some f;
  adm_type : spec_FrameworkType (job_Spec job) = name;
  adm_not_demo : name ≠ FrameworkDemo;
  adm_specs : map_Forall (λ _ s, is_Some (s ≫= role_ReplicaSpec)) (spec_RoleSpecs (job_Spec job));
  adm_no_gang : EnableGangScheduling (job_Spec job) = false;
  adm_key : KeyFunc (job_meta job) = Done key;
  adm_status : status_JobStatus (job_Status job) = Some js;
  adm_statuses : no_nil_status (statuses job) ∧ no_nil_status (statuses aresjob);
  adm_known : ∀ role, is_Some (statuses job !! role) → is_Some (spec_RoleSpecs (job_Spec job) !! role);
  adm_gates : passes_gates SchemeDefault now spec_eqb the_frameworks reads s aresjob f job (mkWorld job (the_log (c_world s)));
  adm_ports : ∀ role rspec spec, spec_RoleSpecs (job_Spec job) !! role = Some (Some rspec) → role_ReplicaSpec rspec = Some spec →
    ∃ ports, @GetPortsFromJob (controller m) _ spec = Done ports;
  adm_pods : read_pods reads = inr pods;
  adm_listed : ∀ role, GetPodsForReplica (job_meta job) role = inr (getPods role) ∧ index_labelled idx (FilterAlivePods (getPods role));
  adm_cache : from_option is_open True (c_cache s);
  adm_loop : ∀ replicas policy w, the_job w = job → JobController_ReconcileJobs replicas js policy w =
    @reconcile_loop _ _ _ _ _ _ (controller m) config hosts now nm pods (Framework_ReconcileServices m services) status_eqb replicas js w;
}.

(** The roles of the job in the order the loop visits them. *)
Definition visits (job : AresJob) (replicas : gmap string (option ReplicaSpec)) (roles : list (string * ReplicaSpec)) : Prop :=
  GetReplicaSpecs (job_Spec job) = Done replicas ∧ range 1 replicas = (λ p, (p.1, Some p.2)) <$> roles ∧ NoDup roles.*1 ∧
  ∀ role spec, (role, spec) ∈ roles ↔
    ∃ rspec, spec_RoleSpecs (job_Spec job) !! role = Some (Some rspec) ∧ role_ReplicaSpec rspec = Some spec.

Lemma visits_cover job replicas roles : visits job replicas roles →
  map_Forall (λ _ s, is_Some (s ≫= role_ReplicaSpec)) (spec_RoleSpecs (job_Spec job)) →
  ∀ role, is_Some (spec_RoleSpecs (job_Spec job) !! role) ↔ role ∈ roles.*1.
Proof.
  intros (_ & _ & _ & Hin) Hall role. split.
  - intros [s Hs]. destruct (Hall _ _ Hs) as [spec Hspec]. destruct s as [rspec|]; [|done].
    apply (list_elem_of_fmap_2 fst _ (role, spec)), Hin. by exists rspec.
  - intros ([r spec] & -> & (rspec & Hr & _)%Hin)%list_elem_of_fmap. by eexists.
Qed.

(** The roles can be visited, and their services are looked after. *)
Lemma admitted_visits name m f aresjob job reads s js key getPods idx : (∀ log a, answer log a = None) →
  admitted name m f aresjob job reads s js key getPods idx →
  ∃ replicas roles, visits job replicas roles ∧ (∀ role, is_Some (spec_RoleSpecs (job_Spec job) !! role) ↔ role ∈ roles.*1) ∧
    Forall (λ p, ∀ w, job_meta (the_job w) = job_meta job → quiet (Framework_ReconcileServices m services p.1 p.2) w) roles.
Proof.
  intros Haccept []. destruct (GetReplicaSpecs_roles (job_Spec job) adm_specs0) as (replicas & roles & Hget & Hrange & Hnd & Hin).
  assert (visits job replicas roles) as Hvisits by done. exists replicas, roles.
  split_and!; [done|by eapply visits_cover|]. apply Forall_forall. intros [role spec] (rspec & Hrs & Hsp)%Hin w Hmeta.
  destruct (adm_ports0 _ _ _ Hrs Hsp) as [ports Hports]. eapply Factory_services_quiet; [done|done|by rewrite Hmeta|done].
Qed.

Context (accept : ∀ log a, answer log a = None).

(** A request is a round, the update of the status, the patches of the metadata
    and what the role cache and the clean-up queue get. *)
Lemma request_round name m f aresjob job reads s js key getPods idx replicas roles job' new (b : bool) :
  admitted name m f aresjob job reads s js key getPods idx → visits job replicas roles →
  let w1 := mkWorld job (the_log (c_world s) ++ reset_plan key job) in
  @job_round _ _ _ _ _ _ (controller m) config hosts now nm pods (Framework_ReconcileServices m services) replicas roles w1 =
    (Done tt, mkWorld job' (the_log w1 ++ new)) →
  job_meta job' = job_meta job → (∃ policy, job_Spec job' = job_Spec job <| spec_JobPhasePolicy := policy |>) →
  is_Some (status_JobStatus (job_Status job')) → no_nil_status (statuses job') →
  (∀ role, is_Some (statuses job' !! role) → is_Some (spec_RoleSpecs (job_Spec job) !! role)) →
  HasDependence (job_Spec job) = Done b →
  ∃ c' sent, Reconcile SchemeDefault the_frameworks config now spec_eqb reads s =
      (Done (no_requeue, None), mkCState (mkWorld job' (the_log (c_world s) ++ sent)) c' (c_queue s ++ scheduled config now job')) ∧
    omap created_pod sent = omap created_pod new ∧ omap deleted_pod sent = omap deleted_pod new ∧
    status_update status_eqb js job' ⊆ sent ∧
    cache_updated b getPods idx aresjob job' (c_cache s) c' ∧
    (b = false ∨ (∀ role rs, status_RoleStatuses (job_Status job') !? role = Some (Some rs) → ¬ to_publish aresjob role rs) →
     c' = c_cache s).
Proof.
  intros [] (Hget & Hrange & Hnd & Hin) w1 Hround Hmeta [policy Hspec] Hjs Hnil Hknown Hdep.
  set (log := the_log (c_world s)) in *. set (w2 := mkWorld job' (the_log w1 ++ new)) in *.
  set (patches := pods ≫= λ pod, patch_plan (job_meta job') (pod_meta pod)).
  set (update := status_update status_eqb js job').
  assert (ReconcileJobs replicas js (spec_RunPolicy (job_Spec job)) (mkWorld job log) =
    (Done tt, w2 <| the_log ::= λ l, l ++ update |>)) as Hrun.
  { rewrite (ReconcileJobs_enters accept _ _ _ _ key) by done. fold w1. rewrite adm_loop0 by done.
    rewrite (reconcile_loop_round _ _ _ _ _ _ _ _ _ roles) by done. rewrite (eff_bind_Done _ _ _ _ _ Hround).
    by apply update_changed_run. }
  assert (F_ReconcileJobs f = ReconcileJobs ∧ publishes f job' getPods idx) as [HF Hpub].
  { unfold the_frameworks in adm_framework0. rewrite setupFrameworks_lookup, adm_method0 in adm_framework0. injection adm_framework0 as <-.
    split; [by eapply Factory_reconciles|]. split; [|intros role; by apply adm_listed0]. intros role phase. simpl.
    by rewrite Hmeta, (proj1 (adm_listed0 role)). }
  assert (EnableGangScheduling (job_Spec job') = false ∧ HasDependence (job_Spec job') = Done b ∧
    spec_FrameworkType (job_Spec job') = name) as (Hgang & Hdep' & Htype) by by rewrite Hspec.
  set (log3 := ((log ++ reset_plan key job) ++ new) ++ update).
  destruct (HandleRolePhases_run the_frameworks f getPods idx aresjob job' b (c_cache s) (mkWorld job' (log3 ++ patches)) (c_queue s))
    as (c' & Hhandle & Hupd & Hidle); [done|by rewrite Htype|done|done| |].
  { intros role status Hst. rewrite mlookup_contents in Hst. fold (statuses job') in Hst. split; [by eapply Hnil|]. split.
    - rewrite mlookup_contents. intros Hnone. by destruct (proj2 adm_statuses0 _ _ Hnone).
    - destruct (Hknown role) as [s0 Hs0]; [by rewrite Hst|]. destruct (adm_specs0 _ _ Hs0) as [spec Hsp].
      destruct s0 as [rspec|]; [|done]. exists rspec, spec. split; [|done]. unfold role_spec. rewrite Hspec. simpl. by rewrite Hs0. }
  exists c', (reset_plan key job ++ new ++ update ++ patches).
  destruct (reset_plan_without_pods key job) as [Hr1 Hr2]. destruct (status_update_without_pods status_eqb js job') as [Hu1 Hu2].
  destruct (patches_without_pods (job_meta job') pods) as [Hp1 Hp2]. fold update in Hu1, Hu2. fold patches in Hp1, Hp2.
  split_and!; [| | |set_solver|done|done].
  2, 3: rewrite !omap_app, ?Hr1, ?Hr2, ?Hu1, ?Hu2, ?Hp1, ?Hp2, !app_nil_r; done.
  rewrite (Reconcile_passes SchemeDefault config now spec_eqb the_frameworks reads s aresjob f job _ adm_gates0).
  set (s1 := mkCState (mkWorld job log) (c_cache s) (c_queue s)). unfold reconcile_framework.
  set (s2 := mkCState (mkWorld job' log3) (c_cache s) (c_queue s)).
  rewrite (eff_bind_Done _ _ s1 (inr tt) s2).
  2: { rewrite (eff_bind_Done _ _ s1 job s1) by done. rewrite (eff_bind_Done _ _ s1 replicas s1) by (unfold lift; by rewrite Hget).
       rewrite (eff_bind_Done _ _ s1 js s1) by (unfold lift; by rewrite adm_status0).
       unfold attempt, on_world. simpl. by rewrite HF, Hrun. }
  change (after_reconcile the_frameworks config now reads aresjob s2 =
    (Done (no_requeue, None), mkCState (mkWorld job' (log ++ reset_plan key job ++ new ++ update ++ patches)) c'
      (c_queue s ++ scheduled config now job'))).
  assert (log ++ reset_plan key job ++ new ++ update ++ patches = log3 ++ patches) as ->.
  { unfold log3. by rewrite <- !app_assoc. }
  unfold after_reconcile. set (s3 := mkCState (mkWorld job' (log3 ++ patches)) (c_cache s) (c_queue s)).
  rewrite (eff_bind_Done _ _ s2 (inr tt) s3) by (unfold attempt, on_world; simpl; by rewrite adm_pods0, (SyncFromJob_accepted accept)).
  rewrite (eff_bind_Done _ _ s3 job' s3) by done.
  rewrite (eff_bind_Done _ _ s3 (inr tt) (mkCState (mkWorld job' (log3 ++ patches)) c' (c_queue s))).
  2: { unfold attempt. unfold s3. by rewrite Hhandle. }
  unfold OnJobFinished, scheduled, cleanup_delay. destruct (IsFinished (status_Phase (job_Status job'))); simpl.
  2: { by rewrite app_nil_r. }
  match goal with |- context [match ?d with Some duration => AddAfter _ _ duration | None => _ end] => destruct d end; [done|].
  unfold mbind, eff_bind. simpl. by rewrite app_nil_r.
Qed.
End request.

(** ** An admitted job

    Two workers of a standalone job, whatever its pods are, and an operator that
    cleans up after a minute. *)

#[local] Existing Instances canonical_order canonical_sort ex_kubeflow ex_text ex_selectors ex_templates ex_controllerutil accepting.
Definition ex_request_ports : JobControllerPorts := {| JobController_GetPortsFromJob _ := Done None |}.
Definition ex_request_json : TFConfigText := {| json_TFConfig _ := Done ""; json_SparseTFConfig _ := Done "" |}.
Definition ex_request_lister : PodLister := {| ListPods _ _ _ := inr [] |}.
#[local] Existing Instances ex_request_ports ex_request_json ex_request_lister.

Definition ex_request_config : Configuration :=
  mkConfiguration _ (mkOperatorConfig (op_Rest (conf_Operator ex_config)) (Some 60)) (conf_Cache ex_config) (conf_Initializers ex_config).

(** kubeflow's loop with the methods of the standalone framework; two statuses
    never count as equal. *)
Definition ex_request_controller (pods : list Pod) : JobController := {|
  JobController_ReconcileJobs replicas js _ :=
    @reconcile_loop _ _ _ _ _ _ Standalone.controller ex_request_config (inr []) 7 NewManager pods
      (Standalone.ReconcileServices []) (λ _ _, false) replicas js;
  JobController_SyncPodGroup job _ := mret (mkPodGroup (job_meta job) PodGroupScheduled []);
|}.

Section example.
Context (pods : list Pod).
#[local] Instance the_controller : JobController := ex_request_controller pods.

Definition ex_user_job : AresJob :=
  ex_job "standalone" [("worker", mkRoleSpec (Some (ex_replicas 2 "")) zero_RolePhasePolicy "" None)].
Definition ex_framework_of : Framework MemoryCache.t := framework_of (λ _, inr []) Standalone.methods.
Definition ex_request_job : AresJob :=
  match defaulted id ex_framework_of ex_user_job with Done job => job | _ => ex_user_job end.

Definition ex_request_reads : Reads := mkReads (inr ex_request_job) (inl (Errorf "none")) (inr pods) (λ _, true).
Definition ex_request_state : cstate MemoryCache.t := mkCState (mkWorld ex_request_job []) (Some MemoryCache.NewMemoryCache) [].

Lemma ex_request_defaulted : defaulted id ex_framework_of ex_user_job = Done ex_request_job.
Proof. reflexivity. Qed.

Definition ex_worker_role : RoleSpec := default (ex_role 2 "") (mjoin (spec_RoleSpecs (job_Spec ex_request_job) !! "worker")).
Definition ex_worker_spec : ReplicaSpec := default (ex_replicas 2 "") (role_ReplicaSpec ex_worker_role).

Lemma ex_request_role role s : spec_RoleSpecs (job_Spec ex_request_job) !! role = Some s → role = "worker" ∧ s = Some ex_worker_role.
Proof.
  intros Hrs. apply elem_of_map_to_list in Hrs. vm_compute in Hrs. apply list_elem_of_singleton in Hrs. injection Hrs as -> ->.
  split; [done|]. vm_compute. reflexivity.
Qed.

(** Both workers are of one class. *)
Definition ex_workers (phase : string) : list Pod := [ex_pod "worker" 1 phase "a"; ex_pod "worker" 0 phase "b"].

Lemma ex_classify rspec i phase node : classify NewManager rspec (ex_pod "worker" i phase node) = phase_class phase.
Proof. unfold classify. rewrite decide_False; [done|]. intros (_ & _ & Hdown). unfold NewManager in Hdown. vm_compute in Hdown. done. Qed.

Lemma ex_request_built : templates_built (H6 := Standalone.controller) ex_request_config (inr []) ex_request_job "worker" ex_worker_spec.
Proof.
  intros j Hm Hspecs i m. unfold final_template, new_pod_template, SetScheduler, SetDependence. rewrite Hm, Hspecs.
  eexists. reflexivity.
Qed.

Lemma ex_request_alike c phase role s : pods = ex_workers phase → phase_class phase = Some c →
  spec_RoleSpecs (job_Spec ex_request_job) !! role = Some s →
  @role_alike _ _ _ _ Standalone.controller ex_request_config (inr []) NewManager pods c ex_request_job role s.
Proof.
  intros Hpods Hc Hs. destruct (ex_request_role role s Hs) as [-> ->]. exists ex_worker_role, ex_worker_spec, 2.
  split_and!; [reflexivity..|lia|lia| |apply ex_request_built]. exists (λ i, ex_pod "worker" i phase (if decide (i = 0) then "b" else "a")).
  rewrite Hpods. split; [apply Permutation_swap|]. intros i Hi. rewrite ex_classify. assert (i = 0 ∨ i = 1) as [-> | ->] by lia; by split.
Qed.

Lemma ex_request_framework : the_frameworks (C := MemoryCache.t) (λ _, inr []) "standalone" = Some ex_framework_of.
Proof. unfold the_frameworks. by rewrite setupFrameworks_lookup. Qed.

Lemma ex_request_admitted : ∃ js,
  admitted id (λ _, inr []) (λ _ _, true) (λ _ _, false) ex_request_config (inr []) 7 NewManager pods []
    "standalone" Standalone.methods ex_framework_of ex_request_job ex_request_job ex_request_reads ex_request_state
    js "/job" (λ _, []) (λ _, 0) ∧ CompletionTime js = None ∧ HasDependence (job_Spec ex_request_job) = Done false.
Proof.
  exists (default zero_JobStatus (status_JobStatus (job_Status ex_request_job))).
  split; [|split; vm_compute; reflexivity]. split.
  - reflexivity.
  - apply ex_request_framework.
  - reflexivity.
  - discriminate.
  - intros role s Hs. destruct (ex_request_role role s Hs) as [-> ->]. exists ex_worker_spec. reflexivity.
  - reflexivity.
  - vm_compute. reflexivity.
  - vm_compute. reflexivity.
  - split; (apply (@map_Forall_intro _ (λ _ rs, is_Some rs) (λ _, is_Some_dec)); vm_compute; reflexivity).
  - intros role [s Hs]. apply elem_of_map_to_list in Hs. vm_compute in Hs. apply list_elem_of_singleton in Hs. injection Hs as -> _.
    vm_compute. by eexists.
  - split; [reflexivity..|apply ex_request_framework| | | | | |]; vm_compute; reflexivity.
  - intros role rspec spec _ _. exists None. reflexivity.
  - reflexivity.
  - intros role. split; [reflexivity|]. intros p Hp. by apply elem_of_nil in Hp.
  - by eexists.
  - reflexivity.
Qed.
End example.
