(* ===== verification/Succeed.v ===== *)
(** * Jobs whose pods have succeeded

    The policies of every framework but demo lead from pods that have all
    succeeded to roles that have and to a job that has. *)

From S2P Require Import Prelude GoStd Errors Regex Kube Api World ReconcilerUtils Examples Webhook Metadata Expectation.
From S2P Require Import Cache Conf Dependence NodeManager PodOrder Phase PodGroup Pod PodSlices PodCreate Service Job Controller Events.
From S2P Require Import PhaseCount RolePhase PodReconcile Converge JobPhase FrameworkBase SimpleFrameworks Bagua Dask Tensorflow Factory.
From S2P Require Import Reconcile DefaultPolicy JobProgress RolePods.

(** ** The success policies the frameworks set *)

Abbreviation success spec := (rpolicy_Succeeded (role_RolePhasePolicy spec)).

(** A body that sets the success policy if it is not set, or leaves it. *)
Definition completes (body : RoleSpec → go RoleSpec) : Prop :=
  ∀ spec spec', body spec = Done spec' → success spec' = Some (default RolePhaseConditionAllPods (success spec)).
Definition gentle (body : RoleSpec → go RoleSpec) : Prop :=
  ∀ spec spec', body spec = Done spec' →
    success spec' = success spec ∨ success spec' = Some (default RolePhaseConditionAllPods (success spec)).

Lemma completes_gentle body : completes body → gentle body.
Proof. intros Hc spec spec' Hb. right. by apply Hc. Qed.

Lemma fold_gentle (l : list role_step) spec spec' : Forall (λ s, gentle (step_body s)) l →
  fold_res (λ spec s, step_body s spec) spec l = Done spec' →
  (success spec' = success spec ∨ success spec' = Some (default RolePhaseConditionAllPods (success spec))) ∧
  (Exists (λ s, completes (step_body s)) l → success spec' = Some (default RolePhaseConditionAllPods (success spec))).
Proof.
  intros Hl. revert spec. induction Hl as [|s l Hs _ IH]; intros spec; simpl.
  { intros [= <-]. split; [by left|]. by intros []%Exists_nil. }
  intros (spec1 & Hb & Hrun)%res_bind_Done. destruct (IH _ Hrun) as [Hkeep Hset].
  assert (success spec1 = Some (default RolePhaseConditionAllPods (success spec)) →
    success spec' = Some (default RolePhaseConditionAllPods (success spec))) as Hone.
  { intros H1. destruct Hkeep as [->| ->]; rewrite H1; done. }
  split.
  - destruct (Hs _ _ Hb) as [H1|H1]; [rewrite H1 in Hkeep; done|right; by apply Hone].
  - intros [Hc|Hc]%Exists_cons; [by apply Hone, Hc|]. rewrite Hset by done.
    destruct (Hs _ _ Hb) as [-> | ->]; done.
Qed.

(** The role has a success policy after the steps, the user's if there was one. *)
Definition can_succeed (before after : gmap string (option RoleSpec)) (role : string) : Prop :=
  ∃ spec spec', before !! role = Some (Some spec) ∧ after !! role = Some (Some spec') ∧
    success spec' = Some (default RolePhaseConditionAllPods (success spec)).

Lemma run_steps_succeed steps job job1 role :
  run_steps steps job = Done job1 → Forall (λ s, gentle (step_body s)) steps →
  is_Some (spec_RoleSpecs (job_Spec job) !! role) →
  Exists (λ s, step_role s = role ∧ completes (step_body s)) steps →
  can_succeed (spec_RoleSpecs (job_Spec job)) (spec_RoleSpecs (job_Spec job1)) role.
Proof.
  intros (Hready & _ & Hroles)%run_steps_spec Hgentle [s Hs] Hset. specialize (Hroles role).
  apply Exists_exists in Hset as (step & Hin & Hstep & Hc).
  rewrite Hs in Hroles. destruct s as [spec|].
  - destruct Hroles as (spec' & Hrun & Hspec'). exists spec, spec'. split_and!; [done|done|].
    unfold run_bodies in Hrun. apply fold_gentle in Hrun as [_ Hr].
    2: { rewrite Forall_forall in *. intros s [_ Hs']%list_elem_of_filter. by apply Hgentle. }
    apply Hr. apply Exists_exists. exists step. split; [|done]. by apply list_elem_of_filter.
  - exfalso. rewrite Forall_forall in Hready. specialize (Hready _ Hin). unfold step_ready in Hready.
    by rewrite Hstep, Hs in Hready.
Qed.

(** The policy that [SetDefault] gives a job without one: its failure clauses
    name roles, and the roles of some success clause can succeed. *)
Definition lets_succeed (m : Methods) (job : AresJob) : Prop :=
  ∀ job1, spec_JobPhasePolicy (job_Spec job) = None → SetDefault m job = Done job1 →
  ∃ policy, spec_JobPhasePolicy (job_Spec job1) = Some policy ∧
    Forall (λ clause, clause ≠ []) (policy_Failed policy) ∧
    Exists (Forall (can_succeed (spec_RoleSpecs (job_Spec job)) (spec_RoleSpecs (job_Spec job1)))) (policy_Succeeded policy).

(** Steps with a policy; [job0] is the job with what is defaulted before. *)
Lemma steps_let_succeed policy steps job job0 job1 :
  spec_RoleSpecs (job_Spec job0) = spec_RoleSpecs (job_Spec job) → spec_JobPhasePolicy (job_Spec job0) = None →
  run_steps steps (default_job_policy policy job0) = Done job1 →
  Forall (λ s, gentle (step_body s)) steps → Forall (λ clause, clause ≠ []) (policy_Failed policy) →
  Exists (Forall (λ role, is_Some (spec_RoleSpecs (job_Spec job) !! role) ∧
    Exists (λ s, step_role s = role ∧ completes (step_body s)) steps)) (policy_Succeeded policy) →
  ∃ policy', spec_JobPhasePolicy (job_Spec job1) = Some policy' ∧
    Forall (λ clause, clause ≠ []) (policy_Failed policy') ∧
    Exists (Forall (can_succeed (spec_RoleSpecs (job_Spec job)) (spec_RoleSpecs (job_Spec job1)))) (policy_Succeeded policy').
Proof.
  intros Hsame Hnone Hrun Hgentle Hfailed Hsucc. pose proof (run_steps_policy _ _ _ Hrun) as (Hpolicy & _).
  simpl in Hpolicy. rewrite Hnone in Hpolicy. exists policy. split_and!; [done|done|].
  eapply Exists_impl; [exact Hsucc|]. intros clause Hclause. eapply Forall_impl; [exact Hclause|]. intros role [Hrole Hset].
  pose proof (run_steps_succeed _ _ _ role Hrun Hgentle) as Hs. simpl in Hs. rewrite Hsame in Hs. by apply Hs.
Qed.

Ltac gentle_body :=
  intros [rs [fl su nd] ctl dep] spec' Hb;
  unfold MPI.default_failed_on_node_down, Dask.default_scheduler, Dask.default_policies, Tensorflow.default_role_policy,
    Tensorflow.restart_workers, Tensorflow.default_role_port in Hb;
  unfold default_failed_if_not_restarted, default_failed, default_succeeded, default_dependence, spec_RestartPolicy,
    update_replica_spec in Hb;
  simpl in Hb; destruct rs as [rs|]; simpl in Hb; repeat (case_decide || case_match; simpl in Hb ); simplify_eq/=.
Ltac gentle_steps := repeat (apply Forall_cons; split); [..|apply Forall_nil; exact I]; gentle_body; auto.

Section frameworks.
Context `{MapOrder, Kubeflow, Selectors, ApiServer, JobControllerPorts, JobController, TFConfigText}.

(** A step of a concrete list that sets the success policy of a role. *)
Ltac completing_step :=
  first [apply Exists_cons_hd; split; [reflexivity|solve [gentle_body; auto]] | apply Exists_cons_tl; completing_step].
Ltac completing_clause :=
  apply Exists_cons_hd; repeat (apply Forall_cons; split; [split; [done|completing_step]|]); apply Forall_nil; exact I.

Lemma Standalone_succeeds job : has_role job RoleWorker = true → lets_succeed Standalone.methods job.
Proof.
  intros Hw%has_role_Some job1 Hnone Hset.
  eapply steps_let_succeed; [done|exact Hnone|exact Hset|gentle_steps|by repeat constructor|completing_clause].
Qed.

Lemma MPI_succeeds job : has_role job RoleLauncher = true → lets_succeed MPI.methods job.
Proof.
  intros Hl%has_role_Some job1 Hnone (job0 & Hset & [= <-])%res_bind_Done. simpl.
  eapply steps_let_succeed; [done|exact Hnone|exact Hset|gentle_steps| |completing_clause].
  unfold MPI.job_policy. case_match; by repeat constructor.
Qed.

Lemma Pytorch_succeeds job : has_role job RoleMaster = true → lets_succeed Pytorch.methods job.
Proof.
  intros Hm%has_role_Some job1 Hnone Hset.
  eapply steps_let_succeed; [done|exact Hnone|exact Hset|gentle_steps| |]; unfold Pytorch.job_policy.
  - case_match; by repeat constructor.
  - destruct (has_role job RoleWorker) eqn:Hw; [apply has_role_Some in Hw|]; completing_clause.
Qed.

Lemma Dask_succeeds job : lets_succeed Dask.methods job.
Proof.
  intros job1 Hnone Hset. pose proof (run_steps_policy _ _ _ Hset) as (_ & Hready & _).
  eapply ready_role in Hready as Hl; [|right; left].
  eapply steps_let_succeed; [done|exact Hnone|exact Hset|gentle_steps| |completing_clause].
  unfold Dask.job_policy. do 2 case_match; by repeat constructor.
Qed.

Lemma Bagua_succeeds job : lets_succeed Bagua.methods job.
Proof.
  intros job1 Hnone (elastic & _ & Hset)%res_bind_Done. destruct elastic; simpl in Hset.
  - pose proof (run_steps_policy _ _ _ Hset) as (_ & Hready & _). eapply ready_role in Hready as Hw; [|left].
    eapply steps_let_succeed; [| |exact Hset|gentle_steps|by repeat constructor|completing_clause]; done.
  - rewrite Hnone in Hset. pose proof (run_steps_policy _ _ _ Hset) as (_ & Hready & _). eapply ready_role in Hready as Hm; [|left].
    eapply steps_let_succeed; [| |exact Hset|gentle_steps| |]; try done; unfold Bagua.static_policy.
    + case_match; by repeat constructor.
    + match goal with |- context [has_role ?j RoleWorker] => destruct (has_role j RoleWorker) eqn:Hw end;
        [apply has_role_Some in Hw|]; completing_clause.
Qed.

Lemma Custom_succeeds job : lets_succeed Custom.methods job.
Proof.
  intros job1 Hnone (roles & Hroles & [= <-])%res_bind_Done. unfold Custom.setCommonJobPhasePolicy in *.
  rewrite Hnone in *. simpl in *. rewrite for_roles_Done in Hroles. eexists. split_and!; [done| |].
  - apply Forall_forall. by intros ? (role & -> & _)%list_elem_of_fmap.
  - apply Exists_cons_hd, Forall_forall. intros role [s Hs]%elem_of_range_keys. specialize (Hroles role). rewrite Hs in Hroles.
    destruct Hroles as (spec & spec' & -> & Hb & Hspec'). exists spec, spec'. split_and!; [done|done|].
    revert spec spec' Hb Hspec' Hs. intros spec spec' Hb _ _. revert spec spec' Hb. gentle_body; auto.
Qed.

Lemma Tensorflow_succeeds job :
  (∃ role, role ∈ [RoleMaster; RoleChief; RoleWorker] ∧ has_role job role = true) → lets_succeed Tensorflow.methods job.
Proof.
  intros (r & Hr & Hhas%has_role_Some) job1 Hnone Hset.
  eapply steps_let_succeed; [| |exact Hset| | |]; try done.
  - unfold Tensorflow.steps, Tensorflow.getSpecificRoles. simpl. gentle_steps.
  - simpl. apply Forall_forall. by intros ? (role & -> & _)%list_elem_of_fmap.
  - simpl. case_match eqn:Hl.
    { exfalso. assert (r ∈ GetRolesIntersection (spec_RoleSpecs (job_Spec job)) [RoleMaster; RoleChief; RoleWorker]) as Hin.
      { apply list_elem_of_filter. split; [by apply elem_of_dom|done]. }
      rewrite Hl in Hin. by apply elem_of_nil in Hin. }
    rewrite <- Hl. apply Exists_cons_hd, Forall_forall. intros role [Hrole%elem_of_dom Hin]%list_elem_of_filter. split; [done|].
    unfold Tensorflow.steps, Tensorflow.getSpecificRoles. simpl.
    repeat (apply elem_of_cons in Hin as [->|Hin]; [completing_step|]). by apply elem_of_nil in Hin.
Qed.

(** The roles without which a framework's default policy never succeeds. *)
Definition can_end (name : string) (job : AresJob) : Prop :=
  name ≠ FrameworkDemo ∧ has_assumed_role name job ∧
  (name = FrameworkTensorflow → ∃ role, role ∈ [RoleMaster; RoleChief; RoleWorker] ∧ has_role job role = true).

Lemma Factory_succeeds job name m : Factory !! name = Some m → can_end name job → lets_succeed m job.
Proof.
  revert name m. apply (Factory_cases (λ name m, can_end name job → lets_succeed m job)); intros (Hdemo & Hassumed & Htf); try done.
  - apply Bagua_succeeds.
  - apply Custom_succeeds.
  - apply Dask_succeeds.
  - apply MPI_succeeds. by apply has_role_Some, Hassumed.
  - apply Pytorch_succeeds. by apply has_role_Some, Hassumed.
  - apply Standalone_succeeds. by apply has_role_Some, Hassumed.
  - apply Tensorflow_succeeds. by apply Htf.
Qed.

(** The same after the defaulting of the API. *)
Lemma defaulted_succeeds `{ControllerUtil} {C : Type} `{Interface C, SortSlice, PodLister} SchemeDefault getServices name (f : Framework C) job job1 :
  (∀ job, SchemeDefault job = job) → setupFrameworks getServices !! name = Some f → can_end name job →
  spec_JobPhasePolicy (job_Spec job) = None → defaulted SchemeDefault f job = Done job1 →
  ∃ policy, spec_JobPhasePolicy (job_Spec job1) = Some policy ∧ policy_names_roles (spec_RoleSpecs (job_Spec job1)) policy ∧
    Forall (λ clause, clause ≠ []) (policy_Failed policy) ∧
    Exists (Forall (can_succeed (spec_RoleSpecs (job_Spec job)) (spec_RoleSpecs (job_Spec job1)))) (policy_Succeeded policy).
Proof.
  intros Hscheme Hf Hend Hnone Hdefaulted. rewrite setupFrameworks_lookup in Hf. apply fmap_Some in Hf as (m & Hm & ->).
  unfold defaulted in Hdefaulted. rewrite Hscheme in Hdefaulted. simpl in Hdefaulted.
  apply res_bind_Done in Hdefaulted as (job0 & Hset & Hdefault).
  destruct (Factory_policy _ _ Hm _ _ Hnone Hset) as (Hroles & Hgood & _).
  destruct (Factory_succeeds job name m Hm Hend job0 Hnone Hset) as (policy & Hpolicy & Hfailed & Hsucc).
  pose proof (Default_roles _ _ Hdefault) as (_ & Hdef & Hp & _). exists policy. rewrite Hpolicy in Hgood, Hp. simpl in Hgood.
  assert (∀ role, is_Some (spec_RoleSpecs (job_Spec job) !! role) → is_Some (spec_RoleSpecs (job_Spec job1) !! role)) as Hsame.
  { intros role. rewrite <- Hroles, <- !has_role_Some. by rewrite (has_role_Default _ _ role Hdefault). }
  split_and!; [done| |done|].
  - destruct (Hgood (proj1 (proj2 Hend))) as [Hfa Hsu].
    split; (eapply Forall_impl; [eassumption|]); intros clause Hc; (eapply Forall_impl; [exact Hc|]); intros role; apply Hsame.
  - eapply Exists_impl; [exact Hsucc|]. intros clause Hc. eapply Forall_impl; [exact Hc|].
    intros role (spec & spec0 & Hspec & Hspec0 & Hs). specialize (Hdef role). rewrite Hspec0 in Hdef.
    destruct Hdef as (? & spec1 & [= <-] & Hd & Hspec1). exists spec, spec1. split_and!; [done|done|].
    rewrite default_role_eq in Hd. injection Hd as <-. simpl. rewrite Hs. by repeat case_decide.
Qed.
End frameworks.

(** The success condition that the user gave the role, if any, is one that
    exists. *)
Definition condition_known (s : option RoleSpec) : Prop :=
  match s ≫= (λ spec, success spec) with
  | Some cond => cond = RolePhaseConditionAnyPod ∨ cond = RolePhaseConditionAllPods
  | None => True
  end.
#[export] Instance condition_known_dec s : Decision (condition_known s).
Proof. unfold condition_known. destruct (_ ≫= _); apply _. Defined.

(** ** A round *)

(** A job ends when its pods do.  Let the job be of any framework but demo,
    have no phase policy of its own and the role that its framework's policy
    assumes (for TensorFlow: a master, chief or worker), with success
    conditions that exist, and be defaulted.  When each of its roles has one pod
    per replica, all succeeded, alive and on nodes that are not down, and no
    role has failed before, then the next round, in any order of the roles,
    creates and deletes no pod and leaves the job Succeeded, with a completion
    time if it was not so before. *)
Lemma job_succeeds_with_its_pods
    `{MapOrder, Kubeflow, Selectors, ApiServer, JobControllerPorts, JobController, TFConfigText, SortSlice, TerminatedText, Templates}
    `{ControllerUtil, !Controller, !ControllerLaws} {C : Type} `{Interface C, PodLister}
    SchemeDefault getServices name (f : Framework C) job job1 config hosts now nm pods services replicas roles w key :
  (∀ job, SchemeDefault job = job) → setupFrameworks getServices !! name = Some f → can_end name job →
  spec_JobPhasePolicy (job_Spec job) = None →
  map_Forall (λ _, condition_known) (spec_RoleSpecs (job_Spec job)) →
  defaulted SchemeDefault f job = Done job1 → job_Spec (the_job w) = job_Spec job1 →
  (∀ log a, answer log a = None) → KeyFunc (job_meta (the_job w)) = Done key →
  is_Some (status_JobStatus (job_Status (the_job w))) → no_nil_status (statuses (the_job w)) →
  NoDup roles.*1 → (∀ role, is_Some (spec_RoleSpecs (job_Spec (the_job w)) !! role) → role ∈ roles.*1) →
  Forall (λ p, ∃ rspec n, role_spec (job_Spec (the_job w)) p.1 = Some rspec ∧ role_ReplicaSpec rspec = Some p.2 ∧
    Replicas p.2 = Some n ∧ 0 < n < 2 ^ 31 ∧ all_pods nm rspec CSucceeded n (mine pods p.1) ∧
    last_role_phase (the_job w) p.1 ≠ RolePhaseFailed ∧
    templates_built config hosts (the_job w) p.1 p.2) roles →
  Forall (λ p, ∀ w', job_meta (the_job w') = job_meta (the_job w) → quiet (services p.1 p.2) w') roles →
  ∃ job' new, job_round config hosts now nm pods services replicas roles w = (Done tt, mkWorld job' (the_log w ++ new)) ∧
    without_pods new ∧ (∀ role, role ∉ roles.*1 → statuses job' !! role = statuses (the_job w) !! role) ∧ job_meta job' = job_meta (the_job w) ∧
    job_Spec job' = job_Spec (the_job w) ∧ is_Some (status_JobStatus (job_Status job')) ∧ no_nil_status (statuses job') ∧ status_Phase (job_Status job') = JobPhaseSucceeded ∧
    (last_phase (the_job w) ≠ JobPhaseSucceeded → is_Some (completion_time job')).
Proof.
  intros Hscheme Hf Hend Hnone Hconds Hdefaulted Hspec Haccept Hkey Hjs Hnil Hnd Hcover Hroles Hservices.
  destruct (defaulted_succeeds SchemeDefault getServices name f job job1) as (policy & Hpolicy & Hnames & Hfailed & Hsucc); [done..|].
  rewrite <- Hspec in Hpolicy, Hnames, Hsucc.
  assert (healthy CSucceeded) as Hc by done.
  assert (Forall (λ p, ∃ rspec n, in_place config hosts pods (the_job w) p.1 rspec p.2 n) roles) as Hplaces.
  { eapply Forall_impl; [exact Hroles|]. intros p (rspec & n & Hr & Hrs & Hn & Hpos & Hall & _ & Hbuild). exists rspec, n.
    eapply kept_in_place; try done. by eapply alike_kept. }
  destruct (job_round_rule config hosts now nm pods services replicas roles w key)
    as (job' & new & Hrun & Hcr & Hde & Hphases & Hothers & Hmeta' & Hspec' & Hjs' & Hnil' & Hrule & Hct & _); [done..|by rewrite Hpolicy| |].
  { apply Forall_and. split; [|done]. eapply Forall_impl; [exact Hplaces|]. intros p (rspec & n & Hp & _). by exists rspec, n. }
  destruct (in_place_bind _ _ _ _ _ Hplaces) as [Hcr0 Hde0]. rewrite Hcr0 in Hcr. rewrite Hde0 in Hde.
  rewrite Hpolicy in Hrule. simpl in Hrule.
  assert (∀ role, is_Some (spec_RoleSpecs (job_Spec (the_job w)) !! role) → ∃ rspec st n,
    role_spec (job_Spec (the_job w)) role = Some rspec ∧ statuses job' !! role = Some (Some st) ∧ 0 < n ∧
    role_Phase st ≠ RolePhaseFailed ∧ (threshold (success rspec) n n → role_Phase st = RolePhaseSucceeded)) as Hends.
  { intros role Hrole%Hcover. destruct (Hphases role Hrole) as (st & Hst & rspec & spec & n & Hplace & Hfollow).
    apply list_elem_of_fmap in Hrole as (p & -> & Hp). rewrite Forall_forall in Hroles, Hplaces.
    destruct (Hplaces p Hp) as (? & ? & _ & Hp0). destruct Hplace.
    destruct (Hroles p Hp) as (rspec' & n' & Hr & Hrs & Hn & Hpos & Hall & Hlast & _).
    assert (rspec' = rspec) as -> by congruence. assert (spec = p.2) as -> by congruence. assert (n' = n) as -> by congruence.
    rewrite decide_True in Hfollow by (by destruct p).
    destruct (alike_rule nm rspec CSucceeded p.2 n _ Hall Hc Hpos _ _ _ ltac:(auto) Hfollow) as (Hnf & Hs & _).
    exists rspec, st, n. split_and!; [done|done|lia|auto|auto]. }
  assert (¬ policy_met (statuses job') RolePhaseFailed (policy_Failed policy)) as Hnot.
  { eapply sound_unmet; [split; [apply Hnames|done]|]. intros role Hrole (rs & Hrs & Hph).
    destruct (Hends role Hrole) as (_ & st & _ & _ & Hst & _ & Hne & _). congruence. }
  assert (policy_met (statuses job') RolePhaseSucceeded (policy_Succeeded policy)) as Hmet.
  { eapply Exists_impl; [exact Hsucc|]. intros clause Hclause. eapply Forall_impl; [exact Hclause|].
    intros role (spec & spec' & Hsp & Hsp' & Hset). destruct (Hends role) as (rspec & st & n & Hr & Hst & Hpos & _ & Hdone); [by eexists|].
    exists st. split; [done|]. apply Hdone. unfold role_spec in Hr. rewrite Hsp' in Hr. injection Hr as <-. rewrite Hset.
    unfold threshold. destruct (success spec) as [cond|] eqn:Hcond; simpl; [|right; by split].
    specialize (Hconds _ _ Hsp). unfold condition_known in Hconds. simpl in Hconds. rewrite Hcond in Hconds.
    destruct Hconds as [-> | ->]; [left|right]; by split. }
  assert (status_Phase (job_Status job') = JobPhaseSucceeded) as Hphase by by destruct Hrule.
  assert (job_Spec job' = job_Spec (the_job w)) as Hspec0.
  { rewrite Hspec', Hpolicy. simpl. destruct (job_Spec (the_job w)). unfold set_field, set_spec_JobPhasePolicy. simpl in *. by rewrite <- Hpolicy. }
  exists job', new. rewrite Hphase in Hct. split_and!; [done..|]. intros Hlast. by apply Hct.
Qed.
