(* ===== verification/Complete.v ===== *)
(** * A job from its last pod to its end

    One reconcile request of a job whose pods have all succeeded, through every
    component: the gates of the controller, kubeflow's loop over the roles, the
    pods and the phase of each, the phase of the job, the update of its status,
    its metadata, the role cache and its clean-up. *)

From S2P Require Import Prelude GoStd Errors Regex Kube Api World ReconcilerUtils Examples Webhook Metadata Expectation.
From S2P Require Import Cache Conf Dependence NodeManager PodOrder Phase PodGroup PodGroupSync Pod PodSlices PodCreate Service.
From S2P Require Import Job JobSync Controller Events Publish PhaseCount RolePhase PodReconcile JobPhase.
From S2P Require Import FrameworkBase SimpleFrameworks Bagua Dask Tensorflow Factory Reconcile DefaultPolicy JobProgress RolePods.
From S2P Require Import Succeed Request.

(** ** Property *)

Section request.
Context `{MapOrder, Kubeflow, Selectors, ApiServer, JobControllerPorts, JobController, TFConfigText, SortSlice, TerminatedText, Templates}.
Context `{ControllerUtil} {C : Type} `{InterfaceLaws C, PodLister}.
Context (SchemeDefault : AresJob → AresJob) (getServices : ObjectMeta → error + list Service).
Context (spec_eqb : AresJobSpec → AresJobSpec → bool) (status_eqb : JobStatus → JobStatus → bool).
Context (config : Configuration) (hosts : error + list Pod) (now : Z) (nm : Manager) (pods : list Pod) (services : list Service).

(** C8: the life of a job ends when its pods do.  A user writes a job of any
    framework but demo, without phase policy, with success conditions that
    exist and the role that the framework's policy assumes; the operator has
    completed it and admits it.  When every role has one pod per replica, all
    of them succeeded, and the job has not ended before, then the next request
    creates and deletes no pod, finds the job Succeeded, sends its status so
    with a completion time, brings the role cache up to date, and, if succeeded
    jobs are to be cleaned up, schedules the clean-up once; it ends without
    error and is not repeated. *)
Theorem request_completes_job name (f : Framework C) m user job0 aresjob job1 reads s js key getPods idx b :
  (∀ job, SchemeDefault job = job) → (∀ a b, status_eqb a b = true → a = b) → (∀ log a, answer log a = None) →
  (* the job *)
  can_end name user → spec_JobPhasePolicy (job_Spec user) = None →
  map_Forall (λ _, condition_known) (spec_RoleSpecs (job_Spec user)) →
  defaulted SchemeDefault f user = Done job0 → job_Spec job1 = job_Spec job0 →
  admitted SchemeDefault getServices spec_eqb status_eqb config hosts now nm pods services name m f aresjob job1 reads s js key getPods idx →
  HasDependence (job_Spec job1) = Done b → CompletionTime js = None → last_phase job1 ≠ JobPhaseSucceeded →
  (* its pods *)
  map_Forall (λ role s, @role_alike _ _ _ _ (controller m) config hosts nm pods CSucceeded job1 role s ∧
    last_role_phase job1 role ≠ RolePhaseFailed) (spec_RoleSpecs (job_Spec job1)) →
  ∃ job' new c', Reconcile SchemeDefault (the_frameworks getServices) config now spec_eqb reads s =
      (Done (no_requeue, None), mkCState (mkWorld job' (the_log (c_world s) ++ new)) c'
         (c_queue s ++ scheduled config now job')) ∧
    without_pods new ∧ status_Phase (job_Status job') = JobPhaseSucceeded ∧
    is_Some (completion_time job') ∧ UpdateStatus job' ∈ new ∧
    cache_updated b getPods idx aresjob job' (c_cache s) c'.
Proof.
  intros Hscheme Heqb Haccept Hend Hnone Hconds Hdef Hspec0 Hadm Hdep Hct Hlast Hroles. pose proof Hadm as [].
  pose proof (Factory_laws name m adm_method) as Hlaws.
  destruct (admitted_visits _ _ _ _ _ _ _ _ _ _ _ _ _ _ _ _ _ _ _ _ _ Haccept Hadm) as (replicas & roles & Hvisits & Hcover & Hquiet).
  pose proof Hvisits as (_ & _ & Hnd & Hin). set (w1 := mkWorld job1 (the_log (c_world s) ++ reset_plan key job1)).
  destruct (job_succeeds_with_its_pods (H10 := controller m) SchemeDefault getServices name f user job0 config hosts now nm pods
    (Framework_ReconcileServices m services) replicas roles w1 key)
    as (job' & new & Hround & [Hc Hd] & Hothers & Hmeta & Hspec & Hjs' & Hnil' & Hphase & Hct'); try done.
  { apply adm_statuses. }
  { intros role Hrole. by apply Hcover. }
  { apply Forall_forall. intros [role spec] (rspec & Hrs & Hsp)%Hin.
    destruct (Hroles _ _ Hrs) as ((rspec1 & x & n & [= <-] & Hsp' & Hn & Hpos & Hall & Hbuild) & Hph).
    assert (spec = x) as <- by congruence. exists rspec, n. unfold role_spec. simpl. by rewrite Hrs. }
  specialize (Hct' Hlast). pose proof Hct' as [t Ht]. unfold completion_time in Ht.
  edestruct (request_round (C := C)) as (c' & sent & Hrun & Hcs & Hds & Hsub & Hupd & _);
    [exact Haccept|exact Hadm|exact Hvisits|exact Hround|exact Hmeta| |exact Hjs'|exact Hnil'| |exact Hdep|].
  { exists (spec_JobPhasePolicy (job_Spec job1)). rewrite Hspec. simpl. by destruct (job_Spec job1). }
  { intros role Hrole. apply Hcover. destruct (decide (role ∈ roles.*1)) as [|Hno]; [done|]. apply Hcover, adm_known.
    specialize (Hothers _ Hno). simpl in Hothers. by rewrite Hothers in Hrole. }
  exists job', sent, c'. split_and!; [exact Hrun|by split; congruence|done|done| |done].
  apply Hsub. unfold status_update. destruct Hjs' as [js' Hjs']. rewrite Hjs' in *. simpl in Ht.
  destruct (status_eqb js js') eqn:Heq; [|left]. apply Heqb in Heq. congruence.
Qed.
End request.
(** ** Witness *)

#[local] Existing Instances canonical_order canonical_sort ex_kubeflow ex_text ex_selectors ex_templates ex_controllerutil
  accepting ex_request_ports ex_request_json ex_request_lister.

(** Both workers have succeeded. *)
Definition ex_done_pods : list Pod := ex_workers PodSucceeded.
#[local] Instance ex_done_controller : JobController := ex_request_controller ex_done_pods.

Lemma request_completes_job_witness :
  ∃ job' new c', Reconcile id (the_frameworks (C := MemoryCache.t) (λ _, inr [])) ex_request_config 7 (λ _ _, true)
      (ex_request_reads ex_done_pods) (ex_request_state ex_done_pods) =
      (Done (no_requeue, None), mkCState (mkWorld job' new) c' (scheduled ex_request_config 7 job')) ∧
    status_Phase (job_Status job') = JobPhaseSucceeded ∧ UpdateStatus job' ∈ new.
Proof.
  destruct (ex_request_admitted ex_done_pods) as (js & Hadm & Hct & Hdep).
  destruct (request_completes_job (C := MemoryCache.t) id (λ _, inr []) (λ _ _, true) (λ _ _, false) ex_request_config (inr []) 7
    NewManager ex_done_pods [] "standalone" (ex_framework_of ex_done_pods) Standalone.methods ex_user_job
    (ex_request_job ex_done_pods) (ex_request_job ex_done_pods) (ex_request_job ex_done_pods) (ex_request_reads ex_done_pods)
    (ex_request_state ex_done_pods) js "/job" (λ _, []) (λ _, 0) false) as (job' & new & c' & Hrun & _ & Hphase & _ & Hsent & _).
  - reflexivity.
  - discriminate.
  - reflexivity.
  - split; [discriminate|]. split; [|discriminate]. intros role [= <-]. by eexists.
  - reflexivity.
  - apply (@map_Forall_intro _ (λ _, condition_known) (λ _, condition_known_dec)). vm_compute. reflexivity.
  - apply ex_request_defaulted.
  - reflexivity.
  - exact Hadm.
  - exact Hdep.
  - exact Hct.
  - vm_compute. discriminate.
  - intros role s Hs. split; [exact (ex_request_alike _ CSucceeded PodSucceeded role s eq_refl eq_refl Hs)|].
    destruct (ex_request_role _ role s Hs) as [-> _]. vm_compute. discriminate.
  - exists job', new, c'. split; [exact Hrun|]. split; [exact Hphase|exact Hsent].
Defined.
