(* ===== verification/Launch.v ===== *)
(** * A job from its definition to running

    The first request of a job, which asks for its pods, and the request that
    finds all of them running. *)

From S2P Require Import Prelude GoStd Errors Regex Kube Api World ReconcilerUtils Examples Webhook Metadata Expectation.
From S2P Require Import Cache Conf Dependence NodeManager PodOrder Phase PodGroup PodGroupSync Pod PodSlices PodCreate Service.
From S2P Require Import Job JobSync Controller Events Publish PhaseCount RolePhase PodReconcile JobPhase.
From S2P Require Import FrameworkBase SimpleFrameworks Bagua Dask Tensorflow Factory Reconcile DefaultPolicy JobProgress RolePods Request.

Section request.
Context `{MapOrder, Kubeflow, Selectors, ApiServer, JobControllerPorts, JobController, TFConfigText, SortSlice, TerminatedText, Templates}.
Context `{ControllerUtil} {C : Type} `{InterfaceLaws C, PodLister}.
Context (SchemeDefault : AresJob → AresJob) (getServices : ObjectMeta → error + list Service).
Context (spec_eqb : AresJobSpec → AresJobSpec → bool) (status_eqb : JobStatus → JobStatus → bool).
Context (config : Configuration) (hosts : error + list Pod) (now : Z) (nm : Manager) (pods : list Pod) (services : list Service).
Hypothesis accept : ∀ log a, answer log a = None.

Abbreviation admitted := (admitted SchemeDefault getServices spec_eqb status_eqb config hosts now nm pods services).
Abbreviation reconciles := (Reconcile SchemeDefault (the_frameworks getServices) config now spec_eqb).

(** A request of an admitted job whose roles can be reconciled: the round and
    what it sends. *)
Lemma request_rule name m f aresjob job reads s js key getPods idx b :
  admitted name m f aresjob job reads s js key getPods idx → HasDependence (job_Spec job) = Done b → sound_policy job →
  (∀ role spec rspec, spec_RoleSpecs (job_Spec job) !! role = Some (Some rspec) → role_ReplicaSpec rspec = Some spec →
     ∃ n, @reconcilable _ _ _ _ (controller m) config hosts pods job role rspec spec n) →
  ∃ replicas roles job' new c', visits job replicas roles ∧
    reconciles reads s = (Done (no_requeue, None), mkCState (mkWorld job' (the_log (c_world s) ++ new)) c' (c_queue s ++ scheduled config now job')) ∧
    omap created_pod new = (roles ≫= creations pods job) ∧ omap deleted_pod new = (roles ≫= deletions pods) ∧
    status_update status_eqb js job' ⊆ new ∧
    (∀ role, is_Some (spec_RoleSpecs (job_Spec job) !! role) → ∃ st, statuses job' !! role = Some (Some st) ∧
       @follows _ _ _ _ (controller m) config hosts nm pods job role (role_Phase st)) ∧
    (∀ role, is_Some (statuses job' !! role) → is_Some (spec_RoleSpecs (job_Spec job) !! role)) ∧
    job_rule (statuses job') (job_policy job) (last_phase job) (status_Phase (job_Status job')) ∧
    (status_Phase (job_Status job') ≠ last_phase job → IsFinished (status_Phase (job_Status job')) = true →
     is_Some (completion_time job')) ∧
    (status_Phase (job_Status job') ≠ last_phase job → status_Phase (job_Status job') = JobPhaseRunning →
     is_Some (status_RunningTime (job_Status job'))) ∧
    cache_updated b getPods idx aresjob job' (c_cache s) c' ∧
    (b = false ∨ (∀ role rs, status_RoleStatuses (job_Status job') !? role = Some (Some rs) → ¬ to_publish aresjob role rs) →
     c' = c_cache s).
Proof.
  intros Hadm Hdep Hsound Hready. pose proof Hadm as []. pose proof (Factory_laws name m adm_method) as Hlaws.
  destruct (admitted_visits _ _ _ _ _ _ _ _ _ _ _ _ _ _ _ _ _ _ _ _ _ accept Hadm) as (replicas & roles & Hvisits & Hcover & Hquiet).
  pose proof Hvisits as (_ & _ & Hnd & Hin). set (w1 := mkWorld job (the_log (c_world s) ++ reset_plan key job)).
  destruct (job_round_rule (H6 := controller m) config hosts now nm pods (Framework_ReconcileServices m services) replicas roles w1 key)
    as (job' & new & Hround & Hc & Hd & Hroles & Hothers & Hmeta & Hspec & Hjs' & Hnil' & Hrule & Hct & Hrt); try done.
  { apply adm_statuses. }
  { intros role Hrole. by apply Hcover. }
  { split; apply Hsound. }
  { apply Forall_and. split; [|done]. apply Forall_forall. intros [role spec] (rspec & Hrs & Hsp)%Hin.
    destruct (Hready role spec rspec Hrs Hsp) as [n Hn]. by exists rspec, n. }
  assert (∀ role, is_Some (statuses job' !! role) → is_Some (spec_RoleSpecs (job_Spec job) !! role)) as Hknown.
  { intros role Hrole. apply Hcover. destruct (decide (role ∈ roles.*1)) as [|Hno]; [done|]. apply Hcover, adm_known.
    specialize (Hothers _ Hno). simpl in Hothers. by rewrite Hothers in Hrole. }
  edestruct (request_round (C := C)) as (c' & sent & Hrun & Hcs & Hds & Hsub & Hupd & Hidle);
    [exact accept|exact Hadm|exact Hvisits|exact Hround|exact Hmeta|eexists; exact Hspec|exact Hjs'|exact Hnil'|exact Hknown|exact Hdep|].
  exists replicas, roles, job', sent, c'. rewrite Hcs, Hds. split_and!; try done. intros role Hrole%Hcover. by apply Hroles.
Qed.

(** ** The first request *)

(** A role as it is when the job is new: complete, with pods that can be built
    and none yet. *)
Definition role_new `{Controller} (job : AresJob) (role : string) (s : option RoleSpec) : Prop :=
  ∃ rspec spec n, s = Some rspec ∧ role_ReplicaSpec rspec = Some spec ∧ Replicas spec = Some n ∧ 0 < n < 2 ^ 31 ∧
    mine pods role = [] ∧ templates_built config hosts job role spec ∧ last_role_phase job role = RolePhasePending.

Lemma role_new_reconcilable `{Controller} job role rspec spec :
  spec_RoleSpecs (job_Spec job) !! role = Some (Some rspec) → role_ReplicaSpec rspec = Some spec → role_new job role (Some rspec) →
  ∃ n, reconcilable config hosts pods job role rspec spec n.
Proof.
  intros Hrs Hsp (rspec1 & spec1 & n & [= <-] & Hsp1 & Hn & Hpos & Hnone & Hbuild & _). assert (spec1 = spec) as -> by congruence.
  exists n. split; try done; rewrite ?Hnone.
  - unfold role_spec. by rewrite Hrs.
  - lia.
  - constructor.
  - destruct (no_pods_plan RolePhasePending spec n) as (_ & _ & ->); [lia| |simpl; lia]. unfold creates. by rewrite andb_false_r.
Qed.

(** Its pods are planned, and it stays Pending. *)
Lemma role_new_plan `{Controller} job role rspec spec n :
  spec_RoleSpecs (job_Spec job) !! role = Some (Some rspec) → role_ReplicaSpec rspec = Some spec → Replicas spec = Some n →
  role_new job role (Some rspec) →
  creations pods job (role, spec) = (λ i, (Some (ToLower role), Some (Itoa i))) <$> seqZ 0 n ∧ deletions pods (role, spec) = [] ∧
  ∀ phase, follows config hosts nm pods job role phase → phase = RolePhasePending.
Proof.
  intros Hrs Hsp Hn (rspec1 & spec1 & n1 & [= <-] & Hsp1 & Hn1 & Hpos & Hnone & _ & Hlast).
  assert (spec1 = spec) as -> by congruence. assert (n1 = n) as -> by congruence.
  assert (creates RolePhasePending spec = true) as Hcreates by (unfold creates; by rewrite andb_false_r).
  destruct (no_pods_plan RolePhasePending spec n) as (Hc & Hd & _); [lia|done|].
  assert (creations pods job (role, spec) = (λ i, (Some (ToLower role), Some (Itoa i))) <$> seqZ 0 n) as Hcr.
  { unfold creations, replica_count. simpl. rewrite Hn, Hlast. simpl. by rewrite Hnone, Hc. }
  split_and!; [done|unfold deletions, replica_count; simpl; rewrite Hn; simpl; by rewrite Hnone, Hd|].
  intros phase (rspec2 & spec2 & n2 & [Hr2 Hsp2 _ _ _ _ _] & Hrule). unfold role_spec in Hr2. rewrite Hrs in Hr2.
  injection Hr2 as <-. assert (spec2 = spec) as -> by congruence. rewrite Hcr, Hlast, decide_False in Hrule; [done|].
  intros [Hnil%fmap_nil_inv _]. apply (f_equal length) in Hnil. rewrite length_seqZ in Hnil. simpl in Hnil. lia.
Qed.

(** C6: the life of a job begins with its pods.  Take an admitted job of which
    nothing has been done: it is Pending, as it was read, and so are its roles,
    of which there is one at least; each has replicas, none has a pod, and pods
    can be built of their templates.  The first request then creates, for each
    role in turn, one pod per index from 0 to the number of replicas, and
    nothing else; it deletes no pod; the roles stay Pending until their pods
    are seen, and the job is Starting; its changed status is sent, the role
    cache and the clean-up queue are untouched, and the request ends without
    error and is not repeated. *)
Theorem request_launches_job name m f aresjob job reads s js key getPods idx b :
  admitted name m f aresjob job reads s js key getPods idx → HasDependence (job_Spec job) = Done b → sound_policy job →
  last_phase job = JobPhasePending → (∀ role, RolePhase (job_Status aresjob) role = Done RolePhasePending) →
  spec_RoleSpecs (job_Spec job) ≠ ∅ → map_Forall (@role_new (controller m) job) (spec_RoleSpecs (job_Spec job)) →
  ∃ replicas roles job' new, visits job replicas roles ∧
    reconciles reads s = (Done (no_requeue, None), mkCState (mkWorld job' (the_log (c_world s) ++ new)) (c_cache s) (c_queue s)) ∧
    omap created_pod new = (roles ≫= λ p, (λ i, (Some (ToLower p.1), Some (Itoa i))) <$> seqZ 0 (replica_count p.2)) ∧
    omap deleted_pod new = [] ∧
    (∀ role, is_Some (spec_RoleSpecs (job_Spec job) !! role) → in_phase (statuses job') RolePhasePending role) ∧
    status_Phase (job_Status job') = JobPhaseStarting ∧ status_update status_eqb js job' ⊆ new.
Proof.
  intros Hadm Hdep Hsound Hlast Hold Hne Hnew.
  destruct (request_rule name m f aresjob job reads s js key getPods idx b Hadm Hdep Hsound)
    as (replicas & roles & job' & new & c' & Hvisits & Hrun & Hc & Hd & Hsub & Hroles & Hknown & Hrule & _ & _ & _ & Hidle).
  { intros role spec rspec Hrs Hsp. apply (role_new_reconcilable (H13 := controller m)); [done..|]. by apply Hnew. }
  pose proof Hvisits as (_ & _ & _ & Hin).
  assert (∀ p, p ∈ roles → creations pods job p = ((λ i, (Some (ToLower p.1), Some (Itoa i))) <$> seqZ 0 (replica_count p.2)) ∧
    deletions pods p = []) as Hplan.
  { intros [role spec] (rspec & Hrs & Hsp)%Hin. destruct (Hnew _ _ Hrs) as (? & spec1 & n & [= <-] & Hsp1 & Hn & _).
    assert (spec1 = spec) as -> by congruence. unfold replica_count. simpl. rewrite Hn.
    edestruct (role_new_plan (H13 := controller m)) as (? & ? & _); [done..|by apply Hnew|done]. }
  assert (∀ role, is_Some (spec_RoleSpecs (job_Spec job) !! role) → in_phase (statuses job') RolePhasePending role) as Hpending.
  { intros role [s0 Hs0]. destruct (Hroles role) as (st & Hst & Hfollow); [by rewrite Hs0|]. exists st. split; [done|].
    destruct (Hnew _ _ Hs0) as (rspec & spec & n & -> & Hsp & Hn & _).
    edestruct (role_new_plan (H13 := controller m)) as (_ & _ & Hphase); [done..|by apply Hnew|by apply Hphase]. }
  assert (∀ phase role, phase ≠ RolePhasePending → is_Some (spec_RoleSpecs (job_Spec job) !! role) → ¬ in_phase (statuses job') phase role) as Hno.
  { intros phase role Hp Hrole (st & Hst & Hst'). destruct (Hpending role Hrole) as (st2 & Hst2 & Hst3). congruence. }
  assert (status_Phase (job_Status job') = JobPhaseStarting) as Hphase.
  { rewrite Hlast in Hrule. eapply job_rule_undecided in Hrule as [[_ Hall]|[-> _]]; [|done|done|by split; apply Hno]. exfalso.
    apply map_choose in Hne as (role & s0 & Hs0). assert (is_Some (spec_RoleSpecs (job_Spec job) !! role)) as Hrole by by rewrite Hs0.
    apply (Hno RolePhaseRunning role); [done|done|]. apply Hall. destruct (Hpending role Hrole) as (st & Hst & _). by rewrite Hst. }
  exists replicas, roles, job', new. split_and!; [done| | | |done|done|done].
  - rewrite Hrun, Hidle.
    + unfold scheduled, cleanup_delay. by rewrite Hphase, app_nil_r.
    + right. intros role rs Hrs Hto. rewrite mlookup_contents in Hrs. fold (statuses job') in Hrs.
      assert (role_Phase rs = RolePhasePending) as Hp.
      { destruct (Hpending role) as (st & Hst & ?); [apply Hknown; by rewrite Hrs|congruence]. }
      unfold to_publish in Hto. rewrite Hold, Hp in Hto. by destruct Hto as [Hto|].
  - rewrite Hc. clear -Hplan. induction roles as [|p roles IH]; [done|]. csimpl.
    rewrite (proj1 (Hplan p ltac:(left))), IH; [done|]. intros q Hq. apply Hplan. by right.
  - rewrite Hd. clear -Hplan. induction roles as [|p roles IH]; [done|]. csimpl.
    rewrite (proj2 (Hplan p ltac:(left))), IH; [done|]. intros q Hq. apply Hplan. by right.
Qed.

(** ** The request that finds the job running *)

Lemma role_alike_reconcilable `{Controller} c job role rspec spec : healthy c →
  spec_RoleSpecs (job_Spec job) !! role = Some (Some rspec) → role_ReplicaSpec rspec = Some spec →
  role_alike config hosts nm pods c job role (Some rspec) →
  ∃ n, 0 < n < 2 ^ 31 ∧ all_pods nm rspec c n (mine pods role) ∧ in_place config hosts pods job role rspec spec n.
Proof.
  intros Hc Hrs Hsp (rspec1 & spec1 & n & [= <-] & Hsp1 & Hn & Hpos & Hall & Hbuild). assert (spec1 = spec) as -> by congruence.
  exists n. split_and!; [lia|lia|done|]. eapply kept_in_place; try done; [unfold role_spec; by rewrite Hrs|by eapply alike_kept].
Qed.

(** C7: a job runs when its pods do.  When every role of an admitted job has
    one pod per replica, all of them running, alive and on nodes that are not
    down, then the next request creates and deletes no pod and finds every role
    and the job Running, with the time at which it was first seen so; its
    changed status is sent, and nothing is scheduled for clean-up.  If some role
    depends on another and there is a role cache, then every role is published
    there as running, with the addresses of its live pods, so that the pods that
    wait for it can go on. *)
Theorem request_runs_job name m f aresjob job reads s js key getPods idx b :
  admitted name m f aresjob job reads s js key getPods idx → HasDependence (job_Spec job) = Done b → sound_policy job →
  map_Forall (@role_alike _ _ _ _ (controller m) config hosts nm pods CActive job) (spec_RoleSpecs (job_Spec job)) →
  ∃ job' new c', reconciles reads s =
      (Done (no_requeue, None), mkCState (mkWorld job' (the_log (c_world s) ++ new)) c' (c_queue s)) ∧
    without_pods new ∧ (∀ role, is_Some (spec_RoleSpecs (job_Spec job) !! role) → in_phase (statuses job') RolePhaseRunning role) ∧
    status_Phase (job_Status job') = JobPhaseRunning ∧
    (last_phase job ≠ JobPhaseRunning → is_Some (status_RunningTime (job_Status job'))) ∧
    status_update status_eqb js job' ⊆ new ∧
    (b = true → ∀ c, c_cache s = Some c → ∃ c1, c' = Some c1 ∧ is_open c1 ∧
       ∀ role, is_Some (spec_RoleSpecs (job_Spec job) !! role) →
         ∃ rs, role_Phase rs = RolePhaseRunning ∧ published job' getPods idx c1 role rs).
Proof.
  intros Hadm Hdep Hsound Halike. assert (healthy CActive) as Hc by done.
  destruct (request_rule name m f aresjob job reads s js key getPods idx b Hadm Hdep Hsound)
    as (replicas & roles & job' & new & c' & Hvisits & Hrun & Hcr & Hde & Hsub & Hroles & Hknown & Hrule & _ & Hrt & Hcache & _).
  { intros role spec rspec Hrs Hsp.
    edestruct (role_alike_reconcilable (H13 := controller m)) as (n & _ & _ & Hplace & _); [done..|by apply Halike|by exists n]. }
  pose proof Hvisits as (_ & _ & _ & Hin).
  assert (Forall (λ p, ∃ rspec n, @in_place _ _ _ _ (controller m) config hosts pods job p.1 rspec p.2 n) roles) as Hplaces.
  { apply Forall_forall. intros [role spec] (rspec & Hrs & Hsp)%Hin.
    edestruct (role_alike_reconcilable (H13 := controller m)) as (n & _ & _ & Hplace); [done..|by apply Halike|by exists rspec, n]. }
  destruct (in_place_bind _ _ _ _ _ Hplaces) as [Hcr0 Hde0]. rewrite Hcr0 in Hcr. rewrite Hde0 in Hde.
  assert (∀ role, is_Some (spec_RoleSpecs (job_Spec job) !! role) → in_phase (statuses job') RolePhaseRunning role) as Hrunning.
  { intros role [s0 Hs0]. destruct (Hroles role) as (st & Hst & rspec & spec & n & Hrec & Hfollow); [by rewrite Hs0|]. exists st. split; [done|].
    pose proof (Halike _ _ Hs0) as Hal. pose proof Hal as (rspec1 & spec1 & n1 & -> & Hsp1 & _). destruct Hrec.
    unfold role_spec in place_role. rewrite Hs0 in place_role. injection place_role as <-. assert (spec1 = spec) as -> by congruence.
    edestruct (role_alike_reconcilable (H13 := controller m)) as (n2 & Hpos & Hall & Hrec2 & Hc2 & Hd2); [done..|].
    assert (n2 = n) as -> by (destruct Hrec2; congruence). rewrite decide_True in Hfollow by done.
    by destruct (alike_rule nm rspec1 CActive spec n _ Hall Hc Hpos _ _ _ ltac:(auto) Hfollow) as (_ & _ & -> & _). }
  assert (∀ phase role, phase ≠ RolePhaseRunning → is_Some (spec_RoleSpecs (job_Spec job) !! role) → ¬ in_phase (statuses job') phase role) as Hno.
  { intros phase role Hp Hrole (st & Hst & Hst'). destruct (Hrunning role Hrole) as (st2 & Hst2 & Hst3). congruence. }
  assert (status_Phase (job_Status job') = JobPhaseRunning) as Hphase.
  { eapply job_rule_undecided in Hrule as [[-> _]|(_ & role & Hrole & Hnot)]; [done| |done|by split; apply Hno].
    destruct Hnot. by apply Hrunning, Hknown. }
  exists job', new, c'. split_and!; try done.
  - rewrite Hrun. unfold scheduled, cleanup_delay. by rewrite Hphase, app_nil_r.
  - intros Hlast. apply Hrt; congruence.
  - intros -> c Hcc. rewrite Hcc in Hcache. destruct c' as [c1|]; [|done]. destruct Hcache as (Hopen & Hpub & _).
    exists c1. split_and!; [done|done|]. intros role Hrole. destruct (Hrunning role Hrole) as (rs & Hrs & Hp). exists rs. split; [done|].
    apply Hpub; [done|by rewrite mlookup_contents|by right].
Qed.
End request.

(** ** Witnesses *)

#[local] Existing Instances canonical_order canonical_sort ex_kubeflow ex_text ex_selectors ex_templates ex_controllerutil
  accepting ex_request_ports ex_request_json ex_request_lister.

Lemma ex_sound pods : sound_policy (ex_request_job pods).
Proof.
  split; (split; [|vm_compute; repeat constructor; discriminate]); vm_compute; repeat constructor; by eexists.
Qed.

Lemma ex_pending pods role : RolePhase (job_Status (ex_request_job pods)) role = Done RolePhasePending.
Proof.
  unfold RolePhase. rewrite mlookup_contents. destruct (contents _ !! role) as [rs|] eqn:Hrs; [|done].
  apply elem_of_map_to_list in Hrs. vm_compute in Hrs. apply list_elem_of_singleton in Hrs. by injection Hrs as _ ->.
Qed.

Module LaunchExample.
#[local] Instance loop : JobController := ex_request_controller [].

(** Two workers: the pods of index 0 and 1 are created. *)
Lemma request_launches_job_witness :
  ∃ job' new, Reconcile id (the_frameworks (C := MemoryCache.t) (λ _, inr [])) ex_request_config 7 (λ _ _, true)
      (ex_request_reads []) (ex_request_state []) =
      (Done (no_requeue, None), mkCState (mkWorld job' new) (Some MemoryCache.NewMemoryCache) []) ∧
    status_Phase (job_Status job') = JobPhaseStarting ∧ omap deleted_pod new = [] ∧
    (Some "worker", Some "1") ∈ omap created_pod new.
Proof.
  assert (Haccept : ∀ log a, answer log a = None) by reflexivity.
  destruct (ex_request_admitted []) as (js & Hadm & _ & Hdep).
  destruct (request_launches_job (C := MemoryCache.t) id (λ _, inr []) (λ _ _, true) (λ _ _, false) ex_request_config (inr []) 7
    NewManager [] [] Haccept "standalone" Standalone.methods (ex_framework_of []) (ex_request_job [])
    (ex_request_job []) (ex_request_reads []) (ex_request_state []) js "/job" (λ _, []) (λ _, 0) false)
    as (replicas & roles & job' & new & Hvisits & Hrun & Hc & Hd & _ & Hphase & _).
  - exact Hadm.
  - exact Hdep.
  - apply ex_sound.
  - vm_compute. reflexivity.
  - apply ex_pending.
  - intros Hnil. apply (f_equal (λ m, m !! "worker")) in Hnil. vm_compute in Hnil. discriminate Hnil.
  - intros role s Hs. destruct (ex_request_role _ role s Hs) as [-> ->]. exists (ex_worker_role []), (ex_worker_spec []), 2.
    split; [reflexivity|]. split; [reflexivity|]. split; [reflexivity|]. split; [by split|]. split; [reflexivity|].
    split; [apply ex_request_built|reflexivity].
  - exists job', new. split; [exact Hrun|]. split; [exact Hphase|]. split; [exact Hd|]. rewrite Hc.
    destruct Hvisits as (_ & _ & _ & Hin). apply list_elem_of_bind. exists ("worker", ex_worker_spec []). split.
    + vm_compute. right. left.
    + apply Hin. exists (ex_worker_role []). split; vm_compute; reflexivity.
Defined.
End LaunchExample.

Module RunExample.
Definition running_pods : list Pod := ex_workers PodRunning.
#[local] Instance loop : JobController := ex_request_controller running_pods.

Lemma request_runs_job_witness :
  ∃ job' new c', Reconcile id (the_frameworks (C := MemoryCache.t) (λ _, inr [])) ex_request_config 7 (λ _ _, true)
      (ex_request_reads running_pods) (ex_request_state running_pods) =
      (Done (no_requeue, None), mkCState (mkWorld job' new) c' []) ∧
    status_Phase (job_Status job') = JobPhaseRunning ∧ is_Some (status_RunningTime (job_Status job')) ∧ without_pods new.
Proof.
  assert (Haccept : ∀ log a, answer log a = None) by reflexivity.
  destruct (ex_request_admitted running_pods) as (js & Hadm & _ & Hdep).
  destruct (request_runs_job (C := MemoryCache.t) id (λ _, inr []) (λ _ _, true) (λ _ _, false) ex_request_config (inr []) 7
    NewManager running_pods [] Haccept "standalone" Standalone.methods (ex_framework_of running_pods) (ex_request_job running_pods)
    (ex_request_job running_pods) (ex_request_reads running_pods) (ex_request_state running_pods) js "/job" (λ _, []) (λ _, 0) false)
    as (job' & new & c' & Hrun & Hno & _ & Hphase & Htime & _).
  - exact Hadm.
  - exact Hdep.
  - apply ex_sound.
  - intros role s Hs. exact (ex_request_alike _ CActive PodRunning role s eq_refl eq_refl Hs).
  - exists job', new, c'. split; [exact Hrun|]. split; [exact Hphase|]. split; [|exact Hno]. apply Htime. vm_compute. discriminate.
Defined.
End RunExample.
