(* ===== verification/Collapse.v ===== *)
(** * A job from its first failed pod to its end

    The request that finds enough failed pods of a role: the role fails, and
    the job with it, in the same request. *)

From S2P Require Import Prelude GoStd Errors Regex Kube Api World ReconcilerUtils Examples Webhook Metadata Expectation.
From S2P Require Import Cache Conf Dependence NodeManager PodOrder Phase PodGroup PodGroupSync Pod PodSlices PodCreate Service.
From S2P Require Import Job JobSync Controller Events Publish PhaseCount RolePhase PodReconcile JobPhase.
From S2P Require Import FrameworkBase SimpleFrameworks Bagua Dask Tensorflow Factory Reconcile DefaultPolicy JobProgress RolePods.
From S2P Require Import Request Launch.

Section request.
Context `{MapOrder, Kubeflow, Selectors, ApiServer, JobControllerPorts, JobController, TFConfigText, SortSlice, TerminatedText, Templates}.
Context `{ControllerUtil} {C : Type} `{InterfaceLaws C, PodLister}.
Context (SchemeDefault : AresJob → AresJob) (getServices : ObjectMeta → error + list Service).
Context (spec_eqb : AresJobSpec → AresJobSpec → bool) (status_eqb : JobStatus → JobStatus → bool).
Context (config : Configuration) (hosts : error + list Pod) (now : Z) (nm : Manager) (pods : list Pod) (services : list Service).
Hypothesis accept : ∀ log a, answer log a = None.

Abbreviation admitted := (admitted SchemeDefault getServices spec_eqb status_eqb config hosts now nm pods services).
Abbreviation reconciles := (Reconcile SchemeDefault (the_frameworks getServices) config now spec_eqb).

(** One pod per replica, none to be deleted or restarted, and as many of them
    failed as the failure policy of the role asks for. *)
Definition role_broken (s : option RoleSpec) (role : string) : Prop :=
  ∃ rspec spec n, s = Some rspec ∧ role_ReplicaSpec rspec = Some spec ∧ Replicas spec = Some n ∧ 0 < n < 2 ^ 31 ∧
    kept_pods spec n (mine pods role) ∧ threshold (rpolicy_Failed (role_RolePhasePolicy rspec)) (count nm rspec (mine pods role) CFailed) n.

(** Nothing is planned for it, and it fails. *)
Lemma role_broken_fails `{Controller} job role phase s : spec_RoleSpecs (job_Spec job) !! role = Some s → role_broken s role →
  follows config hosts nm pods job role phase → phase = RolePhaseFailed.
Proof.
  intros Hs (rspec & spec & n & -> & Hsp & Hn & Hpos & Hkept & Hfail) (rspec1 & spec1 & n1 & [Hr1 Hsp1 Hn1 _ _ _ _] & Hrule).
  unfold role_spec in Hr1. rewrite Hs in Hr1. injection Hr1 as <-. assert (spec1 = spec) as -> by congruence.
  assert (n1 = n) as -> by congruence. destruct (kept_plan spec n (mine pods role) Hkept Hpos (last_role_phase job role)) as (Hc & Hd & _).
  unfold creations, deletions, replica_count in Hrule. simpl in Hrule. rewrite Hn in Hrule. simpl in Hrule.
  rewrite Hc, Hd, decide_True in Hrule by done. rewrite <- (kept_counts spec n (mine pods role) Hkept Hpos) in Hfail.
  by destruct Hrule.
Qed.

(** C9: a job fails when its pods do.  Take an admitted job that has not
    failed or ended before and whose roles can be reconciled, and let every
    role that some clause of its failure policy names have one pod per
    replica, none of them to be restarted, of which as many as the failure
    policy of the role asks for count as failed (as those on nodes that are
    down do where it says so).  Then the next request finds these roles and
    the job Failed, whatever the other roles do, for which it still creates
    and deletes pods as planned; it sends the status so with a completion
    time, brings the role cache up to date, and schedules the clean-up if
    failed jobs are to be cleaned up; it ends without error and is not
    repeated.  *)
Theorem request_fails_job name m f aresjob job reads s js key getPods idx b clause :
  (∀ a b, status_eqb a b = true → a = b) →
  admitted name m f aresjob job reads s js key getPods idx → HasDependence (job_Spec job) = Done b → sound_policy job →
  CompletionTime js = None → last_phase job ≠ JobPhaseFailed →
  (∀ role spec rspec, spec_RoleSpecs (job_Spec job) !! role = Some (Some rspec) → role_ReplicaSpec rspec = Some spec →
     ∃ n, @reconcilable _ _ _ _ (controller m) config hosts pods job role rspec spec n) →
  clause ∈ policy_Failed (job_policy job) →
  (∀ role, role ∈ clause → ∃ s0, spec_RoleSpecs (job_Spec job) !! role = Some s0 ∧ role_broken s0 role) →
  ∃ replicas roles job' new c', visits job replicas roles ∧
    reconciles reads s = (Done (no_requeue, None), mkCState (mkWorld job' (the_log (c_world s) ++ new)) c' (c_queue s ++ scheduled config now job')) ∧
    omap created_pod new = (roles ≫= creations pods job) ∧ omap deleted_pod new = (roles ≫= deletions pods) ∧
    Forall (in_phase (statuses job') RolePhaseFailed) clause ∧
    status_Phase (job_Status job') = JobPhaseFailed ∧ is_Some (completion_time job') ∧ UpdateStatus job' ∈ new ∧
    cache_updated b getPods idx aresjob job' (c_cache s) c'.
Proof.
  intros Heqb Hadm Hdep Hsound Hct Hlast Hready Hclause Hbroken.
  edestruct request_rule as (replicas & roles & job' & new & c' & Hvisits & Hrun & Hc & Hd & Hsub & Hroles & Hknown & Hrule & Htime & _ & Hcache & _);
    [exact accept|exact Hadm|exact Hdep|exact Hsound|exact Hready|].
  assert (Forall (in_phase (statuses job') RolePhaseFailed) clause) as Hfailed.
  { apply Forall_forall. intros role Hrole. destruct (Hbroken role Hrole) as (s0 & Hs0 & Hb).
    destruct (Hroles role) as (st & Hst & Hfollow); [by rewrite Hs0|]. exists st. split; [done|].
    by eapply (role_broken_fails (H13 := controller m)). }
  assert (status_Phase (job_Status job') = JobPhaseFailed) as Hphase.
  { assert (policy_met (statuses job') RolePhaseFailed (policy_Failed (job_policy job))) as Hmet.
    { apply Exists_exists. by exists clause. }
    by destruct Hrule. }
  assert (is_Some (completion_time job')) as Hdone by (apply Htime; rewrite Hphase; congruence || done).
  exists replicas, roles, job', new, c'. split_and!; try done. apply Hsub. unfold status_update, completion_time in *.
  destruct Hdone as [t Ht]. destruct (status_JobStatus (job_Status job')) as [js'|]; [|done]. simpl in Ht.
  destruct (status_eqb js js') eqn:Heq; [|left]. apply Heqb in Heq. congruence.
Qed.
End request.

(** ** Witness *)

#[local] Existing Instances canonical_order canonical_sort ex_kubeflow ex_text ex_selectors ex_templates ex_controllerutil
  accepting ex_request_ports ex_request_json ex_request_lister.

(** One of two workers that are not restarted has failed. *)
Definition ex_broken_pods : list Pod := [ex_pod "worker" 1 PodRunning "a"; ex_pod "worker" 0 PodFailed "b"].
#[local] Instance ex_broken_controller : JobController := ex_request_controller ex_broken_pods.

Lemma ex_broken_kept : kept_pods (ex_worker_spec ex_broken_pods) 2 (mine ex_broken_pods "worker").
Proof.
  exists (λ i, if decide (i = 0) then ex_pod "worker" 0 PodFailed "b" else ex_pod "worker" 1 PodRunning "a").
  split; [apply Permutation_swap|]. intros i Hi. assert (i = 0 ∨ i = 1) as [-> | ->] by lia; by split_and!.
Qed.

Lemma request_fails_job_witness :
  ∃ job' new c', Reconcile id (the_frameworks (C := MemoryCache.t) (λ _, inr [])) ex_request_config 7 (λ _ _, true)
      (ex_request_reads ex_broken_pods) (ex_request_state ex_broken_pods) =
      (Done (no_requeue, None), mkCState (mkWorld job' new) c' (scheduled ex_request_config 7 job')) ∧
    status_Phase (job_Status job') = JobPhaseFailed ∧ UpdateStatus job' ∈ new.
Proof.
  assert (Haccept : ∀ log a, answer log a = None) by reflexivity.
  destruct (ex_request_admitted ex_broken_pods) as (js & Hadm & Hct & Hdep).
  destruct (request_fails_job (C := MemoryCache.t) id (λ _, inr []) (λ _ _, true) (λ _ _, false) ex_request_config (inr []) 7
    NewManager ex_broken_pods [] Haccept "standalone" Standalone.methods (ex_framework_of ex_broken_pods)
    (ex_request_job ex_broken_pods) (ex_request_job ex_broken_pods) (ex_request_reads ex_broken_pods)
    (ex_request_state ex_broken_pods) js "/job" (λ _, []) (λ _, 0) false ["worker"])
    as (replicas & roles & job' & new & c' & _ & Hrun & _ & _ & _ & Hphase & _ & Hsent & _).
  - discriminate.
  - exact Hadm.
  - exact Hdep.
  - apply ex_sound.
  - exact Hct.
  - vm_compute. discriminate.
  - intros role spec rspec Hs Hsp. destruct (ex_request_role _ role _ Hs) as [-> Hr]. apply (inj Some) in Hr. subst rspec.
    assert (ex_worker_spec ex_broken_pods = spec) as <- by (unfold ex_worker_spec; rewrite Hsp; reflexivity).
    exists 2. refine (proj1 (kept_in_place (H3 := Standalone.controller) _ _ _ _ _ _ _ _ _ Hsp _ _ ex_broken_kept (ex_request_built _)));
      [vm_compute; reflexivity|reflexivity|by split].
  - vm_compute. left.
  - intros role ->%list_elem_of_singleton. exists (Some (ex_worker_role ex_broken_pods)). split; [vm_compute; reflexivity|].
    exists (ex_worker_role ex_broken_pods), (ex_worker_spec ex_broken_pods), 2.
    split; [reflexivity|]. split; [vm_compute; reflexivity|]. split; [reflexivity|]. split; [by split|].
    split; [exact ex_broken_kept|]. left. split; vm_compute; reflexivity.
  - exists job', new, c'. split; [exact Hrun|]. split; [exact Hphase|exact Hsent].
Defined.
