(* ===== verification/JobConverge.v ===== *)
(** * The pods of a job converge

    The rounds of Converge for all the roles of a job at once: each role's
    requests leave the pods of the others alone, so that all of them reach one
    pod per replica. *)

From S2P Require Import Prelude GoStd Errors Regex Kube Api World ReconcilerUtils Examples Webhook Metadata Expectation.
From S2P Require Import Cache Conf Dependence NodeManager PodOrder Phase PodGroup Pod PodSlices PodCreate Service Job Controller Events.
From S2P Require Import PhaseCount RolePhase PodReconcile Converge JobPhase FrameworkBase SimpleFrameworks Bagua Dask Tensorflow Factory.
From S2P Require Import Reconcile DefaultPolicy JobProgress.

(** ** Settling step by step *)

Section stage.
Context `{Kubeflow, Selectors, AdmissionLaws}.
Context (spec : ReplicaSpec) (n : Z) (rt : string).
Hypothesis positive : 0 < n.

(** The indices in use from the number of replicas on. *)
Definition surplus (pods : list Pod) : nat := Z.to_nat (top spec rt pods - n + 1).

(** At most [k] rounds are left: the first replaces failed pods, one is needed
    for each index to give up, and one fills the gaps. *)
Definition stage (k : nat) (pods : list Pod) : Prop :=
  settled spec n rt pods ∨ (no_restart spec rt pods ∧ surplus pods + 1 ≤ k)%nat ∨ (surplus pods + 2 ≤ k)%nat.

Lemma creates_pending : creates RolePhasePending spec = true.
Proof. unfold creates. by rewrite andb_false_r. Qed.

(** The phase of a role only matters for a role that waits for pods. *)
Lemma plan_phase phase pods : distinct spec rt pods → settled spec n rt pods ∨ creates phase spec = true →
  planned_creations phase spec n (FilterPodsForReplicaType pods rt) =
  planned_creations RolePhasePending spec n (FilterPodsForReplicaType pods rt).
Proof.
  intros Hd Hor. destruct (creates phase spec) eqn:Hc.
  - unfold planned_creations. apply list_bind_ext; [|done]. intros [i [|p l]]; [|done]. simpl. by rewrite Hc, creates_pending.
  - destruct Hor as [Hsettled|]; [|done].
    apply (settled_iff RolePhasePending spec n rt creates_pending positive pods Hd) in Hsettled as [-> _].
    unfold planned_creations. induction (slots _ _ _) as [|[i [|p l]] sl IH]; [done| |done]. csimpl. by rewrite Hc.
Qed.

Lemma settled_top pods : distinct spec rt pods → settled spec n rt pods → top spec rt pods < n.
Proof.
  intros Hd Hsettled. unfold top. destruct (decide (0 < max_index (considered spec rt pods))) as [Hpos|]; [|lia].
  pose proof (max_index_attained _ Hpos) as Hs. specialize (Hsettled (max_index (considered spec rt pods))).
  destruct (slot _ _) as [|p [|q l]]; [done|lia|done].
Qed.

Context (pods : list Pod) (new : list action).
Hypothesis is_distinct : distinct spec rt pods.
Hypothesis small : size spec n rt pods < 2 ^ 63.
Hypothesis planned : does_plan RolePhasePending spec n rt pods new.

Lemma round_settled : settled spec n rt pods → settled spec n rt (after pods new).
Proof using All.
  intros Hsettled i. pose proof (settled_top pods is_distinct Hsettled) as Htop.
  pose proof (round_slots RolePhasePending spec n rt creates_pending positive pods new i is_distinct small planned) as Hround.
  assert (size spec n rt pods = n) as Hsize by (unfold size; unfold top in Htop; lia). rewrite Hsize in Hround.
  simpl in Hround. specialize (Hsettled i). destruct (slot (considered spec rt pods) i) as [|p [|q l]] eqn:Hs; [| |done].
  - rewrite decide_False in Hround by done. by rewrite Hround.
  - destruct Hsettled as [Hi Hdisc]. rewrite decide_False in Hround by done. by rewrite Hround.
Qed.

Lemma stage_round k : stage (S k) pods → stage k (after pods new).
Proof using All.
  assert (top spec rt (after pods new) ≤ Z.max (top spec rt pods - 1) (n - 1)) as Htop
    by (apply (round_top RolePhasePending); try done; apply creates_pending).
  assert (no_restart spec rt (after pods new)) as Hok
    by (apply (round_no_restart RolePhasePending spec n); try done; apply creates_pending).
  unfold stage, surplus. intros [Hsettled|[[Hno Hk]|Hk]].
  - left. by apply round_settled.
  - destruct (decide (top spec rt pods < n)).
    + left. apply (round_fills RolePhasePending); try done; apply creates_pending.
    + right. left. split; [done|lia].
  - right. left. split; [done|lia].
Qed.
End stage.

(** ** The requests of a round, role by role *)

Section requests.
Context `{MapOrder, Kubeflow, Selectors, Templates, Controller, !ControllerLaws}.
Hypothesis selects : ∀ key value labels, SelectorMatches key value labels = true ↔ labels !? key = Some value.
Context (config : Configuration) (hosts : error + list Pod) (roles : list (string * ReplicaSpec)) (job : AresJob).

(** The pods of a role are labelled as pods of no other: they do not carry
    kubeflow's own label of the role. *)
Definition labelled_once (p : string * ReplicaSpec) : Prop :=
  ∀ job' index masterRole t, job_meta job' = job_meta job → job_Spec job' = job_Spec job →
    final_template config hosts job' (ToLower p.1) index p.2 masterRole = Done t →
    meta_Labels (template_meta t) !? Common_ReplicaTypeLabel = None.

Hypothesis once : ∀ p, p ∈ roles → labelled_once p.
Hypothesis apart_names : NoDup (ToLower <$> roles.*1).

Definition for_type (rt : string) (c : option string * option string) : option string :=
  if decide (c.1 = Some rt) then c.2 else None.

Lemma built_created_for rt a : built_by config hosts job roles a →
  created_for rt a = created_pod a ≫= for_type rt ∧ indexed_for rt a ∧
  ∀ t, created_template a = Some t → ∃ p, p ∈ roles ∧ ∀ rt', visible rt' (meta_Labels (template_meta t)) ↔ rt' = ToLower p.1.
Proof.
  intros (p & job' & Hp & Hm & Hs & Hbuilt). destruct a; try done. destruct Hbuilt as (index & masterRole & Ht).
  pose proof (once p Hp job' index masterRole _ Hm Hs Ht) as Hnone.
  destruct (created_labels _ _ _ _ _ _ _ _ Ht) as (Hindex & Htype & _). simpl.
  assert (∀ rt', visible rt' (meta_Labels (template_meta template)) ↔ rt' = ToLower p.1) as Hvis.
  { intros rt'. unfold visible. rewrite !selects, Hnone, Htype. naive_solver. }
  rewrite Htype, Hindex. unfold for_type. simpl. split_and!.
  - repeat case_decide; try done; exfalso; naive_solver.
  - by intros _.
  - intros t [= <-]. by exists p.
Qed.

(** The role of a lower-case name. *)
Lemma role_of_type p q : p ∈ roles → q ∈ roles → ToLower p.1 = ToLower q.1 → p = q.
Proof.
  intros Hp Hq Heq. apply list_elem_of_lookup in Hp as [i Hi], Hq as [j Hj].
  assert (i = j) as ->; [|congruence]. eapply NoDup_lookup; [exact apart_names| |].
  - by rewrite !list_lookup_fmap, Hi.
  - by rewrite !list_lookup_fmap, Hj, Heq.
Qed.

Lemma creations_for pods p : p ∈ roles → omap (for_type (ToLower p.1)) (roles ≫= creations pods job) =
  Itoa <$> planned_creations (last_role_phase job p.1) p.2 (replica_count p.2) (mine pods p.1).
Proof.
  assert (∀ q, omap (for_type (ToLower p.1)) (creations pods job q) = if decide (ToLower q.1 = ToLower p.1)
    then Itoa <$> planned_creations (last_role_phase job q.1) q.2 (replica_count q.2) (mine pods q.1) else []) as Hone.
  { intros q. unfold creations. assert (∀ i, for_type (ToLower p.1) (Some (ToLower q.1), Some (Itoa i)) =
      if decide (ToLower q.1 = ToLower p.1) then Some (Itoa i) else None) as Hi.
    { intros i. unfold for_type. simpl. repeat case_decide; congruence. }
    induction (planned_creations _ _ _ _) as [|i l IH]; csimpl; [by case_decide|]. rewrite Hi, IH. by case_decide. }
  intros Hp. revert apart_names Hp. clear once. induction roles as [|q l IH]; [by intros _ ?%elem_of_nil|]. csimpl.
  intros [Hq Hnd]%NoDup_cons Hp. rewrite omap_app, Hone. apply elem_of_cons in Hp as [->|Hp].
  - rewrite decide_True by done. rewrite <- (app_nil_r (Itoa <$> _)) at 2. f_equal. clear IH.
    assert (∀ r, r ∈ l → ToLower r.1 ≠ ToLower q.1) as Hne.
    { intros r Hr Heq. apply Hq. rewrite <- Heq. apply list_elem_of_fmap_2, list_elem_of_fmap_2, Hr. }
    clear Hq Hnd. induction l as [|r l IH]; [done|]. csimpl. rewrite omap_app, Hone, decide_False by (apply Hne; left).
    apply IH. intros r' Hr'. apply Hne. by right.
  - rewrite decide_False; [by apply IH|]. intros Heq. apply Hq. rewrite Heq. apply list_elem_of_fmap_2, list_elem_of_fmap_2, Hp.
Qed.

Lemma omap_created rt new : all_built config hosts job roles new → omap (created_for rt) new = omap (for_type rt) (omap created_pod new).
Proof.
  induction new as [|a new IH]; intros Hall; [done|].
  assert (created_for rt a = created_pod a ≫= for_type rt) as Ha.
  { destruct (created_pod a) as [c|] eqn:Hc; [|by destruct a]. rewrite <- Hc. apply built_created_for, Hall; [left|by rewrite Hc]. }
  csimpl. rewrite Ha, IH by (intros b Hb; apply Hall; by right). destruct (created_pod a); [|done]. csimpl. by destruct (for_type rt p).
Qed.

(** No pod counts for two roles. *)
Definition apart (pods : list Pod) : Prop :=
  ∀ pod p q, pod ∈ pods → p ∈ roles → q ∈ roles → of_type (ToLower p.1) pod → of_type (ToLower q.1) pod → p = q.

Lemma round_plan pods new p phase : apart pods → p ∈ roles →
  (∀ q, q ∈ roles → 0 < replica_count q.2 ∧ distinct q.2 (ToLower q.1) pods) →
  omap created_pod new = (roles ≫= creations pods job) → omap deleted_pod new = (roles ≫= deletions pods) →
  all_built config hosts job roles new →
  planned_creations (last_role_phase job p.1) p.2 (replica_count p.2) (mine pods p.1) =
    planned_creations phase p.2 (replica_count p.2) (mine pods p.1) →
  does_plan phase p.2 (replica_count p.2) (ToLower p.1) pods new.
Proof.
  intros Hapart Hp Hroles Hc Hd Hbuilt Hphase. split.
  - rewrite omap_created, Hc, creations_for, Hphase by done. done.
  - apply Forall_forall. intros a Ha. destruct (created_pod a) as [c|] eqn:Hca; [|by destruct a].
    apply built_created_for, Hbuilt; [done|by rewrite Hca].
  - intros pod Hpod Htype. rewrite Hd, list_elem_of_bind. split.
    + intros (q & (d & Hkey & Hdq)%list_elem_of_fmap & Hq). destruct (Hroles q Hq) as [Hpos Hdist].
      destruct (planned_in_pods q.2 (replica_count q.2) (ToLower q.1) pods d) as [Hdp Hdt]; [lia|done|done|].
      assert (pod = d) as ->.
      { apply list_elem_of_lookup in Hpod as [i Hi], Hdp as [j Hj]. assert (i = j) as ->; [|congruence].
        eapply NoDup_lookup; [apply Hdist|by rewrite list_lookup_fmap, Hi|by rewrite list_lookup_fmap, Hj, Hkey]. }
      by rewrite (Hapart d p q).
    + intros Hplanned. exists p. split; [|done]. apply list_elem_of_fmap. by exists pod.
Qed.

Lemma apart_after `{!Admission, !AdmissionLaws} pods new : NoDup (pod_key <$> pods) → apart pods →
  all_built config hosts job roles new → apart (after pods new).
Proof.
  intros Hnd Hapart Hbuilt. destruct (spawn_all_spec (survivors new pods) new) as (created & Heq & Hmade & _).
  { eapply sublist_NoDup; [exact Hnd|]. apply (fmap_sublist pod_key), sublist_filter. }
  intros pod p q Hpod Hp Hq Htp Htq. unfold after in Hpod. rewrite Heq in Hpod. apply elem_of_app in Hpod as [Hpod|Hpod].
  - apply list_elem_of_filter in Hpod as [_ Hpod]. by apply (Hapart pod).
  - apply list_elem_of_lookup in Hpod as [i Hi]. destruct (Forall2_lookup_r _ _ _ _ _ Hmade Hi) as (t & Ht & Hlabels & _).
    apply list_elem_of_lookup_2, list_elem_of_omap in Ht as (a & Ha & Hat).
    destruct (built_created_for "" a) as (_ & _ & Hvis).
    { apply Hbuilt; [done|]. destruct a; try done; by eexists. }
    destruct (Hvis t Hat) as (r & Hr & Honly). unfold of_type in Htp, Htq. rewrite Hlabels, Honly in Htp. rewrite Hlabels, Honly in Htq.
    apply role_of_type; [done..|congruence].
Qed.
End requests.

(** ** The rounds of a job *)

Section rounds.
Context `{MapOrder, Kubeflow, Selectors, SortSlice, TerminatedText, Templates, ApiServer, Controller, !ControllerLaws, AdmissionLaws}.
Context (config : Configuration) (hosts : error + list Pod) (now : Z) (nm : Manager).
Context (services : string → ReplicaSpec → op unit) (replicas : gmap string (option ReplicaSpec)) (roles : list (string * ReplicaSpec)).

(** One round: every role is reconciled, and the cluster does what was asked. *)
Definition job_pods_round (w : world) (pods : list Pod) : option (world * list Pod) :=
  match for_each roles (reconcile_role config hosts now nm pods services replicas) w with
  | (Done tt, w') => Some (w', after pods (drop (length (the_log w)) (the_log w')))
  | _ => None
  end.

Fixpoint job_pods_rounds (k : nat) (w : world) (pods : list Pod) : option (world * list Pod) :=
  match k with
  | O => Some (w, pods)
  | S k => match job_pods_round w pods with Some (w', pods') => job_pods_rounds k w' pods' | None => None end
  end.

Hypothesis accepts : ∀ log a, answer log a = None.
Hypothesis selects : ∀ key value labels, SelectorMatches key value labels = true ↔ labels !? key = Some value.
Context (job0 : AresJob) (key : string).
Hypothesis named : KeyFunc (job_meta job0) = Done key.
Hypothesis apart_names : NoDup (ToLower <$> roles.*1).

(** What a role is like as long as the job is not edited: it is complete, with
    replicas; its pods can be built and are labelled as pods of no other role;
    its services are looked after. *)
Record role_sound (p : string * ReplicaSpec) : Prop := {
  sound_spec : ∃ rspec, role_spec (job_Spec job0) p.1 = Some rspec ∧ role_ReplicaSpec rspec = Some p.2;
  sound_replicas : ∃ n, Replicas p.2 = Some n ∧ 0 < n;
  sound_templates : templates_built config hosts job0 p.1 p.2;
  sound_labels : labelled_once config hosts job0 p;
  sound_services : ∀ w, job_meta (the_job w) = job_meta job0 → quiet (services p.1 p.2) w;
}.
Hypothesis sound : ∀ p, p ∈ roles → role_sound p.

(** Its pods: the role still creates pods, unless it needs none. *)
Record role_pods (job : AresJob) (pods : list Pod) (p : string * ReplicaSpec) : Prop := {
  role_pods_distinct : distinct p.2 (ToLower p.1) pods;
  role_pods_few : few p.2 (replica_count p.2) (ToLower p.1) pods;
  role_pods_creates : settled p.2 (replica_count p.2) (ToLower p.1) pods ∨ creates (last_role_phase job p.1) p.2 = true;
}.

(** What every round finds. *)
Record job_pods_ready (w : world) (pods : list Pod) : Prop := {
  jready_meta : job_meta (the_job w) = job_meta job0;
  jready_spec : job_Spec (the_job w) = job_Spec job0;
  jready_status : is_Some (status_JobStatus (job_Status (the_job w)));
  jready_statuses : no_nil_status (statuses (the_job w));
  jready_names : NoDup (pod_key <$> pods);
  jready_apart : apart roles pods;
  jready_roles : ∀ p, p ∈ roles → role_pods (the_job w) pods p;
}.

Lemma sound_count p : p ∈ roles → Replicas p.2 = Some (replica_count p.2) ∧ 0 < replica_count p.2.
Proof. intros Hp. destruct (sound p Hp) as [_ (n & Hn & Hpos) _ _ _]. unfold replica_count. by rewrite Hn. Qed.

Lemma role_names : NoDup roles.*1.
Proof. eapply NoDup_fmap_1. exact apart_names. Qed.

Lemma ready_roles_ready w pods : job_pods_ready w pods → roles_ready config hosts pods services (the_job w) roles.
Proof.
  intros []. apply Forall_forall. intros p Hp. destruct (sound_count p Hp) as [Hn Hpos].
  destruct (sound p Hp) as [(rspec & Hr & Hs) _ Ht _ Hq], (jready_roles0 p Hp) as [Hd Hf _].
  destruct (few_validated _ _ _ Hpos pods Hd Hf) as [Hlen Hsmall]. split; [|by rewrite jready_meta0].
  exists rspec, (replica_count p.2). split; try done.
  - by rewrite jready_spec0.
  - lia.
  - apply Hd.
  - unfold templates_built. by rewrite jready_meta0, jready_spec0.
Qed.

Lemma job_round_run w pods : job_pods_ready w pods →
  ∃ job' new, job_pods_round w pods = Some (mkWorld job' (the_log w ++ new), after pods new) ∧
    job_pods_ready (mkWorld job' (the_log w ++ new)) (after pods new) ∧
    omap created_pod new = (roles ≫= creations pods (the_job w)) ∧ omap deleted_pod new = (roles ≫= deletions pods) ∧
    ∀ p, p ∈ roles → does_plan RolePhasePending p.2 (replica_count p.2) (ToLower p.1) pods new.
Proof.
  intros Hready. pose proof Hready as [].
  destruct (roles_round config hosts now nm pods services replicas roles w key)
    as (job' & new & Hrun & Hc & Hd & Hbuilt & Hkept & Hnil & Hphases); [done|by rewrite jready_meta0|done|done|apply role_names|by apply ready_roles_ready|].
  assert (∀ p, p ∈ roles → labelled_once config hosts (the_job w) p) as Honce.
  { intros p Hp. destruct (sound p Hp) as [_ _ _ Hl _]. unfold labelled_once. by rewrite jready_meta0, jready_spec0. }
  assert (∀ p, p ∈ roles → does_plan RolePhasePending p.2 (replica_count p.2) (ToLower p.1) pods new) as Hplan.
  { intros p Hp. destruct (sound_count p Hp) as [Hn Hpos]. destruct (jready_roles0 p Hp) as [Hdist Hfew Hcr].
    eapply (round_plan selects config hosts roles (the_job w)); try done; [|by apply plan_phase].
    intros q Hq. destruct (sound_count q Hq). by destruct (jready_roles0 q Hq). }
  exists job', new. split_and!; [| |done|done|done].
  { unfold job_pods_round. rewrite Hrun. simpl. by rewrite drop_app_length. }
  split; simpl.
  - by rewrite (kept_meta _ _ _ Hkept).
  - by rewrite (kept_spec _ _ _ Hkept).
  - apply Hkept.
  - done.
  - destruct (spawn_all_spec (survivors new pods) new) as (created & Heq & _ & Hnd); [|unfold after; by rewrite Heq].
    eapply sublist_NoDup; [exact jready_names0|]. apply (fmap_sublist pod_key), sublist_filter.
  - by apply (apart_after selects config hosts roles (the_job w)).
  - intros p Hp. destruct (sound_count p Hp) as [Hn Hpos]. destruct (jready_roles0 p Hp) as [Hdist Hfew Hcr].
    pose proof (few_size _ _ _ _ Hfew) as Hsize. pose proof (Hplan p Hp) as Hdoes. split.
    + by apply (round_distinct RolePhasePending p.2 (replica_count p.2) (ToLower p.1) (creates_pending _) Hpos).
    + by apply (few_after RolePhasePending p.2 (replica_count p.2) (ToLower p.1) (creates_pending _) Hpos).
    + rewrite Forall_forall in Hphases. destruct (Hphases p Hp) as (st & Hst & rspec & spec & n & [Hrole Hsp _ _ _ _ _] & Hfollow).
      assert (spec = p.2) as ->.
      { destruct (sound p Hp) as [(rspec' & Hr' & Hs') _ _ _ _]. rewrite jready_spec0 in Hrole. congruence. }
      destruct Hcr as [Hsettled|Hcr]; [left; by apply round_settled|]. case_decide as Hnone.
      * left. apply round_settled; try done. apply (settled_iff (last_role_phase (the_job w) p.1) _ _ _ Hcr Hpos pods Hdist).
        unfold creations, deletions in Hnone. simpl in Hnone. by destruct Hnone as [?%fmap_nil_inv ?%fmap_nil_inv].
      * right. unfold last_role_phase, role_status_or_new. fold (statuses job'). rewrite Hst. simpl. by rewrite Hfollow.
Qed.

Lemma job_rounds_settle k w pods : job_pods_ready w pods → (∀ p, p ∈ roles → stage p.2 (replica_count p.2) (ToLower p.1) k pods) →
  ∃ w' pods', job_pods_rounds k w pods = Some (w', pods') ∧ job_pods_ready w' pods' ∧
    ∀ p, p ∈ roles → settled p.2 (replica_count p.2) (ToLower p.1) pods'.
Proof.
  revert w pods. induction k as [|k IH]; intros w pods Hready Hstage.
  - exists w, pods. split_and!; [done|done|]. intros p Hp. destruct (Hstage p Hp) as [|[[_ ?]|?]]; [done|lia|lia].
  - destruct (job_round_run w pods Hready) as (job' & new & Hrun & Hready' & _ & _ & Hplan). simpl. rewrite Hrun.
    apply IH; [done|]. intros p Hp. destruct (sound_count p Hp) as [_ Hpos]. destruct (jready_roles _ _ Hready p Hp) as [Hd Hf _].
    apply (stage_round p.2 (replica_count p.2) (ToLower p.1) Hpos pods new Hd); [by eapply few_size|by apply Hplan|by apply Hstage].
Qed.

Lemma job_settled_round w pods : job_pods_ready w pods → (∀ p, p ∈ roles → settled p.2 (replica_count p.2) (ToLower p.1) pods) →
  ∃ w', job_pods_round w pods = Some (w', pods).
Proof.
  intros Hready Hsettled. destruct (job_round_run w pods Hready) as (job' & new & Hrun & _ & Hc & Hd & _).
  eexists. rewrite Hrun. do 2 f_equal.
  assert (∀ p, p ∈ roles → creations pods (the_job w) p = [] ∧ deletions pods p = []) as Hnone.
  { intros p Hp. destruct (sound_count p Hp) as [_ Hpos]. destruct (jready_roles _ _ Hready p Hp) as [Hdist _ _].
    pose proof (Hsettled p Hp) as Hs. unfold creations, deletions, mine. rewrite (plan_phase _ _ _ Hpos) by auto.
    by apply (settled_iff RolePhasePending _ _ _ (creates_pending _) Hpos pods Hdist) in Hs as [-> ->]. }
  assert ((roles ≫= creations pods (the_job w)) = [] ∧ (roles ≫= deletions pods) = []) as [Hc0 Hd0].
  { clear -Hnone. induction roles as [|p l IH]; [done|]. csimpl. destruct (Hnone p) as [-> ->]; [left|]. apply IH. intros q Hq.
    apply Hnone. by right. }
  apply after_idle; [|by rewrite Hd]. rewrite Hc0 in Hc. clear -Hc. induction new as [|a new IH]; [done|].
  destruct a; csimpl in *; try done; by apply IH.
Qed.
End rounds.

(** ** Property *)

(** C5: reconciling the pods of a job terminates.  Take a job whose roles have
    names that differ in lower case, are complete, have replicas, and build
    pods that are labelled as pods of no other role; its pods have different
    names, count for one role at most, and those of a role that are not being
    deleted have different indices; each role still creates pods.  Let the API
    server accept every request, and the pods requested of and deleted from it
    appear and disappear before the next round.  Then after any number of rounds
    that exceeds by two, for every role, the number of its indices from its
    replicas up to the highest in use, every replica of every role has exactly
    one pod, none of them failed with a restart due, no other index has a pod,
    and the next round leaves the pods as they are: the roles do not disturb
    each other, whatever their phases do in between. *)
Theorem job_pods_converge
    `{MapOrder, Kubeflow, Selectors, SortSlice, TerminatedText, Templates, ApiServer, Controller, !ControllerLaws, AdmissionLaws}
    config hosts now nm services replicas roles w pods key k :
  (∀ log a, answer log a = None) →
  (∀ key value labels, SelectorMatches key value labels = true ↔ labels !? key = Some value) →
  KeyFunc (job_meta (the_job w)) = Done key →
  NoDup (ToLower <$> roles.*1) → (∀ p, p ∈ roles → role_sound config hosts services (the_job w) p) →
  is_Some (status_JobStatus (job_Status (the_job w))) → no_nil_status (statuses (the_job w)) →
  NoDup (pod_key <$> pods) → apart roles pods →
  (∀ p, p ∈ roles → distinct p.2 (ToLower p.1) pods ∧ few p.2 (replica_count p.2) (ToLower p.1) pods ∧
     ¬ (RestartPolicy p.2 = RestartPolicyNever ∧ IsRoleStarted (last_role_phase (the_job w) p.1) = true)) →
  (∀ p, p ∈ roles → (Z.to_nat (max_index (considered p.2 (ToLower p.1) pods) - replica_count p.2 + 1) + 2 ≤ k)%nat) →
  ∃ w' pods', job_pods_rounds config hosts now nm services replicas roles k w pods = Some (w', pods') ∧
    (∀ p i, p ∈ roles → match slot (considered p.2 (ToLower p.1) pods') i with
                        | [pod] => 0 ≤ i < replica_count p.2 ∧ ¬ (failed_pod pod = true ∧ restarts p.2 pod = true)
                        | [] => ¬ 0 ≤ i < replica_count p.2
                        | _ => False
                        end) ∧
    ∃ w'', job_pods_round config hosts now nm services replicas roles w' pods' = Some (w'', pods').
Proof.
  intros Haccept Hsel Hkey Hapart Hsound Hjs Hnil Hnames Hone Hroles Hbound.
  assert (job_pods_ready roles (the_job w) w pods) as Hready.
  { split; try done. intros p Hp. destruct (Hroles p Hp) as (Hd & Hf & Hcr). split; [done|done|right].
    unfold creates. destruct (bool_decide_reflect (RestartPolicy p.2 = RestartPolicyNever)), (IsRoleStarted _); naive_solver. }
  destruct (job_rounds_settle config hosts now nm services replicas roles Haccept Hsel (the_job w) key Hkey Hapart Hsound k w pods Hready)
    as (w' & pods' & Hrun & Hready' & Hsettled).
  { intros p Hp. right. right. by apply Hbound. }
  exists w', pods'. split_and!; [exact Hrun| |].
  - intros p i Hp. specialize (Hsettled p Hp i). destruct (slot _ i) as [|pod [|q l]]; [done| |done].
    destruct Hsettled as [? Hdisc]. split; [done|]. intros Hf. apply Hdisc. by right.
  - by eapply (job_settled_round config hosts now nm services replicas roles Haccept Hsel (the_job w) key).
Qed.

(** ** Witness *)

#[local] Existing Instances canonical_order canonical_sort ex_kubeflow ex_text ex_selectors ex_templates base_controller accepting
  ex_admission ex_admission_laws.

(** A master that has no pod yet, and two workers of which one is missing and
    one pod is left over from a larger job. *)
Definition ex_roles_converge : list (string * ReplicaSpec) :=
  [("master", ex_replicas 1 RestartPolicyOnFailure); ("worker", ex_replicas 2 RestartPolicyOnFailure)].
Definition ex_job_converge : AresJob :=
  ex_job "demo" [("master", ex_role 1 RestartPolicyOnFailure); ("worker", ex_role 2 RestartPolicyOnFailure)].
Definition ex_pods_converge : list Pod := [ex_pod "worker" 0 PodRunning "a"; ex_pod "worker" 3 PodRunning "b"].

(** Both are sound. *)
Lemma ex_role_converge p : p ∈ ex_roles_converge → role_sound ex_config (inr []) (λ _ _, mret tt) ex_job_converge p.
Proof.
  intros Hp. repeat (apply elem_of_cons in Hp as [->|Hp]); [| |by apply elem_of_nil in Hp].
  all: split;
    [ eexists; split; reflexivity
    | eexists; split; [reflexivity|reflexivity]
    | intros job Hm Hs i m; unfold final_template, new_pod_template, SetScheduler, SetDependence; rewrite Hm, Hs; eexists; reflexivity
    | intros job index m t Hm Hs Ht; rewrite (final_template_labels _ _ _ _ _ _ _ _ Ht), new_pod_template_labels, Hm;
      unfold pod_labels; destruct m; repeat (rewrite lookup_insert_ne by (vm_compute; discriminate)); vm_compute; reflexivity
    | intros w _; exists []; rewrite app_nil_r; by destruct w ].
Qed.

(** Their pods have different indices, all small, and both create pods. *)
Lemma ex_roles_pods p : p ∈ ex_roles_converge →
  distinct p.2 (ToLower p.1) ex_pods_converge ∧ few p.2 (replica_count p.2) (ToLower p.1) ex_pods_converge ∧
  ¬ (RestartPolicy p.2 = RestartPolicyNever ∧ IsRoleStarted (last_role_phase ex_job_converge p.1) = true).
Proof.
  intros Hp. repeat (apply elem_of_cons in Hp as [->|Hp]); [| |by apply elem_of_nil in Hp].
  all: split; [split|split; [vm_compute; reflexivity|intros [Hnever _]; vm_compute in Hnever; discriminate Hnever]];
    [ vm_compute; repeat constructor; set_solver
    | apply slot_unique; vm_compute; repeat constructor; set_solver
    | repeat (apply Forall_cons; split; [intros i Hi; vm_compute in Hi; injection Hi as <-; lia|]); constructor ].
Qed.

(** Every pod is one of a worker. *)
Lemma ex_pods_apart : apart ex_roles_converge ex_pods_converge.
Proof.
  intros pod p q Hpod Hp Hq.
  repeat (apply elem_of_cons in Hpod as [->|Hpod]); [| |by apply elem_of_nil in Hpod].
  all: repeat (apply elem_of_cons in Hp as [->|Hp]); [| |by apply elem_of_nil in Hp].
  all: repeat (apply elem_of_cons in Hq as [->|Hq]); [| |by apply elem_of_nil in Hq].
  all: intros H1 H2; first [reflexivity|vm_compute in H1; by destruct H1|vm_compute in H2; by destruct H2].
Qed.

Lemma job_pods_converge_witness :
  ∃ w' pods', job_pods_rounds ex_config (inr []) 0 NewManager (λ _ _, mret tt) ∅ ex_roles_converge 5 (mkWorld ex_job_converge [])
      ex_pods_converge = Some (w', pods') ∧
    (∃ pod, slot (considered (ex_replicas 1 RestartPolicyOnFailure) "master" pods') 0 = [pod]) ∧
    slot (considered (ex_replicas 2 RestartPolicyOnFailure) "worker" pods') 3 = [].
Proof.
  destruct (job_pods_converge ex_config (inr []) 0 NewManager (λ _ _, mret tt) ∅ ex_roles_converge (mkWorld ex_job_converge [])
    ex_pods_converge "/job" 5) as (w' & pods' & Hrun & Hslots & _).
  - reflexivity.
  - intros key value labels. simpl. by rewrite bool_decide_eq_true.
  - reflexivity.
  - vm_compute. repeat constructor; set_solver.
  - apply ex_role_converge.
  - by eexists.
  - apply (@map_Forall_intro _ (λ _ rs, is_Some rs) (λ _, is_Some_dec)). vm_compute. reflexivity.
  - vm_compute. repeat constructor; set_solver.
  - apply ex_pods_apart.
  - apply ex_roles_pods.
  - intros p Hp. repeat (apply elem_of_cons in Hp as [->|Hp]); [| |by apply elem_of_nil in Hp]; vm_compute; lia.
  - exists w', pods'. split; [exact Hrun|].
    clear Hrun. pose proof (Hslots ("master", ex_replicas 1 RestartPolicyOnFailure) 0 ltac:(left)) as Hm.
    pose proof (Hslots ("worker", ex_replicas 2 RestartPolicyOnFailure) 3 ltac:(right; left)) as Hw.
    clear Hslots. simpl in Hm, Hw. split.
    + destruct (slot _ 0) as [|pod [|q l]] eqn:Hs in Hm; [exfalso; apply Hm; cbn; lia|exists pod; exact Hs|destruct Hm].
    + destruct (slot _ 3) as [|pod [|q l]] eqn:Hs in Hw; [exact Hs|exfalso; cbn in Hw; lia|destruct Hw].
Defined.
