(* ===== verification/Shares.v ===== *)
(** * The ports of an elastic Bagua job

    Etcd has the first two available ports; the workers share out the others
    by index. *)

From S2P Require Import Prelude GoStd Errors Regex Kube Api World ReconcilerUtils Examples Webhook Metadata Conf Dependence.
From S2P Require Import NodeManager Cache Phase PodGroup Pod PodCreate Service Job.
From S2P Require Import FrameworkBase SimpleFrameworks Bagua Dask Ranks.

(** ** Consecutive chunks of a list *)

Definition chunk {A} (q : nat) (l : list A) (i : Z) : list A := take q (drop (q * Z.to_nat i) l).

Lemma chunks_join {A} (q n : nat) (l : list A) : mjoin (chunk q l <$> seqZ 0 (Z.of_nat n)) = take (q * n) l.
Proof.
  induction n as [|n IH]; [by rewrite Nat.mul_0_r|].
  rewrite Nat2Z.inj_succ, <- Z.add_1_r, seqZ_app by lia. rewrite fmap_app, join_app, IH. simpl. rewrite app_nil_r.
  unfold chunk. replace (Z.to_nat _) with n by lia. replace (q * S n)%nat with (q * n + q)%nat by lia.
  by rewrite take_take_drop.
Qed.

Lemma length_chunk {A} (q n : nat) (l : list A) i : (q * n ≤ length l)%nat → 0 ≤ i < Z.of_nat n → length (chunk q l i) = q.
Proof. intros Hl Hi. unfold chunk. rewrite length_take, length_drop. nia. Qed.

(** ** Private ports *)

(** The ports of each worker. *)
Definition ports_each (rest : list Z) (workers : Z) : nat := Z.to_nat (Z.quot (Z.of_nat (length rest)) workers).

Lemma ports_each_bounds rest workers : 0 < workers → workers ≤ Z.of_nat (length rest) →
  (0 < ports_each rest workers)%nat ∧
  Z.of_nat (ports_each rest workers) * workers ≤ Z.of_nat (length rest) < Z.of_nat (ports_each rest workers) * workers + workers.
Proof.
  intros Hw Hle. unfold ports_each. rewrite Z.quot_div_nonneg by lia.
  pose proof (Z.div_mod (Z.of_nat (length rest)) workers ltac:(lia)) as Hdm.
  pose proof (Z.mod_pos_bound (Z.of_nat (length rest)) workers Hw) as Hm.
  assert (1 ≤ Z.of_nat (length rest) / workers) by (apply Z.div_le_lower_bound; lia).
  rewrite Z2Nat.id by lia. lia.
Qed.

Lemma getPrivatePorts_chunk rest workers i :
  0 < workers → workers ≤ Z.of_nat (length rest) < 2 ^ 63 → 0 ≤ i < workers →
  Bagua.getPrivatePorts rest workers (Itoa i) = Done (chunk (ports_each rest workers) rest i).
Proof.
  intros Hw Hlen Hi. destruct (ports_each_bounds rest workers) as [Hq Hb]; [lia..|].
  unfold Bagua.getPrivatePorts. rewrite decide_False by lia. rewrite Atoi_Itoa by (unfold int64_range; lia). simpl.
  assert (Z.quot (Z.of_nat (length rest)) workers = Z.of_nat (ports_each rest workers)) as ->.
  { unfold ports_each. rewrite Z2Nat.id; [done|]. apply Z.quot_pos; lia. }
  set (q := Z.of_nat (ports_each rest workers)) in *.
  rewrite decide_True by lia.
  assert (wrap64 (i + 1) = i + 1) as -> by (apply wrap64_id; unfold int64_range; lia).
  assert (wrap64 (q * i) = q * i) as -> by (apply wrap64_id; unfold int64_range; nia).
  assert (wrap64 (q * (i + 1)) = q * (i + 1)) as -> by (apply wrap64_id; unfold int64_range; nia).
  unfold slice_range. rewrite decide_True by nia. unfold chunk. do 2 f_equal; [lia|]. f_equal. lia.
Qed.

(** The first container is given the ports, after its own. *)
Definition exposes (t t' : PodTemplateSpec) (ports : list Z) : Prop :=
  ∃ c c', head (pod_Containers (template_Spec t)) = Some c ∧ head (pod_Containers (template_Spec t')) = Some c' ∧
    container_Ports c' = Some (default [] (container_Ports c) ++ (mkContainerPort "" <$> ports)).

Section shares.
Context `{MapOrder, Kubeflow, Selectors, ApiServer, JobControllerPorts, JobController}.

Lemma bagua_elastic_valid job : valid_roles (job_Spec job) → Bagua.enableElastic job = Done true → Bagua.Validate job = Done tt →
  replicas_of (job_Spec job) RoleWorker < 2 ^ 31 - 2 →
  0 < replicas_of (job_Spec job) RoleWorker ∧ replicas_of (job_Spec job) RoleEtcd = 1 ∧
  ∃ p0 p1 rest, spec_AvailablePorts (job_Spec job) = p0 :: p1 :: rest ∧
    replicas_of (job_Spec job) RoleWorker ≤ Z.of_nat (length rest).
Proof.
  intros Hvalid Helastic. unfold Bagua.Validate. rewrite Helastic. simpl. intros ([] & Hroles & Hv)%res_bind_Done Hworkers.
  pose proof (replicas_of_nonneg _ Hvalid RoleWorker) as Hpos.
  rewrite !GetRoleReplicas_valid in Hv by done. simpl in Hv. case_decide as He; [done|]. case_decide as Hp; [done|].
  rewrite wrap32_id in Hp by (unfold int32_range; lia).
  assert (0 < replicas_of (job_Spec job) RoleWorker).
  { unfold CheckRolesExist in Hroles. simpl in Hroles. case_bool_decide as Hw; [|done]. destruct Hw as [s Hs]. unfold role_spec in Hs.
    destruct (spec_RoleSpecs (job_Spec job) !! RoleWorker) as [s'|] eqn:Hl; [|done].
    by destruct (valid_role_spec _ Hvalid _ _ Hl) as (_ & _ & _ & _ & _ & _ & ?). }
  split_and!; [done|lia|].
  destruct (spec_AvailablePorts (job_Spec job)) as [|p0 [|p1 rest]]; [simpl in Hp; lia..|].
  exists p0, p1, rest. split; [done|]. simpl in Hp. lia.
Qed.

(** Cluster specs that append variables to every container and ports to the
    first. *)
Lemma Bagua_cluster_spec job t rtype index envs p ps :
  Bagua.enableElastic job = Done true → pod_Containers (template_Spec t) ≠ [] →
  Bagua.getEnvUnderElasticMode job rtype index = Done envs → Bagua.ports_to_add job rtype index = Done (p :: ps) →
  ∃ t', Bagua.SetClusterSpec job t rtype index = Done t' ∧ exposes t t' (p :: ps) ∧
    ∀ c, c ∈ pod_Containers (template_Spec t') → ∃ c0, ∀ name, getenv name c = getenv name (append_env envs c0).
Proof.
  intros Helastic Ht Henvs Hports. unfold Bagua.SetClusterSpec, Bagua.addEnv, Bagua.addContainerPort.
  rewrite Helastic. simpl. rewrite Henvs. simpl. rewrite (each_container_pure _ (append_env envs)) by done. simpl.
  rewrite Hports. simpl. unfold exposes. destruct (pod_Containers (template_Spec t)) as [|c0 cs]; [done|]. simpl.
  eexists. split; [done|]. simpl. split.
  - exists c0. eexists. by split_and!.
  - intros c [->|(c1 & -> & _)%list_elem_of_fmap]%elem_of_cons; [by exists c0|by exists c1].
Qed.

(** C23: the available ports of an elastic Bagua job are divided without
    overlap.  For a job that the validations accept, with fewer than 2^31 - 2
    workers, and a template with a container, the cluster spec of every pod
    can be built: etcd's pod exposes the first two ports; the shares of the
    workers' pods, in the order of their indices, follow one another in the
    list of the other ports, and fewer ports than there are workers are left
    over.  A worker has at least one port: its first is its SSH port in every
    container, the others are listed as available, and its first container
    exposes them all. *)
Theorem bagua_port_shares job t :
  ValidateCreate job = Done tt → Bagua.enableElastic job = Done true → Bagua.Validate job = Done tt →
  replicas_of (job_Spec job) RoleWorker < 2 ^ 31 - 2 → Z.of_nat (length (spec_AvailablePorts (job_Spec job))) < 2 ^ 63 →
  pod_Containers (template_Spec t) ≠ [] →
  let workers := replicas_of (job_Spec job) RoleWorker in
  ∃ (etcd : list Z) (share : Z → list Z) (unused : list Z),
    spec_AvailablePorts (job_Spec job) = etcd ++ mjoin (share <$> seqZ 0 workers) ++ unused ∧
    length etcd = 2%nat ∧ Z.of_nat (length unused) < workers ∧
    (∃ t', Bagua.SetClusterSpec job t RoleEtcd (Itoa 0) = Done t' ∧ exposes t t' etcd) ∧
    ∀ i, 0 ≤ i < workers → ∃ t' ssh others,
      Bagua.SetClusterSpec job t RoleWorker (Itoa i) = Done t' ∧ share i = ssh :: others ∧ exposes t t' (share i) ∧
      ∀ c, c ∈ pod_Containers (template_Spec t') →
        getenv "BAGUA_SSH_PORT" c = Some (Itoa ssh) ∧ getenv "BAGUA_AVAILABLE_PORTS" c = Some (Join (Itoa <$> others) ",").
Proof.
  intros [_ Hvalid]%ValidateCreate_Done Helastic Hv Hsmall Hlen Ht. change (valid_roles (job_Spec job)) in Hvalid.
  destruct (bagua_elastic_valid job Hvalid Helastic Hv Hsmall) as (Hpos & Hetcd & p0 & p1 & rest & Hports & Hrest).
  set (workers := replicas_of (job_Spec job) RoleWorker) in *. rewrite Hports in Hlen. simpl in Hlen.
  set (q := ports_each rest workers). destruct (ports_each_bounds rest workers) as [Hq Hb]; [done..|]. fold q in Hq, Hb.
  exists [p0; p1], (chunk q rest), (drop (q * Z.to_nat workers) rest).
  assert (∀ l, Bagua.slice_from (p0 :: p1 :: l) 2 = Done l) as Hfrom.
  { intros l. unfold Bagua.slice_from, slice_range. rewrite decide_True by (simpl; lia). simpl. f_equal. apply take_ge. lia. }
  split_and!.
  - rewrite Hports. replace workers with (Z.of_nat (Z.to_nat workers)) at 1 by lia. rewrite chunks_join, take_drop. done.
  - done.
  - rewrite length_drop. lia.
  - edestruct (Bagua_cluster_spec job t RoleEtcd (Itoa 0)) as (t' & Hset & Hexp & _); [done|done| | |exists t'; split; [exact Hset|exact Hexp]].
    + unfold Bagua.getEnvUnderElasticMode. rewrite Hports. simpl. done.
    + unfold Bagua.ports_to_add. rewrite Helastic, Hports. unfold slice_range. simpl. rewrite decide_True by lia. reflexivity.
  - intros i Hi. pose proof (getPrivatePorts_chunk rest workers i Hpos ltac:(lia) Hi) as Hprivate. fold q in Hprivate.
    assert (length (chunk q rest i) = q) as Hchunk.
    { apply (length_chunk q (Z.to_nat workers)); lia. }
    destruct (chunk q rest i) as [|ssh others] eqn:Hshare; [simpl in Hchunk; lia|].
    unfold Bagua.enableElastic in Helastic. apply res_bind_Done in Helastic as (bagua & Hbagua & Hel).
    edestruct (Bagua_cluster_spec job t RoleWorker (Itoa i)) as (t' & Hset & Hexp & Henv);
      [unfold Bagua.enableElastic; by rewrite Hbagua|done| | |exists t', ssh, others; split_and!; [exact Hset|done|exact Hexp|]].
    + unfold Bagua.getEnvUnderElasticMode. rewrite Hports. simpl. rewrite GetRoleReplicas_valid by done. simpl.
      rewrite Hbagua. simpl. rewrite Hfrom. simpl. fold workers. rewrite Hprivate. simpl. done.
    + unfold Bagua.ports_to_add, Bagua.enableElastic. rewrite Hbagua. simpl. injection Hel as ->. simpl. rewrite Hports. simpl.
      rewrite Hfrom. simpl. rewrite GetRoleReplicas_valid by done. simpl. fold workers. exact Hprivate.
    + intros c Hc. destruct (Henv c Hc) as [c0 Hc0]. rewrite !Hc0. split; by apply getenv_append.
Qed.
End shares.

(** ** Witness *)

#[local] Existing Instances canonical_order ex_kubeflow ex_selectors accepting.
#[local] Instance ex_share_ports : JobControllerPorts := {| JobController_GetPortsFromJob _ := Done None |}.
#[local] Instance ex_share_jobs : JobController := {|
  JobController_ReconcileJobs _ _ _ := mret tt;
  JobController_SyncPodGroup job _ := mret (mkPodGroup (job_meta job) PodGroupScheduled []);
|}.

(** Two workers and five ports besides etcd's. *)
Lemma bagua_port_shares_witness :
  let job := ex_job "bagua" [("etcd", ex_named_role 1 "bagua" []); ("worker", ex_named_role 2 "bagua" [])]
    <| job_Spec ::= λ s, mkAresJobSpec None (mkRunPolicy None None) [2379; 2380; 1; 2; 3; 4; 5] "bagua"
         (mkFrameworkSpec (Some (mkBaguaSpec true None None)) None None) (spec_RoleSpecs s) None |> in
  ∃ (etcd : list Z) (share : Z → list Z) (unused : list Z),
    spec_AvailablePorts (job_Spec job) = etcd ++ mjoin (share <$> seqZ 0 2) ++ unused ∧
    length etcd = 2%nat ∧ Z.of_nat (length unused) < 2.
Proof.
  intros job. destruct (bagua_port_shares job ex_template) as (etcd & share & unused & Hports & Hetcd & Hunused & _);
    [vm_compute; first [reflexivity|discriminate]..|].
  exists etcd, share, unused. split; [exact Hports|]. split; [exact Hetcd|exact Hunused].
Defined.
