(* ===== verification/Endpoints.v ===== *)
(** * The cluster of a TensorFlow job

    Every pod of a distributed job is told the endpoints of all pods, and its
    own place among them. *)

From S2P Require Import Prelude GoStd Errors Regex Kube Api World ReconcilerUtils Examples Webhook Metadata Expectation.
From S2P Require Import Cache Conf Dependence NodeManager Phase PodGroup Pod PodCreate Service Job Controller Events.
From S2P Require Import FrameworkBase SimpleFrameworks Bagua Dask Tensorflow Factory Defaulting Ranks.

Section endpoints.
Context `{MapOrder, Kubeflow, Selectors, ApiServer, JobControllerPorts, JobController, TFConfigText}.

(** ** The port of a role *)

(** The port that the user gave to the first container of the framework, or
    the default one. *)
Definition user_port (l : list Container) : Z :=
  match filter (λ c, container_Name c = FrameworkTensorflow) l with
  | c :: _ => default 2222 (port_ContainerPort <$>
                head (filter (λ port, port_Name port = "tfjob-port") (default [] (container_Ports c))))
  | [] => 2222
  end.

Definition role_containers (job : AresJob) (role : string) : list Container :=
  default [] (spec ← role_spec (job_Spec job) role; rs ← role_ReplicaSpec spec; Some (pod_Containers (template_Spec (Template rs)))).

(** The port the user gave is the one that is found after defaulting. *)
Lemma has_port_false c : Tensorflow.has_port c = false →
  filter (λ port, port_Name port = DefaultPortName) (default [] (container_Ports c)) = [].
Proof.
  intros Hno. apply filter_nil_iff. intros port Hin Hport. unfold Tensorflow.has_port in Hno.
  assert (existsb (λ port, bool_decide (port_Name port = DefaultPortName)) (default [] (container_Ports c)) = true) as Hyes; [|congruence].
  apply existsb_exists. exists port. rewrite <- list_elem_of_In. by rewrite bool_decide_eq_true.
Qed.

Lemma has_port_true c : Tensorflow.has_port c = true →
  ∃ port ports, filter (λ port, port_Name port = DefaultPortName) (default [] (container_Ports c)) = port :: ports.
Proof.
  intros (port & Hin & Hport%bool_decide_eq_true)%existsb_exists. rewrite <- list_elem_of_In in Hin.
  destruct (filter _ _) as [|p ps] eqn:Hf; [|by eexists _, _]. exfalso. eapply filter_nil_iff; [exact Hf|exact Hin|exact Hport].
Qed.

Lemma find_port_user l : existsb (λ c, bool_decide (container_Name c = FrameworkTensorflow)) (Tensorflow.setDefaultPort l) = true →
  @find_port Tensorflow.names (Tensorflow.setDefaultPort l) = Done (user_port l).
Proof.
  unfold user_port. induction l as [|c l IH]; simpl; [done|]. case_decide as Hn.
  - intros _. rewrite filter_cons_True by done. simpl. rewrite with_default_port_name, decide_False by by intros Hne.
    unfold Tensorflow.with_default_port. destruct (Tensorflow.has_port c) eqn:Hport.
    + change "tfjob-port" with DefaultPortName. by destruct (has_port_true _ Hport) as (port & ports & ->).
    + simpl. change "tfjob-port" with DefaultPortName. by rewrite filter_app, (has_port_false _ Hport).
  - simpl. rewrite bool_decide_false by done. simpl. rewrite filter_cons_False by done. rewrite decide_True by done. exact IH.
Qed.

(** What defaulting makes of the containers of a role. *)
Lemma run_bodies_containers job role spec spec' : role ∈ Tensorflow.getSpecificRoles →
  run_bodies (Tensorflow.steps job) role spec = Done spec' →
  ∃ rs rs', role_ReplicaSpec spec = Some rs ∧ role_ReplicaSpec spec' = Some rs' ∧
    pod_Containers (template_Spec (Template rs')) = Tensorflow.setDefaultPort (pod_Containers (template_Spec (Template rs))).
Proof.
  intros Hrole Hb.
  assert (∃ hasChief spec0, Tensorflow.default_role_policy hasChief role spec = Done spec0 ∧
    Tensorflow.default_role_port spec0 = Done spec') as (hasChief & spec0 & Hs0 & Hs).
  { unfold Tensorflow.steps, Tensorflow.getSpecificRoles in *. generalize dependent (HasRoles (job_Spec job) [RoleChief]).
    intros hasChief Hb. csimpl in Hb. rewrite !elem_of_cons, elem_of_nil in Hrole.
    destruct Hrole as [-> |[-> |[-> |[-> |[-> |[]]]]]]; select_bodies Hb;
      apply res_bind_Done in Hb as (spec0 & Hs0 & Hb); apply res_bind_Done in Hb as (? & Hb & [= ->]); by exists hasChief, spec0. }
  assert (∀ rs0, role_ReplicaSpec spec0 = Some rs0 → ∃ rs, role_ReplicaSpec spec = Some rs ∧ Template rs0 = Template rs) as Hkeep.
  { intros rs0 Hrs0. unfold Tensorflow.default_role_policy, Tensorflow.restart_workers, update_replica_spec,
      default_failed_if_not_restarted, default_failed, default_succeeded, spec_RestartPolicy in Hs0.
    destruct spec as [[rs|] [f su nd] c d]; simpl in Hs0; [|by repeat (case_decide || simpl in Hs0)].
    exists rs. split; [done|]. repeat (case_decide || simpl in Hs0); simplify_eq/=; done. }
  unfold Tensorflow.default_role_port, update_replica_spec in Hs. destruct (role_ReplicaSpec spec0) as [rs0|]; [|done].
  injection Hs as <-. destruct (Hkeep rs0 eq_refl) as (rs & Hrs & Ht). exists rs. eexists. split_and!; [done|done|]. simpl. by rewrite Ht.
Qed.

(** ** The cluster *)

Definition pod_endpoint (job : AresJob) (role : string) (port i : Z) : string :=
  GetPodDomainName (meta_Name (job_meta job)) (meta_Namespace (job_meta job)) role i +:+ ":" +:+ Itoa port.

Definition role_endpoints (job : AresJob) (role : string) (port : Z) : list string :=
  pod_endpoint job role port <$> indices (replicas_of (job_Spec job) role).

(** The roles of a list that the job has, and their endpoints. *)
Definition cluster_of (job : AresJob) (ports : string → Z) (roles : list string) (cluster : ClusterSpec) : Prop :=
  ∀ role, cluster !! role =
    if decide (role ∈ roles ∧ has_role job role = true) then Some (role_endpoints job role (ports role)) else None.

(** The body of the loop that builds the cluster spec. *)
Definition cluster_step (job : AresJob) (clusterSpec : ClusterSpec) (role : string) : go ClusterSpec :=
  if has_role job role then
    port ← @GetPort Tensorflow.names job role;
    roleDomainNames ← GetRolesDomainNames job [role];
    let endPoints : list string := (λ dn, dn +:+ ":" +:+ Itoa port) <$> roleDomainNames in
    Done (<[role := endPoints]> clusterSpec : ClusterSpec)
  else Done clusterSpec.

(** A role has no more pods than all roles have. *)
Lemma replicas_of_pods spec roles role : valid_roles spec → role ∈ roles → Z.of_nat (length (pods_of spec roles)) < 2 ^ 31 →
  replicas_of spec role < 2 ^ 31.
Proof.
  intros Hvalid Hrole Hsum. pose proof (replicas_of_nonneg _ Hvalid) as Hpos. rewrite length_pods_of in Hsum by done.
  assert (∀ l, 0 ≤ foldr Z.add 0 (replicas_of spec <$> l)) as Hsums.
  { induction l as [|r l IH]; csimpl; [lia|]. specialize (Hpos r). lia. }
  revert Hsum. induction Hrole as [role roles|role r roles _ IH]; csimpl; intros Hsum; specialize (Hsums roles).
  - lia.
  - specialize (Hpos r). apply IH. lia.
Qed.

Lemma slice_get_Done {E A} (l : list A) i x : slice_get (E := E) l i = Done x → l !! Z.to_nat i = Some x.
Proof. unfold slice_get. repeat (case_decide || case_match); naive_solver. Qed.

Lemma genClusterSpec_cluster job ports : valid_roles (job_Spec job) →
  (∀ role, role ∈ Tensorflow.getSpecificRoles → has_role job role = true → @GetPort Tensorflow.names job role = Done (ports role)) →
  ∃ cluster, Tensorflow.genClusterSpec job = Done cluster ∧ cluster_of job ports Tensorflow.getSpecificRoles cluster.
Proof.
  intros Hvalid Hports. change (Tensorflow.genClusterSpec job) with (fold_res (cluster_step job) ∅ Tensorflow.getSpecificRoles).
  enough (∀ l seen cluster, seen ++ l = Tensorflow.getSpecificRoles → cluster_of job ports seen cluster →
    ∃ cluster', fold_res (cluster_step job) cluster l = Done cluster' ∧
      cluster_of job ports Tensorflow.getSpecificRoles cluster') as Hloop.
  { apply (Hloop _ []); [done|]. intros role. by rewrite decide_False by (intros [?%elem_of_nil _]; done). }
  induction l as [|role l IH]; intros seen cluster Hsplit Hcluster; simpl.
  { exists cluster. rewrite app_nil_r in Hsplit. by subst seen. }
  specialize (IH (seen ++ [role])). rewrite <- app_assoc in IH. destruct (has_role job role) eqn:Hrole.
  - assert (cluster_step job cluster role = Done (<[role := role_endpoints job role (ports role)]> cluster)) as ->.
    { unfold cluster_step. rewrite Hrole, Hports by (rewrite <- ?Hsplit; set_solver). simpl.
      rewrite (GetRolesDomainNames_valid _ Hvalid) by done. simpl. by rewrite app_nil_r, <- list_fmap_compose. }
    apply IH; [done|]. intros role'. unfold ClusterSpec in *. rewrite lookup_insert. case_decide as Heq.
    + subst role'. by rewrite decide_True by set_solver.
    + rewrite Hcluster. apply decide_ext. set_solver.
  - assert (cluster_step job cluster role = Done cluster) as -> by (unfold cluster_step; by rewrite Hrole).
    apply IH; [done|]. intros role'. rewrite Hcluster. apply decide_ext. rewrite elem_of_app, list_elem_of_singleton.
    naive_solver congruence.
Qed.

(** ** The place of a pod *)

(** What a pod of a dynamic job is told: a parameter server its own endpoint,
    a worker its own and those of the parameter servers. *)
Definition sparse_cluster (cluster : ClusterSpec) (role : string) (i : Z) (own : string) : SparseClusterSpec :=
  if decide (role = RolePS) then mkSparseClusterSpec ∅ [own]
  else if decide (role = RoleWorker) then mkSparseClusterSpec {[i := own]} (default [] (cluster !! RolePS))
  else mkSparseClusterSpec ∅ [].

Definition task_config (dynamic : bool) (cluster : ClusterSpec) (role : string) (i : Z) (own : string) : go string :=
  if dynamic then json_SparseTFConfig (mkSparseTFConfig (sparse_cluster cluster role i own) (mkTaskSpec role i))
  else json_TFConfig (mkTFConfig cluster (mkTaskSpec role i) "cloud").

Lemma endpoint_cluster job ports cluster role i :
  cluster_of job ports Tensorflow.getSpecificRoles cluster → role ∈ Tensorflow.getSpecificRoles → has_role job role = true →
  0 ≤ i < replicas_of (job_Spec job) role →
  endpoint cluster role i = Done (pod_endpoint job role (ports role) i).
Proof.
  intros Hcluster Hrole Hhas Hi. unfold endpoint. rewrite Hcluster, decide_True by done. simpl. unfold slice_get.
  rewrite decide_False by lia. unfold role_endpoints, indices. rewrite list_lookup_fmap, lookup_seqZ_lt by lia.
  simpl. do 3 f_equal. lia.
Qed.

Lemma has_role_replicas job role : valid_roles (job_Spec job) → 0 < replicas_of (job_Spec job) role → has_role job role = true.
Proof.
  intros Hvalid Hpos. apply has_role_Some. apply not_eq_None_Some. intros Hnone. rewrite (valid_absent _ _ Hnone) in Hpos. lia.
Qed.

Lemma ToLower_specific role : role ∈ Tensorflow.getSpecificRoles → ToLower role = role.
Proof. unfold Tensorflow.getSpecificRoles. rewrite !elem_of_cons, elem_of_nil. by intros [-> |[-> |[-> |[-> |[-> |[]]]]]]. Qed.

Lemma genTFConfig job ports cluster dynamic role i :
  Tensorflow.genClusterSpec job = Done cluster → cluster_of job ports Tensorflow.getSpecificRoles cluster →
  Tensorflow.enableDynamicWorker job = Done dynamic →
  role ∈ Tensorflow.getSpecificRoles → has_role job role = true → 0 ≤ i < replicas_of (job_Spec job) role → i < 2 ^ 31 →
  Tensorflow.genTFConfigJSONStr job role (Itoa i) = task_config dynamic cluster role i (pod_endpoint job role (ports role) i).
Proof.
  intros Hgen Hcluster Hdynamic Hrole Hhas Hi Hsmall. unfold Tensorflow.genTFConfigJSONStr.
  rewrite ParseInt_Itoa by lia. rewrite Hgen. simpl. rewrite Hdynamic. simpl. rewrite ToLower_specific by done.
  unfold task_config. destruct dynamic; [|done]. unfold convertClusterSpecToSparseClusterSpec, sparse_cluster.
  repeat case_decide; rewrite ?(endpoint_cluster _ _ _ _ _ Hcluster) by done; done.
Qed.

Lemma add_config_spec config l :
  existsb (λ c, bool_decide (container_Name c = FrameworkTensorflow)) l = true →
  ∃ c, head (filter (λ c, container_Name c = FrameworkTensorflow) (Tensorflow.add_config config l)) = Some c ∧
    getenv "TF_CONFIG" c = Some config.
Proof.
  induction l as [|c l IH]; simpl; [done|]. case_decide as Hn.
  - intros _. rewrite filter_cons_True by done. simpl. eexists. split; [done|]. by apply getenv_append.
  - rewrite bool_decide_false by done. simpl. intros Hl. rewrite filter_cons_False by done. by apply IH.
Qed.

(** After defaulting and validation, every role of the framework has its port. *)
Lemma checked_container job role : Tensorflow.Validate job = Done tt → role ∈ Tensorflow.getSpecificRoles →
  Tensorflow.check_container job role = Done tt.
Proof.
  unfold Tensorflow.Validate. intros ([] & Hv & _)%res_bind_Done Hrole. revert Hrole Hv.
  induction Tensorflow.getSpecificRoles as [|r l IH]; simpl; [by intros ?%elem_of_nil|].
  intros [->|Hin]%elem_of_cons ([] & Hr & Hl)%res_bind_Done; auto.
Qed.

Lemma defaulted_port `{ControllerUtil} job job1 job' role :
  Tensorflow.SetDefault job = Done job1 → Default job1 = Done job' → Tensorflow.Validate job' = Done tt →
  role ∈ Tensorflow.getSpecificRoles → has_role job' role = true →
  @GetPort Tensorflow.names job' role = Done (user_port (role_containers job role)).
Proof.
  intros Hset Hdefault Hvalidate Hrole Hhas. pose proof (checked_container _ _ Hvalidate Hrole) as Hcheck.
  unfold Tensorflow.check_container in Hcheck. rewrite Hhas in Hcheck.
  unfold Tensorflow.SetDefault in Hset. cbv zeta in Hset. apply run_steps_spec in Hset as (_ & _ & Hroles). specialize (Hroles role).
  apply Default_roles in Hdefault as (_ & Hd & _). specialize (Hd role). simpl in Hroles.
  apply has_role_Some in Hhas as [s' Hs']. unfold role_containers, GetPort, role_spec in *. rewrite Hs' in Hcheck |- *.
  destruct (spec_RoleSpecs (job_Spec job1) !! role) as [s1|] eqn:Hs1; [|congruence].
  destruct Hd as (spec1 & spec2 & -> & Hdr & Hr'). rewrite Hs' in Hr'. injection Hr' as ->. simpl in *.
  destruct (spec_RoleSpecs (job_Spec job) !! role) as [[spec|]|]; [|congruence..].
  destruct Hroles as (spec1' & Hb & [= <-]). apply run_bodies_containers in Hb as (rs & rs' & Hrs & Hrs' & Hcs); [|done].
  simpl. rewrite Hrs. simpl. rewrite default_role_eq in Hdr. injection Hdr as <-. rewrite Hrs' in *. unfold spec_Template in *. simpl in *.
  rewrite Hcs in *. unfold Tensorflow.HasDefaultContainer in Hcheck. rewrite Hcs in Hcheck. apply find_port_user. by destruct (existsb _ _).
Qed.

(** Whether the workers of the job come and go. *)
Definition dynamic_workers (job : AresJob) : bool := from_option EnableDynamicWorker false (fw_Tensorflow (spec_Framework (job_Spec job))).

Lemma defaulted_dynamic `{ControllerUtil} job job1 job' :
  Tensorflow.SetDefault job = Done job1 → Default job1 = Done job' → Tensorflow.enableDynamicWorker job' = Done (dynamic_workers job).
Proof.
  unfold Tensorflow.enableDynamicWorker, dynamic_workers. intros Hset Hdefault. apply Default_roles in Hdefault as (_ & _ & _ & -> & _).
  unfold Tensorflow.SetDefault in Hset. cbv zeta in Hset. apply run_steps_spec in Hset as (_ & -> & _). simpl.
  by destruct (fw_Tensorflow _).
Qed.

(** The sum of the replicas does not overflow. *)
Lemma GetRolesReplicas_valid spec roles : valid_roles spec → Z.of_nat (length (pods_of spec roles)) < 2 ^ 31 →
  GetRolesReplicas spec roles = Done (Z.of_nat (length (pods_of spec roles))).
Proof.
  intros Hvalid. pose proof (replicas_of_nonneg _ Hvalid) as Hpos. rewrite length_pods_of by done. unfold GetRolesReplicas.
  enough (∀ count, 0 ≤ count → count + foldr Z.add 0 (replicas_of spec <$> roles) < 2 ^ 31 →
    fold_res (λ count role, n ← GetRoleReplicas spec role; Done (wrap32 (count + n))) count roles =
      Done (count + foldr Z.add 0 (replicas_of spec <$> roles))) as Hloop by (intros; by apply Hloop).
  induction roles as [|role roles IH]; intros count Hcount Hsum; csimpl in *; [by rewrite Z.add_0_r|].
  assert (0 ≤ foldr Z.add 0 (replicas_of spec <$> roles)).
  { clear -Hpos. induction roles as [|r l IH]; csimpl; [lia|]. specialize (Hpos r). lia. }
  specialize (Hpos role). rewrite (GetRoleReplicas_valid _ Hvalid). simpl. rewrite wrap32_id by (unfold int32_range; lia).
  rewrite IH by lia. f_equal. lia.
Qed.

Lemma several_distributed job : valid_roles (job_Spec job) →
  1 < Z.of_nat (length (pods_of (job_Spec job) Tensorflow.getSpecificRoles)) < 2 ^ 31 → Tensorflow.isDistributed job = Done true.
Proof.
  intros Hvalid [Hmany Hfew]. unfold Tensorflow.isDistributed. rewrite (GetRolesReplicas_valid _ _ Hvalid Hfew).
  revert Hmany. generalize (length (pods_of (job_Spec job) Tensorflow.getSpecificRoles)). intros k Hk. simpl. by rewrite bool_decide_true.
Qed.

(** The roles that take part. *)
Definition tf_roles : list string := ["chief"; "evaluator"; "master"; "ps"; "worker"].

(** C22: every pod of a distributed TensorFlow job learns the cluster and its
    own place in it.  Let defaulting and the validations accept a job of more
    than one pod (and fewer than 2^31).  Then the cluster lists, for each of the
    roles of the framework that the job has and no others, the addresses of its
    pods in the order of their indices, so a pod's own endpoint stands at its
    index; the port in each is the one that the user gave to the framework's
    container of that role, or 2222.  When the configuration is marshalled to a
    non-empty text, the cluster spec of the pod can be built and hands that
    text to the framework's container: the whole cluster, or, for a job of
    dynamic workers, the pod's own endpoint and, for a worker, those of the
    parameter servers. *)
Theorem tensorflow_cluster `{ControllerUtil} job job1 job' t :
  Tensorflow.SetDefault job = Done job1 → Default job1 = Done job' →
  ValidateCreate job' = Done tt → Tensorflow.Validate job' = Done tt →
  1 < Z.of_nat (length (pods_of (job_Spec job') tf_roles)) < 2 ^ 31 →
  Exists (λ c, container_Name c = FrameworkTensorflow) (pod_Containers (template_Spec t)) →
  let port role := user_port (role_containers job role) in
  ∃ cluster, cluster_of job' port tf_roles cluster ∧
    ∀ role i, (role, i) ∈ pods_of (job_Spec job') tf_roles →
      let own := pod_endpoint job' role (port role) i in
      default [] (cluster !! role) !! Z.to_nat i = Some own ∧
      ∀ config, task_config (dynamic_workers job) cluster role i own = Done config → config ≠ "" →
        ∃ t' c, Tensorflow.SetClusterSpec job' t role (Itoa i) = Done t' ∧
          head (filter (λ c, container_Name c = FrameworkTensorflow) (pod_Containers (template_Spec t'))) = Some c ∧
          getenv "TF_CONFIG" c = Some config.
Proof.
  intros Hset Hdefault [_ Hvalid]%ValidateCreate_Done Hvalidate Hcount Ht port. change (valid_roles (job_Spec job')) in Hvalid.
  change tf_roles with Tensorflow.getSpecificRoles in *.
  destruct (genClusterSpec_cluster job' port Hvalid) as (cluster & Hgen & Hcluster).
  { intros role Hrole Hhas. by eapply defaulted_port. }
  pose proof (defaulted_dynamic _ _ _ Hset Hdefault) as Hdynamic.
  exists cluster. split; [done|]. intros role i [Hrole Hi]%elem_of_pods_of own.
  assert (has_role job' role = true) as Hhas by (apply has_role_replicas; [done|lia]).
  assert (replicas_of (job_Spec job') role < 2 ^ 31) as Hsmall by (eapply replicas_of_pods; [done|exact Hrole|lia]).
  pose proof (endpoint_cluster _ _ _ _ _ Hcluster Hrole Hhas Hi) as Hown. split; [by apply slice_get_Done in Hown|].
  intros config Hconfig Hne. unfold Tensorflow.SetClusterSpec. rewrite several_distributed by done. simpl.
  rewrite (genTFConfig _ port cluster (dynamic_workers job)) by (done || lia). fold own. rewrite Hconfig. simpl. rewrite decide_False by done.
  destruct (add_config_spec config (pod_Containers (template_Spec t))) as (c & Hc & Henv); [|by eexists _, c].
  apply existsb_exists. apply Exists_exists in Ht as (c & Hin & Hname). exists c. rewrite <- list_elem_of_In. by rewrite bool_decide_eq_true.
Qed.
End endpoints.

(** ** Witness *)

#[local] Existing Instances canonical_order ex_kubeflow ex_selectors ex_controllerutil accepting.
#[local] Instance ex_endpoint_ports : JobControllerPorts := {| JobController_GetPortsFromJob _ := Done None |}.
#[local] Instance ex_endpoint_jobs : JobController := {|
  JobController_ReconcileJobs _ _ _ := mret tt;
  JobController_SyncPodGroup job _ := mret (mkPodGroup (job_meta job) PodGroupScheduled []);
|}.
#[local] Instance ex_endpoint_json : TFConfigText := {| json_TFConfig _ := Done "{}"; json_SparseTFConfig _ := Done "{}" |}.

(** Two workers with a port of their own and a parameter server with the
    default one. *)
Lemma tensorflow_cluster_witness :
  let container ports := mkContainer FrameworkTensorflow "image" "" [] ports [] [] in
  let t ports := zero_Template <| template_Spec ::= λ s, s <| pod_Containers := [container ports] |> |> in
  let role n ports := mkRoleSpec (Some (mkReplicaSpec (Some n) (t ports) RestartPolicyNever)) zero_RolePhasePolicy ControllerPod None in
  let job := ex_job "tensorflow" [("ps", role 1 None); ("worker", role 2 (Some [mkContainerPort "tfjob-port" 4000]))] in
  ∃ job1 job' (cluster : ClusterSpec), Tensorflow.SetDefault job = Done job1 ∧ Default job1 = Done job' ∧
    cluster_of job' (λ role, user_port (role_containers job role)) tf_roles cluster ∧
    default [] (cluster !! "worker") !! 1%nat = Some "job-worker-1.job-worker..svc.cluster.local:4000".
Proof.
  intros container t role job.
  assert (∃ job1, Tensorflow.SetDefault job = Done job1) as [job1 Hset] by (eexists; vm_compute; reflexivity).
  assert (∃ job', Default job1 = Done job') as [job' Hdefault].
  { vm_compute in Hset. injection Hset as <-. eexists. vm_compute. reflexivity. }
  assert (Hset' := Hset). assert (Hdefault' := Hdefault).
  vm_compute in Hset'. injection Hset' as Heq. rewrite <- Heq in Hdefault'. vm_compute in Hdefault'. injection Hdefault' as Heq'.
  destruct (tensorflow_cluster job job1 job' (t None) Hset Hdefault) as (cluster & Hcluster & Hpods).
  - rewrite <- Heq'. vm_compute. reflexivity.
  - rewrite <- Heq'. vm_compute. reflexivity.
  - rewrite <- Heq'. vm_compute. by split.
  - left. reflexivity.
  - exists job1, job', cluster. split; [exact Hset|]. split; [exact Hdefault|]. split; [exact Hcluster|].
    destruct (Hpods "worker" 1) as [Hown _].
    + rewrite <- Heq'. apply list_elem_of_In. vm_compute. auto 10.
    + change (Z.to_nat 1) with 1%nat in Hown. rewrite Hown. rewrite <- Heq'. vm_compute. reflexivity.
Defined.
