(* ===== verification/Observer.v ===== *)
(** * The observer ([observer/])

    The HTTP server that waiting pods ask for the role cache of a job: it
    answers from the status of the job and its pods. *)

From S2P Require Import Prelude GoStd Errors Regex Kube Api World ReconcilerUtils Examples PodOrder Webhook Metadata.
From S2P Require Import Expectation Cache Conf Dependence NodeManager Phase Pod PodGroup Job Controller Events Publish.

(** ** Error codes ([server/code.go], [code.go]) *)

Record ErrorCode := mkErrorCode {
  Code : string;
  Reason : string;
  HttpCode : Z;
}.

Definition NewErrorCode (code reason : string) (httpCode : Z) : ErrorCode := mkErrorCode code reason httpCode.
(** [http.StatusBadRequest], [StatusNotFound] and [StatusInternalServerError] *)
Definition NewBadRequest (code reason : string) : ErrorCode := mkErrorCode code reason 400.
Definition NewNotFound (code reason : string) : ErrorCode := mkErrorCode code reason 404.
Definition NewInternalError (code reason : string) : ErrorCode := mkErrorCode code reason 500.

Definition InvalidParam : ErrorCode := NewBadRequest "230400" "InvalidParam".
Definition NotFound : ErrorCode := NewNotFound "230404" "NotFound".
Definition UnknownError : ErrorCode := NewInternalError "230500" "UnknownError".

Definition ErrorCode_String (code : ErrorCode) : string :=
  "HTTPCode=" +:+ Itoa (HttpCode code) +:+ ", " +:+ Reason code +:+ "(" +:+ Code code +:+ ")".

(** ** Messages and service errors ([server/server.go]) *)

(** The arguments of a message: strings and errors. *)
Inductive message_arg := StringArg (s : string) | ErrorArg (e : error).
Definition arg_text (a : message_arg) : string :=
  match a with StringArg s => s | ErrorArg e => error_string e end.

(** [fmt.Sprintf] with the verbs [%s] and [%v]. *)
Fixpoint Sprintf (format : string) (args : list message_arg) : string :=
  match format, args with
  | String "%" (String "s" rest), a :: args | String "%" (String "v" rest), a :: args => arg_text a +:+ Sprintf rest args
  | String c rest, _ => String c (Sprintf rest args)
  | EmptyString, _ => ""
  end.

(** A format that is not a string is a failed type assertion. *)
Definition BuildMessage {E : Type} (msgAndArgs : list message_arg) : res E string :=
  match msgAndArgs with
  | [] => Done ""
  | [msg] => Done (arg_text msg)
  | StringArg format :: args => Done (Sprintf format args)
  | ErrorArg _ :: _ => Crash TypeAssertion
  end.

Record ServiceError := mkServiceError {
  error_Code : ErrorCode;
  error_Message : string;
}.

Definition NewServiceError {E : Type} (code : ErrorCode) (msgAndArgs : list message_arg) : res E ServiceError :=
  message ← BuildMessage msgAndArgs; Done (mkServiceError code message).

Definition ServiceError_Error (e : ServiceError) : string := ErrorCode_String (error_Code e) +:+ ": " +:+ error_Message e.

(** The dynamic types of the errors the observer returns. *)
Inductive observer_error :=
| AServiceError (e : ServiceError)
| AnError (e : error).

(** ** Responses ([server/response.go]) *)

Record ErrorResponse := mkErrorResponse {
  response_Code : string;
  response_Message : string;
  response_Error : string;
}.

(** The status of a response and its body. *)
Record Response (A : Type) := mkResponse {
  response_status : Z;
  response_body : ErrorResponse + A;
}.
Arguments mkResponse {A}.
Arguments response_status {A}.
Arguments response_body {A}.

(** [http.StatusOK] *)
Definition Success {E A : Type} (obj : A) : res E (Response A) := Done (mkResponse 200 (inr obj)).

Definition Failure {E A : Type} (errorCode : ErrorCode) (msgAndArgs : list message_arg) : res E (Response A) :=
  message ← BuildMessage msgAndArgs;
  Done (mkResponse (HttpCode errorCode) (inl (mkErrorResponse (Code errorCode) (Reason errorCode) message))).

Definition HandleError {E A : Type} (err : observer_error) : res E (Response A) :=
  match err with
  | AServiceError serviceError => Failure (error_Code serviceError) [StringArg (error_Message serviceError)]
  | AnError err => Failure UnknownError [ErrorArg err]
  end.

(** ** The role cache of a job ([observer.go]) *)

Section observer.
Context `{MapOrder, Kubeflow, SortSlice, PodLister}.
(** [client.Client.Get] *)
Context (Get : string → string → error + AresJob).

Definition GetJob (ns name : string) : error + AresJob := Get ns name.

(** [status.Phase] is read from each status, and the entry built. *)
Definition role_entry (job : AresJob) (pods : list Pod) (role : string) (status : option RoleStatus) : go RoleCache :=
  rs ← deref status; BuildRoleCache job role (role_Phase rs) pods.

Definition job_cache (job : AresJob) (pods : list Pod) : go JobCache :=
  fold_res (λ (jobCache : gmap string RoleCache) '(role, status),
    roleCache ← role_entry job pods role status; Done (<[role := roleCache]> jobCache))
    ∅ (range 0 (contents (status_RoleStatuses (job_Status job)))).

Definition GetJobCache (ns name : string) : res observer_error JobCache :=
  match GetJob ns name with
  | inl err =>
      let code := if IsNotFound err then NotFound else UnknownError in
      e ← NewServiceError code [StringArg "failed to get aresjob for '%s/%s': %v"; StringArg ns; StringArg name; ErrorArg err];
      Fail (AServiceError e)
  | inr job =>
      match GetPodsForJob (job_meta job) with
      | inl err => Fail (AnError (Errorf ("failed to get pods for '" +:+ ns +:+ "/" +:+ name +:+ "': " +:+ error_string err)))
      | inr pods =>
          match job_cache job pods with
          | Done jobCache => Done jobCache
          | Fail err => Fail (AnError err)
          | Crash p => Crash p
          end
      end
  end.

(** ** The handler ([handler/cache.go]) *)

Definition Ping : res Empty_set (Response string) := Success "pong".

(** [GET /cache/keys/:key]; the binding of the parameter is the router's. *)
Definition handler_GetJobCache (bound : error + string) : res Empty_set (Response JobCache) :=
  match bound with
  | inl err => Failure InvalidParam [ErrorArg err]
  | inr key =>
      match KeyToNamespacedName key with
      | Fail err => Failure InvalidParam [ErrorArg err]
      | Crash p => Crash p
      | Done (ns, name) =>
          match GetJobCache ns name with
          | Fail err => HandleError err
          | Crash p => Crash p
          | Done jobCache => Success jobCache
          end
      end
  end.
End observer.

(** ** Lemmas *)

Section properties.
Context `{MapOrder, Kubeflow, SortSlice, PodLister}.

(** The live pods of a role. *)
Definition live_role_pods (role : string) (pods : list Pod) : list Pod :=
  filter (λ p, is_terminating p = false ∧ pod_type p = role) pods.

(** The order by index leaves no choice when the indices differ. *)
Lemma lists_addresses_unique idx role template pods pods' ips ips' :
  live_role_pods role pods ≡ₚ live_role_pods role pods' → NoDup (idx <$> live_role_pods role pods) →
  lists_addresses idx role template pods ips → lists_addresses idx role template pods' ips' → ips = ips'.
Proof.
  intros Hsame Hnd (l & Hl & Hs & ->) (l' & Hl' & Hs' & ->).
  assert (l ≡ₚ l') as Hperm by by rewrite Hl, Hl'.
  assert (NoDup (idx <$> l)) as Hnd' by by rewrite Hl.
  assert (l = l') as ->; [|done].
  apply (StronglySorted_unique_strong (λ p q, idx p ≤ idx q) l l'); [|done..].
  intros p q Hp Hq Hle Hge. assert (idx p = idx q) as Heq by lia.
  rewrite <- Hperm in Hq. apply list_elem_of_lookup in Hp as [i Hi]. apply list_elem_of_lookup in Hq as [j Hj].
  assert (i = j) as ->; [|congruence].
  eapply NoDup_lookup; [exact Hnd'|rewrite list_lookup_fmap, Hi; done|rewrite list_lookup_fmap, Hj; simpl; by rewrite Heq].
Qed.

(** What a role with the status [rs] is reported as. *)
Definition reports (job : AresJob) (pods : list Pod) (idx : Pod → Z) (role : string) (rs : RoleStatus) (data : RoleCache) : Prop :=
  ∃ spec rspec ips, role_spec (job_Spec job) role = Some spec ∧ role_ReplicaSpec spec = Some rspec ∧
    lists_addresses idx role (Template rspec) pods ips ∧
    data = mkRoleCache (role_Phase rs) (bool_decide (role_Phase rs = RolePhaseRunning)) ips.

Definition all_ready (job : AresJob) : Prop :=
  ∀ role status, status_RoleStatuses (job_Status job) !? role = Some status → role_ready job job role status.

(** The cache the observer builds. *)
Lemma job_cache_spec idx job pods :
  index_labelled idx (FilterAlivePods pods) → all_ready job →
  ∃ m, job_cache job pods = Done m ∧
    ∀ role, match status_RoleStatuses (job_Status job) !? role with
    | Some (Some rs) => ∃ data, m !! role = Some data ∧ reports job pods idx role rs data
    | _ => m !! role = None
    end.
Proof.
  intros Hidx Hready.
  assert (∀ role status, contents (status_RoleStatuses (job_Status job)) !! role = Some status →
    ∃ rs data, status = Some rs ∧ role_entry job pods role status = Done data ∧ reports job pods idx role rs data) as Hentry.
  { intros role status Hs. rewrite <- mlookup_contents in Hs. destruct (Hready _ _ Hs) as ([rs ->] & _ & spec & rspec & Hspec & Hrspec).
    destruct (BuildRoleCache_ips idx job role (role_Phase rs) pods spec rspec Hspec Hrspec Hidx) as (ips & Hb & Hips).
    exists rs. eexists. split_and!; [done|exact Hb|]. by exists spec, rspec, ips. }
  destruct (fold_range_update_total (role_entry job pods) (contents (status_RoleStatuses (job_Status job))) 0 ∅) as [m Hm].
  { intros role status Hs. destruct (Hentry _ _ Hs) as (rs & data & _ & ? & _). by exists data. }
  exists m. split; [exact Hm|]. intros role. pose proof (fold_range_update _ _ _ _ _ Hm role) as Hlk.
  rewrite mlookup_contents. destruct (contents _ !! role) as [status|] eqn:Hs; [|by rewrite Hlk, lookup_empty].
  destruct (Hentry _ _ Hs) as (rs & data & -> & Hdata & Hrep). destruct Hlk as (data' & Hdata' & Hlk).
  rewrite Hdata in Hdata'. injection Hdata' as <-. by exists data.
Qed.

(** ** Properties *)

(** C30: the observer's answer for a job agrees with what the operator has
    published.  Asked for the key of a job that exists, whose pods can be
    listed and whose statuses all have their roles, it answers with exactly
    the roles that have a status, each in its present phase with the addresses
    of its live pods by index.  So wherever a role cache holds the entry that
    the operator published for that phase, the observer answers with that very
    entry, provided the two saw the same live pods of the role and these have
    different indices. *)
Theorem observer_agrees (Get : string → string → error + AresJob) {C : Type} `{InterfaceLaws C} idx ns name job pods :
  ContainsByte "."%char ns = false → Get ns name = inr job → GetPodsForJob (job_meta job) = inr pods →
  index_labelled idx (FilterAlivePods pods) → all_ready job →
  ∃ m, handler_GetJobCache Get (inr (NamespacedNameToKey ns name)) = Done (mkResponse 200 (inr m)) ∧
    (∀ role, match status_RoleStatuses (job_Status job) !? role with
     | Some (Some rs) => ∃ data, m !! role = Some data ∧ reports job pods idx role rs data
     | _ => m !! role = None
     end) ∧
    ∀ (c : C) getPods role rs,
      status_RoleStatuses (job_Status job) !? role = Some (Some rs) → published job getPods idx c role rs →
      live_role_pods role (getPods role) ≡ₚ live_role_pods role pods → NoDup (idx <$> live_role_pods role pods) →
      m !! role = entry c (job_key job) role.
Proof.
  intros Hns Hget Hpods Hidx Hready. destruct (job_cache_spec idx job pods Hidx Hready) as (m & Hm & Hroles).
  exists m. split_and!; [|done|].
  - unfold handler_GetJobCache, KeyToNamespacedName, NamespacedNameToKey.
    change (ns +:+ "." +:+ name) with (ns +:+ String "."%char name). rewrite SplitN2_app by done.
    unfold GetJobCache, GetJob. by rewrite Hget, Hpods, Hm.
  - intros c getPods role rs Hrs (spec & rspec & ips & Hspec & Hrspec & Hips & Hent) Hsame Hnd.
    specialize (Hroles role). rewrite Hrs in Hroles.
    destruct Hroles as (data & -> & spec' & rspec' & ips' & Hspec' & Hrspec' & Hips' & ->).
    rewrite Hspec in Hspec'. injection Hspec' as <-. rewrite Hrspec in Hrspec'. injection Hrspec' as <-.
    rewrite Hent. do 2 f_equal.
    eapply (lists_addresses_unique idx role (Template rspec) pods (getPods role)); [done|done|exact Hips'|exact Hips].
Qed.

(** What the observer answers when it cannot answer: a key that the
    router does not bind, or without a dot, is a bad request; a job that is
    not found is reported as such, with its name; any other failure to read
    the job, and a failure to list its pods, is an internal error. *)
Theorem observer_errors (Get : string → string → error + AresJob) ns name :
  ContainsByte "."%char ns = false →
  (∀ err, ∃ e, handler_GetJobCache Get (inl err) = Done (mkResponse 400 (inl e)) ∧ response_Code e = "230400") ∧
  (∀ key, ContainsByte "."%char key = false →
     ∃ e, handler_GetJobCache Get (inr key) = Done (mkResponse 400 (inl e)) ∧ response_Code e = "230400") ∧
  (∀ err, Get ns name = inl err →
     handler_GetJobCache Get (inr (NamespacedNameToKey ns name)) =
       let e := if IsNotFound err then NotFound else UnknownError in
       Done (mkResponse (if IsNotFound err then 404 else 500)
         (inl (mkErrorResponse (Code e) (Reason e)
           ("failed to get aresjob for '" +:+ ns +:+ "/" +:+ name +:+ "': " +:+ error_string err))))) ∧
  (∀ job err, Get ns name = inr job → GetPodsForJob (job_meta job) = inl err →
     ∃ e, handler_GetJobCache Get (inr (NamespacedNameToKey ns name)) = Done (mkResponse 500 (inl e)) ∧
       response_Code e = "230500").
Proof.
  intros Hns.
  assert (KeyToNamespacedName (NamespacedNameToKey ns name) = Done (ns, name)) as Hkey.
  { unfold KeyToNamespacedName, NamespacedNameToKey. change (ns +:+ "." +:+ name) with (ns +:+ String "."%char name).
    by rewrite SplitN2_app. }
  split_and!.
  - intros err. eexists. by split.
  - intros key Hno. eexists. unfold handler_GetJobCache, KeyToNamespacedName. rewrite SplitN2_none by done. by split.
  - intros err Hget. unfold handler_GetJobCache. rewrite Hkey. unfold GetJobCache, GetJob. rewrite Hget. simpl.
    destruct (IsNotFound err); simpl; unfold Failure; simpl; by rewrite string_app_nil.
  - intros job err Hget Hpods. eexists. unfold handler_GetJobCache. rewrite Hkey. unfold GetJobCache, GetJob.
    rewrite Hget, Hpods. by split.
Qed.
End properties.

(** ** Witnesses *)

#[local] Existing Instances canonical_order ex_kubeflow canonical_sort ex_text.
#[local] Instance ex_observed : PodLister := {| ListPods _ _ _ := inr [ex_pod "worker" 0 PodRunning "n"] |}.

(** The cache that [HandleRolePhases_publishes_witness] fills. *)
Lemma observer_agrees_witness :
  let job := ex_publish_job in
  ∃ m, handler_GetJobCache (λ _ _, inr job) (inr (NamespacedNameToKey "ns" "job")) = Done (mkResponse 200 (inr m)) ∧
    ∃ data, m !! "worker" = Some data.
Proof.
  intros job.
  destruct (observer_agrees (C := MemoryCache.t) (λ _ _, inr job) (λ _, 0) "ns" "job" job [ex_pod "worker" 0 PodRunning "n"])
    as (m & Hm & Hroles & _).
  - reflexivity.
  - reflexivity.
  - reflexivity.
  - intros p Hp. apply elem_of_FilterAlivePods in Hp as [_ Hp]. apply list_elem_of_singleton in Hp as ->. split; [lia|reflexivity].
  - intros role status Hrole. rewrite mlookup_contents in Hrole. simpl in Hrole.
    apply lookup_singleton_Some in Hrole as [<- <-].
    split; [by eexists|]. split; [vm_compute; discriminate|]. do 2 eexists. split; vm_compute; reflexivity.
  - exists m. split; [exact Hm|]. specialize (Hroles "worker"). destruct Hroles as (data & Hdata & _). by exists data.
Defined.

Lemma observer_errors_witness :
  let Get := λ _ _ : string, inl (StatusError StatusReasonNotFound "no such job") in
  handler_GetJobCache Get (inr (NamespacedNameToKey "ns" "job")) =
    Done (mkResponse 404 (inl (mkErrorResponse "230404" "NotFound" "failed to get aresjob for 'ns/job': no such job"))).
Proof.
  intros Get. destruct (observer_errors Get "ns" "job" eq_refl) as (_ & _ & Hmissing & _).
  exact (Hmissing (StatusError StatusReasonNotFound "no such job") eq_refl).
Defined.
