(* ===== verification/PodControl.v ===== *)
(** * The pod control ([reconciler/control/pod.go])

    What a pod creation of the reconciler does at the API server: kubeflow's
    pod control with a generated name added. *)

From S2P Require Import Prelude GoStd Errors Kube Api World ReconcilerUtils Examples Metadata Conf Dependence.
From S2P Require Import NodeManager Cache Phase Pod PodCreate.

(** The functions of kubeflow's control package and of the API machinery that
    the pod control calls. *)
Class ControlLibrary := {
  ValidateControllerRef : option OwnerReference → option error;
  GetPodFromTemplate : PodTemplateSpec → ObjectMeta → option OwnerReference → go Pod;
  SelectorEmpty : gomap string → bool;   (* labels.Set(l).AsSelectorPreValidated().Empty() *)
  FailedCreatePodReason : string;
  SuccessfulCreatePodReason : string;
}.

(** As documented: the pod has the metadata and the spec of its template, and
    no labels select everything. *)
Class ControlLaws `{ControlLibrary} : Prop := {
  from_template : ∀ t object ref pod, GetPodFromTemplate t object ref = Done pod →
    meta_Name (pod_meta pod) = meta_Name (template_meta t) ∧ meta_Labels (pod_meta pod) = meta_Labels (template_meta t) ∧
    meta_Controller (pod_meta pod) = ref ∧ pod_Spec pod = template_Spec t;
  selector_empty : ∀ l, SelectorEmpty l = true ↔ contents l = ∅;
}.

Section control.
Context `{ControlLibrary}.
(** The answer of [Pods(namespace).Create]. *)
Context (create : string → Pod → error + Pod).

(** Requests and events, in order. *)
Inductive control_action :=
| PodCreation (ns : string) (pod : Pod)
| ControlEvent (event : Event).

Abbreviation control A := (eff (list control_action) error A).

Definition perform (a : control_action) : control unit := modify (λ l, l ++ [a]).

Definition createPods (nodeName namespace : string) (template : PodTemplateSpec) (object : ObjectMeta)
    (controllerRef : option OwnerReference) : control unit :=
  pod ← lift (GetPodFromTemplate template object controllerRef);
  let pod := mkPod (pod_meta pod <| meta_GenerateName := meta_GenerateName (template_meta template) |>) (pod_Spec pod) (pod_Status pod) in
  let pod := if decide (String.length nodeName ≠ 0%nat)
             then mkPod (pod_meta pod) (pod_Spec pod <| pod_NodeName := nodeName |>) (pod_Status pod) else pod in
  if SelectorEmpty (meta_Labels (pod_meta pod)) then throw (Errorf "unable to create pods, no labels")
  else
    _ ← perform (PodCreation namespace pod);
    match create namespace pod with
    | inl err =>
        _ ← perform (ControlEvent (mkEvent EventTypeWarning FailedCreatePodReason ("Error creating: " +:+ error_string err)));
        throw err
    | inr newPod =>
        perform (ControlEvent (mkEvent EventTypeNormal SuccessfulCreatePodReason ("Created pod: " +:+ meta_Name (pod_meta newPod))))
    end.

Definition CreatePods (namespace : string) (template : PodTemplateSpec) (object : ObjectMeta) : control unit :=
  createPods "" namespace template object None.

Definition CreatePodsWithControllerRef (namespace : string) (template : PodTemplateSpec) (controllerObject : ObjectMeta)
    (controllerRef : option OwnerReference) : control unit :=
  match ValidateControllerRef controllerRef with
  | Some err => throw err
  | None => createPods "" namespace template controllerObject controllerRef
  end.

Definition CreatePodsOnNode (nodeName namespace : string) (template : PodTemplateSpec) (object : ObjectMeta)
    (controllerRef : option OwnerReference) : control unit :=
  match ValidateControllerRef controllerRef with
  | Some err => throw err
  | None => createPods nodeName namespace template object controllerRef
  end.

(** ** The names of the created pods *)

(** Everything but the containers comes from the template of the new pod. *)
Lemma final_template_meta `{MapOrder, Kubeflow, Templates, Controller, !ControllerLaws} config hosts job rt index spec masterRole t :
  final_template config hosts job rt index spec masterRole = Done t →
  meta_Name (template_meta t) = meta_Name (template_meta (named_template (GeneratePodName (meta_Name (job_meta job)) rt index) spec)) ∧
  meta_GenerateName (template_meta t) =
    meta_GenerateName (template_meta (named_template (GeneratePodName (meta_Name (job_meta job)) rt index) spec)).
Proof.
  unfold final_template. intros (t0 & Hc & Hd)%res_bind_Done. apply SetDependence_keeps in Hd as [Hd _].
  apply cluster_spec_meta in Hc. rewrite Hd. unfold SetScheduler.
  destruct (EnableGangScheduling _); simpl; rewrite Hc; unfold new_pod_template;
    destruct (foldl _ _ (range 1 _)) as [a l]; done.
Qed.

(** The reconciler's pods reach the API server under their identity.
    Creating a pod from a template the reconciler built, for a reference the
    library accepts, sends exactly one request, in the given namespace, and
    returns the answer to it, after an event that tells success from failure:
    it is never refused for lack of labels.  The pod has the labels, the spec
    and the owner it was built with; a pod that is never restarted has the
    fixed name of its role and index, and any other has no other name than
    the template's own and that name with a dash as the prefix of a generated
    one. *)
Theorem pod_control_creates `{!ControlLaws} `{MapOrder, Kubeflow, Templates, Controller, !ControllerLaws}
    config hosts job rt index spec masterRole t ref pod0 log :
  final_template config hosts job rt index spec masterRole = Done t →
  ValidateControllerRef ref = None → GetPodFromTemplate t (job_meta job) ref = Done pod0 →
  let ns := meta_Namespace (job_meta job) in
  let name := GeneratePodName (meta_Name (job_meta job)) rt index in
  ∃ pod event, CreatePodsWithControllerRef ns t (job_meta job) ref log =
      (match create ns pod with inl err => Fail err | inr _ => Done tt end, log ++ [PodCreation ns pod; ControlEvent event]) ∧
    event_Type event = (match create ns pod with inl _ => EventTypeWarning | inr _ => EventTypeNormal end) ∧
    meta_Labels (pod_meta pod) = meta_Labels (template_meta t) ∧ pod_Spec pod = template_Spec t ∧
    meta_Controller (pod_meta pod) = ref ∧
    (RestartPolicy spec = RestartPolicyNever → meta_Name (pod_meta pod) = name) ∧
    (RestartPolicy spec ≠ RestartPolicyNever →
     meta_GenerateName (pod_meta pod) = name +:+ "-" ∧ meta_Name (pod_meta pod) = meta_Name (template_meta (Template spec))).
Proof.
  intros Ht Href Hpod ns name. destruct (from_template _ _ _ _ Hpod) as (Hname & Hlabels & Hctl & Hspec).
  destruct (created_labels _ _ _ _ _ _ _ _ Ht) as (Hindex & _). destruct (final_template_meta _ _ _ _ _ _ _ _ Ht) as [Hn Hg].
  set (pod := mkPod (pod_meta pod0 <| meta_GenerateName := meta_GenerateName (template_meta t) |>) (pod_Spec pod0) (pod_Status pod0)).
  assert (SelectorEmpty (meta_Labels (pod_meta pod)) = false) as Hempty.
  { apply not_true_is_false. intros He%selector_empty. simpl in He. rewrite Hlabels in He.
    rewrite mlookup_contents, He in Hindex. by rewrite lookup_empty in Hindex. }
  exists pod. unfold CreatePodsWithControllerRef, createPods. rewrite Href.
  rewrite (eff_bind_Done _ _ _ pod0 log) by (unfold lift; by rewrite Hpod). rewrite decide_False by (by intros []).
  fold pod. rewrite Hempty. rewrite (eff_bind_Done _ _ _ tt (log ++ [PodCreation ns pod])) by done. fold ns.
  destruct (create ns pod) as [err|newPod]; eexists; (split; [unfold perform, modify, mbind, eff_bind, throw; simpl; by rewrite <- app_assoc|]);
    (split; [done|]); unfold pod; simpl; rewrite Hname, Hn, Hg; unfold named_template;
    (split_and!; [done..| |]); intros Hp; first [rewrite decide_True by done|rewrite decide_False by done]; done.
Qed.
End control.

(** ** Witness *)

#[local] Existing Instances canonical_order canonical_sort ex_kubeflow ex_text ex_selectors ex_templates base_controller.
#[local] Instance ex_control : ControlLibrary := {|
  ValidateControllerRef ref := match ref with Some _ => None | None => Some (Errorf "controllerRef is nil") end;
  GetPodFromTemplate t object ref := Done (mkPod
    (mkObjectMeta (meta_Name (template_meta t)) "" "" "" (meta_Labels (template_meta t)) (meta_Annotations (template_meta t))
      None [] ref) (template_Spec t) zero_PodStatus);
  SelectorEmpty l := bool_decide (contents l = ∅);
  FailedCreatePodReason := "FailedCreatePod";
  SuccessfulCreatePodReason := "SuccessfulCreatePod";
|}.
#[local] Instance ex_control_laws : ControlLaws.
Proof.
  constructor; simpl; [|intros l; by rewrite bool_decide_eq_true]. intros t object ref pod [= <-]. by split_and!.
Defined.

Lemma pod_control_creates_witness :
  let job := ex_job "demo" [("worker", ex_role 2 "")] in
  let ref := Some (mkOwnerReference "v1" "AresJob" "job" "uid") in
  ∃ t pod event, final_template ex_config (inr []) job "worker" "0" (ex_replicas 2 RestartPolicyNever) false = Done t ∧
    CreatePodsWithControllerRef (λ _ pod, inr pod) "" t (job_meta job) ref [] =
      (Done tt, [PodCreation "" pod; ControlEvent event]) ∧ meta_Name (pod_meta pod) = "job-worker-0".
Proof.
  intros job ref.
  assert (∃ t, final_template ex_config (inr []) job "worker" "0" (ex_replicas 2 RestartPolicyNever) false = Done t) as [t Ht]
    by (eexists; vm_compute; reflexivity).
  destruct (pod_control_creates (λ _ pod, inr pod) ex_config (inr []) job "worker" "0" (ex_replicas 2 RestartPolicyNever) false
    t ref (mkPod (mkObjectMeta (meta_Name (template_meta t)) "" "" "" (meta_Labels (template_meta t)) (meta_Annotations (template_meta t))
      None [] ref) (template_Spec t) zero_PodStatus) [] Ht) as (pod & event & Hrun & _ & _ & _ & _ & Hname & _);
    [reflexivity|reflexivity|].
  exists t, pod, event. split; [exact Ht|]. split; [exact Hrun|]. apply Hname. reflexivity.
Defined.
