(* ===== verification/Boot.v ===== *)
(** * Starting a process

    Computations that build objects on a heap and make calls to a host (the
    manager of controller-runtime), which may refuse them.  A start-up is a
    plan of calls, carried out until the first that is refused: [does] says
    which plan a computation carries out, and what it leaves in memory when
    all of it is accepted. *)

From S2P Require Import Prelude Errors Heap.

Section boot.
Context {cell act : Type}.
Implicit Types (h : heap cell) (log : list act).

Record boot := mkBoot { b_heap : heap cell; b_log : list act }.

Abbreviation bop A := (eff boot error A).

(** The answer to a call, after the calls made so far. *)
Class Host := { reply : list act → act → option error }.

Definition on_heap {A} (m : mem cell A) : bop A := λ s,
  let '(r, h) := m (b_heap s) in (r, mkBoot h (b_log s)).

(** [*l = t] *)
Definition store `{Stored cell T} (l : positive) (t : T) : mem cell unit := λ h, (Done tt, <[l := inj t]> h).

Section calls.
Context `{Host}.

(** [if err := a; err != nil { return err }] *)
Definition call (a : act) : bop unit := λ s,
  (match reply (b_log s) a with None => Done tt | Some e => Fail e end, mkBoot (b_heap s) (b_log s ++ [a])).

(** A call that cannot fail, or whose error is dropped. *)
Definition call_ (a : act) : bop unit := modify (λ s, mkBoot (b_heap s) (b_log s ++ [a])).

(** ** Plans *)

Inductive step := must (a : act) | may (a : act).
Definition step_call (s : step) : act := match s with must a | may a => a end.
Definition refused (log : list act) (s : step) : option error :=
  match s with must a => reply log a | may _ => None end.

(** The calls made, and the refusal that ended them. *)
Fixpoint attempts (log : list act) (plan : list step) : list act * option error :=
  match plan with
  | [] => ([], None)
  | s :: plan =>
      match refused log s with
      | Some e => ([step_call s], Some e)
      | None => let '(l, r) := attempts (log ++ [step_call s]) plan in (step_call s :: l, r)
      end
  end.

Lemma attempts_cons log s plan :
  attempts log (s :: plan) =
  match refused log s with
  | Some e => ([step_call s], Some e)
  | None => let '(l, r) := attempts (log ++ [step_call s]) plan in (step_call s :: l, r)
  end.
Proof. reflexivity. Qed.

Lemma attempts_app log plan1 plan2 :
  attempts log (plan1 ++ plan2) =
  match attempts log plan1 with
  | (l, Some e) => (l, Some e)
  | (l, None) => let '(l', r) := attempts (log ++ l) plan2 in (l ++ l', r)
  end.
Proof.
  revert log. induction plan1 as [|s plan1 IH]; intros log; simpl.
  - rewrite app_nil_r. by destruct (attempts log plan2).
  - destruct (refused log s); [done|]. rewrite IH. destruct (attempts _ plan1) as [l [e|]]; [done|].
    rewrite <- (assoc_L (++)). simpl. by destruct (attempts _ plan2).
Qed.

(** What is done is a first part of the plan, all of it unless refused, and
    only the last call is refused. *)
Lemma attempts_prefix log plan : ∃ n, (attempts log plan).1 = take n (step_call <$> plan) ∧
  ((attempts log plan).2 = None → n = length plan).
Proof.
  revert log. induction plan as [|s plan IH]; intros log; simpl; [by exists 0%nat|].
  destruct (refused log s) eqn:Hs; simpl; [by exists 1%nat|].
  destruct (IH (log ++ [step_call s])) as (n & Hn & Hall). destruct (attempts _ plan) as [l r]. simpl in *.
  exists (S n). split; [by rewrite Hn|]. intros Hr. by rewrite Hall.
Qed.

Lemma attempts_accepted log plan :
  (∀ log' s, s ∈ plan → refused log' s = None) → attempts log plan = (step_call <$> plan, None).
Proof.
  revert log. induction plan as [|s plan IH]; intros log Hall; simpl; [done|].
  rewrite Hall by by left. rewrite IH; [done|]. intros ???. apply Hall. by right.
Qed.

(** ** What a computation does *)

Definition does {A} h (m : bop A) (plan : list step) (Q : A → heap cell → Prop) : Prop :=
  ∀ log, ∃ h', match attempts log plan with
               | (l, None) => ∃ a, m (mkBoot h log) = (Done a, mkBoot h' (log ++ l)) ∧ Q a h'
               | (l, Some e) => m (mkBoot h log) = (Fail e, mkBoot h' (log ++ l))
               end.

Lemma does_ret {A} h (a : A) Q : Q a h → does h (mret a) [] Q.
Proof. intros HQ log. exists h. exists a. by rewrite app_nil_r. Qed.

Lemma does_heap {A} h (m : mem cell A) a h' (Q : A → heap cell → Prop) :
  m h = (Done a, h') → Q a h' → does h (on_heap m) [] Q.
Proof. intros Hm HQ log. exists h'. exists a. unfold on_heap. simpl. by rewrite Hm, app_nil_r. Qed.

Lemma does_call h a (Q : unit → heap cell → Prop) : Q tt h → does h (call a) [must a] Q.
Proof.
  intros HQ log. exists h. unfold call. simpl. destruct (reply log a); [done|]. by exists tt.
Qed.

Lemma does_call_ h a (Q : unit → heap cell → Prop) : Q tt h → does h (call_ a) [may a] Q.
Proof. intros HQ log. exists h. by exists tt. Qed.

Lemma does_mono {A} h (m : bop A) plan (Q Q' : A → heap cell → Prop) :
  (∀ a h', Q a h' → Q' a h') → does h m plan Q → does h m plan Q'.
Proof.
  intros HQ Hm log. destruct (Hm log) as [h' Hrun]. exists h'. destruct (attempts log plan) as [l [e|]]; [done|].
  destruct Hrun as (a & Hrun & Ha). exists a. auto.
Qed.

Lemma does_bind {A B} h (m : bop A) (k : A → bop B) plan1 plan2 Q S :
  does h m plan1 Q → (∀ a h', Q a h' → does h' (k a) plan2 S) → does h (m ≫= k) (plan1 ++ plan2) S.
Proof.
  intros Hm Hk log. rewrite attempts_app. destruct (Hm log) as [h1 Hrun].
  destruct (attempts log plan1) as [l1 [e|]].
  - exists h1. by apply eff_bind_Fail.
  - destruct Hrun as (a & Hrun & Ha). destruct (Hk a h1 Ha (log ++ l1)) as [h2 Hrun2]. exists h2.
    destruct (attempts (log ++ l1) plan2) as [l2 [e|]]; rewrite (assoc_L (++)).
    + by rewrite (eff_bind_Done _ _ _ _ _ Hrun).
    + destruct Hrun2 as (b & Hrun2 & Hb). exists b. by rewrite (eff_bind_Done _ _ _ _ _ Hrun).
Qed.

(** A step in memory, and a call, followed by the rest. *)
Lemma does_heap_then {A B} h (m : mem cell A) (k : A → bop B) a h' plan S :
  m h = (Done a, h') → does h' (k a) plan S → does h (on_heap m ≫= k) plan S.
Proof.
  intros Hm Hk. apply (does_bind _ _ _ [] _ (λ a' h'', a' = a ∧ h'' = h')); [by eapply does_heap|].
  by intros ?? [-> ->].
Qed.
Lemma does_call_then {B} h a (k : unit → bop B) plan S :
  does h (k tt) plan S → does h (call a ≫= k) (must a :: plan) S.
Proof.
  intros Hk. apply (does_bind _ _ _ [must a] _ (λ _ h', h' = h)); [by apply does_call|]. by intros [] ? ->.
Qed.
Lemma does_call__then {B} h a (k : unit → bop B) plan S :
  does h (k tt) plan S → does h (call_ a ≫= k) (may a :: plan) S.
Proof.
  intros Hk. apply (does_bind _ _ _ [may a] _ (λ _ h', h' = h)); [by apply does_call_|]. by intros [] ? ->.
Qed.
End calls.
End boot.
Arguments boot : clear implicits.
Arguments Host : clear implicits.
Abbreviation bop cell act A := (eff (boot cell act) error A).

(** Reading and writing memory. *)
Section memory.
Context {cell : Type}.

Lemma load_stored `{Stored cell T} (h : heap cell) l t : h !! l = Some (inj t) → load l h = (Done t, h).
Proof. intros Hl. unfold load. rewrite Hl. simpl. by rewrite proj_inj. Qed.

(** What is at a location is not at the next one to be used. *)
Lemma next_ne (h : heap cell) l c : h !! l = Some c → l ≠ next h.
Proof. intros Hl ->. by rewrite lookup_next in Hl. Qed.
End memory.
