(* ===== verification/Setup.v ===== *)
(** * Set-up of the controller ([reconciler/reconciler.go],
    [controllers/aresjob_controller.go])

    The objects that the operator is made of, on a heap: the reconciler, the
    copy of it that each framework embeds, the controller with its table of
    frameworks; and the calls by which the controller is registered with the
    manager.  An interface or a pointer is a location, nil when it is [None];
    what the constructors of the libraries return is known by how it was made. *)

From S2P Require Import Prelude GoStd Errors Heap Regex Kube Api World ReconcilerUtils Examples Webhook Metadata Expectation.
From S2P Require Import Cache Conf Dependence NodeManager Phase PodGroup Pod PodCreate Service Job Controller Events.
From S2P Require Import FrameworkBase SimpleFrameworks Bagua Dask Tensorflow Factory Boot.
From Stdlib Require Import QArith.

Open Scope Z_scope.

(** ** What lies in memory *)

(** [common.JobController] of kubeflow. *)
Record JobControllerS := mkJobControllerS {
  jc_Controller : option positive;
  jc_EnableGangScheduling : bool;    (* Config *)
  jc_PodControl : option positive;
  jc_ServiceControl : option positive;
  jc_KubeClientSet : option positive;
  jc_VolcanoClientSet : option positive;
  jc_PodLister : option positive;
  jc_ServiceLister : option positive;
  jc_PriorityClassLister : option positive;
  jc_PodInformerSynced : option positive;
  jc_ServiceInformerSynced : option positive;
  jc_PriorityClassInformerSynced : option positive;
  jc_Expectations : option positive;
  jc_WorkQueue : option positive;
  jc_Recorder : option positive;
}.
Definition zero_JobController : JobControllerS :=
  mkJobControllerS None false None None None None None None None None None None None None None.

Record ReconcilerS := mkReconcilerS {
  rec_JobController : JobControllerS;
  rec_Client : option positive;
  rec_FrameworkController : option positive;
  rec_Log : option positive;
  rec_Scheme : option positive;
  rec_Cache : option positive;
  rec_Config : option positive;
  rec_NodeManager : option positive;
  rec_PodGroupManager : option positive;
}.

(** A framework: its methods, and the reconciler it embeds. *)
Record FrameworkS := mkFrameworkS { fw_methods : Methods; fw_Reconciler : option positive }.

Record AresJobReconcilerS := mkAresJobReconcilerS {
  ctl_Reconciler : option positive;
  ctl_Frameworks : gomap (option positive);
  ctl_CleanUpQueue : option positive;
}.

(** [rest.Config] of client-go: the fields that the code sets, and the rest as
    the host it names. *)
Record ClientConfig := mkClientConfig { cfg_Host : string; cfg_QPS : Q; cfg_Burst : Z }.

(** An object of a library, by its constructor. *)
Inductive library_object :=
| NewControllerExpectations
| EventRecorderFor (name : string)
| KubernetesClientset (config : ClientConfig)
| VolcanoClientset (config : ClientConfig)
| RealPodControl (KubeClient Recorder : option positive)
| RealServiceControl (KubeClient Recorder : option positive)
| FakeWorkQueue
| NewRateLimitingQueue.

(** [AresJobObserver], and the package variable [observer]. *)
Record AresJobObserverS := mkAresJobObserverS { obs_Client : option positive }.
Record ObserverVar := mkObserverVar { observer : option positive }.

Section cells.
Context `{Templates}.

Inductive cell :=
| cell_Reconciler (t : ReconcilerS)
| cell_Framework (t : FrameworkS)
| cell_AresJobReconciler (t : AresJobReconcilerS)
| cell_ClientConfig (t : ClientConfig)
| cell_Configuration (t : Configuration)
| cell_Cache (t : Cache)
| cell_NodeManager (t : Manager)
| cell_PodGroupManager (cli : option positive)
| cell_Observer (t : AresJobObserverS)
| cell_observer_var (t : ObserverVar)
| cell_object (t : library_object).
#[export] Instance stored_Reconciler : Stored cell ReconcilerS :=
  {| inj := cell_Reconciler; proj c := match c with cell_Reconciler t => Some t | _ => None end; proj_inj t := eq_refl |}.
#[export] Instance stored_FrameworkS : Stored cell FrameworkS :=
  {| inj := cell_Framework; proj c := match c with cell_Framework t => Some t | _ => None end; proj_inj t := eq_refl |}.
#[export] Instance stored_AresJobReconciler : Stored cell AresJobReconcilerS :=
  {| inj := cell_AresJobReconciler; proj c := match c with cell_AresJobReconciler t => Some t | _ => None end; proj_inj t := eq_refl |}.
#[export] Instance stored_ClientConfig : Stored cell ClientConfig :=
  {| inj := cell_ClientConfig; proj c := match c with cell_ClientConfig t => Some t | _ => None end; proj_inj t := eq_refl |}.
#[export] Instance stored_Configuration : Stored cell Configuration :=
  {| inj := cell_Configuration; proj c := match c with cell_Configuration t => Some t | _ => None end; proj_inj t := eq_refl |}.
#[export] Instance stored_Cache : Stored cell Cache :=
  {| inj := cell_Cache; proj c := match c with cell_Cache t => Some t | _ => None end; proj_inj t := eq_refl |}.
#[export] Instance stored_NodeManager : Stored cell Manager :=
  {| inj := cell_NodeManager; proj c := match c with cell_NodeManager t => Some t | _ => None end; proj_inj t := eq_refl |}.
#[export] Instance stored_PodGroupManager : Stored cell (option positive) :=
  {| inj := cell_PodGroupManager; proj c := match c with cell_PodGroupManager t => Some t | _ => None end; proj_inj t := eq_refl |}.
#[export] Instance stored_object : Stored cell library_object :=
  {| inj := cell_object; proj c := match c with cell_object t => Some t | _ => None end; proj_inj t := eq_refl |}.
#[export] Instance stored_Observer : Stored cell AresJobObserverS :=
  {| inj := cell_Observer; proj c := match c with cell_Observer t => Some t | _ => None end; proj_inj t := eq_refl |}.
#[export] Instance stored_observer_var : Stored cell ObserverVar :=
  {| inj := cell_observer_var; proj c := match c with cell_observer_var t => Some t | _ => None end; proj_inj t := eq_refl |}.
End cells.

(** ** The calls of the set-up *)

(** [mgr.GetFieldIndexer().IndexField]: the kind of object, the name of the
    field and the function. *)
Inductive indexing :=
| PodField (field : string) (index : Pod → list string)
| ServiceField (field : string) (index : Service → list string).

(** Method values of the controller, and the [predicate.Funcs] made of them. *)
Inductive method := AddObject_of (r : positive) | UpdateObject_of (r : positive) | DeleteObject_of (r : positive).
Record Funcs := mkFuncs {
  CreateFunc : option method;
  UpdateFunc : option method;
  DeleteFunc : option method;
  GenericFunc : option method;
}.

(** The objects that a controller is told of. *)
Inductive watch :=
| For (kind : string)
| Owns (kind : string) (predicates : option Funcs)
| WatchNodes (manager : option positive) (r : option positive).    (* &NodeEventHandler{...} *)

(** [ctrl.Options] *)
Record ManagerOptions := mkManagerOptions {
  MetricsBindAddress : string;
  mgr_Port : Z;
  HealthProbeBindAddress : string;
  LeaderElectionID : string;
  LeaderElection : bool;
  opt_Namespace : string;
}.

Inductive act :=
| CreateManager (opts : ManagerOptions)
| IndexField (i : indexing)
| Complete (watches : list watch) (MaxConcurrentReconciles : Z) (reconciler : positive)
| Forever (r : positive)                     (* go wait.Forever(...) of setupCleanUpQueue *)
| AddHealthzCheck (name : string)
| AddReadyzCheck (name : string)
| AddServer (Addr : string)                  (* mgr.Add of the observer's server *)
| Start.

(** The manager, and whether clients can be made of a configuration. *)
Class ControllerRuntime := {
  mgr_Client : option positive;
  mgr_Scheme : option positive;
  mgr_Config : option positive;
  mgr_Log : option positive;
  client_config_ok : ClientConfig → bool;
}.

(** [deref] in memory. *)
Definition at_ {cell A : Type} (p : option positive) (f : positive → mem cell A) : mem cell A :=
  match p with
  | Some l => f l
  | None => lift (Crash NilDereference)
  end.

Definition controllerName : string := "ares-operator".

Section setup.
Context `{MapOrder, Kubeflow, Selectors, ApiServer, JobControllerPorts, JobController, TFConfigText, Templates}.
Context `{ControllerRuntime}.

(** ** Objects *)

(** [&T{...}] *)
Definition new `{Stored cell T} (t : T) : mem cell (option positive) := l ← alloc t; mret (Some l).

(** ** The reconciler ([reconciler/reconciler.go]) *)

Definition Reconciler_Close (r : positive) : mem cell unit :=
  t ← load r;
  match rec_Cache t with
  | None => mret tt
  | Some c => cache ← load (T := Cache) c; store c (on_backend MemoryCache.Close cache).2
  end.

(** The copy of a reconciler's struct, without its controllers. *)
Definition copy_of (t : ReconcilerS) : ReconcilerS :=
  let jc := rec_JobController t in
  mkReconcilerS
    (mkJobControllerS None (jc_EnableGangScheduling jc) (jc_PodControl jc) (jc_ServiceControl jc) (jc_KubeClientSet jc)
      (jc_VolcanoClientSet jc) (jc_PodLister jc) (jc_ServiceLister jc) (jc_PriorityClassLister jc) (jc_PodInformerSynced jc)
      (jc_ServiceInformerSynced jc) (jc_PriorityClassInformerSynced jc) (jc_Expectations jc) (jc_WorkQueue jc) (jc_Recorder jc))
    (rec_Client t) None (rec_Log t) (rec_Scheme t) (rec_Cache t) (rec_Config t) (rec_NodeManager t) (rec_PodGroupManager t).

Definition Copy (r : positive) : mem cell positive := t ← load r; alloc (copy_of t).

(** The struct with the controller [c]. *)
Definition controlled (t : ReconcilerS) (c : positive) : ReconcilerS :=
  let jc := rec_JobController t in
  mkReconcilerS
    (mkJobControllerS (Some c) (jc_EnableGangScheduling jc) (jc_PodControl jc) (jc_ServiceControl jc) (jc_KubeClientSet jc)
      (jc_VolcanoClientSet jc) (jc_PodLister jc) (jc_ServiceLister jc) (jc_PriorityClassLister jc) (jc_PodInformerSynced jc)
      (jc_ServiceInformerSynced jc) (jc_PriorityClassInformerSynced jc) (jc_Expectations jc) (jc_WorkQueue jc) (jc_Recorder jc))
    (rec_Client t) (Some c) (rec_Log t) (rec_Scheme t) (rec_Cache t) (rec_Config t) (rec_NodeManager t) (rec_PodGroupManager t).

Definition SetController (r c : positive) : mem cell unit := t ← load r; store r (controlled t c).

(** ** The frameworks *)

(** Every framework has a builder of this form. *)
Definition FrameworkBuilder (m : Methods) (r : option positive) : mem cell positive := alloc (mkFrameworkS m r).

(** [f.SetController(f)]: the method of the reconciler that [f] embeds. *)
Definition Framework_SetController (f : positive) : mem cell unit :=
  t ← load f; at_ (fw_Reconciler t) (λ r, SetController r f).

(** The body of the loop over the builders. *)
Definition setupFramework (r : positive) (m : Methods) : mem cell unit :=
  ctl ← load r;
  at_ (ctl_Reconciler ctl) (λ rec,
    copy ← Copy rec;
    f ← FrameworkBuilder m (Some copy);
    _ ← Framework_SetController f;
    ctl ← load r;
    fs ← lift (minsert (ctl_Frameworks ctl) (GetName m) (Some f));
    store r (mkAresJobReconcilerS (ctl_Reconciler ctl) fs (ctl_CleanUpQueue ctl))).

Definition setupFrameworksS (r : positive) : mem cell unit :=
  ctl ← load r;
  _ ← store r (mkAresJobReconcilerS (ctl_Reconciler ctl) (Some ∅) (ctl_CleanUpQueue ctl));
  for_each (range 0 Factory) (λ '(_, builder), setupFramework r builder).

(** ** The underlying job controller *)

Definition NewForConfigOrDie (object : ClientConfig → library_object) (config : option positive) : mem cell (option positive) :=
  at_ config (λ l, c ← load l; if client_config_ok c then new (object c) else lift (Crash Panicked)).

(** [restConfig.QPS = ...; restConfig.Burst = ...], on the manager's own
    configuration. *)
Definition limitRequests (rec : ReconcilerS) : mem cell unit :=
  at_ mgr_Config (λ restConfig, at_ (rec_Config rec) (λ l,
    config ← load (T := Configuration) l;
    c ← load restConfig;
    store restConfig (mkClientConfig (cfg_Host c) (rest_QPS (GetRestConfig config)) (rest_Burst (GetRestConfig config))))).

Definition setupUnderlyingJobController (r : positive) : mem cell unit :=
  recorder ← new (EventRecorderFor controllerName);
  ctl ← load r;
  at_ (ctl_Reconciler ctl) (λ rec,
    t ← load (T := ReconcilerS) rec;
    _ ← limitRequests t;
    kubeClient ← NewForConfigOrDie KubernetesClientset mgr_Config;
    expectations ← new NewControllerExpectations;
    workQueue ← new FakeWorkQueue;
    kubeClientSet ← NewForConfigOrDie KubernetesClientset mgr_Config;
    volcanoClientSet ← NewForConfigOrDie VolcanoClientset mgr_Config;
    podControl ← new (RealPodControl kubeClient recorder);
    serviceControl ← new (RealServiceControl kubeClient recorder);
    store rec (mkReconcilerS
      (mkJobControllerS None false podControl serviceControl kubeClientSet volcanoClientSet None None None None None None
        expectations workQueue recorder)
      (rec_Client t) (rec_FrameworkController t) (rec_Log t) (rec_Scheme t) (rec_Cache t) (rec_Config t) (rec_NodeManager t)
      (rec_PodGroupManager t))).

Definition newCleanUpQueue (r : positive) : mem cell unit :=
  queue ← new NewRateLimitingQueue;
  ctl ← load r;
  store r (mkAresJobReconcilerS (ctl_Reconciler ctl) (ctl_Frameworks ctl) queue).

(** ** Registration with the manager *)

Context `{Host act}.

Definition setupCleanUpQueue (r : positive) : bop cell act unit :=
  _ ← on_heap (newCleanUpQueue r);
  call_ (Forever r).

Definition setupIndexer : bop cell act unit :=
  _ ← call (IndexField (PodField JobOwnerKey (λ pod, IndexObjectOwner (pod_meta pod))));
  _ ← call (IndexField (PodField ReplicaOwnerKey (λ pod, IndexReplicaOwner (pod_meta pod))));
  _ ← call (IndexField (ServiceField JobOwnerKey (λ service, IndexObjectOwner (service_meta service))));
  _ ← call (IndexField (ServiceField ReplicaOwnerKey (λ service, IndexReplicaOwner (service_meta service))));
  call (IndexField (PodField NodeNameKey IndexNodeName)).

(** What the controller watches, with the reconciler it runs. *)
Definition watches (r : positive) (manager rec : option positive) : list watch :=
  [For "AresJob";
   Owns "Pod" (Some (mkFuncs (Some (AddObject_of r)) (Some (UpdateObject_of r)) (Some (DeleteObject_of r)) None));
   Owns "Service" (Some (mkFuncs (Some (AddObject_of r)) None (Some (DeleteObject_of r)) None));
   Owns "PodGroup" (Some (mkFuncs None (Some (UpdateObject_of r)) None None));
   WatchNodes manager rec].

(** [r.Reconciler.NodeManager], and [r.Reconciler]. *)
Definition get_managers (r : positive) : mem cell (option positive * option positive) :=
  ctl ← load r;
  at_ (ctl_Reconciler ctl) (λ rec, t ← load (T := ReconcilerS) rec; mret (rec_NodeManager t, Some rec)).

Definition SetupWithManager (r : positive) : bop cell act unit :=
  _ ← on_heap (setupUnderlyingJobController r);
  _ ← on_heap (setupFrameworksS r);
  _ ← setupCleanUpQueue r;
  _ ← setupIndexer;
  managers ← on_heap (get_managers r);
  call (Complete (watches r managers.1 managers.2) 10 r).
End setup.
