(* ===== verification/SetupProofs.v ===== *)
(** * The controller once it is set up

    What the set-up of the controller leaves in memory, and the calls it makes
    to the manager. *)

From S2P Require Import Prelude GoStd Errors Heap Regex Kube Api World ReconcilerUtils Examples Webhook Metadata Expectation.
From S2P Require Import Cache Conf Dependence NodeManager Phase PodGroup Pod PodCreate Service Job Controller Events.
From S2P Require Import FrameworkBase SimpleFrameworks Bagua Dask Tensorflow Factory Boot Setup.

Section setup.
Context `{MapOrder, Kubeflow, Selectors, ApiServer, JobControllerPorts, JobController, TFConfigText, Templates}.
Context `{ControllerRuntime}.
Implicit Types (h : heap cell).

(** ** Memory *)

(** From [h] to [h'], only what is at [w] may have changed. *)
Definition keeps (w : positive) h h' : Prop := ∀ l, l ≠ w → is_Some (h !! l) → h' !! l = h !! l.

Lemma keeps_refl w h : keeps w h h.
Proof. done. Qed.
Lemma keeps_trans w h1 h2 h3 : keeps w h1 h2 → keeps w h2 h3 → keeps w h1 h3.
Proof. intros H12 H23 l Hl Hs. rewrite <- (H12 l Hl Hs). apply H23; [done|]. by rewrite (H12 l Hl Hs). Qed.
Lemma keeps_lookup w h h' l c : keeps w h h' → l ≠ w → h !! l = Some c → h' !! l = Some c.
Proof. intros Hk Hl Hc. by rewrite Hk, Hc by (done || by eexists). Qed.

Lemma load_then `{Stored cell T} {A} h l t (k : T → mem cell A) : h !! l = Some (inj t) → (load l ≫= k) h = k t h.
Proof. intros Hl. apply eff_bind_Done. by apply load_stored. Qed.
Lemma alloc_then `{Stored cell T} {A} h t (k : positive → mem cell A) :
  (alloc t ≫= k) h = k (next h) (<[next h := inj t]> h).
Proof. done. Qed.
Lemma new_then `{Stored cell T} {A} h t (k : option positive → mem cell A) :
  (new t ≫= k) h = k (Some (next h)) (<[next h := inj t]> h).
Proof. done. Qed.
Lemma store_then `{Stored cell T} {A} h l t (k : unit → mem cell A) : (store l t ≫= k) h = k tt (<[l := inj t]> h).
Proof. done. Qed.

(** ** One framework *)

Lemma setupFramework_run h r rec fs queue t m :
  h !! r = Some (inj (mkAresJobReconcilerS (Some rec) (Some fs) queue)) → h !! rec = Some (inj t) →
  ∃ f copy h', setupFramework r m h = (Done tt, h') ∧ h !! f = None ∧ h !! copy = None ∧
    h' !! r = Some (inj (mkAresJobReconcilerS (Some rec) (Some (<[GetName m := Some f]> fs)) queue)) ∧
    h' !! f = Some (inj (mkFrameworkS m (Some copy))) ∧ h' !! copy = Some (inj (controlled (copy_of t) f)) ∧
    keeps r h h'.
Proof.
  intros Hr Hrec. pose (copy := next h). pose (h1 := <[copy := inj (copy_of t)]> h). pose (f := next h1).
  pose (h2 := <[f := inj (mkFrameworkS m (Some copy))]> h1). pose (h3 := <[copy := inj (controlled (copy_of t) f)]> h2).
  assert (h !! copy = None) as Hcopy by apply lookup_next. assert (h1 !! f = None) as Hf by apply lookup_next.
  assert (h1 !! copy = Some (inj (copy_of t))) as Hc1 by apply lookup_insert_eq.
  assert (copy ≠ f) as Hne by (by eapply next_ne). assert (h !! f = None) as Hf0 by (unfold h1 in Hf; by rewrite lookup_insert_ne in Hf).
  assert (r ≠ copy) as Hrc by (by eapply next_ne). assert (r ≠ f) as Hrf by (intros ->; congruence).
  assert (h3 !! r = Some (inj (mkAresJobReconcilerS (Some rec) (Some fs) queue))) as Hr3 by (unfold h3, h2, h1; by rewrite !lookup_insert_ne).
  assert (h2 !! f = Some (inj (mkFrameworkS m (Some copy)))) as Hf2 by apply lookup_insert_eq.
  assert (h2 !! copy = Some (inj (copy_of t))) as Hc2 by (unfold h2; by rewrite lookup_insert_ne).
  exists f, copy, (<[r := inj (mkAresJobReconcilerS (Some rec) (Some (<[GetName m := Some f]> fs)) queue)]> h3).
  split_and!; [|done|done|apply lookup_insert_eq|..].
  - unfold setupFramework. rewrite (load_then _ _ _ _ Hr). simpl. unfold Copy.
    assert (∀ A (k : positive → mem cell A), ((t ← load rec; alloc (copy_of t)) ≫= k) h = k copy h1) as ->.
    { intros A k. unfold mbind, eff_bind, load. rewrite Hrec. reflexivity. }
    change (FrameworkBuilder m (Some copy)) with (alloc (mkFrameworkS m (Some copy))). rewrite alloc_then. fold f h2.
    assert (Framework_SetController f h2 = (Done tt, h3)) as Hset.
    { unfold Framework_SetController. rewrite (load_then _ _ _ _ Hf2). simpl. unfold SetController. by rewrite (load_then _ _ _ _ Hc2). }
    rewrite (eff_bind_Done _ _ _ _ _ Hset). rewrite (load_then _ _ _ _ Hr3). reflexivity.
  - rewrite lookup_insert_ne by done. unfold h3. by rewrite lookup_insert_ne.
  - rewrite lookup_insert_ne by done. apply lookup_insert_eq.
  - intros l Hl [c Hc]. rewrite lookup_insert_ne by done. assert (l ≠ copy ∧ l ≠ f) as [Hlc Hlf] by (split; congruence).
    unfold h3, h2, h1. by rewrite !lookup_insert_ne.
Qed.

(** ** All frameworks *)

(** In [h], the framework registered under [name] is [m], on its own copy of
    the reconciler [t], which calls back that framework; both are new since
    [h0]. *)
Definition framework_at h0 h (t : ReconcilerS) (fs : gmap string (option positive)) (name : string) (m : Methods) : Prop :=
  ∃ f copy, fs !! name = Some (Some f) ∧ h0 !! f = None ∧ h0 !! copy = None ∧
    h !! f = Some (inj (mkFrameworkS m (Some copy))) ∧ h !! copy = Some (inj (controlled (copy_of t) f)).

(** The frameworks of [l] are there, and no others. *)
Definition installed h0 h (t : ReconcilerS) (fs : gmap string (option positive)) (l : list (string * Methods)) : Prop :=
  (∀ name, name ∉ l.*1 → fs !! name = None) ∧ ∀ name m, (name, m) ∈ l → framework_at h0 h t fs name m.

Lemma setupFrameworks_loop h0 l : ∀ done h r rec fs queue t,
  NoDup (done ++ l).*1 → (∀ name m, (name, m) ∈ l → GetName m = name) →
  h !! r = Some (inj (mkAresJobReconcilerS (Some rec) (Some fs) queue)) → h !! rec = Some (inj t) → rec ≠ r →
  is_Some (h0 !! r) → keeps r h0 h → installed h0 h t fs done →
  ∃ h' fs', for_each l (λ '(_, builder), setupFramework r builder) h = (Done tt, h') ∧ keeps r h0 h' ∧
    h' !! r = Some (inj (mkAresJobReconcilerS (Some rec) (Some fs') queue)) ∧ h' !! rec = Some (inj t) ∧
    installed h0 h' t fs' (done ++ l).
Proof.
  induction l as [|[name m] l IH]; intros ready h r rec fs queue t Hnd Hname Hr Hrec Hne H0r Hk Hin.
  { exists h, fs. rewrite app_nil_r. by split_and!. }
  destruct (setupFramework_run h r rec fs queue t m Hr Hrec) as (f & copy & h1 & Hrun & Hf & Hc & Hr1 & Hf1 & Hc1 & Hk1).
  assert (GetName m = name) as Hm by (apply Hname; by left). rewrite Hm in Hr1.
  assert (∀ x, h !! x = None → h0 !! x = None) as Hnew.
  { intros x Hx. destruct (h0 !! x) as [c|] eqn:Hx0; [|done]. destruct (decide (x = r)) as [->|Hxr]; [congruence|].
    by rewrite (keeps_lookup _ _ _ _ _ Hk Hxr Hx0) in Hx. }
  rewrite (cons_middle (name, m) ready l), (assoc_L (++)) in Hnd.
  destruct (IH (ready ++ [(name, m)]) h1 r rec (<[name := Some f]> fs) queue t) as (h' & fs' & Hloop & Hk' & Hr' & Hrec' & Hin').
  - done.
  - intros ???. apply Hname. by right.
  - done.
  - by eapply keeps_lookup.
  - done.
  - done.
  - by eapply keeps_trans.
  - destruct Hin as [Hout Hin]. split.
    + intros n Hn. rewrite fmap_app, not_elem_of_app in Hn. destruct Hn as [Hn1 Hn2]. rewrite lookup_insert_ne; [by apply Hout|].
      intros ->. apply Hn2. by left.
    + intros n m' [Hn|Hn]%elem_of_app.
      * destruct (Hin n m' Hn) as (f' & copy' & Hfs & Hf0 & Hc0 & Hf' & Hc'). exists f', copy'.
        assert (r ≠ f' ∧ r ≠ copy') as [Hrf Hrc] by (destruct H0r as [? H0r]; split; congruence).
        split_and!; [|done|done|by eapply keeps_lookup|by eapply keeps_lookup]. rewrite lookup_insert_ne; [done|].
        intros ->. rewrite fmap_app, NoDup_app in Hnd. destruct Hnd as (Hnd & _). rewrite fmap_app, NoDup_app in Hnd.
        destruct Hnd as (_ & Hnd & _). apply (Hnd n); [by apply (list_elem_of_fmap_2 fst) in Hn|by left].
      * apply list_elem_of_singleton in Hn as [= -> ->]. exists f, copy. split_and!; [apply lookup_insert_eq|by apply Hnew|by apply Hnew|done|done].
  - exists h', fs'. rewrite <- (assoc_L (++)) in Hin'. split_and!; [|done..]. unfold for_each in *. simpl. by rewrite (eff_bind_Done _ _ _ _ _ Hrun).
Qed.

Lemma setupFrameworksS_run h r rec fs queue t :
  h !! r = Some (inj (mkAresJobReconcilerS (Some rec) fs queue)) → h !! rec = Some (inj t) →
  ∃ h' fs', setupFrameworksS r h = (Done tt, h') ∧ keeps r h h' ∧
    h' !! r = Some (inj (mkAresJobReconcilerS (Some rec) (Some fs') queue)) ∧ h' !! rec = Some (inj t) ∧
    ∀ name, match Factory !! name with Some m => framework_at h h' t fs' name m | None => fs' !! name = None end.
Proof.
  intros Hr Hrec. assert (rec ≠ r) as Hne by (intros ->; rewrite Hr in Hrec; discriminate Hrec).
  pose (h1 := <[r := inj (mkAresJobReconcilerS (Some rec) (Some ∅) queue)]> h).
  destruct (setupFrameworks_loop h (range 0 Factory) [] h1 r rec ∅ queue t) as (h' & fs' & Hloop & Hk & Hr' & Hrec' & Hout & Hin).
  - simpl. change (NoDup (range_keys 0 Factory)). apply NoDup_range_keys.
  - intros name m Hin%elem_of_range. revert name m Hin. by apply Factory_cases.
  - apply lookup_insert_eq.
  - unfold h1. by rewrite lookup_insert_ne.
  - done.
  - by eexists.
  - intros l Hl _. unfold h1. by rewrite lookup_insert_ne.
  - split; [done|]. intros name m Hin. by apply not_elem_of_nil in Hin.
  - exists h', fs'. split_and!; [|done..|].
    + unfold setupFrameworksS. rewrite (load_then _ _ _ _ Hr). by rewrite store_then.
    + intros name. destruct (Factory !! name) as [m|] eqn:Hm.
      * apply Hin. by apply elem_of_range.
      * apply Hout. intros ([n m] & -> & Hn%elem_of_range)%list_elem_of_fmap. simpl in *. congruence.
Qed.

(** ** The underlying job controller *)

Lemma new_rule `{Stored cell T} {A} h t (k : option positive → mem cell A) (P : res error A * heap cell → Prop) :
  (∀ x h', h ⊆ h' → h !! x = None → h' !! x = Some (inj t) → P (k (Some x) h')) → P ((new t ≫= k) h).
Proof.
  intros Hk. rewrite new_then. apply Hk; [apply insert_subseteq|..]; [apply lookup_next|apply lookup_next|apply lookup_insert_eq].
Qed.

Lemma client_rule {A} h mk c cc (k : option positive → mem cell A) (P : res error A * heap cell → Prop) :
  h !! c = Some (inj cc) → client_config_ok cc = true →
  (∀ x h', h ⊆ h' → h !! x = None → h' !! x = Some (inj (mk cc)) → P (k (Some x) h')) →
  P ((NewForConfigOrDie mk (Some c) ≫= k) h).
Proof.
  intros Hc Hok Hk. unfold NewForConfigOrDie. simpl.
  assert (∀ A (k : option positive → mem cell A), ((c0 ← load c; if client_config_ok c0 then new (mk c0) else lift (Crash Panicked)) ≫= k) h =
    (new (mk cc) ≫= k) h) as ->; [|by apply new_rule].
  intros B k'. unfold mbind, eff_bind, load. rewrite Hc. simpl. by rewrite Hok.
Qed.

(** The operator's limits on its requests. *)
Definition limited (config : Configuration) (c : ClientConfig) : ClientConfig :=
  mkClientConfig (cfg_Host c) (rest_QPS (op_Rest (conf_Operator config))) (rest_Burst (op_Rest (conf_Operator config))).

(** There is an object made like that. *)
Definition is_object h (p : option positive) (o : library_object) : Prop :=
  ∃ x, p = Some x ∧ h !! x = Some (inj o).

(** The reconciler has its job controller: no controller yet, everything that
    the reconciler calls in place, its clients limited by the configuration,
    and the rest as it was. *)
Record underlying h (cc : ClientConfig) (t t' : ReconcilerS) : Prop := {
  under_controller : jc_Controller (rec_JobController t') = None;
  under_gang : jc_EnableGangScheduling (rec_JobController t') = false;
  under_kube : is_object h (jc_KubeClientSet (rec_JobController t')) (KubernetesClientset cc);
  under_volcano : is_object h (jc_VolcanoClientSet (rec_JobController t')) (VolcanoClientset cc);
  under_expectations : is_object h (jc_Expectations (rec_JobController t')) NewControllerExpectations;
  under_queue : is_object h (jc_WorkQueue (rec_JobController t')) FakeWorkQueue;
  under_recorder : is_object h (jc_Recorder (rec_JobController t')) (EventRecorderFor "ares-operator");
  under_control : ∃ client, is_object h client (KubernetesClientset cc) ∧
    is_object h (jc_PodControl (rec_JobController t')) (RealPodControl client (jc_Recorder (rec_JobController t'))) ∧
    is_object h (jc_ServiceControl (rec_JobController t')) (RealServiceControl client (jc_Recorder (rec_JobController t')));
  under_rest : rec_Client t' = rec_Client t ∧ rec_FrameworkController t' = rec_FrameworkController t ∧
    rec_Scheme t' = rec_Scheme t ∧ rec_Cache t' = rec_Cache t ∧ rec_Config t' = rec_Config t ∧
    rec_NodeManager t' = rec_NodeManager t ∧ rec_PodGroupManager t' = rec_PodGroupManager t;
}.

Lemma underlying_kept h h' w cc t t' c0 : keeps w h h' → h !! w = Some c0 → (∀ o, c0 ≠ inj (T := library_object) o) →
  underlying h cc t t' → underlying h' cc t t'.
Proof.
  intros Hk Hw Hno [].
  assert (∀ p o, is_object h p o → is_object h' p o) as Hobj.
  { intros p o (x & -> & Hx). exists x. split; [done|]. eapply keeps_lookup; [exact Hk| |done]. intros ->.
    apply (Hno o). congruence. }
  constructor; auto. destruct under_control0 as (client & ? & ? & ?). exists client. auto.
Qed.

Lemma setupUnderlyingJobController_run h r rec fs queue t l config c cc :
  h !! r = Some (inj (mkAresJobReconcilerS (Some rec) fs queue)) → h !! rec = Some (inj t) → rec_Config t = Some l →
  h !! l = Some (inj config) → mgr_Config = Some c → h !! c = Some (inj cc) → client_config_ok (limited config cc) = true →
  ∃ h' t', setupUnderlyingJobController r h = (Done tt, h') ∧ h' !! rec = Some (inj t') ∧
    underlying h' (limited config cc) t t' ∧ h' !! c = Some (inj (limited config cc)) ∧
    (∀ x, x ≠ rec → x ≠ c → is_Some (h !! x) → h' !! x = h !! x).
Proof.
  intros Hr Hrec Hl Hconfig Hc Hcc Hok. unfold setupUnderlyingJobController.
  apply (new_rule _ _ _ (λ out, ∃ h' t', out = (Done tt, h') ∧ _)). intros recorder h1 Hsub1 Hn1 Hx1.
  assert (h1 !! r = Some (inj (mkAresJobReconcilerS (Some rec) fs queue))) as Hr1 by by eapply lookup_weaken.
  assert (h1 !! rec = Some (inj t)) as Hrec1 by by eapply lookup_weaken.
  rewrite (load_then _ _ _ _ Hr1). simpl. rewrite (load_then _ _ _ _ Hrec1).
  pose (h2 := <[c := inj (limited config cc)]> h1).
  assert (limitRequests t h1 = (Done tt, h2)) as Hlimit.
  { unfold limitRequests. rewrite Hc. simpl. rewrite Hl. simpl.
    assert (h1 !! l = Some (inj config)) as Hl1 by by eapply lookup_weaken. rewrite (load_then _ _ _ _ Hl1).
    assert (h1 !! c = Some (inj cc)) as Hc1 by by eapply lookup_weaken. by rewrite (load_then _ _ _ _ Hc1). }
  rewrite (eff_bind_Done _ _ _ _ _ Hlimit). assert (h2 !! c = Some (inj (limited config cc))) as Hc2 by apply lookup_insert_eq.
  rewrite Hc. apply (client_rule _ _ _ (limited config cc)); [done|done|]. intros kube h3 Hsub3 Hn3 Hx3.
  apply new_rule. intros expectations h4 Hsub4 Hn4 Hx4. apply new_rule. intros workQueue h5 Hsub5 Hn5 Hx5.
  assert (h2 ⊆ h5) as Hsub25 by (by trans h3; [|trans h4]).
  apply (client_rule _ _ _ (limited config cc)); [by eapply lookup_weaken|done|]. intros clientSet h6 Hsub6 Hn6 Hx6.
  apply (client_rule _ _ _ (limited config cc)); [eapply lookup_weaken; [exact Hc2|by trans h5]|done|]. intros volcano h7 Hsub7 Hn7 Hx7.
  apply new_rule. intros podControl h8 Hsub8 Hn8 Hx8. apply new_rule. intros serviceControl h9 Hsub9 Hn9 Hx9.
  assert (h5 ⊆ h9) as Hsub59 by (by trans h6; [|trans h7; [|trans h8]]).
  eexists _, _. split; [reflexivity|]. split; [apply lookup_insert_eq|].
  assert (h2 !! rec = Some (inj t)) as Hrec2.
  { unfold h2. rewrite lookup_insert_ne; [done|]. intros ->. rewrite Hrec in Hcc. discriminate Hcc. }
  assert (∀ x o v, h9 !! x = Some (inj (T := library_object) o) → <[rec := v]> h9 !! x = Some (inj o)) as Hput.
  { intros x o v Hx. rewrite lookup_insert_ne; [done|]. intros ->.
    assert (h9 !! x = Some (inj t)) as Hx' by (eapply lookup_weaken; [exact Hrec2|by trans h5]). rewrite Hx in Hx'. discriminate Hx'. }
  split.
  - assert (h4 ⊆ h9 ∧ h3 ⊆ h9 ∧ h6 ⊆ h9 ∧ h7 ⊆ h9) as (H49 & H39 & H69 & H79).
    { split_and!; [by trans h5|trans h4; [done|by trans h5]|trans h7; [done|by trans h8]|by trans h8]. }
    assert (recorder ≠ c) as Hrc by (intros ->; congruence).
    assert (h2 !! recorder = Some (inj (EventRecorderFor controllerName))) as Hx2 by (unfold h2; by rewrite lookup_insert_ne).
    constructor; simpl; try done.
    + exists clientSet. split; [done|]. apply Hput. by eapply lookup_weaken.
    + exists volcano. split; [done|]. apply Hput. by eapply lookup_weaken.
    + exists expectations. split; [done|]. apply Hput. by eapply lookup_weaken.
    + exists workQueue. split; [done|]. apply Hput. by eapply lookup_weaken.
    + exists recorder. split; [done|]. apply Hput. eapply lookup_weaken; [exact Hx2|by trans h5].
    + exists (Some kube). split_and!; (eexists; split; [done|]; apply Hput); by eapply lookup_weaken.
  - assert (rec ≠ c) as Hrc by (intros ->; rewrite Hrec in Hcc; discriminate Hcc).
    split; [rewrite lookup_insert_ne by done; eapply lookup_weaken; [exact Hc2|by trans h5]|].
    intros x Hxr Hxc [v Hv]. rewrite lookup_insert_ne by done. rewrite Hv. eapply lookup_weaken; [|by trans h5].
    unfold h2. rewrite lookup_insert_ne by done. by eapply lookup_weaken.
Qed.

(** ** The whole set-up *)

Context `{Host act}.

(** The calls it makes. *)
Definition setup_plan (r : positive) (manager : option positive) (rec : positive) : list (step (act := act)) :=
  [may (Forever r);
   must (IndexField (PodField JobOwnerKey (λ pod, IndexObjectOwner (pod_meta pod))));
   must (IndexField (PodField ReplicaOwnerKey (λ pod, IndexReplicaOwner (pod_meta pod))));
   must (IndexField (ServiceField JobOwnerKey (λ service, IndexObjectOwner (service_meta service))));
   must (IndexField (ServiceField ReplicaOwnerKey (λ service, IndexReplicaOwner (service_meta service))));
   must (IndexField (PodField NodeNameKey IndexNodeName));
   must (Complete
     [For "AresJob";
      Owns "Pod" (Some (mkFuncs (Some (AddObject_of r)) (Some (UpdateObject_of r)) (Some (DeleteObject_of r)) None));
      Owns "Service" (Some (mkFuncs (Some (AddObject_of r)) None (Some (DeleteObject_of r)) None));
      Owns "PodGroup" (Some (mkFuncs None (Some (UpdateObject_of r)) None None));
      WatchNodes manager (Some rec)] 10 r)].

(** The controller at [r] with its reconciler at [rec], which was [t] in
    [h0]. *)
Definition wired h0 h (r rec : positive) (t : ReconcilerS) (cc : ClientConfig) : Prop :=
  ∃ t' fs queue, h !! r = Some (inj (mkAresJobReconcilerS (Some rec) (Some fs) queue)) ∧
    is_object h queue NewRateLimitingQueue ∧ h !! rec = Some (inj t') ∧ underlying h cc t t' ∧
    ∀ name, match Factory !! name with Some m => framework_at h0 h t' fs name m | None => fs !! name = None end.

Lemma framework_at_kept w h0 h0' h h' t fs name m : keeps w h h' → is_Some (h0 !! w) → (∀ x, h0 !! x = None → h0' !! x = None) →
  framework_at h0 h t fs name m → framework_at h0' h' t fs name m.
Proof.
  intros Hk [c Hw] Hnew (f & copy & Hfs & Hf0 & Hc0 & Hf & Hc). exists f, copy.
  assert (f ≠ w ∧ copy ≠ w) as [Hfw Hcw] by (split; congruence).
  split_and!; [done|by apply Hnew|by apply Hnew|by eapply keeps_lookup|by eapply keeps_lookup].
Qed.

Lemma SetupWithManager_does h r rec fs queue t l config c cc :
  h !! r = Some (inj (mkAresJobReconcilerS (Some rec) fs queue)) → h !! rec = Some (inj t) → rec_Config t = Some l →
  h !! l = Some (inj config) → mgr_Config = Some c → h !! c = Some (inj cc) → client_config_ok (limited config cc) = true →
  does h (SetupWithManager r) (setup_plan r (rec_NodeManager t) rec)
    (λ _ h', wired h h' r rec t (limited config cc) ∧ ∀ x, x ≠ r → x ≠ rec → x ≠ c → is_Some (h !! x) → h' !! x = h !! x).
Proof.
  intros Hr Hrec Hl Hconfig Hc Hcc Hok. assert (r ≠ rec) as Hrr by (intros ->; rewrite Hr in Hrec; discriminate Hrec).
  assert (r ≠ c) as Hrc by (intros ->; rewrite Hr in Hcc; discriminate Hcc).
  destruct (setupUnderlyingJobController_run h r rec fs queue t l config c cc) as (h1 & t1 & Hrun1 & Hrec1 & Hunder1 & Hc1 & Hk1); [done..|].
  assert (h1 !! r = Some (inj (mkAresJobReconcilerS (Some rec) fs queue))) as Hr1 by (by rewrite Hk1 by (done || by eexists)).
  destruct (setupFrameworksS_run h1 r rec fs queue t1) as (h2 & fs2 & Hrun2 & Hk2 & Hr2 & Hrec2 & Hfs); [done..|].
  pose (queue' := next h2). pose (h3 := <[queue' := inj NewRateLimitingQueue]> h2).
  pose (h4 := <[r := inj (mkAresJobReconcilerS (Some rec) (Some fs2) (Some queue'))]> h3).
  assert (h2 !! queue' = None) as Hq by apply lookup_next. assert (r ≠ queue') as Hrq by (by eapply next_ne).
  assert (h3 !! r = Some (inj (mkAresJobReconcilerS (Some rec) (Some fs2) queue))) as Hr3 by (unfold h3; by rewrite lookup_insert_ne).
  assert (newCleanUpQueue r h2 = (Done tt, h4)) as Hrun4.
  { unfold newCleanUpQueue. rewrite new_then. fold queue' h3. by rewrite (load_then _ _ _ _ Hr3). }
  assert (keeps r h2 h4) as Hk4.
  { intros x Hx [v Hv]. unfold h4, h3. rewrite !lookup_insert_ne by congruence. done. }
  assert (keeps r h1 h4) as Hk14 by by eapply keeps_trans.
  unfold SetupWithManager, setup_plan.
  eapply does_heap_then; [exact Hrun1|]. eapply does_heap_then; [exact Hrun2|].
  apply (does_bind _ _ _ [_] _ (λ _ h', h' = h4)).
  { unfold setupCleanUpQueue. eapply does_heap_then; [exact Hrun4|]. by apply does_call_. }
  intros _ ? ->. apply (does_bind _ _ _ [_; _; _; _; _] _ (λ _ h', h' = h4)).
  { unfold setupIndexer. do 4 apply does_call_then. by apply does_call. }
  intros _ ? ->. assert (h4 !! rec = Some (inj t1)) as Hrec4 by by eapply keeps_lookup.
  eapply does_heap_then.
  { unfold get_managers. assert (h4 !! r = Some (inj (mkAresJobReconcilerS (Some rec) (Some fs2) (Some queue')))) as Hr4 by apply lookup_insert_eq.
    rewrite (load_then _ _ _ _ Hr4). simpl. by rewrite (load_then _ _ _ _ Hrec4). }
  simpl. assert (rec_NodeManager t1 = rec_NodeManager t) as -> by apply Hunder1. apply does_call.
  assert (∀ x, h1 !! x = None → h !! x = None) as Hnew.
  { intros x Hx. destruct (h !! x) as [v|] eqn:Hv; [|done]. destruct (decide (x = rec)) as [->|Hxr]; [congruence|].
    destruct (decide (x = c)) as [->|Hxc]; [congruence|]. rewrite <- (Hk1 x), Hx in Hv by (done || by eexists). done. }
  split.
  - exists t1, fs2, (Some queue'). split_and!; [apply lookup_insert_eq| |done| |].
    + exists queue'. split; [done|]. unfold h4. rewrite lookup_insert_ne by done. apply lookup_insert_eq.
    + by eapply underlying_kept.
    + intros name. specialize (Hfs name). destruct (Factory !! name) as [m|]; [|done].
      eapply (framework_at_kept r h1 h h2); [exact Hk4|by eexists|exact Hnew|exact Hfs].
  - intros x Hxr Hxrec Hxc [v Hv]. rewrite <- Hk1 by (done || by eexists). apply Hk14; [done|]. rewrite Hk1 by (done || by eexists). by eexists.
Qed.
End setup.

(** ** Property *)

(** Everything but the controllers is the same in two reconcilers: the very
    objects that the one refers to, the other does. *)
Record shares (own t : ReconcilerS) : Prop := {
  shares_gang : jc_EnableGangScheduling (rec_JobController own) = jc_EnableGangScheduling (rec_JobController t);
  shares_controls : jc_PodControl (rec_JobController own) = jc_PodControl (rec_JobController t) ∧
    jc_ServiceControl (rec_JobController own) = jc_ServiceControl (rec_JobController t);
  shares_clients : jc_KubeClientSet (rec_JobController own) = jc_KubeClientSet (rec_JobController t) ∧
    jc_VolcanoClientSet (rec_JobController own) = jc_VolcanoClientSet (rec_JobController t) ∧ rec_Client own = rec_Client t;
  shares_listers : jc_PodLister (rec_JobController own) = jc_PodLister (rec_JobController t) ∧
    jc_ServiceLister (rec_JobController own) = jc_ServiceLister (rec_JobController t) ∧
    jc_PriorityClassLister (rec_JobController own) = jc_PriorityClassLister (rec_JobController t);
  shares_informers : jc_PodInformerSynced (rec_JobController own) = jc_PodInformerSynced (rec_JobController t) ∧
    jc_ServiceInformerSynced (rec_JobController own) = jc_ServiceInformerSynced (rec_JobController t) ∧
    jc_PriorityClassInformerSynced (rec_JobController own) = jc_PriorityClassInformerSynced (rec_JobController t);
  shares_expectations : jc_Expectations (rec_JobController own) = jc_Expectations (rec_JobController t);
  shares_queue : jc_WorkQueue (rec_JobController own) = jc_WorkQueue (rec_JobController t);
  shares_recorder : jc_Recorder (rec_JobController own) = jc_Recorder (rec_JobController t);
  shares_log : rec_Log own = rec_Log t;
  shares_scheme : rec_Scheme own = rec_Scheme t;
  shares_cache : rec_Cache own = rec_Cache t;
  shares_config : rec_Config own = rec_Config t;
  shares_nodes : rec_NodeManager own = rec_NodeManager t;
  shares_podgroups : rec_PodGroupManager own = rec_PodGroupManager t;
}.

Lemma copy_shares t c : shares (controlled (copy_of t) c) t.
Proof. by split. Qed.

(** The framework [m], registered under [name], works on a reconciler that no
    other framework has: what that asks of its controller is asked of this
    framework, and it shares all the rest with the reconciler [t]. *)
Definition own_reconciler `{Templates} (h : heap cell) (fs : gmap string (option positive)) (t : ReconcilerS)
    (name : string) (m : Methods) : Prop :=
  ∃ f copy own, fs !! name = Some (Some f) ∧ h !! f = Some (inj (mkFrameworkS m (Some copy))) ∧ h !! copy = Some (inj own) ∧
    jc_Controller (rec_JobController own) = Some f ∧ rec_FrameworkController own = Some f ∧ shares own t ∧
    (∀ name', fs !! name' = Some (Some f) → name' = name) ∧
    (∀ name' f' m', fs !! name' = Some (Some f') → h !! f' = Some (inj (mkFrameworkS m' (Some copy))) → name' = name).

Lemma Factory_name `{MapOrder, Kubeflow, Selectors, ApiServer, JobControllerPorts, JobController, TFConfigText} name m :
  Factory !! name = Some m → GetName m = name.
Proof. apply (Factory_cases (λ name m, GetName m = name)); reflexivity. Qed.

Lemma Factory_names `{MapOrder, Kubeflow, Selectors, ApiServer, JobControllerPorts, JobController, TFConfigText} name :
  is_Some (Factory !! name) ↔ name ∈ ["bagua"; "custom"; "dask"; "demo"; "mpi"; "pytorch"; "standalone"; "tensorflow"].
Proof.
  split.
  - intros [m Hm]. revert name m Hm. apply (Factory_cases (λ name m, name ∈ _)); by apply (bool_decide_unpack _).
  - intros Hname. repeat (apply elem_of_cons in Hname as [->|Hname]; [by eexists|]). by apply elem_of_nil in Hname.
Qed.

Lemma framework_at_own `{MapOrder, Kubeflow, Selectors, ApiServer, JobControllerPorts, JobController, TFConfigText, Templates} h0 h t fs name m :
  (∀ name, match Factory !! name with Some m => framework_at h0 h t fs name m | None => fs !! name = None end) →
  Factory !! name = Some m → own_reconciler h fs t name m.
Proof.
  intros Hfs Hm. pose proof (Hfs name) as Hname. rewrite Hm in Hname. destruct Hname as (f & copy & Hf & _ & _ & Hfc & Hcc).
  assert (∀ name', fs !! name' = Some (Some f) → name' = name) as Hone.
  { intros name' Hf'. specialize (Hfs name'). destruct (Factory !! name') as [m'|] eqn:Hm'; [|congruence].
    destruct Hfs as (f' & copy' & Hf1 & _ & _ & Hfc' & _). assert (f' = f) as -> by congruence.
    rewrite Hfc in Hfc'. injection Hfc' as <- _. by rewrite <- (Factory_name _ _ Hm'), (Factory_name _ _ Hm). }
  exists f, copy, (controlled (copy_of t) f). split_and!; [done..|apply copy_shares|done|].
  intros name' f' m' Hf' Hfc'. apply Hone. specialize (Hfs name'). destruct (Factory !! name') as [m1|]; [|congruence].
    destruct Hfs as (f1 & copy1 & Hf1 & _ & _ & Hfc1 & Hcc1). assert (f1 = f') as -> by congruence.
    rewrite Hfc' in Hfc1. injection Hfc1 as -> ->. rewrite Hcc in Hcc1. by injection Hcc1 as ->.
Qed.

(** C19: set-up of the controller either ends with the first call to the manager
    that is refused, with its error, or leaves the controller as the rest of
    the operator takes it to be: the clients are limited as configured;
    expectations, queue and recorder are in place; and every registered
    framework, of which there are eight, and nothing else, is in the table, on
    a reconciler of its own that calls back this framework and for all the rest
    refers to the objects of the controller's: clients, controls, expectations,
    queue, recorder, role cache, configuration, node and pod group managers. *)
Theorem controller_wired
    `{MapOrder, Kubeflow, Selectors, ApiServer, JobControllerPorts, JobController, TFConfigText, Templates, ControllerRuntime, Host act}
    h r rec fs queue t l config c cc :
  h !! r = Some (inj (mkAresJobReconcilerS (Some rec) fs queue)) → h !! rec = Some (inj t) → rec_Config t = Some l →
  h !! l = Some (inj config) → mgr_Config = Some c → h !! c = Some (inj cc) → client_config_ok (limited config cc) = true →
  ∃ h', match attempts [] (setup_plan r (rec_NodeManager t) rec) with
  | (calls, Some e) => SetupWithManager r (mkBoot h []) = (Fail e, mkBoot h' calls)
  | (calls, None) => SetupWithManager r (mkBoot h []) = (Done tt, mkBoot h' calls) ∧
      ∃ t' fs' queue', h' !! r = Some (inj (mkAresJobReconcilerS (Some rec) (Some fs') queue')) ∧
        is_object h' queue' NewRateLimitingQueue ∧ h' !! rec = Some (inj t') ∧ underlying h' (limited config cc) t t' ∧
        (∀ name, is_Some (fs' !! name) ↔ is_Some (Factory !! name)) ∧
        (∀ name, is_Some (Factory !! name) ↔ name ∈ ["bagua"; "custom"; "dask"; "demo"; "mpi"; "pytorch"; "standalone"; "tensorflow"]) ∧
        (∀ name m, Factory !! name = Some m → own_reconciler h' fs' t' name m)
  end.
Proof.
  intros Hr Hrec Hl Hconfig Hc Hcc Hok.
  destruct (SetupWithManager_does h r rec fs queue t l config c cc Hr Hrec Hl Hconfig Hc Hcc Hok []) as [h' Hrun].
  exists h'. destruct (attempts [] _) as [calls [e|]]; [exact Hrun|].
  destruct Hrun as ([] & Hrun & (t' & fs' & queue' & Hr' & Hq & Hrec' & Hunder & Hfs) & _). split; [exact Hrun|].
  exists t', fs', queue'. split_and!; [done..| |exact Factory_names|].
  - intros name. specialize (Hfs name). destruct (Factory !! name) as [m|].
    + destruct Hfs as (f & _ & -> & _). by split; eexists.
    + rewrite Hfs. done.
  - intros name m Hm. by eapply framework_at_own.
Qed.

#[local] Existing Instances canonical_order ex_kubeflow ex_selectors ex_templates accepting.
#[local] Instance ex_setup_ports : JobControllerPorts := {| JobController_GetPortsFromJob _ := Done None |}.
#[local] Instance ex_setup_jobs : JobController := {|
  JobController_ReconcileJobs _ _ _ := mret tt;
  JobController_SyncPodGroup job _ := mret (mkPodGroup (job_meta job) PodGroupScheduled []);
|}.
#[local] Instance ex_setup_json : TFConfigText := {| json_TFConfig _ := Done ""; json_SparseTFConfig _ := Done "" |}.
#[local] Instance ex_runtime : ControllerRuntime := {|
  mgr_Client := None; mgr_Scheme := None; mgr_Config := Some 4%positive; mgr_Log := None; client_config_ok _ := true;
|}.
#[local] Instance ex_host : Host act := {| reply _ _ := None |}.

(** The controller, its reconciler, the configuration and the manager's client
    configuration. *)
Definition ex_setup_heap : heap cell :=
  <[1%positive := inj (mkAresJobReconcilerS (Some 2%positive) None None)]>
  (<[2%positive := inj (mkReconcilerS zero_JobController None None None None None (Some 3%positive) None None)]>
  (<[3%positive := inj ex_config]> (<[4%positive := inj (mkClientConfig "host" (QArith_base.inject_Z 0) 0)]> ∅))).

Lemma controller_wired_witness : ∃ calls h', SetupWithManager 1 (mkBoot ex_setup_heap []) = (Done tt, mkBoot h' calls) ∧
  ∃ t' fs', h' !! 2%positive = Some (inj t') ∧ own_reconciler h' fs' t' "mpi" MPI.methods.
Proof.
  destruct (controller_wired ex_setup_heap 1 2 None None
    (mkReconcilerS zero_JobController None None None None None (Some 3%positive) None None) 3 ex_config 4 (mkClientConfig "host" (QArith_base.inject_Z 0) 0))
    as (h' & Hrun).
  - reflexivity.
  - reflexivity.
  - reflexivity.
  - reflexivity.
  - reflexivity.
  - reflexivity.
  - reflexivity.
  - rewrite attempts_accepted in Hrun by (intros ? [] _; reflexivity).
    destruct Hrun as (Hrun & t' & fs' & queue' & _ & _ & Hrec & _ & _ & _ & Hown). eexists _, h'. split; [exact Hrun|].
    exists t', fs'. split; [exact Hrec|]. apply Hown. reflexivity.
Defined.
