(* ===== verification/Commands.v ===== *)
(** * The commands ([cmd/])

    The options and the configuration of a process, the operator
    ([cmd/operator/cmd.go]) and the observer ([cmd/observer/cmd.go]) from
    their start to their end, and the observer's HTTP server as it runs beside
    the manager.  The flags are parsed by pflag and the commands run by cobra;
    reading files, YAML and the parsing of URLs are parameters. *)

From S2P Require Import Prelude GoStd Errors Heap Regex Kube Api World ReconcilerUtils Examples Webhook Metadata Expectation.
From S2P Require Import Cache Conf Dependence NodeManager Phase PodGroup Pod PodCreate Service Job Controller Events.
From S2P Require Import FrameworkBase SimpleFrameworks Bagua Dask Tensorflow Factory Boot Setup SetupProofs.
From Stdlib Require Import QArith.

Open Scope Z_scope.

(** ** Options ([cmd/server/option.go], [cmd/operator/option.go],
    [cmd/observer/option.go]) *)

Record Option := mkOption {
  MetricsAddr : string;
  ProbeAddr : string;
  ConfigPath : string;
  Namespace : string;
}.
Record OperatorOption := mkOperatorOption { operator_Option : option Option; EnableLeaderElection : bool }.
Record ObserverOption := mkObserverOption { observer_Option : option Option; opt_Port : Z }.

(** The flags bound to the options, given what the command line sets them to;
    a flag that it does not name has its default. *)
Section flags.
Context (string_flag : string → option string) (bool_flag : string → option bool) (int_flag : string → option Z).

Definition Bind : Option :=
  mkOption (default ":8080" (string_flag "metrics-bind-address")) (default ":8081" (string_flag "health-probe-bind-address"))
    (default "./conf/staging.yaml" (string_flag "config")) (default "" (string_flag "namespace")).
Definition operator_Bind (common : option Option) : OperatorOption :=
  mkOperatorOption common (default false (bool_flag "leader-elect")).
Definition observer_Bind (common : option Option) : ObserverOption :=
  mkObserverOption common (default 80 (int_flag "port")).
End flags.

Definition BuildManagerOptions (opts : Option) : ManagerOptions :=
  mkManagerOptions (MetricsAddr opts) 9443 (ProbeAddr opts) "963c7a0b.kuaishou.com" false (Namespace opts).

(** ** Configuration ([conf/type.go], [Load]) *)

(** [ioutil.ReadFile], [yaml.Unmarshal] and the scheme found by [url.Parse]. *)
Class Inputs `{Templates} := {
  ReadFile : string → error + string;
  Unmarshal : string → Configuration → error + Configuration;
  url_Parse : string → error + string;
}.

Section commands.
Context `{MapOrder, Kubeflow, Selectors, ApiServer, JobControllerPorts, JobController, TFConfigText, Inputs}.
Context `{ControllerRuntime, Host act}.

Definition or_fail {A : Type} (r : error + A) : go A := match r with inl e => Fail e | inr a => Done a end.

Definition Load (c : Configuration) (path : string) : go Configuration :=
  content ← or_fail (ReadFile path);
  c ← or_fail (Unmarshal content c);
  Configuration_Validate c.

(** The package variables [CommonOptions] and [OperatorConfig]. *)
Record globals := mkGlobals { CommonOptions : option Option; OperatorConfig : option positive }.

(** The hook that runs before either command, on the configuration at [config];
    what precedes it in the variables is lost. *)
Definition PersistentPreRunE (opts : Option) (config : positive) : mem cell globals :=
  c ← load config;
  c ← lift (Load c (ConfigPath opts));
  _ ← store config c;
  mret (mkGlobals (Some opts) (Some config)).

(** ** The operator *)

(** [cache.New] *)
Definition cache_New (uri : string) : go Cache := scheme ← or_fail (url_Parse uri); New scheme.

Definition newCache (config : Configuration) : mem cell (option positive) :=
  if decide (0 < String.length (cache_URI (conf_Cache config)))%nat
  then c ← lift (cache_New (cache_URI (conf_Cache config))); new c
  else mret None.

Definition NewPodGroupManager (cli : option positive) : mem cell (option positive) := new cli.

(** The reconciler, with the controller around it. *)
Definition newController (config : positive) (c : option positive) : mem cell positive :=
  nodeManager ← new NodeManager.NewManager;
  podGroupManager ← NewPodGroupManager mgr_Client;
  rec ← alloc (mkReconcilerS zero_JobController mgr_Client None mgr_Log mgr_Scheme c (Some config) nodeManager podGroupManager);
  alloc (mkAresJobReconcilerS (Some rec) None None).

Definition operator_manager_options (opts : OperatorOption) : go ManagerOptions :=
  common ← deref (operator_Option opts);
  let o := BuildManagerOptions common in
  Done (mkManagerOptions (MetricsBindAddress o) (mgr_Port o) (HealthProbeBindAddress o) (LeaderElectionID o)
    (EnableLeaderElection opts) (opt_Namespace o)).

(** [r.Reconciler.Close()] *)
Definition closeReconciler (r : positive) : mem cell unit :=
  ctl ← load r; at_ (ctl_Reconciler ctl) Reconciler_Close.

(** While the manager is running, its controllers work on what is in memory. *)
Context (running : heap cell → heap cell).

Definition operator_run (opts : OperatorOption) (config : option positive) : bop cell act unit :=
  managerOpts ← lift (operator_manager_options opts);
  _ ← call (CreateManager managerOpts);
  c ← on_heap (at_ config (λ l, config ← load l; newCache config));
  r ← on_heap (at_ config (λ l, newController l c));
  _ ← SetupWithManager r;
  _ ← call (AddHealthzCheck "healthz");
  _ ← call (AddReadyzCheck "readyz");
  _ ← call Start;
  _ ← on_heap (modify running);
  on_heap (closeReconciler r).

(** [RunE] of the command. *)
Definition operator_RunE (flags : option Option → OperatorOption) (g : globals) : bop cell act unit :=
  operator_run (flags (CommonOptions g)) (OperatorConfig g).

(** ** The observer *)

Definition NewObserver (c : option positive) : mem cell positive := alloc (mkAresJobObserverS c).

Definition Register (observer_var r : positive) : mem cell unit := store observer_var (mkObserverVar (Some r)).

Definition observer_setupIndexer : bop cell act unit :=
  _ ← call (IndexField (PodField JobOwnerKey (λ pod, IndexObjectOwner (pod_meta pod))));
  call (IndexField (PodField ReplicaOwnerKey (λ pod, IndexReplicaOwner (pod_meta pod)))).

Definition observer_SetupWithManager (r : positive) : bop cell act unit :=
  _ ← observer_setupIndexer;
  call (Complete [For "AresJob"; Owns "Pod" None] 0 r).

(** The error of [mgr.Add] is dropped. *)
Definition observer_run (observer_var : positive) (opts : ObserverOption) : bop cell act unit :=
  common ← lift (deref (observer_Option opts));
  _ ← call (CreateManager (BuildManagerOptions common));
  r ← on_heap (NewObserver mgr_Client);
  _ ← observer_SetupWithManager r;
  _ ← on_heap (Register observer_var r);
  _ ← call_ (AddServer ("0.0.0.0:" +:+ Itoa (opt_Port opts)));
  call Start.

(** [RunE] of the command. *)
Definition observer_RunE (observer_var : positive) (flags : option Option → ObserverOption) (g : globals) : bop cell act unit :=
  observer_run observer_var (flags (CommonOptions g)).

(** ** A process

    cobra runs the hook of the root command and then the command. *)
Definition operator_process (opts : Option) (flags : option Option → OperatorOption) (config : positive) : bop cell act unit :=
  g ← on_heap (PersistentPreRunE opts config); operator_RunE flags g.
Definition observer_process (observer_var : positive) (opts : Option) (flags : option Option → ObserverOption) (config : positive)
    : bop cell act unit :=
  g ← on_heap (PersistentPreRunE opts config); observer_RunE observer_var flags g.

(** ** Lemmas *)

(** A loaded configuration limits the requests. *)
Lemma Load_limits c path c' : Load c path = Done c' →
  Qle_bool (rest_QPS (GetRestConfig c')) 0 = false ∧ 0 < rest_Burst (GetRestConfig c').
Proof.
  unfold Load, Configuration_Validate. intros Hv. res_inv. unfold GetRestConfig. simpl.
  match goal with H : OperatorValidate _ _ = Done _ |- _ => revert H end. unfold OperatorValidate, RestValidate.
  destruct (Qle_bool _ 0) eqn:Hq; [done|]. simpl. case_bool_decide; [done|]. intros _. split; [done|lia].
Qed.

Lemma alloc_fresh `{Stored cell T} h t : ∃ x h', alloc t h = (Done x, h') ∧ h !! x = None ∧ h' !! x = Some (inj t) ∧ h ⊆ h'.
Proof.
  exists (next h), (<[next h := inj t]> h). split_and!; [done|apply lookup_next|apply lookup_insert_eq|].
  apply insert_subseteq, lookup_next.
Qed.

(** What the operator sets up. *)
Lemma newController_run h config c : ∃ r rec t h', newController config c h = (Done r, h') ∧ h ⊆ h' ∧
  h' !! r = Some (inj (mkAresJobReconcilerS (Some rec) None None)) ∧ h' !! rec = Some (inj t) ∧
  rec_Config t = Some config ∧ rec_Cache t = c ∧ h !! r = None ∧ h !! rec = None.
Proof.
  unfold newController, NewPodGroupManager. apply (new_rule _ _ _ (λ out, ∃ r rec t h', out = (Done r, h') ∧ _)).
  intros nm h1 Hsub1 _ _. apply new_rule. intros pgm h2 Hsub2 _ _.
  match goal with |- ∃ r rec t h', (alloc ?x ≫= _) _ = _ ∧ _ => pose (t := x) end. rewrite alloc_then. fold t.
  pose proof (lookup_next h2) as Hrec. set (rec := next h2) in *. set (h3 := <[rec := inj t]> h2).
  destruct (alloc_fresh h3 (mkAresJobReconcilerS (Some rec) None None)) as (r & h4 & Hrun & Hr & Hr4 & Hsub4).
  assert (h ⊆ h2) as Hsub by (by trans h1). assert (h2 ⊆ h3) as Hsub3 by (by apply insert_subseteq).
  exists r, rec, t, h4. split_and!; [exact Hrun| |done| |done|done| |].
  - trans h2; [done|]. by trans h3.
  - eapply lookup_weaken; [|exact Hsub4]. apply lookup_insert_eq.
  - eapply lookup_weaken_None; [exact Hr|]. by trans h2.
  - by eapply lookup_weaken_None.
Qed.

(** The controllers that run leave pointers between these objects alone. *)
Definition keeps_objects : Prop := ∀ h x,
  (∀ t : AresJobReconcilerS, h !! x = Some (inj t) → running h !! x = Some (inj t)) ∧
  (∀ t : ReconcilerS, h !! x = Some (inj t) → running h !! x = Some (inj t)) ∧
  (∀ t : Cache, h !! x = Some (inj t) → ∃ t' : Cache, running h !! x = Some (inj t')).

(** The cache, if there is one, is closed. *)
Definition cache_closed (h : heap cell) (c : option positive) : Prop :=
  ∀ x, c = Some x → ∃ t : Cache, h !! x = Some (inj t) ∧ MemoryCache.cache (backend t) = None.

Lemma closeReconciler_run h r rec fs queue t :
  h !! r = Some (inj (mkAresJobReconcilerS (Some rec) fs queue)) → h !! rec = Some (inj t) →
  (∀ x, rec_Cache t = Some x → ∃ c : Cache, h !! x = Some (inj c)) →
  ∃ h', closeReconciler r h = (Done tt, h') ∧ cache_closed h' (rec_Cache t).
Proof.
  intros Hr Hrec Hcache. unfold closeReconciler. rewrite (load_then _ _ _ _ Hr). simpl. unfold Reconciler_Close.
  rewrite (load_then _ _ _ _ Hrec). destruct (rec_Cache t) as [x|]; [|by exists h].
  destruct (Hcache x eq_refl) as [c Hc]. rewrite (load_then _ _ _ _ Hc). eexists. split; [reflexivity|].
  intros y [= <-]. eexists. split; [apply lookup_insert_eq|]. by destruct c.
Qed.

Lemma newCache_outcome h config :
  match newCache config h with
  | (Done None, h') => h' = h
  | (Done (Some x), h') => h ⊆ h' ∧ ∃ c : Cache, h' !! x = Some (inj c)
  | (Fail _, h') => h' = h
  | (Crash _, _) => False
  end.
Proof.
  unfold newCache. case_decide; [|done]. unfold cache_New, or_fail, lift, mbind, eff_bind.
  destruct (url_Parse _) as [e|scheme]; simpl; [done|]. unfold New. case_decide; simpl; [|done].
  split; [apply insert_subseteq, lookup_next|]. eexists. apply lookup_insert_eq.
Qed.

(** The calls of the operator. *)
Definition operator_options (opts : Option) (flags : option Option → OperatorOption) : ManagerOptions :=
  mkManagerOptions (MetricsAddr opts) 9443 (ProbeAddr opts) "963c7a0b.kuaishou.com"
    (EnableLeaderElection (flags (Some opts))) (Namespace opts).
Definition operator_plan (o : ManagerOptions) (r : positive) (manager : option positive) (rec : positive) : list (step (act := act)) :=
  must (CreateManager o) ::
  setup_plan r manager rec ++ [must (AddHealthzCheck "healthz"); must (AddReadyzCheck "readyz"); must Start].

(** From the set-up of the controller on. *)
Lemma operator_tail_does h r rec t l config c cc :
  keeps_objects → h !! r = Some (inj (mkAresJobReconcilerS (Some rec) None None)) → h !! rec = Some (inj t) → rec_Config t = Some l →
  h !! l = Some (inj config) → mgr_Config = Some c → h !! c = Some (inj cc) → client_config_ok (limited config cc) = true →
  (∀ x, rec_Cache t = Some x → ∃ c : Cache, h !! x = Some (inj c)) →
  does h (_ ← SetupWithManager r; _ ← call (AddHealthzCheck "healthz"); _ ← call (AddReadyzCheck "readyz"); _ ← call Start;
          _ ← on_heap (modify running); on_heap (closeReconciler r))
    (setup_plan r (rec_NodeManager t) rec ++ [must (AddHealthzCheck "healthz"); must (AddReadyzCheck "readyz"); must Start])
    (λ _ h', cache_closed h' (rec_Cache t)).
Proof.
  intros Hkeeps Hr Hrec Hl Hconfig Hc Hcc Hok Hcache.
  eapply does_bind; [by eapply SetupWithManager_does|]. intros _ h1 [(t' & fs & queue & Hr1 & _ & Hrec1 & Hunder & _) Hk].
  do 3 apply does_call_then. destruct (Hkeeps h1 r) as (Hkr & _ & _). destruct (Hkeeps h1 rec) as (_ & Hkrec & _).
  assert (rec_Cache t' = rec_Cache t) as Hsame by apply Hunder.
  destruct (closeReconciler_run (running h1) r rec (Some fs) queue t') as (h2 & Hclose & Hclosed).
  - by apply Hkr.
  - by apply Hkrec.
  - rewrite Hsame. intros x Hx. destruct (Hcache x Hx) as [d Hd]. destruct (Hkeeps h1 x) as (_ & _ & Hkx). apply (Hkx d).
    rewrite Hk; [done|..|by eexists]; intros ->; [rewrite Hr in Hd|rewrite Hrec in Hd|rewrite Hcc in Hd]; discriminate Hd.
  - eapply does_heap_then; [reflexivity|]. eapply does_heap; [exact Hclose|]. by rewrite <- Hsame.
Qed.

(** The calls of the observer: its server is added once the package variable
    that the server's handlers read is set. *)
Lemma observer_run_does h observer_var opts flags t :
  observer_Option (flags (Some opts)) = Some opts → h !! observer_var = Some (inj (T := ObserverVar) t) →
  does h (observer_RunE observer_var flags (mkGlobals (Some opts) None))
    [must (CreateManager (BuildManagerOptions opts));
     must (IndexField (PodField JobOwnerKey (λ pod, IndexObjectOwner (pod_meta pod))));
     must (IndexField (PodField ReplicaOwnerKey (λ pod, IndexReplicaOwner (pod_meta pod))));
     must (Complete [For "AresJob"; Owns "Pod" None] 0 (next h));
     may (AddServer ("0.0.0.0:" +:+ Itoa (opt_Port (flags (Some opts)))));
     must Start]
    (λ _ h', h' !! observer_var = Some (inj (mkObserverVar (Some (next h)))) ∧
             h' !! next h = Some (inj (mkAresJobObserverS mgr_Client))).
Proof.
  intros Hopts Hvar. assert (observer_var ≠ next h) as Hne by (by eapply next_ne).
  unfold observer_RunE, observer_run. simpl CommonOptions. rewrite Hopts. simpl deref.
  apply (does_bind _ _ _ [] _ (λ a h', a = opts ∧ h' = h)).
  { intros log. exists h. simpl. exists opts. by rewrite app_nil_r. }
  intros ? ? [-> ->]. apply does_call_then. eapply does_heap_then; [reflexivity|].
  apply (does_bind _ _ _ [_; _; _] _ (λ _ h', h' = <[next h := inj (mkAresJobObserverS mgr_Client)]> h)).
  { unfold observer_SetupWithManager. apply (does_bind _ _ _ [_; _] _ (λ _ h', h' = <[next h := inj (mkAresJobObserverS mgr_Client)]> h)).
    - apply does_call_then. by apply does_call.
    - intros _ ? ->. by apply does_call. }
  intros _ ? ->. eapply does_heap_then; [reflexivity|]. apply does_call__then. apply does_call. split.
  - apply lookup_insert_eq.
  - rewrite lookup_insert_ne by done. apply lookup_insert_eq.
Qed.
End commands.

(** ** Properties *)

#[local] Arguments attempts : simpl never.

(** C20: the life of an operator process.  It ends with an error, before any
    call, when its configuration cannot be read or is not valid; with the
    error of the cache when that cannot be made, having created the manager
    only; else with the first call that is refused; the manager is started as
    the last of the calls and only when the three fields by which pods are
    listed are indexed by the functions that listing assumes, the controller
    is registered and both checks are there; and when the manager has ended,
    the process ends without error and the cache is closed.  The clients can
    be made of any valid configuration, so none of this panics. *)
Theorem operator_runs
    `{MapOrder, Kubeflow, Selectors, ApiServer, JobControllerPorts, JobController, TFConfigText, Inputs, ControllerRuntime, Host act}
    running opts flags l h c0 c cc :
  (∀ common, operator_Option (flags common) = common) → keeps_objects running →
  h !! l = Some (inj c0) → mgr_Config = Some c → h !! c = Some (inj cc) →
  (∀ q b, Qle_bool q 0 = false → 0 < b → client_config_ok (mkClientConfig (cfg_Host cc) q b) = true) →
  let o := operator_options opts flags in
  match Load c0 (ConfigPath opts) with
  | Crash p => (operator_process running opts flags l (mkBoot h [])).1 = Crash p
  | Fail e => operator_process running opts flags l (mkBoot h []) = (Fail e, mkBoot h [])
  | Done config =>
      let h1 := <[l := inj config]> h in
      match reply [] (CreateManager o), newCache config h1 with
      | Some e, _ | None, (Fail e, _) =>
          operator_process running opts flags l (mkBoot h []) = (Fail e, mkBoot h1 [CreateManager o])
      | None, (Crash _, _) => False
      | None, (Done cache, _) =>
          ∃ r manager rec h', match attempts [] (operator_plan o r manager rec) with
          | (calls, Some e) => operator_process running opts flags l (mkBoot h []) = (Fail e, mkBoot h' calls)
          | (calls, None) =>
              operator_process running opts flags l (mkBoot h []) = (Done tt, mkBoot h' calls) ∧ cache_closed h' cache
          end
      end
  end.
Proof.
  intros Hflags Hkeeps Hl Hc Hcc Hclient o. unfold operator_process, PersistentPreRunE.
  destruct (Load c0 (ConfigPath opts)) as [config|e|p] eqn:Hload.
  2, 3: unfold mbind, eff_bind, on_heap, load; simpl; rewrite Hl; simpl; unfold lift; rewrite Hload; reflexivity.
  assert ((on_heap (config0 ← load l; config0 ← lift (Load config0 (ConfigPath opts)); _ ← store l config0;
    mret (mkGlobals (Some opts) (Some l))) : bop cell act globals) (mkBoot h []) =
    (Done (mkGlobals (Some opts) (Some l)), mkBoot (<[l := inj config]> h) [])) as Hpre.
  { unfold mbind, eff_bind, on_heap, load; simpl; rewrite Hl; simpl; unfold lift; rewrite Hload; reflexivity. }
  rewrite (eff_bind_Done _ _ _ _ _ Hpre). clear Hpre. cbv zeta. set (h1 := <[l := inj config]> h).
  assert (l ≠ c) as Hlc by (intros ->; rewrite Hl in Hcc; discriminate Hcc).
  assert (h1 !! l = Some (inj config)) as Hl1 by apply lookup_insert_eq.
  assert (h1 !! c = Some (inj cc)) as Hcc1 by (unfold h1; by rewrite lookup_insert_ne).
  unfold operator_RunE, operator_run, operator_manager_options. rewrite Hflags. simpl.
  fold (operator_options opts flags). fold o. rewrite (eff_bind_Done (lift (Done o)) _ _ o (mkBoot h1 []) eq_refl).
  assert (call (CreateManager o) (mkBoot h1 []) =
    (match reply [] (CreateManager o) with None => Done tt | Some e => Fail e end, mkBoot h1 [CreateManager o])) as Hcall by reflexivity.
  destruct (reply [] (CreateManager o)) as [e|] eqn:Hreply; [by rewrite (eff_bind_Fail _ _ _ _ _ Hcall)|].
  rewrite (eff_bind_Done _ _ _ _ _ Hcall).
  pose proof (newCache_outcome h1 config) as Hcache.
  assert (on_heap (act := act) (load l ≫= newCache) (mkBoot h1 [CreateManager o]) =
    let '(r, h') := newCache config h1 in (r, mkBoot h' [CreateManager o])) as Hat.
  { unfold on_heap. simpl. by rewrite (load_then _ _ _ _ Hl1). }
  destruct (newCache config h1) as [[cache|e|p] h2] eqn:Hnew; [| |done].
  2: { rewrite (eff_bind_Fail _ _ _ _ _ Hat). by rewrite Hcache. }
  assert (h1 ⊆ h2 ∧ ∀ x, cache = Some x → ∃ c : Cache, h2 !! x = Some (inj c)) as [Hsub Hc2].
  { destruct cache as [x|]; [|by subst]. destruct Hcache as [? ?]. split; [done|]. by intros ? [= <-]. }
  rewrite (eff_bind_Done _ _ _ _ _ Hat). clear Hat Hcache.
  destruct (newController_run h2 l cache) as (r & rec & t & h3 & Hrun3 & Hsub3 & Hr & Hrec & Hconfig & Hcache & _).
  exists r, (rec_NodeManager t), rec.
  destruct (operator_tail_does running h3 r rec t l config c cc) with (log := [CreateManager o]) as [h' Hrun]; try done.
  - eapply lookup_weaken; [exact Hl1|by trans h2].
  - eapply lookup_weaken; [exact Hcc1|by trans h2].
  - apply Hclient; by eapply Load_limits.
  - rewrite Hcache. intros x Hx. destruct (Hc2 x Hx) as [d Hd]. exists d. by eapply lookup_weaken.
  - assert (on_heap (act := act) (newController l cache) (mkBoot h2 [CreateManager o]) = (Done r, mkBoot h3 [CreateManager o])) as Hnew3.
    { unfold on_heap. cbn [b_heap b_log]. by rewrite Hrun3. }
    exists h'. unfold operator_plan. rewrite attempts_cons. simpl refused. rewrite Hreply. simpl step_call. simpl app at 1.
    destruct (attempts [CreateManager o] _) as [calls [e|]]; simpl at_; rewrite (eff_bind_Done _ _ _ _ _ Hnew3).
    + exact Hrun.
    + destruct Hrun as ([] & Hrun & Hclosed). rewrite Hcache in Hclosed. split; [exact Hrun|exact Hclosed].
Qed.

#[local] Existing Instances canonical_order ex_kubeflow ex_selectors ex_templates accepting.
#[local] Existing Instances ex_setup_ports ex_setup_jobs ex_setup_json ex_runtime ex_host.
#[local] Instance ex_inputs : Inputs := {|
  ReadFile _ := inr "operator: ..."; Unmarshal _ _ := inr ex_config; url_Parse _ := inr "memory";
|}.

(** The configuration before it is loaded. *)
Definition ex_unloaded : Configuration :=
  mkConfiguration _ (mkOperatorConfig (mkRestConfig (inject_Z 0) 0) None) (mkCacheConfig "" (mkObserverConfig false "" 0 "" ∅)) ∅.
Definition ex_process_heap : heap cell :=
  <[3%positive := inj ex_unloaded]> (<[4%positive := inj (mkClientConfig "host" (inject_Z 0) 0)]> ∅).

(** An operator whose calls are all accepted ends, with its cache closed. *)
Lemma operator_runs_witness : ∃ calls h' x, operator_process id (Bind (λ _, None)) (operator_Bind (λ _, None)) 3
    (mkBoot ex_process_heap []) = (Done tt, mkBoot h' calls) ∧ last calls = Some Start ∧ cache_closed h' (Some x).
Proof.
  pose proof (operator_runs id (Bind (λ _, None)) (operator_Bind (λ _, None)) 3 ex_process_heap ex_unloaded 4
    (mkClientConfig "host" (inject_Z 0) 0)) as H.
  assert (∃ config, Load ex_unloaded "./conf/staging.yaml" = Done config ∧
    newCache config (<[3%positive := inj config]> ex_process_heap) =
      (Done (Some 5%positive), <[5%positive := inj (mkCache MemoryCache.NewMemoryCache)]> (<[3%positive := inj config]> ex_process_heap)))
    as (config & Hload & Hcache) by (eexists; split; [vm_compute; reflexivity|]; vm_compute; reflexivity).
  change (ConfigPath (Bind (λ _, None))) with "./conf/staging.yaml" in H. rewrite Hload in H. cbv zeta in H. rewrite Hcache in H.
  destruct H as (r & manager & rec & h' & Hrun).
  - reflexivity.
  - intros h x. split; [done|]. split; [done|]. intros t Ht. by exists t.
  - reflexivity.
  - reflexivity.
  - reflexivity.
  - reflexivity.
  - rewrite attempts_accepted in Hrun by (intros ? [] _; reflexivity). destruct Hrun as [Hrun Hclosed].
    eexists _, h', 5%positive. split; [exact Hrun|]. split; [reflexivity|exact Hclosed].
Defined.
