(* ===== verification/Serve.v ===== *)
(** * The observer's HTTP server ([cmd/observer/cmd.go], [serve])

    Two goroutines, the one that listens and the one that waits for its error
    or for the end of the process, with a channel between them, as a step
    relation.  The steps of the code are told from what happens to it: the
    server stops listening, the context is cancelled. *)

From S2P Require Import Prelude Errors.
From stdpp Require Import relations well_founded.

(** ** State *)

(** The errors of [ListenAndServe]; it returns nil as [None]. *)
Inductive listen_error := ErrServerClosed | ListenError (e : error).

(** The goroutine that listens: in [ListenAndServe], at [errCh <- err], or at
    its end. *)
Inductive goroutine := Listening | Sending (e : error) | Exited.

Record serving := mkServing {
  listener : goroutine;
  errCh : list error;
  cancelled : bool;                              (* ctx.Done() is closed *)
  returned : option (option error);              (* what serve has returned *)
  listened : option (option listen_error);       (* what ListenAndServe has returned *)
}.

(** [make(chan error, 1)] *)
Definition errCh_cap : nat := 1.

(** [serve] at its [select], the goroutine started. *)
Definition serve : serving := mkServing Listening [] false None None.

(** [if err := ...; err != nil && err != http.ErrServerClosed] *)
Definition after_listen (r : option listen_error) : goroutine :=
  match r with
  | Some (ListenError e) => Sending e
  | Some ErrServerClosed | None => Exited
  end.

(** ** Steps *)

(** What the two goroutines do.  A send waits for room in the channel; the
    [select] takes either of its cases when both are ready. *)
Inductive code_step : serving → serving → Prop :=
| send_step e ch c ret l : (length ch < errCh_cap)%nat →
    code_step (mkServing (Sending e) ch c ret l) (mkServing Exited (ch ++ [e]) c ret l)
| receive_step g e ch c l :
    code_step (mkServing g (e :: ch) c None l) (mkServing g ch c (Some (Some e)) l)
| done_step g ch l :
    code_step (mkServing g ch true None l) (mkServing g ch true (Some None) l).

(** What happens to them. *)
Inductive outer_step : serving → serving → Prop :=
| listen_step r ch c ret :
    outer_step (mkServing Listening ch c ret None) (mkServing (after_listen r) ch c ret (Some r))
| cancel_step g ch ret l :
    outer_step (mkServing g ch false ret l) (mkServing g ch true ret l).

Definition serve_step (s s' : serving) : Prop := code_step s s' ∨ outer_step s s'.

Definition reachable (s : serving) : Prop := rtc serve_step serve s.

(** ** Invariant *)

(** Where the error of the listener is: nowhere yet, about to be sent, in the
    channel, or taken by [serve]. *)
Definition consistent (s : serving) : Prop :=
  match listener s with
  | Listening => listened s = None ∧ errCh s = []
  | Sending e => listened s = Some (Some (ListenError e)) ∧ errCh s = []
  | Exited =>
      (∃ r, listened s = Some r ∧ errCh s = [] ∧ ∀ e, r = Some (ListenError e) → returned s = Some (Some e)) ∨
      (∃ e, listened s = Some (Some (ListenError e)) ∧ errCh s = [e])
  end.

(** What [serve] has returned, and why. *)
Definition justified (s : serving) : Prop :=
  match returned s with
  | None => True
  | Some None => cancelled s = true
  | Some (Some e) => listened s = Some (Some (ListenError e))
  end.

Lemma consistent_step s s' : serve_step s s' → consistent s ∧ justified s → consistent s' ∧ justified s'.
Proof.
  unfold consistent, justified. intros [Hs|Hs]; destruct Hs; simpl; intros [Hc Hj].
  - destruct Hc as [-> ->]. split; [right; by eexists|done].
  - destruct g; [by destruct Hc|by destruct Hc|]. destruct Hc as [(r & _ & [=] & _)|(e' & -> & [= -> ->])].
    split; [|done]. left. eexists. split_and!; [done|done|]. by intros ? [= ->].
  - split; [|done]. destruct g; [done|done|]. destruct Hc as [(r & -> & -> & Hr)|Hc]; [|by right].
    left. exists r. split_and!; [done|done|]. intros e He. by specialize (Hr e He).
  - destruct Hc as [_ ->]. split; [|by destruct ret as [[e|]|]].
    destruct r as [[|e]|]; simpl; [left; eexists; by split_and!|done|left; eexists; by split_and!].
  - split; [done|]. by destruct ret as [[e|]|].
Qed.

Lemma reachable_consistent s : reachable s → consistent s ∧ justified s.
Proof.
  unfold reachable. intros Hs. revert s Hs. apply (rtc_ind_r (R := serve_step) (λ s, consistent s ∧ justified s)); [done|].
  intros s1 s2 _ Hstep. by apply consistent_step.
Qed.

(** ** Termination *)

(** The steps the code can still take by itself. *)
Definition remaining (s : serving) : nat :=
  (match listener s with Sending _ => 1 | _ => 0 end) + (match returned s with None => 1 | _ => 0 end).

Lemma code_step_remaining s s' : code_step s s' → (remaining s' < remaining s)%nat.
Proof. destruct 1; unfold remaining; simpl; lia. Qed.

(** ** Property *)

(** C21: the observer's server in any interleaving: [serve] returns nil only
    when the process is told to end, and an error only when it is the one that
    listening failed with; the goroutine is never stuck at its send, so it ends
    once listening has failed, whether or not [serve] still waits for it; when
    neither goroutine can go on, [serve] has returned, unless the process is
    not told to end and listening has not failed; and by themselves they take
    at most two more steps. *)
Theorem serve_returns s : reachable s →
  (∀ r, returned s = Some r → match r with
     | None => cancelled s = true
     | Some e => listened s = Some (Some (ListenError e))
     end) ∧
  (∀ e, listener s = Sending e → ∃ s', code_step s s' ∧ listener s' = Exited) ∧
  ((¬ ∃ s', code_step s s') → returned s = None →
     cancelled s = false ∧ ∀ e, listened s ≠ Some (Some (ListenError e))) ∧
  (∀ n s', nsteps code_step n s s' → (n ≤ 2)%nat).
Proof.
  intros [Hc Hj]%reachable_consistent. destruct s as [g ch c ret l]. unfold consistent, justified in *. simpl in *. split_and!.
  - intros r ->. by destruct r.
  - intros e ->. destruct Hc as [-> ->]. eexists. split; [by apply send_step; unfold errCh_cap; simpl; lia|done].
  - intros Hstuck ->. split.
    + destruct c; [|done]. destruct Hstuck. eexists. apply done_step.
    + intros e ->. destruct g as [|e'|]; [by destruct Hc|..].
      * destruct Hc as [_ ->]. destruct Hstuck. eexists. apply send_step. unfold errCh_cap. simpl. lia.
      * destruct Hc as [(r & [= <-] & -> & Hr)|(e' & [= <-] & ->)]; [by specialize (Hr e eq_refl)|].
        destruct Hstuck. eexists. apply receive_step.
  - intros n s' Hn. assert (remaining s' + n ≤ remaining (mkServing g ch c ret l))%nat as Hle.
    { clear -Hn. induction Hn as [|n x y z Hxy _ IH]; [lia|]. apply code_step_remaining in Hxy. lia. }
    revert Hle. unfold remaining. simpl. destruct g, ret; lia.
Qed.

(** Listening fails after the process is told to end and [serve] has returned:
    the goroutine still ends. *)
Lemma serve_returns_witness : ∃ s e s', reachable s ∧ listener s = Sending e ∧ returned s = Some None ∧
  code_step s s' ∧ listener s' = Exited.
Proof.
  pose (e := Errorf "address in use").
  pose (s := mkServing (Sending e) [] true (Some None) (Some (Some (ListenError e)))).
  assert (reachable s) as Hs.
  { unfold reachable, serve. eapply rtc_l; [right; apply cancel_step|]. eapply rtc_l; [left; apply done_step|].
    eapply rtc_l; [right; apply (listen_step (Some (ListenError e)))|]. apply rtc_refl. }
  destruct (serve_returns s Hs) as (_ & Hsend & _ & _). destruct (Hsend e eq_refl) as (s' & Hstep & Hexit).
  exists s, e, s'. split; [exact Hs|]. split; [reflexivity|]. split; [reflexivity|]. split; [exact Hstep|exact Hexit].
Defined.
